(* ===== verification/_CoqProject ===== *)
-Q . S2P
Prelude.v
Types.v
Logging.v
Wire.v
Mold.v
ItchParser.v
Sequence.v
Spsc.v
SpscWeak.v
PacketRing.v
FeedMerger.v
Failover.v
Histogram.v
HistogramThreads.v
OrderPool.v
OrderMap.v
Level2Book.v
BookLevels.v
BookRep.v
BookRefine.v
BookProperties.v
Routing.v
SeqLock.v
SeqLockWeak.v
Session.v
Worker.v
ParserThread.v
Shards.v
SessionChange.v
Pipeline.v
EndToEnd.v
TwoFeeds.v
Arrivals.v
Snapshot.v
SnapshotFiles.v
Recovery.v
GapRecovery.v
Sockets.v
System.v
Timestamp.v
Metrics.v
Config.v
HandlerMemory.v
FeedHandler.v
Lifecycle.v
Tools.v
ToolMains.v
Conformance.v
