(* ===== verification/Prelude.v ===== *)
(** * A verification development for the ITCH feed handler

    The program is a feed handler for NASDAQ ITCH 5.0 over MoldUDP64.  Packets
    travel through a pipeline of threads connected by single-producer
    single-consumer queues:

    - a receiver thread per feed stores datagrams in the slots of a zero-copy
      ring ([workers/receiver_thread], [network/packet_ring]);
    - the feed merger arbitrates between the two feeds and the recovery ring
      and drops duplicates ([workers/feed_merger]);
    - the parser thread decodes packets, tracks sequence numbers, drives the
      session state and routes messages ([workers/parser_thread], [protocol/],
      [session/], [routing/]);
    - eight shard workers keep the order books and publish best quotes
      ([workers/shard_worker], [orderbook/]);
    - the recovery thread requests lost packets ([workers/recovery_thread],
      [recovery/]), and background code persists the last sequence number and
      book snapshots.

    ** Conventions

    A w-bit unsigned integer is a [Z]; wrap-around is written out with [wrap]
    ([u8], [u16], [u32], [u64], [+32], [-64], ...).  Buffers are lists of
    bytes.  A definition returns [option] when the C++ code could access
    memory out of bounds or loop for ever: [None] stands for that, never for
    an error the code handles, which is a value of the result.  State is
    passed explicitly; objects the source shares by reference are one record
    threaded through the operations.  Clock readings, sockets and files are
    arguments.  Components that use another one through a narrow contract are
    proved against a class: [FifoOps]/[Fifo] (the queue), [MapOps]/[MapLaws]
    (the order map); [spsc_fifo] and [order_map_laws] discharge them.

    ** Files, in dependency order

    - [Prelude]: machine integers, byte encodings, reachability, tactics and
      the hint database [mach].
    - [Types]: constants and the enumerations of [common/].  [Logging]: the
      log levels and the two filters of the log macros.
    - [Wire], [Mold], [ItchParser]: byte readers, the packed structs as
      layouts, the MoldUDP64 header, and [ItchParser::parse] with every case
      of its switch.  Theorems: whole packets round trip; the parser is memory
      safe and total given two spare bytes behind the packet, and reads out of
      bounds without them.
    - [Sequence]: [SequenceTracker] and [GapDetector].  Every number of a run
      is received or lies in a reported gap; timing of recovery requests.
    - [Spsc]: [SpscQueue], as functions ([Seq]) and as a step relation over
      shared accesses ([Conc]); in every interleaving it is a bounded FIFO and
      the two threads never touch one slot at a time.  [SpscWeak]: the same
      accesses in release/acquire memory, where loads may return old values;
      there is no data race and the queue is still a bounded FIFO.
    - [PacketRing]: slots, the receive loop and the recovery side ring.
    - [FeedMerger]: [DedupWindow] (module [Dedup]) and the merge loop.  Each
      number is forwarded at most once and rejected unseen only when far
      behind; what goes wrong on overflow.  [Failover]: the watch on the primary
      feed, as a refinement of a small state machine: when a silence is
      reported, that a feed in time never is, and that failing over changes
      nothing of what is read or forwarded.
    - [Histogram]: bucket arithmetic, recording, percentiles, and the range in
      which recording leaves the array.  [HistogramThreads]: several
      recording threads at the grain of their atomic accesses lose nothing.
    - [OrderPool], [OrderMap]: the free list never hands out an index twice;
      the Robin Hood table refines a finite map for every sequence of
      operations.
    - [Level2Book]: data and handlers of the book.  [BookLevels]: both sides
      stay sorted whatever the input.  [BookRep], [BookRefine]: the
      representation of price queues by linked lists in the pool, and the
      lemmas behind [BookProperties]: each handler refines an abstract book
      of queues per price ([spec_add], [spec_remove], [spec_amend]) as long
      as the level index stored in the order is up to date; an execution that
      shows the indices do go stale and the book is then corrupted.
    - [Routing]: [SymbolDirectory] and [ShardRouter]; the router refines eight
      independent bounded queues.
    - [SeqLock]: [SeqLock] with interleaved writers and readers in one
      sequentially consistent memory, and [BboPublisher]; there loads are never
      torn with one writer, and can be with two; a load ends once the writer
      pauses between two stores.  [SeqLockWeak]: one writer in
      release/acquire memory; a load is not stale there but can be torn, and
      could not with a release fence in [store].
    - [Session]: [SessionManager]: events, session changes, the watch list.
    - [Worker]: [OrderBookPool] and [ShardWorker::dispatch]; the invariant of
      a shard, the effect of an order message up to the published quote, the
      session reset, and the effect of broadcast messages in foreign shards.
    - [ParserThread]: [process_slot] composed from the definitions above; a
      packet in order is delivered to the shard queues exactly, and two ways
      in which gap accounting goes wrong.
    - [Shards]: the parser and the eight shard workers over the queues, the
      publisher and the session state they share; for every interleaving each
      worker and its quotes are what the messages it popped, applied one after
      the other, make of them; a closing event overtakes queued orders.
      [SessionChange]: a change of session with messages still in the queues:
      what the sentinel clears, the quote that survives it, and the shard that
      never gets it.
    - [Pipeline]: the receivers, the recovery thread, the merger and the
      parser's end of the merged queue as one transition system, which
      simulates a specification without slots and indices ([Flow]): packets
      of two feeds pass exactly once as long as the parser does not fall a
      whole ring behind, and are exchanged for others when it does.
    - [EndToEnd]: [Pipeline] composed with [ParserThread], and with [Shards]:
      the packets of a feed in order reach the shard queues completely and in
      order, and the quotes are those of a sequential application, for every
      interleaving with bounded lag.  [TwoFeeds]: two feeds that lose packets
      give the quotes of the complete feed as long as the merger keeps up; when
      it lags it puts packets in the wrong order.  [Arrivals]: packets of both
      feeds and recovered ones in any order, with gaps and repetitions: the
      quotes and the tracking are those of the packets in the order in which
      the parser takes them.
    - [Snapshot]: snapshot records and files: what is written is read back,
      except for books too deep for the buffer.  [SnapshotFiles]: path
      templates, pointer files, renames, saving and loading; saved books load
      back and interval saves never disturb the end-of-day snapshot.
    - [Recovery]: retransmit requests, login, the recovery poll, and
      [PersistentSequence]: requests name exactly the missing range and
      retransmitted packets are queued in order, but a failed request is never
      repeated and the last record may not reach the disk.
    - [GapRecovery]: tracker, detector, parser and recovery thread together,
      from a gap to its request and the recovered packets: lost packets come
      back behind later ones and are requested again, and the next live packet
      cancels the recovery.
    - [Sockets]: [SocketReceiver], [RetransmitClient] and [RecoveryThread]
      down to the system calls, over a kernel of descriptors and answers, in a
      state monad with its Hoare triples: no descriptor leaks, the login does
      not depend on how the stream is cut, and every poll is one of
      [Recovery]; a dead connection is never replaced.
    - [System]: [CpuAffinity], NUMA and ring buffer allocation over a heap of
      blocks.  [HandlerMemory]: [allocate_memory] and the destructor give back
      what they took whichever allocation fails.
    - [Timestamp]: counter calibration and [now_ns]; the scaling is exact to a
      nanosecond and does not overflow.
    - [Metrics]: statistics and the reports built from them.
    - [Config]: [load_config]: defaults, lookups, well-typedness; a file that
      lists settings under their documented keys is read back as the
      configuration it describes.
    - [FeedHandler]: [init] and [init_workers]: wiring, the restart from a
      persisted position, the end-of-day callbacks.
    - [Lifecycle]: [main], signals, [run] and [stop]: every thread is started
      and joined once, and a signal shuts the process down.
    - [Tools]: [pcap_replay] and [itch_inspect] over a capture of any frames.
      [ToolMains]: their [main] functions, with arguments, pacing, progress
      lines and exit codes.
    - [Conformance]: the single-threaded unit tests of the repository,
      evaluated on the definitions.

    ** Fuel

    Loops that are not structural take fuel, and totality is proved with the
    fuel the callers use: the message loop of the parser gets one more than
    the length of the message area and consumes three bytes per iteration
    ([parse_loop_total]); the probe loops of the order map get one more than
    the capacity and a table with a free slot ends them earlier
    ([fuel_enough]); the window of [check_and_mark] advances 64 numbers per
    iteration, so that fuel above [seq / 64] is enough, except where
    [dedup_loops_at_top] shows that no fuel is; the draining loop of the
    background writer gets the number of queued records; token
    replacement gets one more than the length of the template
    ([replace_token_expands]).  A run of [Failover], [Pipeline] or [EndToEnd]
    takes the fuel of the dedup window as an argument, and its theorems ask
    for more than the largest sequence number divided by 64.  The blocking reads and
    writes of [Sockets] get one more than the number of pieces the kernel has
    for the socket, and every call uses one up ([read_loop_spec],
    [write_loop_spec]).

    ** Memory model

    [SpscWeak] and [SeqLockWeak] use views, as in release/acquire semantics
    without promises: a variable is the list of the values stored to it, a
    load may return any that its thread does not know to be out of date, a
    release store attaches the thread's view and an acquire load takes it
    over.  Positions and sequence numbers of these two files count from the
    start; [seqlock_weak_load] names the bound of 2^32 at which the 32-bit
    number comes round.  The other concurrent models interleave accesses to one
    memory.

    ** Not modelled

    The text of log messages and the layout of reports, rounding of [double],
    compiler hints and alignment, the creation of the snapshot directory in the
    constructor of [BookSnapshot], and the benchmarks.  toml++, libpcap, libnuma
    and the operating system are arguments: what they answer is an input, the
    calls made of them are part of the result.  In [Pipeline] and what is built
    on it threads interleave at the granularity of one loop iteration; the
    queues between them are proved at the granularity of single accesses in
    [Spsc] and [SpscWeak].  The interface declarations of the classes and the
    [start] and [stop] of the threads other than those named in [Lifecycle],
    which repeat the same three lines, have no definition of their own. *)

From Stdlib Require Export ZArith Lia.
From stdpp Require Export base numbers option list.

Open Scope Z_scope.

(** ** Machine integers

    A w-bit unsigned integer of the source is a [Z]; the wrap-around that C++
    prescribes for unsigned arithmetic is written out at each operation. *)

Definition wrap (w z : Z) : Z := z mod 2 ^ w.

Declare Scope mach_scope.
Delimit Scope mach_scope with mach.
Abbreviation u8 := (wrap 8).
Abbreviation u16 := (wrap 16).
Abbreviation u32 := (wrap 32).
Abbreviation u64 := (wrap 64).
Notation "x +32 y" := (wrap 32 (x + y)) (at level 50, left associativity) : mach_scope.
Notation "x -32 y" := (wrap 32 (x - y)) (at level 50, left associativity) : mach_scope.
Notation "x +64 y" := (wrap 64 (x + y)) (at level 50, left associativity) : mach_scope.
Notation "x -64 y" := (wrap 64 (x - y)) (at level 50, left associativity) : mach_scope.
Open Scope mach_scope.

(** [in_range w z]: [z] is a value of the w-bit unsigned type. *)
Definition in_range (w z : Z) : Prop := 0 <= z < 2 ^ w.

(** A raw byte buffer; a C++ pointer into a buffer is the list of the bytes
    from the pointer to the end of the buffer, so that [p + k] is [drop k p]
    and a read past the end is [None]. *)
Abbreviation bytes := (list Z).
Definition bytes_ok (l : bytes) : Prop := Forall (in_range 8) l.

(** Big-endian value of a byte list and its inverse, the reference against
    which the shift-and-or decoders of the source are compared. *)
Definition be_val (l : bytes) : Z := foldl (fun acc b => acc * 256 + b) 0 l.

Fixpoint be_enc (n : nat) (z : Z) : bytes :=
  match n with
  | O => []
  | S n' => be_enc n' (z / 256) ++ [z mod 256]
  end.

(** Little-endian value, the memory image of an integer on the hosts the
    build supports (x86-64 and ARM64). *)
Fixpoint le_val (l : bytes) : Z :=
  match l with
  | [] => 0
  | b :: l' => b + 256 * le_val l'
  end.

Fixpoint le_enc (n : nat) (z : Z) : bytes :=
  match n with
  | O => []
  | S n' => z mod 256 :: le_enc n' (z / 256)
  end.

(** Reading [n] bytes at a pointer: [None] when the buffer is shorter. *)
Definition rd_bytes (n : nat) (p : bytes) : option bytes :=
  if decide (n <= length p)%nat then Some (take n p) else None.

(** A string as the C library sees it: up to the first zero byte. *)
Fixpoint c_str (s : bytes) : bytes :=
  match s with
  | [] => []
  | c :: s' => if c =? 0 then [] else c :: c_str s'
  end.

(** Sum of a list of integers (quantities of a price level). *)
Definition zsum (l : list Z) : Z := foldr Z.add 0 l.

(** Reachability in a step relation: the reflexive transitive closure. *)
Inductive steps {A} (R : A -> A -> Prop) : A -> A -> Prop :=
  | steps_refl a : steps R a a
  | steps_cons a b c : R a b -> steps R b c -> steps R a c.

(** ** Tactics *)

(** [opt_inv H] opens every [mbind] in an [option] hypothesis [H]. *)
Ltac opt_inv H :=
  repeat
    match type of H with
    | (_ ≫= _) = Some _ => apply bind_Some in H; destruct H as (? & ? & H)
    | Some _ = Some _ => injection H as H; subst
    | None = Some _ => discriminate H
    end.

(** Case analysis on the Boolean comparisons of the source, with the
    arithmetic facts they stand for. *)
Ltac zcases :=
  repeat
    match goal with
    | |- context [Z.eqb ?a ?b] => destruct (Z.eqb_spec a b)
    | |- context [Z.ltb ?a ?b] => destruct (Z.ltb_spec a b)
    | |- context [Z.leb ?a ?b] => destruct (Z.leb_spec a b)
    | H : context [Z.eqb ?a ?b] |- _ => destruct (Z.eqb_spec a b)
    | H : context [Z.ltb ?a ?b] |- _ => destruct (Z.ltb_spec a b)
    | H : context [Z.leb ?a ?b] |- _ => destruct (Z.leb_spec a b)
    end.

Ltac pow_consts :=
  change (2 ^ 8) with 256 in *; change (2 ^ 16) with 65536 in *;
  change (2 ^ 32) with 4294967296 in *;
  change (2 ^ 64) with 18446744073709551616 in *.

Ltac range_lia :=
  unfold in_range, wrap in *; pow_consts; first [lia | Z.to_euclidean_division_equations; lia].

(** Discharges the side conditions of a theorem at a concrete input. *)
Ltac concrete :=
  unfold bytes_ok, in_range in *;
  repeat first
    [ reflexivity | assumption | lia | discriminate | apply Forall_nil_2
    | apply Forall_cons_2 | match goal with |- _ /\ _ => split end ].

(** ** Lemmas on machine integers *)

Lemma wrap_range w z : 0 <= w -> in_range w (wrap w z).
Proof. intros. apply Z.mod_pos_bound, Z.pow_pos_nonneg; lia. Qed.

Lemma wrap_small w z : in_range w z -> wrap w z = z.
Proof. apply Z.mod_small. Qed.

Lemma wrap_wrap w z : wrap w (wrap w z) = wrap w z.
Proof. apply Zmod_mod. Qed.

Lemma wrap_add_l w a b : wrap w (wrap w a + b) = wrap w (a + b).
Proof. apply Zplus_mod_idemp_l. Qed.

Lemma wrap_add_r w a b : wrap w (a + wrap w b) = wrap w (a + b).
Proof. apply Zplus_mod_idemp_r. Qed.

Lemma wrap_sub_l w a b : wrap w (wrap w a - b) = wrap w (a - b).
Proof. apply Zminus_mod_idemp_l. Qed.

Lemma wrap_sub_r w a b : wrap w (a - wrap w b) = wrap w (a - b).
Proof. apply Zminus_mod_idemp_r. Qed.

Create HintDb mach.
Create Rewrite HintDb mach.
#[export] Hint Rewrite wrap_wrap wrap_add_l wrap_add_r wrap_sub_l wrap_sub_r : mach.
#[export] Hint Resolve wrap_range wrap_small : mach.

(** Or-ing a value below [2^n] into a multiple of [2^n] adds it. *)
Lemma lor_shiftl_add a b n :
  0 <= n -> 0 <= b < 2 ^ n -> Z.lor (Z.shiftl a n) b = a * 2 ^ n + b.
Proof.
  intros Hn Hb. rewrite <- Z.add_nocarry_lor.
  { by rewrite Z.shiftl_mul_pow2 by done. }
  apply Z.bits_inj'. intros i Hi. rewrite Z.land_spec, Z.bits_0.
  destruct (decide (i < n)).
  - by rewrite Z.shiftl_spec_low by done.
  - rewrite <- (Z.mod_small b (2 ^ n)) by done.
    rewrite Z.mod_pow2_bits_high by lia. by rewrite ?andb_false_l, ?andb_false_r.
Qed.

Lemma lor_mul_add a b n :
  0 <= n -> 0 <= b < 2 ^ n -> Z.lor (a * 2 ^ n) b = a * 2 ^ n + b.
Proof. intros. by rewrite <- Z.shiftl_mul_pow2, lor_shiftl_add, Z.shiftl_mul_pow2. Qed.

Lemma land_mask a n : 0 <= n -> Z.land a (2 ^ n - 1) = a mod 2 ^ n.
Proof.
  intros. replace (2 ^ n - 1) with (Z.ones n); [by apply Z.land_ones|].
  rewrite Z.ones_equiv. lia.
Qed.

(** ** Lemmas on byte strings *)

Lemma be_val_snoc l b : be_val (l ++ [b]) = be_val l * 256 + b.
Proof. unfold be_val. by rewrite foldl_snoc. Qed.

Lemma be_enc_length n z : length (be_enc n z) = n.
Proof.
  revert z; induction n as [|n IH]; intros z; [done|].
  simpl. rewrite length_app, IH. simpl. lia.
Qed.

Lemma le_enc_length n z : length (le_enc n z) = n.
Proof. revert z; induction n; intros; simpl; auto. Qed.

Lemma be_enc_ok n z : bytes_ok (be_enc n z).
Proof.
  revert z; induction n as [|n IH]; intros z; [constructor|].
  simpl. apply Forall_app; split; [apply IH|].
  repeat constructor; apply Z.mod_pos_bound; lia.
Qed.

Lemma le_enc_ok n z : bytes_ok (le_enc n z).
Proof.
  revert z; induction n as [|n IH]; intros z; simpl; [constructor|].
  constructor; [|apply IH]. apply Z.mod_pos_bound; lia.
Qed.

(** Decoding what was encoded gives the value, modulo the width. *)
Lemma be_val_enc n z : be_val (be_enc n z) = z mod 256 ^ Z.of_nat n.
Proof.
  revert z; induction n as [|n IH]; intros z; [by rewrite Z.mod_1_r|].
  cbn [be_enc]. rewrite be_val_snoc, IH.
  rewrite Nat2Z.inj_succ, Z.pow_succ_r, (Z.rem_mul_r z 256) by lia. lia.
Qed.

Lemma le_val_enc n z : le_val (le_enc n z) = z mod 256 ^ Z.of_nat n.
Proof.
  revert z; induction n as [|n IH]; intros z; [by rewrite Z.mod_1_r|].
  cbn [le_enc le_val]. rewrite IH.
  rewrite Nat2Z.inj_succ, Z.pow_succ_r, (Z.rem_mul_r z 256) by lia. lia.
Qed.

Lemma le_val_rev l : le_val (rev l) = be_val l.
Proof.
  induction l as [|b l IH] using rev_ind; [done|].
  rewrite rev_unit, be_val_snoc. cbn [le_val]. rewrite IH. lia.
Qed.

Lemma be_val_range l : bytes_ok l -> 0 <= be_val l < 256 ^ Z.of_nat (length l).
Proof.
  induction l as [|b l IH] using rev_ind; intros Hok; [done|].
  apply Forall_app in Hok as [Hl Hb]. inversion_clear Hb as [|?? Hb' _].
  specialize (IH Hl). rewrite be_val_snoc, length_app. simpl.
  rewrite Nat.add_1_r, Nat2Z.inj_succ, Z.pow_succ_r by lia. range_lia.
Qed.

Lemma le_val_range l : bytes_ok l -> 0 <= le_val l < 256 ^ Z.of_nat (length l).
Proof.
  induction l as [|b l IH]; intros Hok; [done|].
  inversion_clear Hok as [|?? Hb Hl]. specialize (IH Hl).
  cbn [le_val length]. rewrite Nat2Z.inj_succ, Z.pow_succ_r by lia. range_lia.
Qed.

Lemma le_enc_val l : bytes_ok l -> le_enc (length l) (le_val l) = l.
Proof.
  induction 1 as [|b l Hb Hl IH]; [done|]. cbn [length le_enc le_val].
  unfold in_range in Hb. change (2 ^ 8) with 256 in Hb.
  replace (b + 256 * le_val l) with (b + le_val l * 256) by lia.
  rewrite Z.mod_add, Z.mod_small, Z.div_add, Z.div_small, Z.add_0_l by lia.
  by rewrite IH.
Qed.

Lemma rd_bytes_app n (a b : bytes) : length a = n -> rd_bytes n (a ++ b) = Some a.
Proof.
  intros <-. unfold rd_bytes. rewrite decide_True by (rewrite length_app; lia).
  by rewrite take_app_length.
Qed.

Lemma rd_bytes_Some n p : (n <= length p)%nat -> rd_bytes n p = Some (take n p).
Proof. intros. unfold rd_bytes. by rewrite decide_True. Qed.

(** ** Lemmas on lists *)

Lemma zsum_app a b : zsum (a ++ b) = zsum a + zsum b.
Proof. induction a; simpl; lia. Qed.

Lemma steps_trans {A} (R : A -> A -> Prop) a b c :
  steps R a b -> steps R b c -> steps R a c.
Proof. induction 1; eauto using steps. Qed.

(** Rule induction for invariants of a step relation. *)
Lemma steps_invariant {A} (R : A -> A -> Prop) (I : A -> Prop) :
  (forall a b, I a -> R a b -> I b) ->
  forall a b, steps R a b -> I a -> I b.
Proof. intros Hstep a b Hs. induction Hs; eauto. Qed.
