(* ===== verification/Types.v ===== *)
(** * Constants and scalar types

    [include/common/constants.hpp] and [include/common/types.hpp]: the
    compile-time limits every component shares, and the two enumerations
    whose underlying type is [char].  A [static_cast] to such an enumeration
    accepts every byte, so each has a constructor for the values the source
    gives no name. *)

From S2P Require Import Prelude.

Definition NUM_SHARDS : Z := 8.
Definition MAX_ORDERS_PER_SHARD : Z := 2000000.
Definition ORDER_MAP_CAPACITY : Z := 4194304.
Definition SHARD_QUEUE_DEPTH : Z := 262144.
Definition PACKET_RING_DEPTH : Z := 65536.
Definition RECOVERY_RING_DEPTH : Z := 1024.
Definition MERGED_QUEUE_DEPTH : Z := PACKET_RING_DEPTH.
Definition DEDUP_WINDOW_SIZE : Z := 128.
Definition MAX_LOCATE : Z := 65536.
Definition MAX_UDP_PAYLOAD : Z := 1500.
Definition MAX_PRICE_LEVELS : Z := 256.
Definition MOLDUDP64_HEARTBEAT : Z := 65535.

(** [UINT32_MAX], the "no index" marker of the pool, of the price levels
    ([kInvalidIdx]) and of the order map ([kMapEmpty]). *)
Definition kInvalidIdx : Z := 4294967295.

(** [enum class Side : char]. *)
Inductive Side := Buy | Sell | OtherSide (c : Z).

Definition Side_of_byte (c : Z) : Side :=
  if c =? 66 then Buy else if c =? 83 then Sell else OtherSide c.

Definition Side_to_byte (s : Side) : Z :=
  match s with Buy => 66 | Sell => 83 | OtherSide c => c end.

(** The test [side == Side::Buy], the only way the source inspects a side. *)
Definition is_buy (s : Side) : bool := match s with Buy => true | _ => false end.

(** [enum class MessageType : char]. *)
Inductive MessageType :=
  | SystemEvent | StockDirectory | StockTradingAction | RegSHO | MarketParticipant
  | MWCBDecline | MWCBStatus | IPOQuotingPeriod | LULDAuctionCollar | OperationalHalt
  | AddOrder | AddOrderMPID | OrderExecuted | OrderExecutedPrice | OrderCancel
  | OrderDelete | OrderReplace | Trade | CrossTrade | BrokenTrade | NOII | RPIIndicator
  | UnknownType | InternalSessionReset | OtherType (c : Z).

Definition MessageType_to_byte (t : MessageType) : Z :=
  match t with
  | SystemEvent => 83 | StockDirectory => 82 | StockTradingAction => 72 | RegSHO => 89
  | MarketParticipant => 76 | MWCBDecline => 86 | MWCBStatus => 87 | IPOQuotingPeriod => 75
  | LULDAuctionCollar => 74 | OperationalHalt => 104 | AddOrder => 65 | AddOrderMPID => 70
  | OrderExecuted => 69 | OrderExecutedPrice => 67 | OrderCancel => 88 | OrderDelete => 68
  | OrderReplace => 85 | Trade => 80 | CrossTrade => 81 | BrokenTrade => 66 | NOII => 73
  | RPIIndicator => 78 | UnknownType => 63 | InternalSessionReset => 1 | OtherType c => c
  end.

(** The named values, in the order of the declaration. *)
Definition named_types : list MessageType :=
  [SystemEvent; StockDirectory; StockTradingAction; RegSHO; MarketParticipant; MWCBDecline;
   MWCBStatus; IPOQuotingPeriod; LULDAuctionCollar; OperationalHalt; AddOrder; AddOrderMPID;
   OrderExecuted; OrderExecutedPrice; OrderCancel; OrderDelete; OrderReplace; Trade;
   CrossTrade; BrokenTrade; NOII; RPIIndicator; UnknownType; InternalSessionReset].

(** [static_cast<MessageType>(c)]. *)
Definition MessageType_of_byte (c : Z) : MessageType :=
  match list_find (fun t => MessageType_to_byte t = c) named_types with
  | Some (_, t) => t
  | None => OtherType c
  end.

#[export] Instance Side_eq_dec : EqDecision Side.
Proof. solve_decision. Defined.

#[export] Instance MessageType_eq_dec : EqDecision MessageType.
Proof. solve_decision. Defined.

Lemma Side_of_to_byte s :
  s <> OtherSide 66 -> s <> OtherSide 83 -> Side_of_byte (Side_to_byte s) = s.
Proof. destruct s; intros; unfold Side_of_byte; simpl; zcases; congruence. Qed.

Lemma Side_to_of_byte c : Side_to_byte (Side_of_byte c) = c.
Proof. unfold Side_of_byte. zcases; simpl; congruence. Qed.

(** The cast back and forth is the identity on bytes: no two names share a
    character code. *)
Lemma MessageType_to_of_byte c : MessageType_to_byte (MessageType_of_byte c) = c.
Proof.
  unfold MessageType_of_byte. destruct (list_find _ _) as [[i t]|] eqn:E; [|done].
  by apply list_find_Some in E as (_ & ? & _).
Qed.

Lemma MessageType_of_to_byte t :
  t ∈ named_types -> MessageType_of_byte (MessageType_to_byte t) = t.
Proof.
  intros Ht. unfold named_types in Ht.
  repeat (apply elem_of_cons in Ht as [->|Ht]; [reflexivity|]). by apply elem_of_nil in Ht.
Qed.
