(* ===== verification/Logging.v ===== *)
(** * Logging

    [include/common/logging.hpp]: the levels, their names, and the macros
    [ITCH_LOG_TRACE] to [ITCH_LOG_ERROR], which filter twice: the preprocessor
    removes the macros below [ITCH_LOG_LEVEL], and [ITCH_LOG_CALL] compares the
    level again when it runs.  A line is what [fprintf] writes to the standard
    error; the formatted message is an argument. *)

From stdpp Require Import strings pretty.
From S2P Require Import Prelude Types.

Inductive LogLevel := TRACE | DEBUG | INFO | WARN | ERROR.

Definition level_value (l : LogLevel) : Z :=
  match l with TRACE => 0 | DEBUG => 1 | INFO => 2 | WARN => 3 | ERROR => 4 end.

(** The [enum] has a fixed underlying type, so that every [int] is a level. *)
Definition log_level_name (level : Z) : string :=
  if level =? 0 then "TRACE" else if level =? 1 then "DEBUG" else if level =? 2 then "INFO "
  else if level =? 3 then "WARN " else if level =? 4 then "ERROR" else "UNKNOWN".

Definition newline : string := String (Ascii.ascii_of_nat 10) EmptyString.

(** [threshold] is [ITCH_LOG_LEVEL], [ts] the result of [steady_ns]. *)
Definition log_call (threshold level ts : Z) (msg : string) : option string :=
  if threshold <=? level
  then Some ("[" +:+ pretty (Z.to_N ts) +:+ "] [" +:+ log_level_name level +:+ "] " +:+ msg +:+ newline)
  else None.

(** The macro a level has after the preprocessor. *)
Definition log_macro (threshold : Z) (l : LogLevel) (ts : Z) (msg : string) : option string :=
  match l with
  | TRACE => if threshold <=? 0 then log_call threshold (level_value TRACE) ts msg else None
  | DEBUG => if threshold <=? 1 then log_call threshold (level_value DEBUG) ts msg else None
  | INFO => if threshold <=? 2 then log_call threshold (level_value INFO) ts msg else None
  | WARN => if threshold <=? 3 then log_call threshold (level_value WARN) ts msg else None
  | ERROR => log_call threshold (level_value ERROR) ts msg
  end.

Definition default_level : Z := 2.

(** The two filters agree: a macro writes exactly when its level reaches the
    threshold, and the preprocessor never removes a line the check at run time
    would let through.  Only [ITCH_LOG_ERROR] relies on the latter. *)
Theorem log_filters_agree threshold l ts msg :
  log_macro threshold l ts msg = log_call threshold (level_value l) ts msg
  /\ (is_Some (log_macro threshold l ts msg) <-> threshold <= level_value l).
Proof.
  assert (E : log_macro threshold l ts msg = log_call threshold (level_value l) ts msg).
  { destruct l; cbn [log_macro level_value]; unfold log_call; repeat case_match; try done; lia. }
  split; [done|]. rewrite E. unfold log_call. destruct (Z.leb_spec threshold (level_value l)).
  - split; [done|by eexists].
  - split; [by intros [? ?]|lia].
Qed.

Example logged_line : log_macro default_level WARN 1500 "ring full" = Some ("[1500] [WARN ] ring full" +:+ newline).
Proof. reflexivity. Qed.

Example not_logged : log_macro default_level DEBUG 1500 "ring full" = None.
Proof. reflexivity. Qed.

Example errors_silenced : log_macro 5 ERROR 1500 "ring full" = None.
Proof. reflexivity. Qed.
