(* ===== verification/Wire.v ===== *)
(** * Wire format

    [include/protocol/itch_messages.hpp]: the big-endian readers of namespace
    [wire], the packed wire structs as layouts (field name, width in bytes)
    with [sizeof] and [offsetof], and the header offsets. *)

From Stdlib Require Import String.
From S2P Require Import Prelude Types.
Local Open Scope string_scope.
Local Open Scope Z_scope.
Local Open Scope list_scope.

(** ** Big-endian readers *)

Definition be16 (p : bytes) : option Z :=
  p0 ← p !! 0%nat; p1 ← p !! 1%nat;
  Some (u16 (Z.lor (Z.shiftl p0 8) p1)).

Definition be32 (p : bytes) : option Z :=
  p0 ← p !! 0%nat; p1 ← p !! 1%nat; p2 ← p !! 2%nat; p3 ← p !! 3%nat;
  Some (Z.lor (Z.lor (Z.lor (u32 (Z.shiftl p0 24)) (u32 (Z.shiftl p1 16)))
                     (u32 (Z.shiftl p2 8))) p3).

Definition be48 (p : bytes) : option Z :=
  p0 ← p !! 0%nat; p1 ← p !! 1%nat; p2 ← p !! 2%nat; p3 ← p !! 3%nat;
  p4 ← p !! 4%nat; p5 ← p !! 5%nat;
  Some (Z.lor (Z.lor (Z.lor (Z.lor (Z.lor (u64 (Z.shiftl p0 40)) (u64 (Z.shiftl p1 32)))
         (u64 (Z.shiftl p2 24))) (u64 (Z.shiftl p3 16))) (u64 (Z.shiftl p4 8))) p5).

Definition be64 (p : bytes) : option Z :=
  p0 ← p !! 0%nat; p1 ← p !! 1%nat; p2 ← p !! 2%nat; p3 ← p !! 3%nat;
  p4 ← p !! 4%nat; p5 ← p !! 5%nat; p6 ← p !! 6%nat; p7 ← p !! 7%nat;
  Some (Z.lor (Z.lor (Z.lor (Z.lor (Z.lor (Z.lor (Z.lor
         (u64 (Z.shiftl p0 56)) (u64 (Z.shiftl p1 48))) (u64 (Z.shiftl p2 40)))
         (u64 (Z.shiftl p3 32))) (u64 (Z.shiftl p4 24))) (u64 (Z.shiftl p5 16)))
         (u64 (Z.shiftl p6 8))) p7).

(** ** Header offsets *)

Definition kOffType : nat := 0.
Definition kOffLocate : nat := 1.
Definition kOffTracking : nat := 3.
Definition kOffTimestamp : nat := 5.
Definition kOffPayload : nat := 11.

(** ** Packed structs *)

Definition layout := list (string * nat).

Definition sizeof (l : layout) : nat := sum_list_with snd l.

Fixpoint offsetof (l : layout) (f : string) : nat :=
  match l with
  | [] => 0
  | (g, w) :: l' => if String.eqb g f then 0 else w + offsetof l' f
  end.

(** The common header every struct repeats. *)
Definition hdr : layout :=
  [("type", 1); ("locate", 2); ("tracking", 2); ("timestamp", 6)]%nat.

Definition WireSystemEvent : layout := (hdr ++ [("event_code", 1)])%nat.

Definition WireStockDirectory : layout := (hdr ++
  [("stock", 8); ("market_category", 1); ("financial_status", 1); ("round_lot_size", 4);
   ("round_lots_only", 1); ("issue_classification", 1); ("issue_sub_type", 2);
   ("authenticity", 1); ("short_sale_threshold", 1); ("ipo_flag", 1); ("luld_tier", 1);
   ("etp_flag", 1); ("etp_leverage", 4); ("inverse_indicator", 1)])%nat.

Definition WireStockTradingAction : layout := (hdr ++
  [("stock", 8); ("trading_state", 1); ("reserved", 1); ("reason", 4)])%nat.

Definition WireRegSHO : layout := (hdr ++ [("stock", 8); ("reg_sho_action", 1)])%nat.

Definition WireMarketParticipant : layout := (hdr ++
  [("mpid", 4); ("stock", 8); ("primary_mm", 1); ("mm_mode", 1);
   ("participant_state", 1)])%nat.

Definition WireMWCBDecline : layout := (hdr ++
  [("level1", 8); ("level2", 8); ("level3", 8)])%nat.

Definition WireMWCBStatus : layout := (hdr ++ [("breached_level", 1)])%nat.

Definition WireIPOQuoting : layout := (hdr ++
  [("stock", 8); ("ipo_quotation_release_time", 4);
   ("ipo_quotation_release_qualifier", 1); ("ipo_price", 4)])%nat.

Definition WireLULDAuctionCollar : layout := (hdr ++
  [("stock", 8); ("auction_collar_ref_price", 4); ("upper_auction_collar_price", 4);
   ("lower_auction_collar_price", 4); ("auction_collar_extension", 4)])%nat.

Definition WireOperationalHalt : layout := (hdr ++
  [("stock", 8); ("market_code", 1); ("operational_halt_action", 1)])%nat.

Definition WireAddOrder : layout := (hdr ++
  [("order_ref", 8); ("buy_sell", 1); ("shares", 4); ("stock", 8); ("price", 4)])%nat.

Definition WireAddOrderMPID : layout := (hdr ++
  [("order_ref", 8); ("buy_sell", 1); ("shares", 4); ("stock", 8); ("price", 4);
   ("attribution", 4)])%nat.

Definition WireOrderExecuted : layout := (hdr ++
  [("order_ref", 8); ("executed_shares", 4); ("match_number", 8)])%nat.

Definition WireOrderExecutedPrice : layout := (hdr ++
  [("order_ref", 8); ("executed_shares", 4); ("match_number", 8); ("printable", 1);
   ("execution_price", 4)])%nat.

Definition WireOrderCancel : layout := (hdr ++
  [("order_ref", 8); ("cancelled_shares", 4)])%nat.

Definition WireOrderDelete : layout := (hdr ++ [("order_ref", 8)])%nat.

Definition WireOrderReplace : layout := (hdr ++
  [("orig_order_ref", 8); ("new_order_ref", 8); ("new_shares", 4); ("new_price", 4)])%nat.

Definition WireTrade : layout := (hdr ++
  [("order_ref", 8); ("buy_sell", 1); ("shares", 4); ("stock", 8); ("price", 4);
   ("match_number", 8)])%nat.

Definition WireCrossTrade : layout := (hdr ++
  [("shares", 8); ("stock", 8); ("cross_price", 4); ("match_number", 8);
   ("cross_type", 1)])%nat.

Definition WireBrokenTrade : layout := (hdr ++ [("match_number", 8)])%nat.

Definition WireNOII : layout := (hdr ++
  [("paired_shares", 8); ("imbalance_shares", 8); ("imbalance_direction", 1);
   ("stock", 8); ("far_price", 4); ("near_price", 4); ("current_ref_price", 4);
   ("cross_type", 1); ("price_variation_indicator", 1)])%nat.

Definition WireRPIIndicator : layout := (hdr ++ [("stock", 8); ("interest_flag", 1)])%nat.

(** [w->f] for a field read as an integer, a byte or a byte array. *)
Definition fld64 (l : layout) (f : string) (w : bytes) : option Z := be64 (drop (offsetof l f) w).
Definition fld32 (l : layout) (f : string) (w : bytes) : option Z := be32 (drop (offsetof l f) w).
Definition fld8 (l : layout) (f : string) (w : bytes) : option Z := w !! offsetof l f.
Definition fldn (l : layout) (f : string) (n : nat) (w : bytes) : option bytes :=
  rd_bytes n (drop (offsetof l f) w).

(** ** Lemmas *)

(** The shift-and-or readers compute the big-endian value of the bytes they
    read, and fail exactly when the buffer is too short. *)
Ltac be_solve :=
  unfold bytes_ok in *;
  repeat match goal with H : Forall _ (_ :: _) |- _ => inversion_clear H end;
  cbn; f_equal; unfold in_range, wrap in *; pow_consts;
  rewrite ?Z.shiftl_mul_pow2 by lia;
  repeat (rewrite (Z.mod_small (_ * _)) by lia).

(** The same loop one byte at a time: or-ing the next byte below the
    accumulated prefix appends it to the big-endian value. *)
Lemma lor_step x b m n :
  m = n + 8 -> 0 <= n -> 0 <= b < 256 ->
  Z.lor (x * 2 ^ m) (b * 2 ^ n) = (x * 256 + b) * 2 ^ n.
Proof.
  intros -> Hn Hb. rewrite lor_mul_add.
  - rewrite Z.pow_add_r by lia. change (2 ^ 8) with 256. lia.
  - lia.
  - rewrite Z.pow_add_r by lia. change (2 ^ 8) with 256. nia.
Qed.

Lemma be16_spec p : bytes_ok p -> (2 <= length p)%nat -> be16 p = Some (be_val (take 2 p)).
Proof.
  intros Hok Hl. destruct p as [|a [|b p]]; simpl in Hl; try lia.
  be_solve. rewrite (lor_mul_add a b 8), Z.mod_small by lia. unfold be_val; simpl; lia.
Qed.

Lemma be32_spec p : bytes_ok p -> (4 <= length p)%nat -> be32 p = Some (be_val (take 4 p)).
Proof.
  intros Hok Hl. destruct p as [|a [|b [|c [|d p]]]]; simpl in Hl; try lia.
  be_solve.
  rewrite (lor_step a b 24 16), (lor_step _ c 16 8), (lor_mul_add _ d 8) by lia.
  unfold be_val; simpl; lia.
Qed.

Lemma be48_spec p : bytes_ok p -> (6 <= length p)%nat -> be48 p = Some (be_val (take 6 p)).
Proof.
  intros Hok Hl. destruct p as [|a [|b [|c [|d [|e [|f p]]]]]]; simpl in Hl; try lia.
  be_solve.
  rewrite (lor_step a b 40 32), (lor_step _ c 32 24), (lor_step _ d 24 16), (lor_step _ e 16 8),
    (lor_mul_add _ f 8) by lia. unfold be_val; simpl; lia.
Qed.

Lemma be64_spec p : bytes_ok p -> (8 <= length p)%nat -> be64 p = Some (be_val (take 8 p)).
Proof.
  intros Hok Hl.
  destruct p as [|a [|b [|c [|d [|e [|f [|g [|h p]]]]]]]]; simpl in Hl; try lia.
  be_solve.
  rewrite (lor_step a b 56 48), (lor_step _ c 48 40), (lor_step _ d 40 32),
    (lor_step _ e 32 24), (lor_step _ f 24 16), (lor_step _ g 16 8), (lor_mul_add _ h 8) by lia.
  unfold be_val; simpl; lia.
Qed.

(** Reading back an encoded integer that is followed by other bytes. *)
Lemma take_be_enc n z (rest : bytes) : take n (be_enc n z ++ rest) = be_enc n z.
Proof. rewrite <- (be_enc_length n z) at 1. apply take_app_length. Qed.

Lemma be16_enc z rest :
  bytes_ok rest -> in_range 16 z -> be16 (be_enc 2 z ++ rest) = Some z.
Proof.
  intros Hr Hz. rewrite be16_spec, take_be_enc, be_val_enc;
    [f_equal; apply Z.mod_small, Hz | by apply Forall_app; split; [apply be_enc_ok|]
    | rewrite length_app, be_enc_length; lia].
Qed.

Lemma be32_enc z rest :
  bytes_ok rest -> in_range 32 z -> be32 (be_enc 4 z ++ rest) = Some z.
Proof.
  intros Hr Hz. rewrite be32_spec, take_be_enc, be_val_enc;
    [f_equal; apply Z.mod_small, Hz | by apply Forall_app; split; [apply be_enc_ok|]
    | rewrite length_app, be_enc_length; lia].
Qed.

Lemma be48_enc z rest :
  bytes_ok rest -> in_range 48 z -> be48 (be_enc 6 z ++ rest) = Some z.
Proof.
  intros Hr Hz. rewrite be48_spec, take_be_enc, be_val_enc;
    [f_equal; apply Z.mod_small, Hz | by apply Forall_app; split; [apply be_enc_ok|]
    | rewrite length_app, be_enc_length; lia].
Qed.

Lemma be64_enc z rest :
  bytes_ok rest -> in_range 64 z -> be64 (be_enc 8 z ++ rest) = Some z.
Proof.
  intros Hr Hz. rewrite be64_spec, take_be_enc, be_val_enc;
    [f_equal; apply Z.mod_small, Hz | by apply Forall_app; split; [apply be_enc_ok|]
    | rewrite length_app, be_enc_length; lia].
Qed.

Lemma bytes_ok_drop n l : bytes_ok l -> bytes_ok (drop n l).
Proof. apply Forall_drop. Qed.

(** A field that lies inside the buffer reads without error. *)
Lemma be16_total p : (2 <= length p)%nat -> is_Some (be16 p).
Proof. destruct p as [|? [|? ?]]; simpl; intros; try lia; eexists; reflexivity. Qed.

Lemma be48_total p : (6 <= length p)%nat -> is_Some (be48 p).
Proof.
  destruct p as [|? [|? [|? [|? [|? [|? ?]]]]]]; simpl; intros; try lia; eexists; reflexivity.
Qed.

Lemma fld64_total l f w : (offsetof l f + 8 <= length w)%nat -> is_Some (fld64 l f w).
Proof.
  intros H. unfold fld64. assert (Hl : (8 <= length (drop (offsetof l f) w))%nat)
    by (rewrite length_drop; lia).
  destruct (drop _ w) as [|? [|? [|? [|? [|? [|? [|? [|? ?]]]]]]]]; simpl in Hl;
    try lia; eexists; reflexivity.
Qed.

Lemma fld32_total l f w : (offsetof l f + 4 <= length w)%nat -> is_Some (fld32 l f w).
Proof.
  intros H. unfold fld32. assert (Hl : (4 <= length (drop (offsetof l f) w))%nat)
    by (rewrite length_drop; lia).
  destruct (drop _ w) as [|? [|? [|? [|? ?]]]]; simpl in Hl; try lia; eexists; reflexivity.
Qed.

Lemma fld8_total l f w : (offsetof l f < length w)%nat -> is_Some (fld8 l f w).
Proof. intros H. by apply lookup_lt_is_Some. Qed.

Lemma fldn_total l f n w : (offsetof l f + n <= length w)%nat -> is_Some (fldn l f n w).
Proof.
  intros H. unfold fldn. rewrite rd_bytes_Some by (rewrite length_drop; lia). eauto.
Qed.

(** What a successful read returns is in the range of its type. *)
Ltac lookups H := repeat (apply bind_Some in H; destruct H as (? & ? & H)).

Lemma be_val_take_range n p :
  bytes_ok p -> (n <= length p)%nat -> in_range (8 * Z.of_nat n) (be_val (take n p)).
Proof.
  intros Hok Hl. unfold in_range. rewrite Z.pow_mul_r by lia.
  replace (Z.of_nat n) with (Z.of_nat (length (take n p))) by (rewrite length_take; lia).
  apply be_val_range. by apply Forall_take.
Qed.

Lemma be16_range p z : bytes_ok p -> be16 p = Some z -> in_range 16 z.
Proof.
  intros Hok H. assert (2 <= length p)%nat.
  { unfold be16 in H. lookups H. eapply lookup_lt_Some; eassumption. }
  rewrite be16_spec in H by done. injection H as <-. by apply (be_val_take_range 2).
Qed.

Lemma be32_range p z : bytes_ok p -> be32 p = Some z -> in_range 32 z.
Proof.
  intros Hok H. assert (4 <= length p)%nat.
  { unfold be32 in H. lookups H. eapply lookup_lt_Some; eassumption. }
  rewrite be32_spec in H by done. injection H as <-. by apply (be_val_take_range 4).
Qed.

Lemma be48_range p z : bytes_ok p -> be48 p = Some z -> in_range 48 z.
Proof.
  intros Hok H. assert (6 <= length p)%nat.
  { unfold be48 in H. lookups H. eapply lookup_lt_Some; eassumption. }
  rewrite be48_spec in H by done. injection H as <-. by apply (be_val_take_range 6).
Qed.

Lemma be64_range p z : bytes_ok p -> be64 p = Some z -> in_range 64 z.
Proof.
  intros Hok H. assert (8 <= length p)%nat.
  { unfold be64 in H. lookups H. eapply lookup_lt_Some; eassumption. }
  rewrite be64_spec in H by done. injection H as <-. by apply (be_val_take_range 8).
Qed.

Lemma fld64_range l f w z : bytes_ok w -> fld64 l f w = Some z -> in_range 64 z.
Proof. intros Hok. apply be64_range, bytes_ok_drop, Hok. Qed.

Lemma fld32_range l f w z : bytes_ok w -> fld32 l f w = Some z -> in_range 32 z.
Proof. intros Hok. apply be32_range, bytes_ok_drop, Hok. Qed.

Lemma fld8_range l f w z : bytes_ok w -> fld8 l f w = Some z -> in_range 8 z.
Proof. intros Hok H. eapply Forall_lookup_1; eauto. Qed.

Lemma fldn_range l f n w s :
  bytes_ok w -> fldn l f n w = Some s -> bytes_ok s /\ length s = n.
Proof.
  intros Hok. unfold fldn, rd_bytes. case_decide; [|done]. intros [= <-]. split.
  - by apply Forall_take, Forall_drop.
  - rewrite length_take. lia.
Qed.
