(* ===== verification/Mold.v ===== *)
(** * MoldUDP64 transport framing

    [include/protocol/moldudp64.hpp], [include/protocol/moldudp64_parser.hpp]
    and [src/protocol/moldudp64_parser.cpp].  The header fields are kept as the
    source keeps them, in the byte order of the little-endian host after the
    [memcpy], and swapped by the accessors. *)

From S2P Require Import Prelude Types Wire.

(** [__builtin_bswap16] and [__builtin_bswap64]: reverse the bytes. *)
Definition bswap (n : nat) (z : Z) : Z := le_val (rev (le_enc n z)).

Record MoldUDP64Header := mkMoldHeader {
  session : bytes;
  sequence_number : Z;
  message_count : Z
}.

Definition sizeof_MoldUDP64Header : Z := 20.
Definition sizeof_MoldUDP64MessageBlock : Z := 2.

Definition get_sequence (h : MoldUDP64Header) : Z := bswap 8 (sequence_number h).
Definition get_message_count (h : MoldUDP64Header) : Z := bswap 2 (message_count h).
Definition is_heartbeat (h : MoldUDP64Header) : bool :=
  get_message_count h =? MOLDUDP64_HEARTBEAT.

(** [MoldUDP64MessageBlock::get_length] on the block at pointer [p]. *)
Definition block_get_length (p : bytes) : option Z :=
  b ← rd_bytes 2 p; Some (bswap 2 (le_val b)).

(** [memcpy(&header, data, sizeof(MoldUDP64Header))]. *)
Definition header_of_bytes (p : bytes) : option MoldUDP64Header :=
  s ← rd_bytes 10 p;
  q ← rd_bytes 8 (drop 10 p);
  c ← rd_bytes 2 (drop 18 p);
  Some (mkMoldHeader s (le_val q) (le_val c)).

(** The header of an invalid result is left uninitialised by the source and
    never read; the model puts zeros there.  A null [messages_begin] is the
    empty buffer. *)
Record ParseResult := mkParseResult {
  valid : bool;
  header : MoldUDP64Header;
  messages_begin : bytes;
  messages_length : Z
}.

Definition header0 : MoldUDP64Header := mkMoldHeader (replicate 10 0) 0 0.

Definition mold_parse (data : bytes) (length : Z) : option ParseResult :=
  if length <? sizeof_MoldUDP64Header then Some (mkParseResult false header0 [] 0)
  else
    h ← header_of_bytes data;
    if is_heartbeat h then Some (mkParseResult true h [] 0)
    else Some (mkParseResult true h (drop 20 data) (length - sizeof_MoldUDP64Header)).

(** A packet as the venue sends it: session, sequence and message count in
    network order, then the message blocks. *)
Definition mold_packet (sess : bytes) (seq count : Z) (blocks : bytes) : bytes :=
  sess ++ be_enc 8 seq ++ be_enc 2 count ++ blocks.

(** ** Lemmas *)

Lemma bswap_le_val n l : bytes_ok l -> length l = n -> bswap n (le_val l) = be_val l.
Proof. intros Hok <-. unfold bswap. rewrite le_enc_val by done. apply le_val_rev. Qed.

Lemma block_get_length_spec p :
  bytes_ok p -> (2 <= length p)%nat -> block_get_length p = Some (be_val (take 2 p)).
Proof.
  intros Hok Hl. unfold block_get_length. rewrite rd_bytes_Some by done. simpl.
  rewrite bswap_le_val; [done| by apply Forall_take | rewrite length_take; lia].
Qed.

Lemma header_of_bytes_spec p :
  bytes_ok p -> (20 <= length p)%nat ->
  exists h, header_of_bytes p = Some h
    /\ session h = take 10 p
    /\ get_sequence h = be_val (take 8 (drop 10 p))
    /\ get_message_count h = be_val (take 2 (drop 18 p)).
Proof.
  intros Hok Hl. unfold header_of_bytes.
  rewrite !rd_bytes_Some by (rewrite ?length_drop; lia). simpl. eexists; split; [done|].
  unfold get_sequence, get_message_count. simpl.
  rewrite !bswap_le_val; try (apply Forall_take, bytes_ok_drop, Hok);
    try (rewrite length_take, length_drop; lia). done.
Qed.

Lemma mold_packet_ok sess seq count blocks :
  bytes_ok sess -> bytes_ok blocks -> bytes_ok (mold_packet sess seq count blocks).
Proof.
  intros. unfold mold_packet, bytes_ok.
  rewrite !Forall_app. repeat split; try done; apply be_enc_ok.
Qed.

Lemma mold_packet_length sess seq count blocks :
  length sess = 10%nat ->
  length (mold_packet sess seq count blocks) = (20 + length blocks)%nat.
Proof. intros H. unfold mold_packet. rewrite !length_app, !be_enc_length, H. lia. Qed.

(** The header of a packet decodes to the session, sequence and count that
    were encoded. *)
Lemma mold_packet_header sess seq count blocks :
  bytes_ok sess -> length sess = 10%nat -> bytes_ok blocks ->
  in_range 64 seq -> in_range 16 count ->
  exists h, header_of_bytes (mold_packet sess seq count blocks) = Some h
    /\ session h = sess /\ get_sequence h = seq /\ get_message_count h = count.
Proof.
  intros Hs Hl Hb Hq Hc.
  destruct (header_of_bytes_spec (mold_packet sess seq count blocks)) as (h & E & A & B & C).
  { by apply mold_packet_ok. }
  { rewrite mold_packet_length; lia. }
  exists h. split; [done|]. rewrite A, B, C. unfold mold_packet. split_and!.
  - rewrite <- Hl. apply take_app_length.
  - rewrite (drop_app_length' sess) by lia. rewrite take_be_enc, be_val_enc.
    apply Z.mod_small, Hq.
  - rewrite app_assoc, (drop_app_length' (sess ++ _))
      by (rewrite length_app, be_enc_length; lia).
    rewrite take_be_enc, be_val_enc. apply Z.mod_small, Hc.
Qed.

Lemma mold_packet_body sess seq count blocks :
  length sess = 10%nat -> drop 20 (mold_packet sess seq count blocks) = blocks.
Proof.
  intros Hl. unfold mold_packet. rewrite !app_assoc.
  apply drop_app_length'. rewrite !length_app, !be_enc_length. lia.
Qed.

(** Parsing what a venue sends gives back the header fields, and the message
    area unless the packet is a heartbeat. *)
Lemma mold_parse_packet sess seq count blocks :
  bytes_ok sess -> length sess = 10%nat -> bytes_ok blocks ->
  in_range 64 seq -> in_range 16 count ->
  exists h,
    mold_parse (mold_packet sess seq count blocks) (20 + Z.of_nat (length blocks)) =
      Some (if count =? MOLDUDP64_HEARTBEAT then mkParseResult true h [] 0
            else mkParseResult true h blocks (Z.of_nat (length blocks)))
    /\ session h = sess /\ get_sequence h = seq /\ get_message_count h = count.
Proof.
  intros Hs Hl Hb Hq Hc.
  destruct (mold_packet_header sess seq count blocks) as (h & E & A & B & C); try done.
  exists h. split; [|done]. unfold mold_parse, sizeof_MoldUDP64Header, is_heartbeat.
  rewrite (proj2 (Z.ltb_ge _ _)) by lia. rewrite E. simpl. rewrite C.
  destruct (count =? _); [done|]. rewrite mold_packet_body by done.
  do 2 f_equal. lia.
Qed.

(** A datagram shorter than the header is rejected, whatever its bytes. *)
Lemma mold_parse_short data n :
  n < 20 -> exists r, mold_parse data n = Some r /\ valid r = false.
Proof.
  intros H. unfold mold_parse, sizeof_MoldUDP64Header.
  rewrite (proj2 (Z.ltb_lt _ _)) by lia. eauto.
Qed.

(** The parser never reads outside a buffer that holds the datagram. *)
Lemma mold_parse_total data n :
  n <= Z.of_nat (length data) -> is_Some (mold_parse data n).
Proof.
  intros H. unfold mold_parse, sizeof_MoldUDP64Header. destruct (Z.ltb_spec n 20); [eauto|].
  unfold header_of_bytes. rewrite !rd_bytes_Some by (rewrite ?length_drop; lia).
  simpl. destruct (is_heartbeat _); eauto.
Qed.

Lemma mold_parse_messages data n r :
  mold_parse data n = Some r -> n <= Z.of_nat (length data) ->
  0 <= messages_length r <= Z.of_nat (length (messages_begin r)).
Proof.
  unfold mold_parse, sizeof_MoldUDP64Header. intros H Hn.
  destruct (Z.ltb_spec n 20); [opt_inv H; simpl; lia|]. opt_inv H.
  destruct (is_heartbeat _); opt_inv H; simpl; [lia|]. rewrite length_drop. lia.
Qed.
