(* ===== verification/ItchParser.v ===== *)
(** * ITCH 5.0 messages and parser

    The normalised message [ItchMsg] of [include/protocol/itch_messages.hpp]
    and [ItchParser] of [src/protocol/itch_parser.cpp].  The anonymous union is
    an inductive type with one constructor per member.  [None] stands for a
    read outside the packet buffer. *)

From Stdlib Require Import String.
From S2P Require Import Prelude Types Wire Mold.
Local Open Scope string_scope.
Local Open Scope Z_scope.
Local Open Scope list_scope.

Inductive Payload :=
  | no_payload
  | add_order (ref : Z) (side : Side) (price shares : Z) (stock attribution : bytes)
  | order_executed (ref executed_shares match_number : Z)
  | order_executed_price (ref executed_shares match_number price : Z) (printable : bool)
  | order_cancel (ref cancelled_shares : Z)
  | order_delete (ref : Z)
  | order_replace (orig_ref new_ref new_shares new_price : Z)
  | stock_directory (stock : bytes)
      (market_category round_lot_size financial_status authenticity : Z)
  | trading_action (stock : bytes) (trading_state : Z) (reason : bytes)
  | trade (ref : Z) (side : Side) (shares price : Z) (stock : bytes) (match_number : Z)
  | cross_trade (shares cross_price : Z) (stock : bytes) (match_number cross_type : Z)
  | broken_trade (match_number : Z)
  | noii (paired_shares imbalance_shares imbalance_direction : Z) (stock : bytes)
      (far_price near_price current_ref_price cross_type price_variation_indicator : Z)
  | system_event (event_code : Z)
  | reg_sho (stock : bytes) (action : Z)
  | rpi (stock : bytes) (interest_flag : Z).

Record ItchMsg := mkMsg {
  type : MessageType;
  locate : Z;
  timestamp : Z;
  recv_timestamp : Z;
  body : Payload
}.

(** [ItchMsg{}]. *)
Definition ItchMsg0 : ItchMsg := mkMsg UnknownType 0 0 0 no_payload.

(** ** One case of the switch each

    The result is [None] for a read outside the buffer, [Some None] for
    [return false] and [Some (Some b)] for a message accepted with union
    member [b]. *)

Definition short (l : layout) (len : Z) : bool := len <? Z.of_nat (sizeof l).

Definition case_SystemEvent (w : bytes) (len : Z) : option (option Payload) :=
  if short WireSystemEvent len then Some None else
  c ← fld8 WireSystemEvent "event_code" w;
  Some (Some (system_event c)).

Definition case_StockDirectory (w : bytes) (len : Z) : option (option Payload) :=
  if short WireStockDirectory len then Some None else
  st ← fldn WireStockDirectory "stock" 8 w;
  mc ← fld8 WireStockDirectory "market_category" w;
  fs ← fld8 WireStockDirectory "financial_status" w;
  ls ← fld32 WireStockDirectory "round_lot_size" w;
  au ← fld8 WireStockDirectory "authenticity" w;
  Some (Some (stock_directory st mc ls fs au)).

Definition case_StockTradingAction (w : bytes) (len : Z) : option (option Payload) :=
  if short WireStockTradingAction len then Some None else
  st ← fldn WireStockTradingAction "stock" 8 w;
  ts ← fld8 WireStockTradingAction "trading_state" w;
  rs ← fldn WireStockTradingAction "reason" 4 w;
  Some (Some (trading_action st ts rs)).

Definition case_RegSHO (w : bytes) (len : Z) : option (option Payload) :=
  if short WireRegSHO len then Some None else
  st ← fldn WireRegSHO "stock" 8 w;
  a ← fld8 WireRegSHO "reg_sho_action" w;
  Some (Some (reg_sho st a)).

Definition case_AddOrder (w : bytes) (len : Z) : option (option Payload) :=
  if short WireAddOrder len then Some None else
  r ← fld64 WireAddOrder "order_ref" w;
  s ← fld8 WireAddOrder "buy_sell" w;
  q ← fld32 WireAddOrder "shares" w;
  p ← fld32 WireAddOrder "price" w;
  st ← fldn WireAddOrder "stock" 8 w;
  Some (Some (add_order r (Side_of_byte s) p q st [0; 0; 0; 0])).

Definition case_AddOrderMPID (w : bytes) (len : Z) : option (option Payload) :=
  if short WireAddOrderMPID len then Some None else
  r ← fld64 WireAddOrderMPID "order_ref" w;
  s ← fld8 WireAddOrderMPID "buy_sell" w;
  q ← fld32 WireAddOrderMPID "shares" w;
  p ← fld32 WireAddOrderMPID "price" w;
  st ← fldn WireAddOrderMPID "stock" 8 w;
  at_ ← fldn WireAddOrderMPID "attribution" 4 w;
  Some (Some (add_order r (Side_of_byte s) p q st at_)).

Definition case_OrderExecuted (w : bytes) (len : Z) : option (option Payload) :=
  if short WireOrderExecuted len then Some None else
  r ← fld64 WireOrderExecuted "order_ref" w;
  q ← fld32 WireOrderExecuted "executed_shares" w;
  m ← fld64 WireOrderExecuted "match_number" w;
  Some (Some (order_executed r q m)).

Definition case_OrderExecutedPrice (w : bytes) (len : Z) : option (option Payload) :=
  if short WireOrderExecutedPrice len then Some None else
  r ← fld64 WireOrderExecutedPrice "order_ref" w;
  q ← fld32 WireOrderExecutedPrice "executed_shares" w;
  m ← fld64 WireOrderExecutedPrice "match_number" w;
  pr ← fld8 WireOrderExecutedPrice "printable" w;
  p ← fld32 WireOrderExecutedPrice "execution_price" w;
  Some (Some (order_executed_price r q m p (pr =? 89))).

Definition case_OrderCancel (w : bytes) (len : Z) : option (option Payload) :=
  if short WireOrderCancel len then Some None else
  r ← fld64 WireOrderCancel "order_ref" w;
  q ← fld32 WireOrderCancel "cancelled_shares" w;
  Some (Some (order_cancel r q)).

Definition case_OrderDelete (w : bytes) (len : Z) : option (option Payload) :=
  if short WireOrderDelete len then Some None else
  r ← fld64 WireOrderDelete "order_ref" w;
  Some (Some (order_delete r)).

Definition case_OrderReplace (w : bytes) (len : Z) : option (option Payload) :=
  if short WireOrderReplace len then Some None else
  o ← fld64 WireOrderReplace "orig_order_ref" w;
  n ← fld64 WireOrderReplace "new_order_ref" w;
  q ← fld32 WireOrderReplace "new_shares" w;
  p ← fld32 WireOrderReplace "new_price" w;
  Some (Some (order_replace o n q p)).

Definition case_Trade (w : bytes) (len : Z) : option (option Payload) :=
  if short WireTrade len then Some None else
  r ← fld64 WireTrade "order_ref" w;
  s ← fld8 WireTrade "buy_sell" w;
  q ← fld32 WireTrade "shares" w;
  p ← fld32 WireTrade "price" w;
  st ← fldn WireTrade "stock" 8 w;
  m ← fld64 WireTrade "match_number" w;
  Some (Some (trade r (Side_of_byte s) q p st m)).

Definition case_CrossTrade (w : bytes) (len : Z) : option (option Payload) :=
  if short WireCrossTrade len then Some None else
  q ← fld64 WireCrossTrade "shares" w;
  p ← fld32 WireCrossTrade "cross_price" w;
  st ← fldn WireCrossTrade "stock" 8 w;
  m ← fld64 WireCrossTrade "match_number" w;
  c ← fld8 WireCrossTrade "cross_type" w;
  Some (Some (cross_trade q p st m c)).

Definition case_BrokenTrade (w : bytes) (len : Z) : option (option Payload) :=
  if short WireBrokenTrade len then Some None else
  m ← fld64 WireBrokenTrade "match_number" w;
  Some (Some (broken_trade m)).

Definition case_NOII (w : bytes) (len : Z) : option (option Payload) :=
  if short WireNOII len then Some None else
  ps ← fld64 WireNOII "paired_shares" w;
  im ← fld64 WireNOII "imbalance_shares" w;
  d ← fld8 WireNOII "imbalance_direction" w;
  st ← fldn WireNOII "stock" 8 w;
  fp ← fld32 WireNOII "far_price" w;
  np ← fld32 WireNOII "near_price" w;
  cp ← fld32 WireNOII "current_ref_price" w;
  ct ← fld8 WireNOII "cross_type" w;
  pv ← fld8 WireNOII "price_variation_indicator" w;
  Some (Some (noii ps im d st fp np cp ct pv)).

Definition case_RPIIndicator (w : bytes) (len : Z) : option (option Payload) :=
  if short WireRPIIndicator len then Some None else
  st ← fldn WireRPIIndicator "stock" 8 w;
  f ← fld8 WireRPIIndicator "interest_flag" w;
  Some (Some (rpi st f)).

(** The switch of [parse_message]; six types are accepted without reading
    anything, every other byte falls into [default: return false]. *)
Definition parse_body (t : MessageType) (w : bytes) (len : Z) : option (option Payload) :=
  match t with
  | SystemEvent => case_SystemEvent w len
  | StockDirectory => case_StockDirectory w len
  | StockTradingAction => case_StockTradingAction w len
  | RegSHO => case_RegSHO w len
  | MarketParticipant | MWCBDecline | MWCBStatus
  | IPOQuotingPeriod | LULDAuctionCollar | OperationalHalt => Some (Some no_payload)
  | AddOrder => case_AddOrder w len
  | AddOrderMPID => case_AddOrderMPID w len
  | OrderExecuted => case_OrderExecuted w len
  | OrderExecutedPrice => case_OrderExecutedPrice w len
  | OrderCancel => case_OrderCancel w len
  | OrderDelete => case_OrderDelete w len
  | OrderReplace => case_OrderReplace w len
  | Trade => case_Trade w len
  | CrossTrade => case_CrossTrade w len
  | BrokenTrade => case_BrokenTrade w len
  | NOII => case_NOII w len
  | RPIIndicator => case_RPIIndicator w len
  | UnknownType | InternalSessionReset | OtherType _ => Some None
  end.

(** [parse_message(msg, data, len)]: the accepted message, [Some None] for
    [return false].  The pointer is never null here. *)
Definition parse_message (msg : ItchMsg) (data : bytes) (len : Z) : option (option ItchMsg) :=
  if len <? 1 then Some None else
  c ← data !! kOffType;
  loc ← be16 (drop kOffLocate data);
  ts ← (if Z.of_nat kOffPayload <=? len then be48 (drop kOffTimestamp data)
        else Some (timestamp msg));
  b ← parse_body (MessageType_of_byte c) data len;
  Some (match b with
        | Some b => Some (mkMsg (MessageType_of_byte c) loc ts (recv_timestamp msg) b)
        | None => None
        end).

(** The loop of [ItchParser::parse]: [out] is the part of [out_buf] already
    filled.  Every iteration that goes on consumes at least three bytes, so
    the fuel given by [parse] is never exhausted (see [parse_loop_total]). *)
Fixpoint parse_loop (fuel : nat) (recv_ts : Z) (ptr : bytes) (remaining : Z)
    (max_msgs : Z) (out : list ItchMsg) : option (list ItchMsg) :=
  match fuel with
  | O => None
  | S fuel =>
      if (remaining >? 0) && (Z.of_nat (length out) <? max_msgs) then
        if remaining <? sizeof_MoldUDP64MessageBlock then Some out else
        msg_len ← block_get_length ptr;
        if msg_len =? 0 then Some out else
        if msg_len >? remaining - sizeof_MoldUDP64MessageBlock then Some out else
        r ← parse_message (mkMsg UnknownType 0 0 recv_ts no_payload) (drop 2 ptr) msg_len;
        let out' := match r with Some m => out ++ [m] | None => out end in
        parse_loop fuel recv_ts
          (drop (Z.to_nat (sizeof_MoldUDP64MessageBlock + msg_len)) ptr)
          (remaining - (sizeof_MoldUDP64MessageBlock + msg_len)) max_msgs out'
      else Some out
  end.

Definition MAX_MSGS_PER_PACKET : Z := 128.

Definition parse (recv_ts : Z) (mold : ParseResult) (max_msgs : Z) : option (list ItchMsg) :=
  if negb (valid mold) || (max_msgs <=? 0) then Some [] else
  parse_loop (S (Z.to_nat (messages_length mold))) recv_ts (messages_begin mold)
    (messages_length mold) max_msgs [].

(** ** The wire image of a message

    What a venue sends: the fields of the struct, in the order of its layout.
    Fields the parser does not look at are zero. *)

Definition hdr_fields (t : MessageType) (loc tracking ts : Z) : list bytes :=
  [[MessageType_to_byte t]; be_enc 2 loc; be_enc 2 tracking; be_enc 6 ts].

Definition yn (b : bool) : Z := if b then 89 else 78.

Definition wire_fields (t : MessageType) (b : Payload) : option (layout * list bytes) :=
  match t, b with
  | SystemEvent, system_event c => Some (WireSystemEvent, [[c]])
  | StockDirectory, stock_directory st mc ls fs au =>
      Some (WireStockDirectory,
        [st; [mc]; [fs]; be_enc 4 ls; [0]; [0]; [0; 0]; [au]; [0]; [0]; [0]; [0];
         [0; 0; 0; 0]; [0]])
  | StockTradingAction, trading_action st s r => Some (WireStockTradingAction, [st; [s]; [0]; r])
  | RegSHO, reg_sho st a => Some (WireRegSHO, [st; [a]])
  | AddOrder, add_order r s p q st a =>
      if decide (a = [0; 0; 0; 0]) then
        Some (WireAddOrder, [be_enc 8 r; [Side_to_byte s]; be_enc 4 q; st; be_enc 4 p])
      else None
  | AddOrderMPID, add_order r s p q st a =>
      Some (WireAddOrderMPID, [be_enc 8 r; [Side_to_byte s]; be_enc 4 q; st; be_enc 4 p; a])
  | OrderExecuted, order_executed r q m =>
      Some (WireOrderExecuted, [be_enc 8 r; be_enc 4 q; be_enc 8 m])
  | OrderExecutedPrice, order_executed_price r q m p pr =>
      Some (WireOrderExecutedPrice, [be_enc 8 r; be_enc 4 q; be_enc 8 m; [yn pr]; be_enc 4 p])
  | OrderCancel, order_cancel r q => Some (WireOrderCancel, [be_enc 8 r; be_enc 4 q])
  | OrderDelete, order_delete r => Some (WireOrderDelete, [be_enc 8 r])
  | OrderReplace, order_replace o n q p =>
      Some (WireOrderReplace, [be_enc 8 o; be_enc 8 n; be_enc 4 q; be_enc 4 p])
  | Trade, trade r s q p st m =>
      Some (WireTrade, [be_enc 8 r; [Side_to_byte s]; be_enc 4 q; st; be_enc 4 p; be_enc 8 m])
  | CrossTrade, cross_trade q p st m c =>
      Some (WireCrossTrade, [be_enc 8 q; st; be_enc 4 p; be_enc 8 m; [c]])
  | BrokenTrade, broken_trade m => Some (WireBrokenTrade, [be_enc 8 m])
  | NOII, noii ps im d st fp np cp ct pv =>
      Some (WireNOII, [be_enc 8 ps; be_enc 8 im; [d]; st; be_enc 4 fp; be_enc 4 np;
        be_enc 4 cp; [ct]; [pv]])
  | RPIIndicator, rpi st f => Some (WireRPIIndicator, [st; [f]])
  | _, _ => None
  end.

Definition encode_message (tracking : Z) (m : ItchMsg) : option (layout * list bytes) :=
  match wire_fields (type m) (body m) with
  | Some (l, fs) => Some (l, hdr_fields (type m) (locate m) tracking (timestamp m) ++ fs)
  | None => None
  end.

(** Widths and ranges of the union members, as the wire can carry them. *)
Definition text (n : nat) (s : bytes) : Prop := bytes_ok s /\ length s = n.
Definition side_ok (s : Side) : Prop := exists c, in_range 8 c /\ s = Side_of_byte c.

Definition payload_ok (b : Payload) : Prop :=
  match b with
  | no_payload => True
  | add_order r s p q st a =>
      in_range 64 r /\ side_ok s /\ in_range 32 p /\ in_range 32 q /\ text 8 st /\ text 4 a
  | order_executed r q m => in_range 64 r /\ in_range 32 q /\ in_range 64 m
  | order_executed_price r q m p _ =>
      in_range 64 r /\ in_range 32 q /\ in_range 64 m /\ in_range 32 p
  | order_cancel r q => in_range 64 r /\ in_range 32 q
  | order_delete r => in_range 64 r
  | order_replace o n q p => in_range 64 o /\ in_range 64 n /\ in_range 32 q /\ in_range 32 p
  | stock_directory st mc ls fs au =>
      text 8 st /\ in_range 8 mc /\ in_range 32 ls /\ in_range 8 fs /\ in_range 8 au
  | trading_action st s r => text 8 st /\ in_range 8 s /\ text 4 r
  | trade r s q p st m =>
      in_range 64 r /\ side_ok s /\ in_range 32 q /\ in_range 32 p /\ text 8 st /\ in_range 64 m
  | cross_trade q p st m c =>
      in_range 64 q /\ in_range 32 p /\ text 8 st /\ in_range 64 m /\ in_range 8 c
  | broken_trade m => in_range 64 m
  | noii ps im d st fp np cp ct pv =>
      in_range 64 ps /\ in_range 64 im /\ in_range 8 d /\ text 8 st /\ in_range 32 fp /\
      in_range 32 np /\ in_range 32 cp /\ in_range 8 ct /\ in_range 8 pv
  | system_event c => in_range 8 c
  | reg_sho st a => text 8 st /\ in_range 8 a
  | rpi st f => text 8 st /\ in_range 8 f
  end.

Definition msg_ok (m : ItchMsg) : Prop :=
  in_range 16 (locate m) /\ in_range 48 (timestamp m) /\ payload_ok (body m).

(** ** Lemmas on field access *)

Definition field_shape (l : layout) (fs : list bytes) : Prop :=
  Forall2 (fun nw f => length f = snd nw) l fs.

Fixpoint field_lookup (l : layout) (fs : list bytes) (f : string) : option bytes :=
  match l, fs with
  | (g, _) :: l', x :: fs' => if String.eqb g f then Some x else field_lookup l' fs' f
  | _, _ => None
  end.

Lemma field_at l fs f x (rest : bytes) :
  field_shape l fs -> field_lookup l fs f = Some x ->
  exists tl, drop (offsetof l f) (concat fs ++ rest) = x ++ tl.
Proof.
  intros H. revert x. induction H as [|[g w] y l' fs' Hy _ IH]; intros x E; [done|].
  cbn [field_lookup offsetof concat] in *. destruct (String.eqb g f).
  - injection E as ->. rewrite <- app_assoc. by eexists.
  - rewrite <- app_assoc, drop_app_add' by done. by apply IH.
Qed.

Lemma bytes_ok_field l fs f x rest tl :
  bytes_ok (concat fs ++ rest) ->
  drop (offsetof l f) (concat fs ++ rest) = x ++ tl -> bytes_ok x /\ bytes_ok tl.
Proof.
  intros Hok E. apply (Forall_drop (in_range 8) (offsetof l f)) in Hok.
  rewrite E in Hok. by apply Forall_app in Hok.
Qed.

Section Fields.
Context (l : layout) (fs : list bytes) (rest : bytes).
Hypothesis Hshape : field_shape l fs.
Hypothesis Hok : bytes_ok (concat fs ++ rest).

Lemma fld64_enc f z :
  field_lookup l fs f = Some (be_enc 8 z) -> in_range 64 z ->
  fld64 l f (concat fs ++ rest) = Some z.
Proof.
  intros E Hz. destruct (field_at l fs f _ rest Hshape E) as [tl Htl].
  unfold fld64. rewrite Htl. apply be64_enc; [|done].
  by apply (bytes_ok_field l fs f (be_enc 8 z) rest).
Qed.

Lemma fld32_enc f z :
  field_lookup l fs f = Some (be_enc 4 z) -> in_range 32 z ->
  fld32 l f (concat fs ++ rest) = Some z.
Proof.
  intros E Hz. destruct (field_at l fs f _ rest Hshape E) as [tl Htl].
  unfold fld32. rewrite Htl. apply be32_enc; [|done].
  by apply (bytes_ok_field l fs f (be_enc 4 z) rest).
Qed.

Lemma be16_fld f z :
  field_lookup l fs f = Some (be_enc 2 z) -> in_range 16 z ->
  be16 (drop (offsetof l f) (concat fs ++ rest)) = Some z.
Proof.
  intros E Hz. destruct (field_at l fs f _ rest Hshape E) as [tl Htl].
  rewrite Htl. apply be16_enc; [|done].
  by apply (bytes_ok_field l fs f (be_enc 2 z) rest).
Qed.

Lemma be48_fld f z :
  field_lookup l fs f = Some (be_enc 6 z) -> in_range 48 z ->
  be48 (drop (offsetof l f) (concat fs ++ rest)) = Some z.
Proof.
  intros E Hz. destruct (field_at l fs f _ rest Hshape E) as [tl Htl].
  rewrite Htl. apply be48_enc; [|done].
  by apply (bytes_ok_field l fs f (be_enc 6 z) rest).
Qed.

Lemma fld8_enc f b :
  field_lookup l fs f = Some [b] -> fld8 l f (concat fs ++ rest) = Some b.
Proof.
  intros E. destruct (field_at l fs f _ rest Hshape E) as [tl Htl].
  unfold fld8. transitivity (drop (offsetof l f) (concat fs ++ rest) !! 0%nat).
  - by rewrite lookup_drop, Nat.add_0_r.
  - by rewrite Htl.
Qed.

Lemma fldn_enc f n s :
  field_lookup l fs f = Some s -> length s = n ->
  fldn l f n (concat fs ++ rest) = Some s.
Proof.
  intros E Hn. destruct (field_at l fs f _ rest Hshape E) as [tl Htl].
  unfold fldn. rewrite Htl. by apply rd_bytes_app.
Qed.
End Fields.

(** ** Round trip *)

Lemma side_ok_round s : side_ok s -> Side_of_byte (Side_to_byte s) = s.
Proof. intros (c & _ & ->). by rewrite Side_to_of_byte. Qed.

Lemma side_ok_range s : side_ok s -> in_range 8 (Side_to_byte s).
Proof. intros (c & H & ->). by rewrite Side_to_of_byte. Qed.

Lemma yn_round b : (yn b =? 89) = b.
Proof. by destruct b. Qed.

Lemma named_range t b l fs : wire_fields t b = Some (l, fs) -> t ∈ named_types.
Proof.
  destruct t, b; cbn [wire_fields]; try discriminate; intros _;
    by apply (bool_decide_unpack _).
Qed.

Lemma named_byte t : t ∈ named_types -> in_range 8 (MessageType_to_byte t).
Proof.
  intros Ht. unfold named_types in Ht.
  repeat (apply elem_of_cons in Ht as [->|Ht]; [split; [done|reflexivity]|]).
  by apply elem_of_nil in Ht.
Qed.

(** Breaks the conjunctions of [payload_ok] and [text]. *)
Ltac ok_hyps :=
  unfold payload_ok, text in *;
  repeat match goal with H : _ /\ _ |- _ => destruct H end.

Ltac bytes_side :=
  repeat first
    [ apply be_enc_ok | assumption | apply side_ok_range; assumption
    | apply Forall_app_2 | apply Forall_nil_2 | apply Forall_cons_2
    | apply Z.mod_pos_bound; reflexivity
    | split; [done|reflexivity] ].

Local Opaque be_enc.

Lemma wire_fields_wf t b l fs loc tracking ts :
  wire_fields t b = Some (l, fs) -> payload_ok b ->
  field_shape l (hdr_fields t loc tracking ts ++ fs)
  /\ bytes_ok (concat (hdr_fields t loc tracking ts ++ fs)).
Proof.
  intros E Hb. pose proof (named_byte t (named_range t b l fs E)) as Ht.
  destruct t; cbn [wire_fields] in E; try discriminate; destruct b; try discriminate;
    try (case_decide; [subst|discriminate]); injection E as <- <-; ok_hyps;
    (split;
     [ repeat constructor; cbn; rewrite ?be_enc_length; congruence
     | cbn [concat hdr_fields app]; unfold bytes_ok, yn; try case_match; bytes_side ]).
Qed.

(** Evaluate the field reads of a case of the switch on an encoded message. *)
Ltac read_fields Hs Hok :=
  repeat first
    [ erewrite (fld64_enc _ _ _ Hs Hok) by (first [reflexivity | assumption]); cbn [mbind option_bind]
    | erewrite (fld32_enc _ _ _ Hs Hok) by (first [reflexivity | assumption]); cbn [mbind option_bind]
    | erewrite (fld8_enc _ _ _ Hs) by reflexivity; cbn [mbind option_bind]
    | erewrite (fldn_enc _ _ _ Hs) by (first [reflexivity | assumption]); cbn [mbind option_bind] ].

Lemma parse_body_enc t b l fs loc tracking ts rest len :
  wire_fields t b = Some (l, fs) -> payload_ok b -> bytes_ok rest ->
  Z.of_nat (sizeof l) <= len ->
  parse_body t (concat (hdr_fields t loc tracking ts ++ fs) ++ rest) len = Some (Some b).
Proof.
  intros E Hb Hr Hlen.
  destruct (wire_fields_wf t b l fs loc tracking ts E Hb) as [Hs Hc].
  assert (Hok : bytes_ok (concat (hdr_fields t loc tracking ts ++ fs) ++ rest))
    by (by apply Forall_app).
  destruct t; cbn [wire_fields] in E; try discriminate; destruct b; try discriminate;
    try (case_decide; [subst|discriminate]); injection E as <- <-; ok_hyps;
    cbn [parse_body];
    unfold case_SystemEvent, case_StockDirectory, case_StockTradingAction, case_RegSHO,
      case_AddOrder, case_AddOrderMPID, case_OrderExecuted, case_OrderExecutedPrice,
      case_OrderCancel, case_OrderDelete, case_OrderReplace, case_Trade, case_CrossTrade,
      case_BrokenTrade, case_NOII, case_RPIIndicator, short;
    rewrite (proj2 (Z.ltb_ge _ _) Hlen); read_fields Hs Hok;
    rewrite ?side_ok_round, ?yn_round by assumption; reflexivity.
Qed.

Lemma wire_fields_hdr t b l fs :
  wire_fields t b = Some (l, fs) -> exists l', l = hdr ++ l'.
Proof.
  destruct t; cbn [wire_fields]; try discriminate; destruct b; try discriminate;
    try (case_decide; [|discriminate]); intros [= <- _]; eexists; reflexivity.
Qed.

Lemma field_shape_size l fs : field_shape l fs -> length (concat fs) = sizeof l.
Proof.
  induction 1 as [|[g w] x l' fs' Hx _ IH]; [done|].
  cbn [concat]. rewrite length_app, IH. unfold sizeof. simpl in *. lia.
Qed.

(** A message that a venue encodes is parsed back to itself, whatever
    follows it in the packet. *)
Lemma parse_message_enc tracking m l fs rest :
  encode_message tracking m = Some (l, fs) -> msg_ok m -> bytes_ok rest ->
  parse_message (mkMsg UnknownType 0 0 (recv_timestamp m) no_payload)
    (concat fs ++ rest) (Z.of_nat (length (concat fs))) = Some (Some m).
Proof.
  unfold encode_message. destruct (wire_fields _ _) as [[l' fs']|] eqn:E; [|done].
  intros Heq (Hloc & Hts & Hb) Hr.
  assert (l = l' /\ fs = hdr_fields (type m) (locate m) tracking (timestamp m) ++ fs')
    as [-> ->] by (by injection Heq).
  clear Heq. destruct (wire_fields_wf _ _ _ _ (locate m) tracking (timestamp m) E Hb) as [Hs Hc].
  destruct (wire_fields_hdr _ _ _ _ E) as [l'' ->].
  set (fs := hdr_fields _ _ _ _ ++ fs') in *.
  assert (Hok : bytes_ok (concat fs ++ rest)) by (by apply Forall_app).
  pose proof (field_shape_size _ _ Hs) as Hsz.
  assert (Hlen : (11 <= length (concat fs))%nat) by (rewrite Hsz; cbn; lia).
  unfold parse_message. rewrite (proj2 (Z.ltb_ge _ _)) by lia.
  rewrite (proj2 (Z.leb_le _ _)) by (unfold kOffPayload; lia).
  change (((concat fs ++ rest) !! kOffType)) with (Some (MessageType_to_byte (type m))).
  rewrite (be16_fld _ _ _ Hs Hok "locate" (locate m) eq_refl Hloc : be16 (drop kOffLocate _) = _).
  rewrite (be48_fld _ _ _ Hs Hok "timestamp" (timestamp m) eq_refl Hts
             : be48 (drop kOffTimestamp _) = _).
  cbn [mbind option_bind]. rewrite MessageType_of_to_byte by (eapply named_range, E).
  subst fs. rewrite (parse_body_enc _ _ _ _ _ _ _ _ _ E Hb Hr) by lia.
  by destruct m.
Qed.

(** ** Memory safety and typing *)

(** The union member a message type selects. *)
Definition member_of (t : MessageType) (b : Payload) : bool :=
  match t, b with
  | SystemEvent, system_event _ | StockDirectory, stock_directory _ _ _ _ _
  | StockTradingAction, trading_action _ _ _ | RegSHO, reg_sho _ _
  | AddOrder, add_order _ _ _ _ _ _ | AddOrderMPID, add_order _ _ _ _ _ _
  | OrderExecuted, order_executed _ _ _
  | OrderExecutedPrice, order_executed_price _ _ _ _ _ | OrderCancel, order_cancel _ _
  | OrderDelete, order_delete _ | OrderReplace, order_replace _ _ _ _
  | Trade, trade _ _ _ _ _ _ | CrossTrade, cross_trade _ _ _ _ _
  | BrokenTrade, broken_trade _ | NOII, noii _ _ _ _ _ _ _ _ _ | RPIIndicator, rpi _ _
  | MarketParticipant, no_payload | MWCBDecline, no_payload | MWCBStatus, no_payload
  | IPOQuotingPeriod, no_payload | LULDAuctionCollar, no_payload
  | OperationalHalt, no_payload => true
  | _, _ => false
  end.

Ltac field_total :=
  match goal with
  | |- is_Some (fld64 ?l ?f ?w ≫= _) =>
      let z := fresh "z" in destruct (fld64_total l f w) as [z ->]; [cbn in *; lia|]
  | |- is_Some (fld32 ?l ?f ?w ≫= _) =>
      let z := fresh "z" in destruct (fld32_total l f w) as [z ->]; [cbn in *; lia|]
  | |- is_Some (fld8 ?l ?f ?w ≫= _) =>
      let z := fresh "z" in destruct (fld8_total l f w) as [z ->]; [cbn in *; lia|]
  | |- is_Some (fldn ?l ?f ?n ?w ≫= _) =>
      let z := fresh "z" in destruct (fldn_total l f n w) as [z ->]; [cbn in *; lia|]
  end; cbn [mbind option_bind].

Ltac unfold_cases :=
  unfold parse_body, case_SystemEvent, case_StockDirectory, case_StockTradingAction,
    case_RegSHO, case_AddOrder, case_AddOrderMPID, case_OrderExecuted,
    case_OrderExecutedPrice, case_OrderCancel, case_OrderDelete, case_OrderReplace,
    case_Trade, case_CrossTrade, case_BrokenTrade, case_NOII, case_RPIIndicator, short in *.

Lemma parse_body_total t w len :
  len <= Z.of_nat (length w) -> is_Some (parse_body t w len).
Proof.
  intros Hlen. destruct t; unfold_cases; eauto;
    (match goal with |- context [Z.ltb ?a ?b] => destruct (Z.ltb_spec a b); [eauto|] end);
    repeat field_total; eauto.
Qed.

Lemma parse_message_total msg data len :
  len <= Z.of_nat (length data) -> (3 <= length data)%nat ->
  is_Some (parse_message msg data len).
Proof.
  intros Hlen H3. unfold parse_message. destruct (Z.ltb_spec len 1); [eauto|].
  destruct (lookup_lt_is_Some_2 data kOffType) as [c ->]; [unfold kOffType; lia|].
  cbn [mbind option_bind].
  destruct (be16_total (drop kOffLocate data)) as [loc ->];
    [rewrite length_drop; unfold kOffLocate; lia|].
  cbn [mbind option_bind].
  assert (is_Some (if Z.of_nat kOffPayload <=? len then be48 (drop kOffTimestamp data)
                   else Some (timestamp msg))) as [ts ->].
  { unfold kOffPayload, kOffTimestamp. destruct (Z.leb_spec (Z.of_nat 11) len); [|eauto].
    apply be48_total. rewrite length_drop. lia. }
  cbn [mbind option_bind].
  destruct (parse_body_total (MessageType_of_byte c) data len Hlen) as [r ->]. eauto.
Qed.

Lemma parse_body_typed t w len b :
  bytes_ok w -> parse_body t w len = Some (Some b) -> member_of t b = true /\ payload_ok b.
Proof.
  intros Hok H. destruct t; unfold_cases; try discriminate H;
    try (injection H as <-; done);
    (match type of H with context [Z.ltb ?x ?y] => destruct (Z.ltb x y); [discriminate|] end);
    opt_inv H; (split; [done|]); unfold payload_ok, text;
    repeat match goal with
      | H : fld64 _ _ _ = Some _ |- _ => apply fld64_range in H; [|done]
      | H : fld32 _ _ _ = Some _ |- _ => apply fld32_range in H; [|done]
      | H : fld8 _ _ _ = Some _ |- _ => apply fld8_range in H; [|done]
      | H : fldn _ _ _ _ = Some _ |- _ => apply fldn_range in H as [? ?]; [|done]
      end; unfold side_ok;
    repeat match goal with |- _ /\ _ => split end; eauto; by repeat constructor.
Qed.

Lemma parse_message_typed msg data len m :
  bytes_ok data -> in_range 48 (timestamp msg) ->
  parse_message msg data len = Some (Some m) ->
  member_of (type m) (body m) = true /\ msg_ok m /\ recv_timestamp m = recv_timestamp msg.
Proof.
  intros Hok Hts H. unfold parse_message in H.
  destruct (len <? 1); [discriminate|]. opt_inv H.
  match type of H with context [match ?b with Some _ => _ | None => _ end] =>
    destruct b eqn:Eb; [|discriminate] end.
  injection H as <-. simpl. subst.
  match goal with H : parse_body _ _ _ = _ |- _ => apply parse_body_typed in H as [? ?]; [|done] end.
  split; [done|]. split; [|done]. split; [|split; [|done]].
  - eapply be16_range; [|eassumption]. by apply bytes_ok_drop.
  - match goal with H : (if ?c then _ else _) = Some _ |- _ => destruct c end.
    + eapply be48_range; [|eassumption]. by apply bytes_ok_drop.
    + simpl in *. congruence.
Qed.

(** ** The message loop *)

(** What every produced message satisfies. *)
Definition produced (ts : Z) (m : ItchMsg) : Prop :=
  member_of (type m) (body m) = true /\ msg_ok m /\ recv_timestamp m = ts.

Lemma parse_loop_total fuel ts ptr rem max out :
  bytes_ok ptr -> (0 < rem -> rem + 2 <= Z.of_nat (length ptr)) -> (Z.to_nat rem < fuel)%nat ->
  exists new, parse_loop fuel ts ptr rem max out = Some (out ++ new)
    /\ Forall (produced ts) new
    /\ Z.of_nat (length (out ++ new)) <= Z.max (Z.of_nat (length out)) max.
Proof.
  revert ptr rem out. induction fuel as [|fuel IH]; intros ptr rem out Hok Hrem Hf; [lia|].
  cbn [parse_loop]. unfold sizeof_MoldUDP64MessageBlock.
  assert (Hstop : exists new, Some out = Some (out ++ new) /\ Forall (produced ts) new
    /\ Z.of_nat (length (out ++ new)) <= Z.max (Z.of_nat (length out)) max).
  { exists []. rewrite app_nil_r. split; [done|]. split; [constructor|lia]. }
  destruct (rem >? 0) eqn:E0; cbn [andb]; [|done]. apply Z.gtb_lt in E0.
  destruct (Z.ltb_spec (Z.of_nat (length out)) max) as [Hmax|]; [|done].
  destruct (Z.ltb_spec rem 2); [done|]. specialize (Hrem E0).
  rewrite block_get_length_spec by (done || lia). cbn [mbind option_bind].
  assert (Hn : in_range 16 (be_val (take 2 ptr))) by (apply (be_val_take_range 2); done || lia).
  set (n := be_val (take 2 ptr)) in *. unfold in_range in Hn.
  destruct (Z.eqb_spec n 0); [done|].
  destruct (n >? rem - 2) eqn:E1; [done|]. rewrite Z.gtb_ltb in E1. apply Z.ltb_ge in E1.
  destruct (parse_message_total (mkMsg UnknownType 0 0 ts no_payload) (drop 2 ptr) n)
    as [r Er]; [rewrite length_drop; lia..|].
  rewrite Er. cbn [mbind option_bind].
  destruct (IH (drop (Z.to_nat (2 + n)) ptr) (rem - (2 + n))
              (match r with Some m => out ++ [m] | None => out end)) as (new & -> & Hp & Hl).
  - by apply bytes_ok_drop.
  - rewrite length_drop. lia.
  - lia.
  - destruct r as [m|]; [|by exists new].
    exists (m :: new). rewrite <- app_assoc in *. split; [done|]. split.
    + constructor; [|done]. apply parse_message_typed in Er; [done|by apply bytes_ok_drop|].
      split; [done|reflexivity].
    + rewrite !length_app in *. simpl in *. lia.
Qed.

(** The message area of a packet that carries the messages [ms]. *)
Fixpoint encode_blocks (tracking : Z) (ms : list ItchMsg) : option bytes :=
  match ms with
  | [] => Some []
  | m :: ms' =>
      lf ← encode_message tracking m;
      rest ← encode_blocks tracking ms';
      Some (be_enc 2 (Z.of_nat (length (concat (snd lf)))) ++ concat (snd lf) ++ rest)
  end.

Lemma wire_fields_size t b l fs :
  wire_fields t b = Some (l, fs) -> (12 <= sizeof l <= 50)%nat.
Proof.
  destruct t; cbn [wire_fields]; try discriminate; destruct b; try discriminate;
    try (case_decide; [|discriminate]); intros [= <- _]; cbn; lia.
Qed.

Lemma encode_message_wf tracking m l fs :
  encode_message tracking m = Some (l, fs) -> msg_ok m ->
  bytes_ok (concat fs) /\ (12 <= length (concat fs) <= 50)%nat.
Proof.
  unfold encode_message. destruct (wire_fields _ _) as [[l' fs']|] eqn:E; [|done].
  intros Heq (_ & _ & Hb).
  assert (l = l' /\ fs = hdr_fields (type m) (locate m) tracking (timestamp m) ++ fs')
    as [-> ->] by (by injection Heq).
  destruct (wire_fields_wf _ _ _ _ (locate m) tracking (timestamp m) E Hb) as [Hs Hc].
  split; [done|]. rewrite (field_shape_size _ _ Hs). by eapply wire_fields_size.
Qed.

Lemma encode_blocks_ok tracking ms bs :
  encode_blocks tracking ms = Some bs -> Forall msg_ok ms -> bytes_ok bs.
Proof.
  intros H Hm. revert bs H. induction Hm as [|m ms Hok _ IH]; intros bs H; cbn in H.
  { injection H as <-. constructor. }
  opt_inv H. destruct x as [l fs].
  match goal with E : encode_message _ _ = _ |- _ => apply encode_message_wf in E as [Hc _]; [|done] end.
  unfold bytes_ok. rewrite !Forall_app. split; [apply be_enc_ok|]. split; [done|].
  by apply IH.
Qed.

(** One block is consumed per iteration: the loop returns the first messages
    of the packet, up to the size of the output buffer. *)
Lemma parse_loop_blocks fuel ts tracking ms bs rest max out :
  encode_blocks tracking ms = Some bs -> Forall msg_ok ms ->
  Forall (fun m => recv_timestamp m = ts) ms -> bytes_ok rest ->
  (length bs < fuel)%nat ->
  parse_loop fuel ts (bs ++ rest) (Z.of_nat (length bs)) max out =
    Some (out ++ take (Z.to_nat (max - Z.of_nat (length out))) ms).
Proof.
  intros He Hm. revert fuel bs out He.
  induction Hm as [|m ms Hok Hms IH]; intros fuel bs out He Hts Hr Hf;
    (destruct fuel as [|fuel]; [lia|]); cbn [encode_blocks] in He.
  { injection He as <-. cbn. by rewrite take_nil, app_nil_r. }
  opt_inv He. destruct x as [l fs]. cbn [snd] in *. inversion_clear Hts as [|?? Ht Hts'].
  match goal with E : encode_message _ _ = _ |- _ => rename E into Em end.
  match goal with E : encode_blocks _ _ = _ |- _ => rename E into Eb; rename x0 into bs end.
  destruct (encode_message_wf _ _ _ _ Em Hok) as [Hc Hlen].
  pose proof (encode_blocks_ok _ _ _ Eb Hms) as Hbs.
  rewrite !length_app, be_enc_length in Hf |- *.
  set (n := length (concat fs)) in *. cbn [parse_loop].
  unfold sizeof_MoldUDP64MessageBlock. rewrite (proj2 (Z.gtb_lt _ _)) by lia. cbn [andb].
  destruct (Z.ltb_spec (Z.of_nat (length out)) max) as [Hmax|Hmax].
  2: { replace (Z.to_nat (max - _)) with 0%nat by lia. by rewrite take_0, app_nil_r. }
  rewrite (proj2 (Z.ltb_ge _ 2)) by lia.
  rewrite <- !app_assoc.
  rewrite block_get_length_spec, take_be_enc, be_val_enc;
    [| repeat (apply Forall_app_2; [done || apply be_enc_ok|]); done
     | rewrite length_app, be_enc_length; lia ].
  rewrite Z.mod_small by (change (256 ^ Z.of_nat 2) with 65536; lia).
  cbn [mbind option_bind].
  destruct (Z.eqb_spec (Z.of_nat n) 0); [lia|].
  rewrite Z.gtb_ltb, (proj2 (Z.ltb_ge _ _)) by lia.
  rewrite (drop_app_length' (be_enc 2 _) _ 2) by (by rewrite be_enc_length). subst n.
  assert (Hr' : bytes_ok (bs ++ rest)) by (by apply Forall_app).
  rewrite <- Ht. rewrite (parse_message_enc _ _ _ _ (bs ++ rest) Em Hok Hr').
  rewrite Ht. cbn [mbind option_bind].
  rewrite app_assoc, drop_app_length' by (rewrite length_app, be_enc_length; lia).
  replace (Z.of_nat (2 + (_ + length bs)) - _) with (Z.of_nat (length bs)) by lia.
  rewrite IH by (done || lia).
  rewrite <- app_assoc, length_app. cbn [app length].
  replace (Z.to_nat (max - Z.of_nat (length out)))
    with (S (Z.to_nat (max - Z.of_nat (length out + 1)))) by lia.
  done.
Qed.

(** ** Properties *)

(** C20: round trip of a whole packet.  A MoldUDP64 packet that carries any
    list of well-formed ITCH messages of the sixteen decoded types is parsed
    back to exactly those messages, in order, with the receive timestamp
    stamped on each; when there are more of them than the caller's buffer
    holds, the first [max_msgs] are returned and the rest is dropped. *)
Theorem packet_roundtrip sess seq tracking ts ms bs max :
  bytes_ok sess -> length sess = 10%nat -> in_range 64 seq ->
  Z.of_nat (length ms) < MOLDUDP64_HEARTBEAT -> 0 < max ->
  Forall msg_ok ms -> Forall (fun m => recv_timestamp m = ts) ms ->
  encode_blocks tracking ms = Some bs ->
  exists r,
    mold_parse (mold_packet sess seq (Z.of_nat (length ms)) bs) (20 + Z.of_nat (length bs)) = Some r
    /\ session (header r) = sess /\ get_sequence (header r) = seq
    /\ parse ts r max = Some (take (Z.to_nat max) ms).
Proof.
  intros Hs Hl Hq Hn Hmax Hok Hts He. unfold MOLDUDP64_HEARTBEAT in Hn.
  destruct (mold_parse_packet sess seq (Z.of_nat (length ms)) bs)
    as (h & Hp & Hsess & Hseq & _); try done.
  { by eapply encode_blocks_ok. }
  { unfold in_range. lia. }
  exists (mkParseResult true h bs (Z.of_nat (length bs))).
  rewrite Hp. unfold MOLDUDP64_HEARTBEAT. rewrite (proj2 (Z.eqb_neq _ _)) by lia.
  repeat (split; [done|]). unfold parse. cbn [valid messages_begin messages_length negb].
  rewrite (proj2 (Z.leb_gt _ _)) by lia. cbn [orb].
  pose proof (parse_loop_blocks (S (length bs)) ts tracking ms bs [] max []
    He Hok Hts (Forall_nil_2 _) ltac:(lia)) as Hloop.
  rewrite app_nil_r in Hloop. rewrite Nat2Z.id, Hloop. cbn [app length]. by rewrite Z.sub_0_r.
Qed.

(** Any datagram with two more bytes behind it is parsed to the end. *)
Lemma parse_datagram data n ts :
  bytes_ok data -> n + 2 <= Z.of_nat (length data) ->
  exists r out, mold_parse data n = Some r
    /\ parse ts r MAX_MSGS_PER_PACKET = Some out
    /\ (length out <= 128)%nat /\ Forall (produced ts) out
    /\ Forall (fun m => type m <> InternalSessionReset) out.
Proof.
  intros Hok Hn. destruct (mold_parse_total data n) as [r Hr]; [lia|]. exists r.
  unfold parse, MAX_MSGS_PER_PACKET. cbn [Z.leb]. rewrite orb_false_r.
  destruct (valid r) eqn:Ev; cbn [negb]; [|exists []; split_and!; first [done|simpl; lia|constructor]].
  assert (Hrem : bytes_ok (messages_begin r) /\
    (0 < messages_length r -> messages_length r + 2 <= Z.of_nat (length (messages_begin r)))).
  { unfold mold_parse, sizeof_MoldUDP64Header in Hr. destruct (n <? 20).
    - injection Hr as <-. simpl. split; [constructor|lia].
    - opt_inv Hr. destruct (is_heartbeat _); opt_inv Hr; simpl.
      + split; [constructor|lia].
      + split; [by apply bytes_ok_drop|rewrite length_drop; lia]. }
  destruct Hrem as [Hok' Hrem].
  destruct (parse_loop_total (S (Z.to_nat (messages_length r))) ts (messages_begin r)
    (messages_length r) 128 [] Hok' Hrem ltac:(lia)) as (new & -> & Hp & Hlen).
  exists new. cbn [app length] in *. split; [done|]. split; [done|].
  split; [lia|]. split; [done|]. eapply Forall_impl; [exact Hp|].
  intros m [Hm _] E. by rewrite E in Hm.
Qed.

(** C21: memory safety and typing of the parser.  On any datagram that is
    followed by at least two more bytes in its buffer, parsing terminates
    without reading outside the buffer, produces at most the buffer's 128
    messages, and every message has the union member its type selects, fields
    in the range of their C++ types and the receive timestamp; in particular
    the internal reset sentinel can not be forged from the wire. *)
Theorem parse_safe data n ts :
  bytes_ok data -> n + 2 <= Z.of_nat (length data) ->
  exists r out, mold_parse data n = Some r
    /\ parse ts r MAX_MSGS_PER_PACKET = Some out
    /\ (length out <= 128)%nat /\ Forall (produced ts) out
    /\ Forall (fun m => type m <> InternalSessionReset) out.
Proof. apply parse_datagram. Qed.

(** The bound in [parse_safe] is needed.  [parse_message] reads the stock
    locate code before it looks at the length of the message, so a packet
    that ends with a one-byte message makes the parser read past the end of a
    buffer that holds exactly the packet. *)
Theorem short_message_overread sess seq c :
  bytes_ok sess -> length sess = 10%nat -> in_range 64 seq -> in_range 8 c ->
  exists r, mold_parse (mold_packet sess seq 1 [0; 1; c]) 23 = Some r
    /\ parse 0 r MAX_MSGS_PER_PACKET = None.
Proof.
  intros Hs Hl Hq Hc. destruct (mold_parse_packet sess seq 1 [0; 1; c]) as (h & Hp & _);
    try concrete.
  change (20 + Z.of_nat (length [0; 1; c])) with 23 in Hp. cbn [Z.eqb MOLDUDP64_HEARTBEAT] in Hp.
  eexists. split; [exact Hp|]. reflexivity.
Qed.

Definition msg_ex : ItchMsg :=
  mkMsg AddOrder 7 1000 55
    (add_order 9001 Buy 123400 100 [65; 65; 80; 76; 32; 32; 32; 32] [0; 0; 0; 0]).

Lemma packet_roundtrip_witness :
  exists bs r, encode_blocks 0 [msg_ex] = Some bs
    /\ mold_parse (mold_packet (replicate 10 84) 3 1 bs) (20 + Z.of_nat (length bs)) = Some r
    /\ parse 55 r 128 = Some [msg_ex].
Proof.
  destruct (encode_blocks 0 [msg_ex]) as [bs|] eqn:E; [|vm_compute in E; discriminate].
  destruct (packet_roundtrip (replicate 10 84) 3 0 55 [msg_ex] bs 128) as (r & H1 & _ & _ & H2).
  - cbn. concrete.
  - reflexivity.
  - concrete.
  - cbn. unfold MOLDUDP64_HEARTBEAT. lia.
  - lia.
  - repeat constructor; cbn; unfold text; concrete. exists 66. concrete.
  - repeat constructor.
  - exact E.
  - exists bs, r. split; [reflexivity|]. split; [exact H1|exact H2].
Defined.

Lemma parse_safe_witness :
  exists r out, mold_parse (replicate 40 0) 38 = Some r
    /\ parse 1 r MAX_MSGS_PER_PACKET = Some out /\ (length out <= 128)%nat.
Proof.
  destruct (parse_safe (replicate 40 0) 38 1) as (r & out & H1 & H2 & H3 & _).
  - cbn. concrete.
  - cbn. lia.
  - exists r, out. auto.
Defined.

Lemma short_message_overread_witness :
  exists r, mold_parse (mold_packet (replicate 10 84) 3 1 [0; 1; 65]) 23 = Some r
    /\ parse 0 r MAX_MSGS_PER_PACKET = None.
Proof. apply short_message_overread; cbn; concrete. Defined.
