(* ===== verification/Sequence.v ===== *)
(** * Sequence tracking and gap detection

    [SequenceTracker] ([include/protocol/sequence_tracker.hpp],
    [src/protocol/sequence_tracker.cpp]) and [GapDetector]
    ([include/recovery/gap_detector.hpp], [src/recovery/gap_detector.cpp]).
    The tracker has a single writer, so its relaxed atomics are plain fields;
    the clock read by [try_advance] is an argument. *)

From S2P Require Import Prelude Types.

Record GapInfo := mkGapInfo { start_seq : Z; end_seq : Z; detected_at_ns : Z }.

Record SequenceTracker := mkTracker {
  seq : Z;
  gap_count : Z;
  dup_count : Z;
  last_gap_start : Z;
  last_gap_end : Z;
  last_gap_ts : Z
}.

Definition tracker_init (initial : Z) : SequenceTracker := mkTracker initial 0 0 0 0 0.

Definition try_advance (now : Z) (t : SequenceTracker) (next_seq : Z) : bool * SequenceTracker :=
  let current := seq t in
  let expected := current +64 1 in
  if next_seq =? expected then
    (true, mkTracker next_seq (gap_count t) (dup_count t)
             (last_gap_start t) (last_gap_end t) (last_gap_ts t))
  else if next_seq >? expected then
    (false, mkTracker next_seq (gap_count t +64 1) (dup_count t)
              expected (next_seq -64 1) now)
  else
    (false, mkTracker current (gap_count t) (dup_count t +64 1)
              (last_gap_start t) (last_gap_end t) (last_gap_ts t)).

Definition reset (to : Z) (t : SequenceTracker) : SequenceTracker := mkTracker to 0 0 0 0 0.

Definition last_gap (t : SequenceTracker) : GapInfo :=
  mkGapInfo (last_gap_start t) (last_gap_end t) (last_gap_ts t).

(** ** Gap detector *)

Record GapRange := mkGapRange {
  gr_start_seq : Z;
  gr_end_seq : Z;
  gr_detected_at_ns : Z;
  recovery_sent : bool
}.

Definition GapRange0 : GapRange := mkGapRange 0 0 0 false.

Record GapDetector := mkGapDetector {
  gap_timeout_ns : Z;
  pending : bool;
  gap : GapRange
}.

Definition gap_detector_init (gap_timeout_ms : Z) : GapDetector :=
  mkGapDetector (u64 (gap_timeout_ms * 1000000)) false GapRange0.

Definition on_gap (info : GapInfo) (d : GapDetector) : GapDetector :=
  mkGapDetector (gap_timeout_ns d) true
    (mkGapRange (start_seq info) (end_seq info) (detected_at_ns info) false).

Definition mark_recovered (up_to_seq : Z) (d : GapDetector) : GapDetector :=
  if pending d && (up_to_seq >=? gr_end_seq (gap d))
  then mkGapDetector (gap_timeout_ns d) false GapRange0
  else d.

Definition mark_recovery_sent (d : GapDetector) : GapDetector :=
  mkGapDetector (gap_timeout_ns d) (pending d)
    (mkGapRange (gr_start_seq (gap d)) (gr_end_seq (gap d)) (gr_detected_at_ns (gap d)) true).

Definition should_request_recovery (now_ns : Z) (d : GapDetector) : bool :=
  if negb (pending d) || recovery_sent (gap d) then false
  else (now_ns -64 gr_detected_at_ns (gap d)) >=? gap_timeout_ns d.

(** ** Runs of the tracker

    What a call did, read off the counters as a caller would. *)
Inductive SeqEvent := InOrder (n : Z) | Gap (a b : Z) | Duplicate (n : Z).

Definition classify (now : Z) (t : SequenceTracker) (n : Z) : SeqEvent :=
  let (ok, t') := try_advance now t n in
  if ok then InOrder n
  else if gap_count t' =? gap_count t then Duplicate n
  else Gap (start_seq (last_gap t')) (end_seq (last_gap t')).

(** The clock values are supplied with the packets. *)
Fixpoint run (t : SequenceTracker) (ns : list (Z * Z)) : SequenceTracker * list SeqEvent :=
  match ns with
  | [] => (t, [])
  | (now, n) :: ns' =>
      let (t', es) := run (snd (try_advance now t n)) ns' in
      (t', classify now t n :: es)
  end.

(** ** Lemmas *)

Definition tracker_ok (t : SequenceTracker) : Prop :=
  0 <= seq t < 2 ^ 64 - 1 /\ in_range 64 (gap_count t).

(** The three outcomes of a call. *)
Lemma try_advance_cases now t n :
  tracker_ok t -> 0 <= n < 2 ^ 64 - 1 ->
  (n = seq t + 1 /\ classify now t n = InOrder n /\ fst (try_advance now t n) = true
     /\ seq (snd (try_advance now t n)) = n)
  \/ (seq t + 1 < n /\ classify now t n = Gap (seq t + 1) (n - 1)
     /\ fst (try_advance now t n) = false /\ seq (snd (try_advance now t n)) = n)
  \/ (n <= seq t /\ classify now t n = Duplicate n /\ fst (try_advance now t n) = false
     /\ seq (snd (try_advance now t n)) = seq t
     /\ last_gap (snd (try_advance now t n)) = last_gap t).
Proof.
  intros [Ht Hg] Hn. unfold classify, try_advance, last_gap, in_range in *.
  assert (Hexp : seq t +64 1 = seq t + 1) by (apply Z.mod_small; lia). rewrite Hexp.
  destruct (Z.eqb_spec n (seq t + 1)); [left; done|].
  rewrite Z.gtb_ltb. destruct (Z.ltb_spec (seq t + 1) n); cbn [fst snd seq gap_count start_seq
    end_seq last_gap_start last_gap_end].
  - right; left. split; [lia|]. rewrite (proj2 (Z.eqb_neq (gap_count t +64 1) _)).
    + split; [|done]. f_equal. apply Z.mod_small. lia.
    + unfold wrap. destruct (decide (gap_count t = 2 ^ 64 - 1)) as [->|]; [by vm_compute|].
      rewrite Z.mod_small; lia.
  - right; right. rewrite Z.eqb_refl. split_and!; try done. lia.
Qed.

Lemma try_advance_ok now t n :
  tracker_ok t -> 0 <= n < 2 ^ 64 - 1 -> tracker_ok (snd (try_advance now t n)).
Proof.
  intros [Ht Hg] Hn. unfold try_advance, tracker_ok.
  repeat case_match; simpl; split; try done; try (by apply wrap_range). 
Qed.

Lemma run_seq_mono t ns :
  tracker_ok t -> Forall (fun p => 0 <= snd p < 2 ^ 64 - 1) ns -> seq t <= seq (fst (run t ns)).
Proof.
  intros Ht H. revert t Ht. induction H as [|[now n] ns Hn _ IH]; intros t Ht; cbn; [lia|].
  specialize (IH _ (try_advance_ok now t n Ht Hn)).
  destruct (run _ ns) as [t' es]. cbn in *.
  pose proof (try_advance_cases now t n Ht Hn) as HC. simpl in Hn. intuition lia.
Qed.

(** ** Properties *)

(** C28: completeness of the tracker.  Over any run of received sequence
    numbers, every number between the starting position and the final one was
    either received in the run or lies in a gap that was reported; nothing is
    skipped silently. *)
Theorem run_accounts_for_all t ns k :
  tracker_ok t -> Forall (fun p => 0 <= snd p < 2 ^ 64 - 1) ns ->
  seq t < k <= seq (fst (run t ns)) ->
  k ∈ (snd <$> ns) \/ exists a b, Gap a b ∈ snd (run t ns) /\ a <= k <= b.
Proof.
  intros Ht H. revert t Ht. induction H as [|[now n] ns Hn Hns IH]; intros t Ht Hk; [cbn in Hk; lia|].
  pose proof (try_advance_ok now t n Ht Hn) as Ht'.
  specialize (IH _ Ht'). pose proof (run_seq_mono _ ns Ht' Hns) as Hmono.
  cbn [run fmap list_fmap snd] in *.
  destruct (run (snd (try_advance now t n)) ns) as [t' es]. cbn [fst snd] in *.
  assert (Hrest : seq (snd (try_advance now t n)) < k ->
    k ∈ n :: (snd <$> ns) \/ exists a b, Gap a b ∈ classify now t n :: es /\ a <= k <= b).
  { intros Hlt. destruct IH as [?|(a & b & ? & ?)]; [lia|left; by right|].
    right. exists a, b. split; [by right|lia]. }
  destruct (try_advance_cases now t n Ht Hn) as [(? & _ & _ & E)|[(? & Ec & _ & E)|(? & _ & _ & E & _)]].
  - destruct (decide (k = n)); [left; subst; by left|]. apply Hrest. lia.
  - destruct (decide (k <= n - 1)).
    + right. exists (seq t + 1), (n - 1). rewrite Ec. split; [by left|lia].
    + destruct (decide (k = n)); [left; subst; by left|]. apply Hrest. lia.
  - apply Hrest. lia.
Qed.

(** What one call of [try_advance] does, on each branch: the expected
    number is accepted; a larger one is accepted too but reports exactly the
    missing range, and the reported range is what [last_gap] returns; a number
    at or below the current one changes neither the position nor the gap. *)
Theorem try_advance_spec now t n :
  tracker_ok t -> 0 <= n < 2 ^ 64 - 1 ->
  match Z.compare n (seq t + 1) with
  | Eq => try_advance now t n = (true, mkTracker n (gap_count t) (dup_count t)
            (last_gap_start t) (last_gap_end t) (last_gap_ts t))
  | Gt => fst (try_advance now t n) = false /\ seq (snd (try_advance now t n)) = n
          /\ last_gap (snd (try_advance now t n)) = mkGapInfo (seq t + 1) (n - 1) now
  | Lt => fst (try_advance now t n) = false /\ seq (snd (try_advance now t n)) = seq t
          /\ last_gap (snd (try_advance now t n)) = last_gap t
          /\ gap_count (snd (try_advance now t n)) = gap_count t
  end.
Proof.
  intros [Ht Hg] Hn. unfold try_advance, last_gap.
  assert (Hexp : seq t +64 1 = seq t + 1) by (apply Z.mod_small; lia). rewrite Hexp.
  destruct (Z.compare_spec n (seq t + 1)) as [->|Hlt|Hgt].
  - by rewrite Z.eqb_refl.
  - rewrite (proj2 (Z.eqb_neq _ _)), Z.gtb_ltb, (proj2 (Z.ltb_ge _ _)) by lia. done.
  - rewrite (proj2 (Z.eqb_neq _ _)), Z.gtb_ltb, (proj2 (Z.ltb_lt _ _)) by lia. simpl.
    split_and!; try done. f_equal. apply Z.mod_small. lia.
Qed.

(** A retransmission is requested once per gap.  From the moment a request
    is marked as sent, the detector asks for none until a new gap is reported,
    whatever the clock reads and however many sequence numbers are recovered. *)
Theorem request_sent_once d (ops : list Z) now :
  should_request_recovery now
    (foldr mark_recovered (mark_recovery_sent d) ops) = false.
Proof.
  assert (H : let d' := foldr mark_recovered (mark_recovery_sent d) ops in
              pending d' = false \/ recovery_sent (gap d') = true).
  { induction ops as [|s ops IH]; simpl; [by right|].
    set (d' := foldr _ _ _) in *. unfold mark_recovered.
    destruct (pending d' && _); [by left|done]. }
  unfold should_request_recovery. destruct H as [-> | ->]; [done|].
  by rewrite orb_true_r.
Qed.

(** A reported gap is requested exactly from its timeout on: with a clock
    that has not run backwards since the detection, the first request comes
    when [now - detected] reaches the configured timeout. *)
Theorem request_after_timeout d info now :
  0 <= detected_at_ns info <= now -> now < 2 ^ 64 ->
  should_request_recovery now (on_gap info d) = (gap_timeout_ns d <=? now - detected_at_ns info).
Proof.
  intros H1 H2. unfold should_request_recovery, on_gap. simpl.
  unfold wrap. rewrite Z.mod_small by lia. apply Z.geb_leb.
Qed.

Lemma run_accounts_for_all_witness :
  5 ∈ (snd <$> [(0, 1); (0, 4); (0, 2); (0, 6)]) \/
  exists a b, Gap a b ∈ snd (run (tracker_init 0) [(0, 1); (0, 4); (0, 2); (0, 6)]) /\ a <= 5 <= b.
Proof.
  apply (run_accounts_for_all (tracker_init 0) [(0, 1); (0, 4); (0, 2); (0, 6)] 5);
    unfold tracker_ok; cbn; concrete.
Defined.

Lemma try_advance_spec_witness :
  fst (try_advance 9 (tracker_init 10) 15) = false
  /\ seq (snd (try_advance 9 (tracker_init 10) 15)) = 15
  /\ last_gap (snd (try_advance 9 (tracker_init 10) 15)) = mkGapInfo 11 14 9.
Proof. apply (try_advance_spec 9 (tracker_init 10) 15); unfold tracker_ok; cbn; concrete. Defined.

Lemma request_after_timeout_witness :
  should_request_recovery 700000000 (on_gap (mkGapInfo 3 5 100) (gap_detector_init 500)) = true.
Proof.
  rewrite (request_after_timeout (gap_detector_init 500) (mkGapInfo 3 5 100) 700000000);
    [reflexivity|cbn; lia|lia].
Defined.
