(* ===== verification/Spsc.v ===== *)
(** * Single-producer single-consumer queue

    [SpscQueue<T, Capacity>] of [include/concurrency/spsc_queue.hpp].  Module
    [Seq] gives each operation as one function, for the components that use a
    queue from one thread at a time; module [Conc] splits the operations at
    every access to a shared variable and lets producer and consumer
    interleave.  Class [Fifo] is what the other components rely on. *)

From S2P Require Import Prelude Types.

(** ** The interface the clients use *)

Class FifoOps (Q A : Type) := {
  try_push : Q -> A -> bool * Q;
  try_pop : Q -> option A * Q;
  size_approx : Q -> Z;
  items : Q -> list A;
  fifo_cap : Q -> nat;
  fifo_ok : Q -> Prop
}.

Class Fifo (Q A : Type) `{FifoOps Q A} := {
  push_ok q x : fifo_ok q -> (length (items q) < fifo_cap q)%nat ->
    fst (try_push q x) = true /\ items (snd (try_push q x)) = items q ++ [x];
  push_full q x : fifo_ok q -> (fifo_cap q <= length (items q))%nat ->
    fst (try_push q x) = false /\ items (snd (try_push q x)) = items q;
  push_keeps q x : fifo_ok q ->
    fifo_ok (snd (try_push q x)) /\ fifo_cap (snd (try_push q x)) = fifo_cap q;
  pop_head q x l : fifo_ok q -> items q = x :: l ->
    fst (try_pop q) = Some x /\ items (snd (try_pop q)) = l;
  pop_empty q : fifo_ok q -> items q = [] ->
    fst (try_pop q) = None /\ items (snd (try_pop q)) = [];
  pop_keeps q : fifo_ok q ->
    fifo_ok (snd (try_pop q)) /\ fifo_cap (snd (try_pop q)) = fifo_cap q;
  size_exact q : fifo_ok q -> size_approx q = Z.of_nat (length (items q));
  cap_bound q : fifo_ok q -> (length (items q) <= fifo_cap q)%nat
}.

(** ** Sequential operations *)

Module Seq.

Record SpscQueue (A : Type) := mkSpsc {
  write_pos : Z;
  cached_read_pos : Z;
  buffer : list A;
  cached_write_pos : Z;
  read_pos : Z
}.

Arguments mkSpsc {A}.
Arguments write_pos {A}.
Arguments cached_read_pos {A}.
Arguments buffer {A}.
Arguments cached_write_pos {A}.
Arguments read_pos {A}.

(** [Capacity] is the length of the buffer array. *)
Definition Capacity {A} (q : SpscQueue A) : Z := Z.of_nat (length (buffer q)).

Definition slot_of {A} (q : SpscQueue A) (pos : Z) : nat :=
  Z.to_nat (Z.land pos (Capacity q - 1)).

Definition push {A} (q : SpscQueue A) (item : A) : bool * SpscQueue A :=
  let write := write_pos q in
  let do_write cached_read :=
    (true, mkSpsc (write +64 1) cached_read (<[slot_of q write := item]> (buffer q))
             (cached_write_pos q) (read_pos q)) in
  if (write -64 cached_read_pos q) >=? Capacity q then
    let cached_read := read_pos q in
    if (write -64 cached_read) >=? Capacity q then
      (false, mkSpsc write cached_read (buffer q) (cached_write_pos q) (read_pos q))
    else do_write cached_read
  else do_write (cached_read_pos q).

Definition pop {A} (q : SpscQueue A) : option A * SpscQueue A :=
  let read := read_pos q in
  let do_read cached_write :=
    (buffer q !! slot_of q read,
     mkSpsc (write_pos q) (cached_read_pos q) (buffer q) cached_write (read +64 1)) in
  if read =? cached_write_pos q then
    let cached_write := write_pos q in
    if read =? cached_write then
      (None, mkSpsc (write_pos q) (cached_read_pos q) (buffer q) cached_write read)
    else do_read cached_write
  else do_read (cached_write_pos q).

Definition size {A} (q : SpscQueue A) : Z := write_pos q -64 read_pos q.

Definition is_pressure_high {A} (q : SpscQueue A) (high_watermark : Z) : bool :=
  (write_pos q -64 read_pos q) >=? high_watermark.

(** The constructed queue; the array elements are default-constructed. *)
Definition init {A} (cap : nat) (d : A) : SpscQueue A := mkSpsc 0 0 (replicate cap d) 0 0.

(** The contents: the slots from the read to the write position. *)
Definition contents {A} (q : SpscQueue A) : list A :=
  omap (fun i => buffer q !! slot_of q (read_pos q +64 Z.of_nat i))
    (seq 0 (Z.to_nat (size q))).

End Seq.

(** ** Interleaved operations

    Every access to [write_pos_], [read_pos_] and the buffer is one step.
    The ghost fields record the items whose push and pop have completed. *)

Module Conc.
Import Seq.

(** Program counters: inside [try_push] about to reload the read position, to
    write the slot, or to publish; inside [try_pop] likewise. *)
Inductive producer_pc (A : Type) := PIdle | PLoad (x : A) | PWrite (x : A) | PStore (x : A).
Inductive consumer_pc (A : Type) := CIdle | CLoad | CRead | CStore (x : A).

Arguments PIdle {A}.
Arguments PLoad {A}.
Arguments PWrite {A}.
Arguments PStore {A}.
Arguments CIdle {A}.
Arguments CLoad {A}.
Arguments CRead {A}.
Arguments CStore {A}.

Record state (A : Type) := mkState {
  queue : SpscQueue A;
  ppc : producer_pc A;
  cpc : consumer_pc A;
  pushed : list A;
  popped : list A
}.

Arguments mkState {A}.
Arguments queue {A}.
Arguments ppc {A}.
Arguments cpc {A}.
Arguments pushed {A}.
Arguments popped {A}.

Definition room {A} (q : SpscQueue A) (cached_read : Z) : bool :=
  negb ((write_pos q -64 cached_read) >=? Capacity q).

Definition set_cached_read {A} (q : SpscQueue A) (v : Z) : SpscQueue A :=
  mkSpsc (write_pos q) v (buffer q) (cached_write_pos q) (read_pos q).
Definition set_cached_write {A} (q : SpscQueue A) (v : Z) : SpscQueue A :=
  mkSpsc (write_pos q) (cached_read_pos q) (buffer q) v (read_pos q).
Definition write_slot {A} (q : SpscQueue A) (x : A) : SpscQueue A :=
  mkSpsc (write_pos q) (cached_read_pos q) (<[slot_of q (write_pos q) := x]> (buffer q))
    (cached_write_pos q) (read_pos q).
Definition publish {A} (q : SpscQueue A) : SpscQueue A :=
  mkSpsc (write_pos q +64 1) (cached_read_pos q) (buffer q) (cached_write_pos q) (read_pos q).
Definition release {A} (q : SpscQueue A) : SpscQueue A :=
  mkSpsc (write_pos q) (cached_read_pos q) (buffer q) (cached_write_pos q) (read_pos q +64 1).

Inductive step {A} : state A -> state A -> Prop :=
  | push_enter q c xs ys x :
      step (mkState q PIdle c xs ys)
           (mkState q (if room q (cached_read_pos q) then PWrite x else PLoad x) c xs ys)
  | push_reload q c xs ys x :
      step (mkState q (PLoad x) c xs ys)
           (mkState (set_cached_read q (read_pos q))
              (if room q (read_pos q) then PWrite x else PIdle) c xs ys)
  | push_write q c xs ys x :
      step (mkState q (PWrite x) c xs ys) (mkState (write_slot q x) (PStore x) c xs ys)
  | push_publish q c xs ys x :
      step (mkState q (PStore x) c xs ys) (mkState (publish q) PIdle c (xs ++ [x]) ys)
  | pop_enter q p xs ys :
      step (mkState q p CIdle xs ys)
           (mkState q p (if read_pos q =? cached_write_pos q then CLoad else CRead) xs ys)
  | pop_reload q p xs ys :
      step (mkState q p CLoad xs ys)
           (mkState (set_cached_write q (write_pos q)) p
              (if read_pos q =? write_pos q then CIdle else CRead) xs ys)
  | pop_read q p xs ys x :
      buffer q !! slot_of q (read_pos q) = Some x ->
      step (mkState q p CRead xs ys) (mkState q p (CStore x) xs ys)
  | pop_release q p xs ys x :
      step (mkState q p (CStore x) xs ys) (mkState (release q) p CIdle xs (ys ++ [x])).

Definition init_state {A} (cap : nat) (d : A) : state A :=
  mkState (init cap d) PIdle CIdle [] [].

(** The invariant: positions are the numbers of completed operations modulo
    2^64, the cached positions are stale on the safe side, the live slots hold
    the items not yet popped, and each program counter carries what it has
    already checked. *)
Definition slot_at (cap : Z) (i : Z) : nat := Z.to_nat (i mod cap).

Record inv {A} (k : Z) (s : state A) : Prop := mkInv {
  inv_k : 0 <= k < 63;
  inv_cap : Capacity (queue s) = 2 ^ k;
  inv_write : write_pos (queue s) = u64 (Z.of_nat (length (pushed s)));
  inv_read : read_pos (queue s) = u64 (Z.of_nat (length (popped s)));
  inv_prefix : popped s `prefix_of` pushed s;
  inv_producer : exists cr,
    cached_read_pos (queue s) = u64 cr
    /\ 0 <= cr <= Z.of_nat (length (popped s)) /\ Z.of_nat (length (pushed s)) - cr <= 2 ^ k
    /\ match ppc s with
       | PIdle | PLoad _ => True
       | PWrite _ => Z.of_nat (length (pushed s)) - cr < 2 ^ k
       | PStore x => Z.of_nat (length (pushed s)) - cr < 2 ^ k
           /\ buffer (queue s) !! slot_at (2 ^ k) (Z.of_nat (length (pushed s))) = Some x
       end;
  inv_consumer : exists cw,
    cached_write_pos (queue s) = u64 cw
    /\ Z.of_nat (length (popped s)) <= cw <= Z.of_nat (length (pushed s))
    /\ match cpc s with
       | CIdle | CLoad => True
       | CRead => Z.of_nat (length (popped s)) < cw
       | CStore x => Z.of_nat (length (popped s)) < cw /\ pushed s !! length (popped s) = Some x
       end;
  inv_buffer : forall i x, (length (popped s) <= i)%nat -> pushed s !! i = Some x ->
    buffer (queue s) !! slot_at (2 ^ k) (Z.of_nat i) = Some x
}.

(** *** Lemmas on positions *)

Lemma sub64 a b : 0 <= a - b < 2 ^ 64 -> (u64 a -64 u64 b) = a - b.
Proof. intros. unfold wrap. rewrite <- Zminus_mod. by apply Z.mod_small. Qed.

Lemma u64_eq a b : 0 <= a - b < 2 ^ 64 -> (u64 a =? u64 b) = (a =? b).
Proof.
  intros H. destruct (Z.eqb_spec a b) as [->|Hne]; [by apply Z.eqb_refl|].
  apply Z.eqb_neq. intros E. pose proof (sub64 a b H) as Hs. rewrite E in Hs.
  rewrite Z.sub_diag in Hs. unfold wrap in Hs. rewrite Z.mod_0_l in Hs by lia. lia.
Qed.

Lemma u64_succ a : (u64 a +64 1) = u64 (a + 1).
Proof. apply wrap_add_l. Qed.

Lemma slot_of_at {A} (q : SpscQueue A) k i :
  0 <= k < 63 -> Capacity q = 2 ^ k -> slot_of q (u64 i) = slot_at (2 ^ k) i.
Proof.
  intros Hk Hc. unfold slot_of, slot_at. rewrite Hc, land_mask by lia. f_equal.
  unfold wrap. apply Z.mod_mod_divide.
  exists (2 ^ (64 - k)). rewrite <- Z.pow_add_r by lia. f_equal. lia.
Qed.

Lemma slot_at_ne cap i j : 0 < i - j < cap -> slot_at cap i <> slot_at cap j.
Proof.
  intros H E. unfold slot_at in E.
  apply Z2Nat.inj in E; [|apply Z.mod_pos_bound; lia..].
  assert (H0 : (i - j) mod cap = 0) by (rewrite Zminus_mod, E, Z.sub_diag; apply Z.mod_0_l; lia).
  rewrite Z.mod_small in H0; lia.
Qed.

Lemma slot_at_bound {A} (q : SpscQueue A) k i :
  0 <= k -> Capacity q = 2 ^ k -> (slot_at (2 ^ k) i < length (buffer q))%nat.
Proof.
  intros Hk Hc. unfold slot_at, Capacity in *.
  pose proof (Z.mod_pos_bound i (2 ^ k) ltac:(apply Z.pow_pos_nonneg; lia)). lia.
Qed.

Lemma pow_lt_64 k : 0 <= k < 63 -> 2 ^ k < 2 ^ 64.
Proof. intros. apply Z.pow_lt_mono_r; lia. Qed.

(** *** Preservation *)

Lemma inv_init {A} k (d : A) : 0 <= k < 63 -> inv k (init_state (Z.to_nat (2 ^ k)) d).
Proof.
  intros Hk. pose proof (Z.pow_pos_nonneg 2 k ltac:(lia) ltac:(lia)). constructor; simpl; try done.
  - unfold Capacity. simpl. rewrite length_replicate. lia.
  - exists 0. split_and!; done || lia.
  - exists 0. split_and!; done || lia.
Qed.

Ltac open_inv I :=
  destruct I as [Hk Hcap Hw Hr Hpre (cr & Hcr & Hcr1 & Hcr2 & Hp) (cw & Hcw & Hcw1 & Hc) Hbuf];
  simpl in *; pose proof (pow_lt_64 _ Hk); pose proof (prefix_length _ _ Hpre).

Lemma room_spec {A} (q : SpscQueue A) k w c :
  Capacity q = 2 ^ k -> write_pos q = u64 w -> 0 <= w - c < 2 ^ 64 ->
  room q (u64 c) = (w - c <? 2 ^ k).
Proof.
  intros Hc Hw Hd. unfold room. rewrite Hc, Hw, sub64, Z.geb_leb, <- Z.ltb_antisym by done. done.
Qed.

Lemma inv_push_steps {A} k (s s' : state A) :
  inv k s ->
  (exists x, s' = mkState (queue s) (if room (queue s) (cached_read_pos (queue s))
               then PWrite x else PLoad x) (cpc s) (pushed s) (popped s) /\ ppc s = PIdle)
  \/ (exists x, ppc s = PLoad x /\
       s' = mkState (set_cached_read (queue s) (read_pos (queue s)))
              (if room (queue s) (read_pos (queue s)) then PWrite x else PIdle)
              (cpc s) (pushed s) (popped s)) ->
  inv k s'.
Proof.
  destruct s as [q p c xs ys]. intros I [(x & -> & E)|(x & E & ->)]; simpl in E; subst p; open_inv I.
  - rewrite Hcr, (room_spec q k (Z.of_nat (length xs)) cr Hcap Hw) by lia.
    constructor; simpl; try done.
    + exists cr. split_and!; try done; try lia. destruct (Z.ltb_spec (Z.of_nat (length xs) - cr) (2 ^ k)); simpl; first [done | lia].
    + exists cw. done.
  - rewrite Hr, (room_spec q k (Z.of_nat (length xs)) (Z.of_nat (length ys)) Hcap Hw) by lia.
    constructor; simpl; try done.
    + exists (Z.of_nat (length ys)). split_and!; try done; try lia.
      destruct (Z.ltb_spec (Z.of_nat (length xs) - Z.of_nat (length ys)) (2 ^ k)); simpl; first [done | lia].
    + exists cw. done.
Qed.

Lemma inv_push_write {A} k q c (xs ys : list A) x :
  inv k (mkState q (PWrite x) c xs ys) -> inv k (mkState (write_slot q x) (PStore x) c xs ys).
Proof.
  intros I. open_inv I. constructor; simpl; try done.
  - unfold Capacity in *. simpl. by rewrite length_insert.
  - exists cr. split_and!; try done; try lia. rewrite Hw, (slot_of_at q k) by done.
    rewrite list_lookup_insert_eq; [done|]. apply slot_at_bound; [lia|done].
  - exists cw. done.
  - intros i y Hi Hy. rewrite Hw, (slot_of_at q k) by done.
    rewrite list_lookup_insert_ne; [by apply Hbuf|].
    apply lookup_lt_Some in Hy. apply slot_at_ne. lia.
Qed.

Lemma inv_push_publish {A} k q c (xs ys : list A) x :
  inv k (mkState q (PStore x) c xs ys) -> inv k (mkState (publish q) PIdle c (xs ++ [x]) ys).
Proof.
  intros I. open_inv I. destruct Hp as [Hp1 Hp2].
  assert (Hlen : Z.of_nat (length (xs ++ [x])) = Z.of_nat (length xs) + 1)
    by (rewrite length_app; simpl; lia).
  constructor; simpl; rewrite ?Hlen; try done.
  - by rewrite Hw, u64_succ.
  - by apply prefix_app_r.
  - exists cr. split_and!; try done; lia.
  - exists cw. split_and!; try done; try lia. destruct c; try done.
    destruct Hc as [? Hx]. split; [done|]. by apply lookup_app_l_Some.
  - intros i y Hi Hy. apply lookup_app_Some in Hy as [Hy|[Hge Hy]]; [by apply Hbuf|].
    apply list_lookup_singleton_Some in Hy as [Hi0 <-]. by replace i with (length xs) by lia.
Qed.

Lemma inv_pop_steps {A} k (s s' : state A) :
  inv k s ->
  (cpc s = CIdle /\ s' = mkState (queue s) (ppc s)
     (if read_pos (queue s) =? cached_write_pos (queue s) then CLoad else CRead)
     (pushed s) (popped s))
  \/ (cpc s = CLoad /\ s' = mkState (set_cached_write (queue s) (write_pos (queue s))) (ppc s)
     (if read_pos (queue s) =? write_pos (queue s) then CIdle else CRead) (pushed s) (popped s)) ->
  inv k s'.
Proof.
  destruct s as [q p c xs ys]. intros I [[E ->]|[E ->]]; simpl in E; subst c; open_inv I.
  - rewrite Hr, Hcw, Z.eqb_sym, u64_eq by lia.
    constructor; simpl; try done; [exists cr; done|].
    exists cw. split_and!; try done; try lia. destruct (Z.eqb_spec cw (Z.of_nat (length ys))); simpl; [done|lia].
  - rewrite Hr, Hw, Z.eqb_sym, u64_eq by lia.
    constructor; simpl; try done; [exists cr; done|].
    exists (Z.of_nat (length xs)). split_and!; try done; try lia.
    destruct (Z.eqb_spec (Z.of_nat (length xs)) (Z.of_nat (length ys))); simpl; [done|lia].
Qed.

Lemma inv_pop_read {A} k q p (xs ys : list A) x :
  inv k (mkState q p CRead xs ys) -> buffer q !! slot_of q (read_pos q) = Some x ->
  inv k (mkState q p (CStore x) xs ys).
Proof.
  intros I Hx. open_inv I. constructor; simpl; try done; [exists cr; done|].
  exists cw. split_and!; try done; try lia.
  destruct (lookup_lt_is_Some_2 xs (length ys)) as [y Hy]; [lia|].
  rewrite Hr, (slot_of_at q k) in Hx by done.
  rewrite (Hbuf (length ys) y) in Hx by (done || lia). congruence.
Qed.

Lemma inv_pop_release {A} k q p (xs ys : list A) x :
  inv k (mkState q p (CStore x) xs ys) -> inv k (mkState (release q) p CIdle xs (ys ++ [x])).
Proof.
  intros I. open_inv I. destruct Hc as [Hc1 Hc2].
  assert (Hlen : Z.of_nat (length (ys ++ [x])) = Z.of_nat (length ys) + 1)
    by (rewrite length_app; simpl; lia).
  constructor; simpl; rewrite ?Hlen; try done.
  - by rewrite Hr, u64_succ.
  - destruct Hpre as [zs ->]. rewrite lookup_app_r, Nat.sub_diag in Hc2 by lia.
    destruct zs as [|z zs]; [done|]. injection Hc2 as ->. exists zs. by rewrite <- app_assoc.
  - exists cr. split_and!; try done; lia.
  - exists cw. split_and!; try done; lia.
  - intros i y Hi. apply Hbuf. rewrite length_app in Hi. lia.
Qed.

Lemma inv_step {A} k (s s' : state A) : inv k s -> step s s' -> inv k s'.
Proof.
  intros I Hs. destruct Hs.
  - eapply inv_push_steps; [exact I|]. left. by eexists.
  - eapply inv_push_steps; [exact I|]. right. by eexists.
  - by apply inv_push_write.
  - by apply inv_push_publish.
  - eapply inv_pop_steps; [exact I|]. by left.
  - eapply inv_pop_steps; [exact I|]. by right.
  - by apply inv_pop_read.
  - by apply inv_pop_release.
Qed.

Lemma inv_reachable {A} k (d : A) s :
  0 <= k < 63 -> steps step (init_state (Z.to_nat (2 ^ k)) d) s -> inv k s.
Proof.
  intros Hk Hs. eapply (steps_invariant step (inv k)); [|exact Hs|by apply inv_init].
  intros a b Ia Hstep. by eapply inv_step.
Qed.

(** *** The sequential operations as uninterrupted runs of steps *)

Lemma push_steps {A} (q : SpscQueue A) c xs ys x :
  steps step (mkState q PIdle c xs ys)
    (mkState (snd (push q x)) PIdle c (if fst (push q x) then xs ++ [x] else xs) ys).
Proof.
  unfold push. destruct (Z.geb (write_pos q -64 cached_read_pos q) (Capacity q)) eqn:E1;
    [destruct (Z.geb (write_pos q -64 read_pos q) (Capacity q)) eqn:E2|]; simpl.
  - eapply steps_cons; [apply (push_enter q c xs ys x)|]. unfold room at 1. rewrite E1. simpl.
    eapply steps_cons; [apply push_reload|]. unfold room at 1. rewrite E2. apply steps_refl.
  - eapply steps_cons; [apply (push_enter q c xs ys x)|]. unfold room at 1. rewrite E1. simpl.
    eapply steps_cons; [apply push_reload|]. unfold room at 1. rewrite E2. simpl.
    eapply steps_cons; [apply push_write|]. eapply steps_cons; [apply push_publish|].
    apply steps_refl.
  - eapply steps_cons; [apply (push_enter q c xs ys x)|]. unfold room at 1. rewrite E1. simpl.
    eapply steps_cons; [apply push_write|]. eapply steps_cons; [apply push_publish|].
    destruct q. apply steps_refl.
Qed.

Lemma inv_live_slot {A} k (s : state A) x :
  inv k s -> pushed s !! length (popped s) = Some x ->
  buffer (queue s) !! slot_of (queue s) (read_pos (queue s)) = Some x.
Proof.
  intros I Hx. rewrite (inv_read _ _ I), (slot_of_at _ k) by apply I.
  by apply (inv_buffer _ _ I).
Qed.

Lemma pop_steps {A} k (q : SpscQueue A) p xs ys :
  inv k (mkState q p CIdle xs ys) ->
  fst (pop q) = xs !! length ys
  /\ steps step (mkState q p CIdle xs ys)
       (mkState (snd (pop q)) p CIdle xs (ys ++ option_list (fst (pop q)))).
Proof.
  intros I. pose proof I as I'. open_inv I'.
  pose proof (pop_enter q p xs ys) as S1. pose proof (pop_reload q p xs ys) as S2.
  assert (Hread : forall cw', Z.of_nat (length ys) < Z.of_nat (length xs) ->
    exists x, xs !! length ys = Some x /\ buffer q !! slot_of q (read_pos q) = Some x
    /\ steps step (mkState (set_cached_write q cw') p CRead xs ys)
         (mkState (release (set_cached_write q cw')) p CIdle xs (ys ++ [x]))).
  { intros cw' Hlt. destruct (lookup_lt_is_Some_2 xs (length ys)) as [x Hx]; [lia|].
    pose proof (inv_live_slot k _ x I Hx) as Hb. simpl in Hb. exists x. split_and!; try done.
    eapply steps_cons; [by apply (pop_read _ p xs ys x)|].
    eapply steps_cons; [apply pop_release|]. apply steps_refl. }
  unfold pop. revert S1 S2.
  rewrite Hr, Hcw, Hw, !(Z.eqb_sym (wrap 64 (Z.of_nat (length ys)))), !u64_eq by lia.
  intros S1 S2. destruct (Z.eqb_spec cw (Z.of_nat (length ys))) as [E|E].
  - destruct (Z.eqb_spec (Z.of_nat (length xs)) (Z.of_nat (length ys))) as [E2|E2]; simpl.
    + rewrite lookup_ge_None_2, app_nil_r by lia. split; [done|].
      eapply steps_cons; [exact S1|]. eapply steps_cons; [exact S2|].
      unfold set_cached_write. rewrite Hr, Hw. apply steps_refl.
    + destruct (Hread (u64 (Z.of_nat (length xs)))) as (x & Hx & Hb & Hs); [lia|].
      rewrite Hr in Hb. rewrite Hb, Hx. split; [done|].
      eapply steps_cons; [exact S1|]. eapply steps_cons; [exact S2|].
      unfold release in Hs. simpl in Hs. rewrite Hr, Hw in Hs. exact Hs.
  - destruct (Hread (u64 cw)) as (x & Hx & Hb & Hs); [lia|].
    simpl. rewrite Hr in Hb. rewrite Hb, Hx. split; [done|].
    eapply steps_cons; [exact S1|]. unfold release in Hs. simpl in Hs. rewrite Hr, Hw in Hs.
    assert (Hq : set_cached_write q (u64 cw) = q) by (destruct q; simpl in *; by subst).
    by rewrite Hq in Hs.
Qed.

Lemma inv_steps {A} k (s s' : state A) : steps step s s' -> inv k s -> inv k s'.
Proof. apply steps_invariant. intros. by eapply inv_step. Qed.

Lemma omap_seq_eq {A} (f : nat -> option A) (l : list A) :
  (forall i, (i < length l)%nat -> f i = l !! i) -> omap f (seq 0 (length l)) = l.
Proof.
  induction l as [|x l IH] using rev_ind; intros H; [done|].
  rewrite length_app, Nat.add_comm. simpl (length [x]). rewrite Nat.add_1_l, seq_S, omap_app, IH.
  - simpl. rewrite H by (rewrite length_app; simpl; lia).
    by rewrite lookup_app_r, Nat.sub_diag by lia.
  - intros i Hi. rewrite H by (rewrite length_app; lia). by rewrite lookup_app_l.
Qed.

Lemma contents_inv {A} k q p c (xs ys : list A) :
  inv k (mkState q p c xs ys) -> contents q = drop (length ys) xs.
Proof.
  intros I. open_inv I. unfold contents, size.
  rewrite Hr, Hw, sub64 by lia.
  replace (Z.to_nat _) with (length (drop (length ys) xs)) by (rewrite length_drop; lia).
  apply omap_seq_eq. intros i Hi. rewrite length_drop in Hi.
  rewrite lookup_drop. destruct (lookup_lt_is_Some_2 xs (length ys + i)) as [x Hx]; [lia|].
  rewrite Hx, wrap_add_l, (slot_of_at q k) by done.
  replace (_ + _) with (Z.of_nat (length ys + i)) by lia. by apply Hbuf; [lia|].
Qed.

End Conc.

(** ** The queue implements the interface *)

Section SpscFifo.
Context {A : Type}.
Import Seq Conc.

#[export] Instance spsc_ops : FifoOps (SpscQueue A) A := {
  try_push := push;
  try_pop := pop;
  size_approx := size;
  items := contents;
  fifo_cap q := length (buffer q);
  fifo_ok q := exists k xs ys, inv k (mkState q PIdle CIdle xs ys)
}.

Lemma push_capacity (q : SpscQueue A) x : length (buffer (snd (push q x))) = length (buffer q).
Proof. unfold push. repeat case_match; simpl; by rewrite ?length_insert. Qed.

Lemma pop_capacity (q : SpscQueue A) : length (buffer (snd (pop q))) = length (buffer q).
Proof. unfold pop. repeat case_match; done. Qed.

Lemma push_verdict k (q : SpscQueue A) x xs ys :
  inv k (mkState q PIdle CIdle xs ys) ->
  fst (push q x) = bool_decide (length (contents q) < length (buffer q))%nat.
Proof.
  intros I. rewrite (contents_inv _ _ _ _ _ _ I). simpl. rewrite length_drop.
  open_inv I. unfold Capacity in Hcap. unfold push, Capacity.
  rewrite Hcap, Hw, Hcr, Hr, !sub64, !Z.geb_leb by lia.
  zcases; simpl; symmetry; first [apply bool_decide_eq_true_2 | apply bool_decide_eq_false_2]; lia.
Qed.

Lemma push_inv k (q : SpscQueue A) x xs ys :
  inv k (mkState q PIdle CIdle xs ys) ->
  inv k (mkState (snd (push q x)) PIdle CIdle (if fst (push q x) then xs ++ [x] else xs) ys).
Proof. apply inv_steps, push_steps. Qed.

Lemma pop_inv k (q : SpscQueue A) xs ys :
  inv k (mkState q PIdle CIdle xs ys) ->
  fst (pop q) = head (contents q)
  /\ inv k (mkState (snd (pop q)) PIdle CIdle xs (ys ++ option_list (fst (pop q)))).
Proof.
  intros I. destruct (pop_steps k q PIdle xs ys I) as [Hf Hs]. split.
  - rewrite Hf, (contents_inv _ _ _ _ _ _ I). simpl. by rewrite head_lookup, lookup_drop, Nat.add_0_r.
  - by eapply inv_steps.
Qed.

#[export] Instance spsc_fifo : Fifo (SpscQueue A) A.
Proof.
  split; simpl.
  - intros q x (k & xs & ys & I) Hroom. pose proof (push_inv k q x xs ys I) as I'.
    assert (Hv : fst (push q x) = true)
      by (rewrite (push_verdict k q x xs ys I); by apply bool_decide_eq_true_2).
    split; [done|]. rewrite Hv in I'. rewrite (contents_inv _ _ _ _ _ _ I'), (contents_inv _ _ _ _ _ _ I). simpl.
    pose proof (prefix_length _ _ (inv_prefix _ _ I)). simpl in *. by rewrite drop_app_le by lia.
  - intros q x (k & xs & ys & I) Hfull. pose proof (push_inv k q x xs ys I) as I'.
    assert (Hv : fst (push q x) = false)
      by (rewrite (push_verdict k q x xs ys I); apply bool_decide_eq_false_2; lia).
    split; [done|]. rewrite Hv in I'. by rewrite (contents_inv _ _ _ _ _ _ I'), (contents_inv _ _ _ _ _ _ I).
  - intros q x (k & xs & ys & I). split; [|apply push_capacity].
    eexists k, _, ys. by apply push_inv.
  - intros q x l (k & xs & ys & I) E. destruct (pop_inv k q xs ys I) as [Hf I'].
    rewrite E in Hf. simpl in Hf. split; [done|]. rewrite Hf in I'.
    rewrite (contents_inv _ _ _ _ _ _ I'). rewrite (contents_inv _ _ _ _ _ _ I) in E. simpl in *.
    rewrite length_app, <- drop_drop, E. done.
  - intros q (k & xs & ys & I) E. destruct (pop_inv k q xs ys I) as [Hf I'].
    rewrite E in Hf. simpl in Hf. split; [done|]. rewrite Hf in I'. simpl in I'.
    rewrite app_nil_r in I'. rewrite (contents_inv _ _ _ _ _ _ I'). by rewrite (contents_inv _ _ _ _ _ _ I) in E.
  - intros q (k & xs & ys & I). split; [|apply pop_capacity].
    eexists k, xs, _. by apply pop_inv.
  - intros q (k & xs & ys & I). rewrite (contents_inv _ _ _ _ _ _ I). simpl. rewrite length_drop.
    open_inv I. unfold size. rewrite Hw, Hr, sub64 by lia. lia.
  - intros q (k & xs & ys & I). rewrite (contents_inv _ _ _ _ _ _ I). simpl. rewrite length_drop.
    open_inv I. unfold Capacity in Hcap. lia.
Qed.

Lemma init_fifo_ok k (d : A) : 0 <= k < 63 -> fifo_ok (init (Z.to_nat (2 ^ k)) d).
Proof. intros. exists k, [], []. by apply inv_init. Qed.

End SpscFifo.

(** ** Properties *)

Section SpscProperties.
Import Seq Conc.

(** C10: in every interleaving of a producer and a consumer, the items popped
    so far are a prefix of the items pushed so far (nothing lost, duplicated,
    reordered or read before it is complete), and at most [Capacity] items
    are in flight; this holds also after the positions wrap at 2^64. *)
Theorem spsc_interleaved_fifo {A} k (d : A) s :
  0 <= k < 63 -> steps step (init_state (Z.to_nat (2 ^ k)) d) s ->
  popped s `prefix_of` pushed s
  /\ Z.of_nat (length (pushed s)) - Z.of_nat (length (popped s)) <= 2 ^ k
  /\ contents (queue s) = drop (length (popped s)) (pushed s).
Proof.
  intros Hk Hs. pose proof (inv_reachable k d s Hk Hs) as I.
  split; [apply I|]. split; [|destruct s; by eapply contents_inv].
  destruct (inv_producer _ _ I) as (cr & _ & ? & ? & _). lia.
Qed.

(** One item pushed, the next push at the slot write, a pop at the slot read. *)
Definition sample_state : state Z :=
  mkState (mkSpsc 1 0 [7; 0] 1 0) (PWrite 8) CRead [7] [].

Lemma sample_reachable : steps step (init_state (Z.to_nat (2 ^ 1)) 0) sample_state.
Proof.
  eapply steps_cons; [apply (push_enter _ _ _ _ 7)|]. eapply steps_cons; [apply push_write|].
  eapply steps_cons; [apply push_publish|]. eapply steps_cons; [apply (push_enter _ _ _ _ 8)|].
  eapply steps_cons; [apply pop_enter|]. eapply steps_cons; [apply pop_reload|].
  apply steps_refl.
Qed.

Lemma spsc_interleaved_fifo_witness :
  steps step (init_state (Z.to_nat (2 ^ 1)) 0) sample_state
  /\ popped sample_state `prefix_of` pushed sample_state
  /\ 1 - 0 <= 2 ^ 1 /\ contents (queue sample_state) = [7].
Proof.
  split; [exact sample_reachable|].
  exact (spsc_interleaved_fifo 1 0 sample_state ltac:(lia) sample_reachable).
Defined.

(** No data race on the slots, and no read of an empty one: when the
    producer is about to write a slot, the consumer is not about to read the
    same one, and a consumer about to read finds the oldest unpopped item. *)
Theorem spsc_slots_disjoint {A} k (d : A) s :
  0 <= k < 63 -> steps step (init_state (Z.to_nat (2 ^ k)) d) s -> cpc s = CRead ->
  (exists x, buffer (queue s) !! slot_of (queue s) (read_pos (queue s)) = Some x
             /\ pushed s !! length (popped s) = Some x)
  /\ (forall x, ppc s = PWrite x ->
      slot_of (queue s) (write_pos (queue s)) <> slot_of (queue s) (read_pos (queue s))).
Proof.
  intros Hk Hs Hc0. pose proof (inv_reachable k d s Hk Hs) as I. split.
  - destruct (inv_consumer _ _ I) as (cw & _ & Hle & Hc). rewrite Hc0 in Hc.
    destruct (lookup_lt_is_Some_2 (pushed s) (length (popped s))) as [x Hx]; [lia|].
    exists x. split; [|done]. by eapply inv_live_slot.
  - intros x Hp0. rewrite (inv_read _ _ I), (inv_write _ _ I), !(slot_of_at _ k) by apply I.
    destruct (inv_consumer _ _ I) as (cw & _ & Hle & Hc). rewrite Hc0 in Hc.
    destruct (inv_producer _ _ I) as (cr & _ & Hcr & _ & Hp). rewrite Hp0 in Hp.
    apply slot_at_ne. lia.
Qed.

Lemma spsc_slots_disjoint_witness :
  slot_of (queue sample_state) 1 <> slot_of (queue sample_state) 0.
Proof.
  exact (proj2 (spsc_slots_disjoint 1 0 sample_state ltac:(lia) sample_reachable eq_refl)
           8 eq_refl).
Defined.

End SpscProperties.
