(* ===== verification/SpscWeak.v ===== *)
(** * SPSC queue in release/acquire memory

    [SpscQueue] of [include/concurrency/spsc_queue.hpp] in the memory model of
    the language instead of interleaved accesses to one memory ([Spsc]).  An
    atomic variable is the sequence of the values stored to it, each with the
    view its thread had (a release store); a load may return any of them that
    its thread cannot know to be out of date, and an acquire load makes the
    thread's view catch up with that of the value.  The elements of the buffer
    are not atomic: an access that is not ordered after the conflicting
    accesses of the other thread is a data race, and the [race] flag records
    it.  A view counts, for each position and each element, the stores, and for
    each element the readings, that happen before.  Positions do not wrap
    around here: 2^64 pushes are out of reach, and [Spsc] treats the
    arithmetic.  The value at index [t] of the history of a position is [t]. *)

From S2P Require Import Prelude Types Spsc.
Import Conc.

(** ** Views *)

Record View := mkView {
  v_write : nat;
  v_read : nat;
  v_cell : nat -> nat;
  v_seen : nat -> nat
}.

Definition view0 : View := mkView 0 0 (fun _ => 0%nat) (fun _ => 0%nat).

Definition join (a b : View) : View :=
  mkView (v_write a `max` v_write b) (v_read a `max` v_read b)
    (fun i => v_cell a i `max` v_cell b i)%nat (fun i => v_seen a i `max` v_seen b i)%nat.

Definition bump_at (f : nat -> nat) (i : nat) (j : nat) : nat := if decide (j = i) then S (f j) else f j.

(** ** The queue *)

Record WeakQueue (A : Type) := mkWeak {
  write_msgs : list View;
  read_msgs : list View;
  cells : list A;
  stores : nat -> nat;
  readings : nat -> nat;
  pview : View;
  cview : View;
  pcache : nat;
  ccache : nat;
  wppc : producer_pc A;
  wcpc : consumer_pc A;
  wpushed : list A;
  wpopped : list A;
  race : bool
}.

Arguments mkWeak {A}.
Arguments write_msgs {A}.
Arguments read_msgs {A}.
Arguments cells {A}.
Arguments stores {A}.
Arguments readings {A}.
Arguments pview {A}.
Arguments cview {A}.
Arguments pcache {A}.
Arguments ccache {A}.
Arguments wppc {A}.
Arguments wcpc {A}.
Arguments wpushed {A}.
Arguments wpopped {A}.
Arguments race {A}.

(** Calls, and the accesses in the order of the source; a load of the other
    thread's position names the value it returns. *)
Inductive WeakEvent (A : Type) :=
  | PushCall (x : A) | PushLoad (t : nat) | PushWrite | PushStore
  | PopCall | PopLoad (t : nat) | PopRead | PopStore.

Arguments PushCall {A}.
Arguments PushLoad {A}.
Arguments PushWrite {A}.
Arguments PushStore {A}.
Arguments PopCall {A}.
Arguments PopLoad {A}.
Arguments PopRead {A}.
Arguments PopStore {A}.

Section Queue.
Context {A : Type} (cap : nat).
Abbreviation queue := (WeakQueue A).

(** The thread's own position: the last value it stored. *)
Definition wpos (s : queue) : nat := length (write_msgs s) - 1.
Definition rpos (s : queue) : nat := length (read_msgs s) - 1.

Definition set_producer (s : queue) (v : View) (cache : nat) (pc : producer_pc A) : queue :=
  mkWeak (write_msgs s) (read_msgs s) (cells s) (stores s) (readings s) v (cview s) cache (ccache s) pc (wcpc s)
    (wpushed s) (wpopped s) (race s).

Definition set_consumer (s : queue) (v : View) (cache : nat) (pc : consumer_pc A) : queue :=
  mkWeak (write_msgs s) (read_msgs s) (cells s) (stores s) (readings s) (pview s) v (pcache s) cache (wppc s) pc
    (wpushed s) (wpopped s) (race s).

(** [None]: the event is not the next one of its thread, or the load may not
    return that value. *)
Definition weak_step (s : queue) (e : WeakEvent A) : option queue :=
  match e, wppc s, wcpc s with
  | PushCall x, PIdle, _ =>
      Some (set_producer s (pview s) (pcache s) (if decide (cap <= wpos s - pcache s)%nat then PLoad x else PWrite x))
  | PushLoad t, PLoad x, _ =>
      m ← read_msgs s !! t;
      if decide (v_read (pview s) <= t)%nat then
        let v := join (pview s) m in
        Some (set_producer s (mkView (v_write v) (v_read v `max` t) (v_cell v) (v_seen v)) t
                (if decide (cap <= wpos s - t)%nat then PIdle else PWrite x))
      else None
  | PushWrite, PWrite x, _ =>
      let i := (wpos s mod cap)%nat in let v := pview s in
      let ordered := bool_decide (v_cell v i = stores s i) && bool_decide (v_seen v i = readings s i) in
      Some (mkWeak (write_msgs s) (read_msgs s) (<[i := x]> (cells s)) (bump_at (stores s) i) (readings s)
              (mkView (v_write v) (v_read v) (fun j => if decide (j = i) then S (stores s i) else v_cell v j) (v_seen v))
              (cview s) (pcache s) (ccache s) (PStore x) (wcpc s) (wpushed s) (wpopped s) (race s || negb ordered))
  | PushStore, PStore x, _ =>
      let v := mkView (S (wpos s)) (v_read (pview s)) (v_cell (pview s)) (v_seen (pview s)) in
      Some (mkWeak (write_msgs s ++ [v]) (read_msgs s) (cells s) (stores s) (readings s) v (cview s) (pcache s) (ccache s)
              PIdle (wcpc s) (wpushed s ++ [x]) (wpopped s) (race s))
  | PopCall, _, CIdle =>
      Some (set_consumer s (cview s) (ccache s) (if decide (rpos s = ccache s) then CLoad else CRead))
  | PopLoad t, _, CLoad =>
      m ← write_msgs s !! t;
      if decide (v_write (cview s) <= t)%nat then
        let v := join (cview s) m in
        Some (set_consumer s (mkView (v_write v `max` t) (v_read v) (v_cell v) (v_seen v)) t
                (if decide (rpos s = t) then CIdle else CRead))
      else None
  | PopRead, _, CRead =>
      let i := (rpos s mod cap)%nat in let v := cview s in
      x ← cells s !! i;
      let ordered := bool_decide (v_cell v i = stores s i) in
      Some (mkWeak (write_msgs s) (read_msgs s) (cells s) (stores s) (bump_at (readings s) i) (pview s)
              (mkView (v_write v) (v_read v) (v_cell v) (fun j => if decide (j = i) then S (readings s i) else v_seen v j))
              (pcache s) (ccache s) (wppc s) (CStore x) (wpushed s) (wpopped s) (race s || negb ordered))
  | PopStore, _, CStore x =>
      let v := mkView (v_write (cview s)) (S (rpos s)) (v_cell (cview s)) (v_seen (cview s)) in
      Some (mkWeak (write_msgs s) (read_msgs s ++ [v]) (cells s) (stores s) (readings s) (pview s) v (pcache s) (ccache s)
              (wppc s) CIdle (wpushed s) (wpopped s ++ [x]) (race s))
  | _, _, _ => None
  end.

Fixpoint weak_run (s : queue) (es : list (WeakEvent A)) : option queue :=
  match es with [] => Some s | e :: es' => s' ← weak_step s e; weak_run s' es' end.

Definition weak_init (d : A) : queue :=
  mkWeak [view0] [view0] (replicate cap d) (fun _ => 0%nat) (fun _ => 0%nat) view0 view0 0 0 PIdle CIdle [] [] false.

(** ** Invariant *)

(** How many of the positions below [n] use element [i]. *)
Fixpoint uses (n i : nat) : nat :=
  match n with O => 0 | S n' => uses n' i + (if decide (n' mod cap = i)%nat then 1 else 0) end.

Lemma uses_mono n m i : (n <= m)%nat -> (uses n i <= uses m i)%nat.
Proof. induction 1 as [|m _ IH]; [done|]. cbn. lia. Qed.

Lemma uses_skip n m i : (n <= m)%nat -> (forall k, (n <= k < m)%nat -> (k mod cap <> i)%nat) -> uses m i = uses n i.
Proof.
  induction 1 as [|m Hle IH]; intros Hk; [done|]. cbn. rewrite decide_False by (apply Hk; lia).
  rewrite IH; [lia|]. intros k Hkm. apply Hk. lia.
Qed.

Definition inflight (s : queue) : list A := match wppc s with PStore x => [x] | _ => [] end.
Definition taken (s : queue) : list A := match wcpc s with CStore x => [x] | _ => [] end.
Definition stored (s : queue) : list A := wpushed s ++ inflight s.
Definition fetched (s : queue) : list A := wpopped s ++ taken s.

(** A view that is not ahead of the memory. *)
Record bounded (s : queue) (v : View) : Prop := {
  bo_write : (v_write v <= length (wpushed s))%nat;
  bo_read : (v_read v <= length (wpopped s))%nat;
  bo_cell i : (v_cell v i <= stores s i)%nat;
  bo_seen i : (v_seen v i <= readings s i)%nat
}.

Record weak_ok (s : queue) : Prop := {
  wk_pos : length (write_msgs s) = S (length (wpushed s)) /\ length (read_msgs s) = S (length (wpopped s));
  wk_cells : length (cells s) = cap;
  wk_pcache : (pcache s <= length (wpopped s) /\ length (stored s) <= pcache s + cap)%nat;
  wk_ccache : (ccache s <= length (wpushed s) /\ length (fetched s) <= ccache s)%nat;
  wk_room x : wppc s = PWrite x -> (length (wpushed s) < pcache s + cap)%nat;
  wk_avail : wcpc s = CRead -> (length (wpopped s) < ccache s)%nat;
  wk_stores i : stores s i = uses (length (stored s)) i;
  wk_readings i : readings s i = uses (length (fetched s)) i;
  wk_producer i : v_cell (pview s) i = stores s i /\ (uses (pcache s) i <= v_seen (pview s) i)%nat;
  wk_consumer i : v_seen (cview s) i = readings s i /\ (uses (ccache s) i <= v_cell (cview s) i)%nat;
  wk_coherent : (pcache s <= v_read (pview s) /\ ccache s <= v_write (cview s))%nat;
  wk_views : bounded s (pview s) /\ bounded s (cview s);
  wk_writes t m : write_msgs s !! t = Some m -> bounded s m /\ forall i, (uses t i <= v_cell m i)%nat;
  wk_reads t m : read_msgs s !! t = Some m -> bounded s m /\ forall i, (uses t i <= v_seen m i)%nat;
  wk_live k : (length (fetched s) <= k < length (stored s))%nat -> cells s !! (k mod cap)%nat = stored s !! k;
  wk_fifo : fetched s `prefix_of` stored s;
  wk_race : race s = false
}.

Lemma wpos_eq s : weak_ok s -> wpos s = length (wpushed s).
Proof. intros W. unfold wpos. rewrite (proj1 (wk_pos s W)). lia. Qed.

Lemma rpos_eq s : weak_ok s -> rpos s = length (wpopped s).
Proof. intros W. unfold rpos. rewrite (proj2 (wk_pos s W)). lia. Qed.

Lemma join_bounded s a b : bounded s a -> bounded s b -> bounded s (join a b).
Proof. intros [] []. split; cbn; intros; apply Nat.max_lub; auto. Qed.

Context (Hcap : (0 < cap)%nat).

(** Two positions that share an element are a whole buffer apart. *)
Lemma same_element k j : (k < j)%nat -> (k mod cap = j mod cap)%nat -> (cap <= j - k)%nat.
Proof.
  intros Hlt E. pose proof (Nat.div_mod_eq k cap). pose proof (Nat.div_mod_eq j cap).
  assert ((k / cap < j / cap)%nat) by nia. nia.
Qed.

Lemma weak_init_ok d : weak_ok (weak_init d).
Proof.
  split; cbn; try done; try lia; try (intros; split; lia).
  - by rewrite length_replicate.
  - intros [|t] m Hm; [|done]. injection Hm as <-. by split; [split; cbn; lia|].
  - intros [|t] m Hm; [|done]. injection Hm as <-. by split; [split; cbn; lia|].
Qed.

(** *** The calls and the loads change a view and a cache *)

Lemma set_producer_ok s v cache pc : weak_ok s -> inflight s = [] ->
  match pc with PStore _ => False | PWrite _ => (length (wpushed s) < cache + cap)%nat | _ => True end ->
  (pcache s <= cache <= v_read v)%nat -> bounded s v ->
  (forall i, v_cell (pview s) i <= v_cell v i /\ uses cache i <= v_seen v i)%nat ->
  weak_ok (set_producer s v cache pc).
Proof.
  intros W Hin Hpc Hc Hv Hi.
  assert (Hst : stored (set_producer s v cache pc) = stored s).
  { unfold stored, inflight in *. cbn. destruct pc, (wppc s); done. }
  assert (Hfe : fetched (set_producer s v cache pc) = fetched s) by done.
  split; rewrite ?Hst, ?Hfe; try apply W; cbn.
  - pose proof (wk_pcache s W). pose proof (bo_read s v Hv). lia.
  - intros x ->. done.
  - intros i. split; [|apply Hi]. pose proof (bo_cell s v Hv i). pose proof (proj1 (wk_producer s W i)). specialize (Hi i). lia.
  - pose proof (wk_coherent s W). lia.
  - split; [by destruct Hv|]. destruct (proj2 (wk_views s W)). by split.
  - intros t m Hm. destruct (wk_writes s W t m Hm) as [[] ?]. by split; [split|].
  - intros t m Hm. destruct (wk_reads s W t m Hm) as [[] ?]. by split; [split|].
Qed.

Lemma set_consumer_ok s v cache pc : weak_ok s -> taken s = [] ->
  match pc with CStore _ => False | CRead => (length (wpopped s) < cache)%nat | _ => True end ->
  (ccache s <= cache <= v_write v)%nat -> bounded s v ->
  (forall i, v_seen (cview s) i <= v_seen v i /\ uses cache i <= v_cell v i)%nat ->
  weak_ok (set_consumer s v cache pc).
Proof.
  intros W Hin Hpc Hc Hv Hi.
  assert (Hfe : fetched (set_consumer s v cache pc) = fetched s).
  { unfold fetched, taken in *. cbn. destruct pc, (wcpc s); done. }
  assert (Hst : stored (set_consumer s v cache pc) = stored s) by done.
  split; rewrite ?Hst, ?Hfe; try apply W; cbn.
  - pose proof (wk_ccache s W). pose proof (bo_write s v Hv). lia.
  - intros ->. done.
  - intros i. split; [|apply Hi]. pose proof (bo_seen s v Hv i). pose proof (proj1 (wk_consumer s W i)). specialize (Hi i). lia.
  - pose proof (wk_coherent s W). lia.
  - split; [destruct (proj1 (wk_views s W)); by split|by destruct Hv].
  - intros t m Hm. destruct (wk_writes s W t m Hm) as [[] ?]. by split; [split|].
  - intros t m Hm. destruct (wk_reads s W t m Hm) as [[] ?]. by split; [split|].
Qed.

Lemma push_call_ok s x s' : weak_ok s -> weak_step s (PushCall x) = Some s' -> weak_ok s'.
Proof.
  intros W E. cbn [weak_step] in E. destruct (wppc s) eqn:Hp; try discriminate. injection E as <-.
  rewrite (wpos_eq s W). pose proof (wk_pcache s W) as [Hc _]. pose proof (wk_views s W) as [Hv _].
  apply set_producer_ok; try done.
  - unfold inflight. by rewrite Hp.
  - case_decide; [done|]. lia.
  - pose proof (wk_coherent s W). lia.
  - intros i. split; [done|apply (wk_producer s W i)].
Qed.

Lemma push_load_ok s t s' : weak_ok s -> weak_step s (PushLoad t) = Some s' -> weak_ok s'.
Proof.
  intros W E. cbn [weak_step] in E. destruct (wppc s) as [|x|x|x] eqn:Hp; try discriminate.
  apply bind_Some in E as (m & Hm & E). case_decide as Ht; [|discriminate]. injection E as <-. rewrite (wpos_eq s W).
  destruct (wk_reads s W t m Hm) as [Bm Hu]. pose proof (wk_views s W) as [Bp _].
  pose proof (lookup_lt_Some _ _ _ Hm) as Hlt. rewrite (proj2 (wk_pos s W)) in Hlt. pose proof (wk_coherent s W) as [Hco _].
  destruct (join_bounded s _ _ Bp Bm) as [B1 B2 B3 B4].
  apply set_producer_ok; try done.
  - unfold inflight. by rewrite Hp.
  - case_decide; [done|]. lia.
  - cbn. lia.
  - split; cbn in *; try done. lia.
  - intros i. cbn. specialize (Hu i). lia.
Qed.

(** What the consumer does does not depend on the producer. *)
Lemma pop_call_eq s s' : weak_step s PopCall = Some s' -> wcpc s = CIdle
  /\ s' = set_consumer s (cview s) (ccache s) (if decide (rpos s = ccache s) then CLoad else CRead).
Proof. cbn [weak_step]. destruct (wppc s), (wcpc s); try discriminate; by intros [= <-]. Qed.

Lemma fetched_idle s : weak_ok s -> taken s = [] -> (length (wpopped s) <= ccache s)%nat.
Proof. intros W Ht. pose proof (proj2 (wk_ccache s W)) as Hc. unfold fetched in Hc. by rewrite Ht, app_nil_r in Hc. Qed.

Lemma pop_call_ok s s' : weak_ok s -> weak_step s PopCall = Some s' -> weak_ok s'.
Proof.
  intros W E. apply pop_call_eq in E as [Hp ->]. rewrite (rpos_eq s W).
  assert (Ht : taken s = []) by (unfold taken; by rewrite Hp). pose proof (fetched_idle s W Ht).
  apply set_consumer_ok; try done.
  - case_decide; [done|]. lia.
  - pose proof (wk_coherent s W). lia.
  - apply W.
  - intros i. split; [done|apply (wk_consumer s W i)].
Qed.

Lemma pop_load_ok s t s' : weak_ok s -> weak_step s (PopLoad t) = Some s' -> weak_ok s'.
Proof.
  intros W E. assert (Hp : wcpc s = CLoad) by (cbn [weak_step] in E; by destruct (wppc s), (wcpc s)).
  assert (E' : (m ← write_msgs s !! t; if decide (v_write (cview s) <= t)%nat then
        let v := join (cview s) m in
        Some (set_consumer s (mkView (v_write v `max` t) (v_read v) (v_cell v) (v_seen v)) t
                (if decide (rpos s = t) then CIdle else CRead)) else None) = Some s').
  { cbn [weak_step] in E. rewrite Hp in E. by destruct (wppc s). }
  clear E. apply bind_Some in E' as (m & Hm & E). case_decide as Ht; [|discriminate]. injection E as <-. rewrite (rpos_eq s W).
  destruct (wk_writes s W t m Hm) as [Bm Hu]. pose proof (wk_views s W) as [_ Bc].
  pose proof (lookup_lt_Some _ _ _ Hm) as Hlt. rewrite (proj1 (wk_pos s W)) in Hlt. pose proof (wk_coherent s W) as [_ Hco].
  assert (Htk : taken s = []) by (unfold taken; by rewrite Hp). pose proof (fetched_idle s W Htk).
  destruct (join_bounded s _ _ Bc Bm) as [B1 B2 B3 B4].
  apply set_consumer_ok; try done.
  - case_decide; [done|]. lia.
  - cbn. lia.
  - split; cbn in *; try done. lia.
  - intros i. cbn. specialize (Hu i). lia.
Qed.

(** *** The accesses to the elements *)

Lemma bounded_mono s s' v : bounded s v ->
  (length (wpushed s) <= length (wpushed s'))%nat -> (length (wpopped s) <= length (wpopped s'))%nat ->
  (forall i, stores s i <= stores s' i)%nat -> (forall i, readings s i <= readings s' i)%nat -> bounded s' v.
Proof. intros [] ? ? Hs Hr. split; [lia|lia|intros i; specialize (Hs i)|intros i; specialize (Hr i)]; etrans; eauto. Qed.

Lemma bump_at_uses f n j : (forall i, f i = uses n i) -> bump_at f (n mod cap)%nat j = uses (S n) j.
Proof. intros Hf. unfold bump_at. cbn. rewrite Hf. repeat case_decide; subst; try done; lia. Qed.

Lemma bump_at_le f i j : (f j <= bump_at f i j)%nat.
Proof. unfold bump_at. case_decide; lia. Qed.

Lemma stored_idle s : inflight s = [] -> stored s = wpushed s.
Proof. intros Hin. unfold stored. by rewrite Hin, app_nil_r. Qed.

Lemma fetched_not_taken s : taken s = [] -> fetched s = wpopped s.
Proof. intros Ht. unfold fetched. by rewrite Ht, app_nil_r. Qed.

Lemma counts s : weak_ok s ->
  (length (wpopped s) <= length (fetched s) <= length (wpushed s))%nat /\ (length (wpushed s) <= length (stored s))%nat.
Proof.
  intros W. pose proof (wk_ccache s W). unfold fetched, stored in *. rewrite !length_app in *. lia.
Qed.

(** The element the producer is about to write is free, and it knows. *)
Lemma element_free s x : weak_ok s -> wppc s = PWrite x ->
  let i := (length (wpushed s) mod cap)%nat in
  v_seen (pview s) i = readings s i
  /\ forall k, (length (fetched s) <= k < length (wpushed s))%nat -> (k mod cap)%nat <> i.
Proof.
  intros W Hp. cbn zeta. pose proof (wk_room s W x Hp) as Hroom. pose proof (counts s W) as [Hcnt _].
  pose proof (proj1 (wk_pcache s W)) as Hpc.
  assert (Hfree : forall k, (pcache s <= k < length (wpushed s))%nat -> (k mod cap)%nat <> (length (wpushed s) mod cap)%nat).
  { intros k Hk E. apply same_element in E; lia. }
  split; [|intros k Hk; apply Hfree; lia].
  pose proof (bo_seen s _ (proj1 (wk_views s W)) (length (wpushed s) mod cap)%nat) as Hle.
  pose proof (proj2 (wk_producer s W (length (wpushed s) mod cap)%nat)) as Hge.
  pose proof (wk_readings s W (length (wpushed s) mod cap)%nat) as Hr.
  rewrite (uses_skip (pcache s)) in Hr; [lia|lia|]. intros k Hk. apply Hfree. lia.
Qed.

Lemma push_write_ok s s' : weak_ok s -> weak_step s PushWrite = Some s' -> weak_ok s'.
Proof.
  intros W E. cbn [weak_step] in E. destruct (wppc s) as [|x|x|x] eqn:Hp; try discriminate. injection E as <-.
  rewrite (wpos_eq s W). destruct (element_free s x W Hp) as [Hseen Hlive]. destruct (wk_views s W) as [Bp Bc].
  assert (Hst : stored s = wpushed s) by (apply stored_idle; unfold inflight; by rewrite Hp).
  pose proof (wk_stores s W) as Hs. rewrite Hst in Hs.
  set (n := length (wpushed s)) in *. set (i := (n mod cap)%nat) in *.
  assert (Hi : (i < cap)%nat) by (apply Nat.mod_upper_bound; lia).
  match goal with |- weak_ok ?q => set (s' := q) end.
  assert (Hst' : stored s' = wpushed s ++ [x]) by done. assert (Hfe' : fetched s' = fetched s) by done.
  assert (Hmono : forall v, bounded s v -> bounded s' v).
  { intros v Hv. apply (bounded_mono s s' v Hv); cbn; try done. intros j. apply bump_at_le. }
  split; rewrite ?Hst', ?Hfe', ?length_app; try apply W; cbn -[uses]; try done.
  - rewrite length_insert. apply W.
  - pose proof (wk_room s W x Hp). pose proof (proj1 (wk_pcache s W)). unfold n. cbn. lia.
  - intros j. rewrite Nat.add_1_r. apply bump_at_uses, Hs.
  - intros j. split; [|apply W]. unfold bump_at. pose proof (proj1 (wk_producer s W j)) as Hj. by case_decide; subst.
  - split; [|by apply Hmono]. destruct (Hmono _ Bp) as [B1 B2 B3 B4]. split; cbn in *; try done. intros j. specialize (B3 j).
    unfold bump_at in *. by case_decide; subst.
  - intros t m Hm. destruct (wk_writes s W t m Hm). by split; [apply Hmono|].
  - intros t m Hm. destruct (wk_reads s W t m Hm). by split; [apply Hmono|].
  - intros k Hk. destruct (decide (k = n)) as [->|Hne].
    + fold i. rewrite list_lookup_insert_eq by (by rewrite (wk_cells s W)). by rewrite list_lookup_middle.
    + rewrite list_lookup_insert_ne by (apply not_eq_sym, Hlive; lia). rewrite lookup_app_l by (unfold n in *; lia).
      rewrite (wk_live s W k), Hst; [done|]. rewrite Hst. unfold n in *. lia.
  - pose proof (wk_fifo s W) as Hf. rewrite Hst in Hf. by apply prefix_app_r.
  - rewrite (wk_race s W), Hseen. rewrite bool_decide_eq_true_2 by (apply (wk_producer s W)). by rewrite bool_decide_eq_true_2.
Qed.

Lemma push_store_ok s s' : weak_ok s -> weak_step s PushStore = Some s' -> weak_ok s'.
Proof.
  intros W E. cbn [weak_step] in E. destruct (wppc s) as [|x|x|x] eqn:Hp; try discriminate. injection E as <-.
  rewrite (wpos_eq s W). destruct (wk_views s W) as [Bp Bc].
  assert (Hst : stored s = wpushed s ++ [x]) by (unfold stored, inflight; by rewrite Hp).
  match goal with |- weak_ok ?q => set (s' := q) end.
  assert (Hst' : stored s' = stored s) by (rewrite Hst; apply app_nil_r). assert (Hfe' : fetched s' = fetched s) by done.
  assert (Hmono : forall v, bounded s v -> bounded s' v).
  { intros v Hv. apply (bounded_mono s s' v Hv); cbn; try done. rewrite length_app. lia. }
  assert (Bv : bounded s' (pview s')).
  { destruct (Hmono _ Bp) as [B1 B2 B3 B4]. split; cbn in *; try done. rewrite length_app. cbn. lia. }
  pose proof (wk_pos s W) as [Hw Hr].
  split; rewrite ?Hst', ?Hfe'; try apply W; cbn; try done.
  - rewrite !length_app, Hw. cbn. lia.
  - pose proof (wk_ccache s W). rewrite length_app. lia.
  - split; [exact Bv|by apply Hmono].
  - intros t m Hm. apply lookup_snoc_Some in Hm as [[_ Hm]|[-> <-]].
    { destruct (wk_writes s W t m Hm). by split; [apply Hmono|]. }
    split; [exact Bv|]. intros i. cbn [v_cell]. destruct (wk_producer s W i) as [-> _].
    rewrite (wk_stores s W i), Hst, Hw, length_app, Nat.add_1_r. done.
  - intros t m Hm. destruct (wk_reads s W t m Hm). by split; [apply Hmono|].
Qed.

(** The element the consumer is about to read is complete, and it knows. *)
Lemma element_complete s : weak_ok s -> wcpc s = CRead ->
  let i := (length (wpopped s) mod cap)%nat in
  v_cell (cview s) i = stores s i /\ cells s !! i = stored s !! length (wpopped s).
Proof.
  intros W Hp. cbn zeta. pose proof (wk_avail s W Hp) as Hav. pose proof (counts s W) as [_ Hcnt].
  destruct (wk_pcache s W) as [Hpc Hroom]. pose proof (proj1 (wk_ccache s W)) as Hcc.
  assert (Hfe : fetched s = wpopped s) by (apply fetched_not_taken; unfold taken; by rewrite Hp).
  split; [|apply (wk_live s W); rewrite Hfe; lia].
  pose proof (bo_cell s _ (proj2 (wk_views s W)) (length (wpopped s) mod cap)%nat) as Hle.
  pose proof (proj2 (wk_consumer s W (length (wpopped s) mod cap)%nat)) as Hge.
  pose proof (wk_stores s W (length (wpopped s) mod cap)%nat) as Hs.
  rewrite (uses_skip (ccache s)) in Hs; [lia|lia|]. intros k Hk E. symmetry in E. apply same_element in E; lia.
Qed.

Lemma pop_read_ok s s' : weak_ok s -> weak_step s PopRead = Some s' -> weak_ok s'.
Proof.
  intros W E. assert (Hp : wcpc s = CRead) by (cbn [weak_step] in E; by destruct (wppc s), (wcpc s)).
  destruct (element_complete s W Hp) as [Hcell Hx]. pose proof (wk_avail s W Hp) as Hav.
  destruct (wk_views s W) as [Bp Bc].
  assert (Hfe : fetched s = wpopped s) by (apply fetched_not_taken; unfold taken; by rewrite Hp).
  pose proof (wk_readings s W) as Hr. rewrite Hfe in Hr. pose proof (wk_live s W) as Hlive. rewrite Hfe in Hlive.
  assert (Hlt : (length (wpopped s) < length (stored s))%nat).
  { pose proof (counts s W). pose proof (wk_ccache s W). lia. }
  destruct (lookup_lt_is_Some_2 _ _ Hlt) as [x Hxs]. rewrite Hxs in Hx.
  set (n := length (wpopped s)) in *. set (i := (n mod cap)%nat) in *.
  assert (E' : mkWeak (write_msgs s) (read_msgs s) (cells s) (stores s) (bump_at (readings s) i) (pview s)
      (mkView (v_write (cview s)) (v_read (cview s)) (v_cell (cview s)) (fun j => if decide (j = i) then S (readings s i) else v_seen (cview s) j))
      (pcache s) (ccache s) (wppc s) (CStore x) (wpushed s) (wpopped s) (race s) = s').
  { cbn [weak_step] in E. rewrite Hp, (rpos_eq s W) in E. fold n in E. fold i in E. rewrite Hx in E. cbn [mbind option_bind] in E.
    rewrite bool_decide_eq_true_2 in E by done. cbn [negb] in E. rewrite orb_false_r in E. destruct (wppc s); by injection E. }
  clear E. subst s'. match goal with |- weak_ok ?q => set (s' := q) end.
  assert (Hst' : stored s' = stored s) by done. assert (Hfe' : fetched s' = wpopped s ++ [x]) by done.
  assert (Hmono : forall v, bounded s v -> bounded s' v).
  { intros v Hv. apply (bounded_mono s s' v Hv); cbn; try done. intros j. apply bump_at_le. }
  split; rewrite ?Hst', ?Hfe', ?length_app; try apply W; cbn -[uses]; try done.
  - pose proof (proj1 (wk_ccache s W)). unfold n in *. lia.
  - intros j. rewrite Nat.add_1_r. apply bump_at_uses, Hr.
  - intros j. split; [|apply W]. unfold bump_at. pose proof (proj1 (wk_consumer s W j)) as Hj. by case_decide; subst.
  - split; [by apply Hmono|]. destruct (Hmono _ Bc) as [B1 B2 B3 B4]. split; cbn in *; try done. intros j. specialize (B4 j).
    unfold bump_at in *. by case_decide; subst.
  - intros t m Hm. destruct (wk_writes s W t m Hm). by split; [apply Hmono|].
  - intros t m Hm. destruct (wk_reads s W t m Hm). by split; [apply Hmono|].
  - intros k Hk. apply Hlive. unfold n in *. lia.
  - destruct (wk_fifo s W) as [l Hl]. rewrite Hfe in Hl. rewrite Hl in Hxs. unfold n in Hxs.
    rewrite lookup_app_r, Nat.sub_diag in Hxs by lia. destruct l as [|y l]; [done|]. injection Hxs as ->.
    exists l. by rewrite <- app_assoc.
Qed.

Lemma pop_store_ok s s' : weak_ok s -> weak_step s PopStore = Some s' -> weak_ok s'.
Proof.
  intros W E. destruct (wcpc s) as [| | |x] eqn:Hp; try (cbn [weak_step] in E; rewrite Hp in E; by destruct (wppc s)).
  assert (E' : mkWeak (write_msgs s) (read_msgs s ++ [mkView (v_write (cview s)) (S (rpos s)) (v_cell (cview s)) (v_seen (cview s))])
      (cells s) (stores s) (readings s) (pview s) (mkView (v_write (cview s)) (S (rpos s)) (v_cell (cview s)) (v_seen (cview s)))
      (pcache s) (ccache s) (wppc s) CIdle (wpushed s) (wpopped s ++ [x]) (race s) = s').
  { cbn [weak_step] in E. rewrite Hp in E. destruct (wppc s); by injection E. }
  clear E. subst s'. rewrite (rpos_eq s W). destruct (wk_views s W) as [Bp Bc].
  assert (Hfe : fetched s = wpopped s ++ [x]) by (unfold fetched, taken; by rewrite Hp).
  match goal with |- weak_ok ?q => set (s' := q) end.
  assert (Hfe' : fetched s' = fetched s) by (rewrite Hfe; apply app_nil_r). assert (Hst' : stored s' = stored s) by done.
  assert (Hmono : forall v, bounded s v -> bounded s' v).
  { intros v Hv. apply (bounded_mono s s' v Hv); cbn; try done. rewrite length_app. lia. }
  assert (Bv : bounded s' (cview s')).
  { destruct (Hmono _ Bc) as [B1 B2 B3 B4]. split; cbn in *; try done. rewrite length_app. cbn. lia. }
  pose proof (wk_pos s W) as [Hw Hr].
  split; rewrite ?Hst', ?Hfe'; try apply W; cbn; try done.
  - rewrite !length_app, Hr. cbn. lia.
  - pose proof (wk_pcache s W). rewrite length_app. lia.
  - split; [by apply Hmono|exact Bv].
  - intros t m Hm. destruct (wk_writes s W t m Hm). by split; [apply Hmono|].
  - intros t m Hm. apply lookup_snoc_Some in Hm as [[_ Hm]|[-> <-]].
    { destruct (wk_reads s W t m Hm). by split; [apply Hmono|]. }
    split; [exact Bv|]. intros i. cbn [v_seen]. destruct (wk_consumer s W i) as [-> _].
    rewrite (wk_readings s W i), Hfe, Hr, length_app, Nat.add_1_r. done.
Qed.

(** *** Runs *)

Lemma weak_step_ok s e s' : weak_ok s -> weak_step s e = Some s' -> weak_ok s'.
Proof.
  destruct e; eauto using push_call_ok, push_load_ok, push_write_ok, push_store_ok, pop_call_ok, pop_load_ok, pop_read_ok, pop_store_ok.
Qed.

Lemma weak_run_ok es s s' : weak_ok s -> weak_run s es = Some s' -> weak_ok s'.
Proof.
  revert s. induction es as [|e es IH]; intros s W E; cbn in E; [by injection E as <-|].
  apply bind_Some in E as (s1 & E1 & E). eauto using weak_step_ok.
Qed.

(** The next access of a thread, a load returning the latest value. *)
Definition producer_next (x : A) (s : queue) : WeakEvent A :=
  match wppc s with PIdle => PushCall x | PLoad _ => PushLoad (rpos s) | PWrite _ => PushWrite | PStore _ => PushStore end.

Definition consumer_next (s : queue) : WeakEvent A :=
  match wcpc s with CIdle => PopCall | CLoad => PopLoad (wpos s) | CRead => PopRead | CStore _ => PopStore end.

Lemma producer_enabled x s : weak_ok s -> is_Some (weak_step s (producer_next x s)).
Proof.
  intros W. unfold producer_next. destruct (wppc s) as [|y|y|y] eqn:Hp; cbn [weak_step]; rewrite Hp; try by eexists.
  rewrite (rpos_eq s W). destruct (lookup_lt_is_Some_2 (read_msgs s) (length (wpopped s))) as [m Hm].
  { rewrite (proj2 (wk_pos s W)). lia. }
  rewrite Hm. cbn [mbind option_bind]. pose proof (bo_read s _ (proj1 (wk_views s W))).
  rewrite (decide_True (P := (v_read (pview s) <= length (wpopped s))%nat)) by done. by eexists.
Qed.

Lemma consumer_enabled s : weak_ok s -> is_Some (weak_step s (consumer_next s)).
Proof.
  intros W. unfold consumer_next. destruct (wcpc s) as [| | |y] eqn:Hp; cbn [weak_step]; rewrite Hp; try (destruct (wppc s); by eexists).
  - rewrite (wpos_eq s W). destruct (lookup_lt_is_Some_2 (write_msgs s) (length (wpushed s))) as [m Hm].
    { rewrite (proj1 (wk_pos s W)). lia. }
    rewrite Hm. cbn [mbind option_bind]. pose proof (bo_write s _ (proj2 (wk_views s W))).
    rewrite (decide_True (P := (v_write (cview s) <= length (wpushed s))%nat)) by done. destruct (wppc s); by eexists.
  - rewrite (rpos_eq s W). destruct (lookup_lt_is_Some_2 (cells s) (length (wpopped s) mod cap)%nat) as [y Hy].
    { rewrite (wk_cells s W). apply Nat.mod_upper_bound. lia. }
    rewrite Hy. destruct (wppc s); by eexists.
Qed.

Lemma weak_fifo s : weak_ok s -> wpopped s `prefix_of` wpushed s /\ (length (wpushed s) <= length (wpopped s) + cap)%nat.
Proof.
  intros W. pose proof (counts s W) as [[Hc1 Hc2] Hc3]. split.
  - destruct (prefix_weak_total (wpopped s) (wpushed s) (stored s)) as [Hp|Hp]; [|by exists (inflight s)|done|].
    + etrans; [by exists (taken s)|apply (wk_fifo s W)].
    + apply prefix_length_eq in Hp as ->; [done|lia].
  - pose proof (wk_pcache s W). lia.
Qed.

(** C11: the queue is correct in the memory model of the language, not only
    when the accesses of the two threads interleave.  Whatever values the
    acquire loads of the other thread's position return, stale ones included,
    no access to an element races with one of the other thread, the items
    come out in the order they went in, none lost, repeated or torn, at most
    [Capacity] are held, and neither thread is ever stuck. *)
Theorem spsc_weak_race_free (d x : A) (es : list (WeakEvent A)) (s : queue) :
  weak_run (weak_init d) es = Some s ->
  race s = false /\ wpopped s `prefix_of` wpushed s /\ (length (wpushed s) <= length (wpopped s) + cap)%nat
  /\ is_Some (weak_step s (producer_next x s)) /\ is_Some (weak_step s (consumer_next s)).
Proof.
  intros E. pose proof (weak_run_ok es _ s (weak_init_ok d) E) as W. destruct (weak_fifo s W).
  repeat split; try done; [apply (wk_race s W)|by apply producer_enabled|by apply consumer_enabled].
Qed.

End Queue.

(** A queue of two elements that is filled, drained by one and filled again;
    the load of the full producer first returns a position the consumer has
    left behind, so that its push is refused, and the consumer's last load
    misses the newest item. *)
Definition stale_run : list (WeakEvent Z) :=
  [PushCall 1; PushWrite; PushStore; PopCall; PushCall 2; PopLoad 1; PushWrite; PopRead; PushStore; PopStore;
   PushCall 3; PushLoad 0; PushCall 3; PushLoad 1; PopCall; PushWrite; PopLoad 2; PushStore; PopRead; PopStore;
   PopCall; PopLoad 2].

Lemma spsc_weak_race_free_witness : exists s, weak_run 2 (weak_init 2 0) stale_run = Some s
  /\ (race s = false /\ wpopped s `prefix_of` wpushed s /\ (length (wpushed s) <= length (wpopped s) + 2)%nat
  /\ is_Some (weak_step 2 s (producer_next 9 s)) /\ is_Some (weak_step 2 s (consumer_next s)))
  /\ wpushed s = [1; 2; 3] /\ wpopped s = [1; 2].
Proof.
  assert (E : (fun s => (wpushed s, wpopped s)) <$> weak_run 2 (weak_init 2 0) stale_run = Some ([1; 2; 3], [1; 2])) by (vm_compute; reflexivity).
  apply fmap_Some in E as (s & E & Ew). injection Ew as Ew Er. exists s. split; [exact E|]. split; [|by split].
  apply (spsc_weak_race_free 2 ltac:(lia) 0 9 stale_run). exact E.
Defined.
