(* ===== verification/PacketRing.v ===== *)
(** * Packet slots, the zero-copy ring and the receive loop

    [include/network/packet_ring.hpp], [include/network/packet.hpp], the part
    of [src/network/socket_receiver.cpp] that fills a packet, and
    [ReceiverThread::run] of [src/workers/receiver_thread.cpp].  The socket is
    an input: one call of [recv] yields a datagram with its time stamp, or
    nothing.  The index queues are any queue with the [Fifo] laws. *)

From S2P Require Import Prelude Types Spsc.

(** ** Data *)

(** The members of [PacketSlot]; [recv_ts] is 8-byte aligned, so four padding
    bytes ([align]) lie between [pad1] and it. *)
Record PacketSlot := mkSlot {
  data : bytes;
  length_ : Z;
  pad0 : Z;
  pad1 : Z;
  align : Z;
  recv_ts : Z
}.

Inductive FeedSource := Primary | Secondary | Recovery.

Record MergedSlot := mkMerged { slot_idx : Z; source : FeedSource }.

Definition slot0 : PacketSlot := mkSlot (replicate (Z.to_nat MAX_UDP_PAYLOAD) 0) 0 0 0 0 0.

(** [recovery_slots], [recovery_queue] and [recovery_write_] beside the live
    ring; [Q] is the type of the index queues. *)
Record ZeroCopyRing (Q : Type) := mkRing {
  slots : list PacketSlot;
  queue : Q;
  recovery_slots : list PacketSlot;
  recovery_queue : Q;
  recovery_write_ : Z
}.

Arguments mkRing {Q}.
Arguments slots {Q}.
Arguments queue {Q}.
Arguments recovery_slots {Q}.
Arguments recovery_queue {Q}.
Arguments recovery_write_ {Q}.

(** The receiver thread: its ring, the slot counter and its counters. *)
Record ReceiverThread (Q : Type) := mkReceiver {
  ring_ : ZeroCopyRing Q;
  write_slot_ : Z;
  pkts_received_ : Z;
  pkts_dropped_ : Z
}.

Arguments mkReceiver {Q}.
Arguments ring_ {Q}.
Arguments write_slot_ {Q}.
Arguments pkts_received_ {Q}.
Arguments pkts_dropped_ {Q}.

(** ** Operations *)

(** Writing [bs] to the start of a data array: [None] past its end. *)
Definition blit (bs old : bytes) : option bytes :=
  if decide (length bs <= length old)%nat then Some (bs ++ drop (length bs) old) else None.

(** [SocketReceiver::recv] called with the slot seen as a [RawPacket].  That
    struct is packed: its time stamp is at byte offset 1502, which in a
    [PacketSlot] is [pad0] (2 bytes), [pad1] (4 bytes) and 2 bytes of padding. *)
Definition recv_into (s : PacketSlot) (pkt : bytes) (ts : Z) : option PacketSlot :=
  d ← blit pkt (data s);
  Some (mkSlot d (u16 (Z.of_nat (length pkt)))
    (u16 ts) (u32 (Z.shiftr ts 16))
    (Z.lor (Z.land (align s) 4294901760) (u16 (Z.shiftr ts 48)))
    (recv_ts s)).

Section Ring.
Context {Q : Type} `{FifoOps Q Z}.

Definition ring_mask (idx : Z) : nat := Z.to_nat (Z.land idx (u16 (PACKET_RING_DEPTH - 1))).
Definition recovery_mask (idx : Z) : nat := Z.to_nat (Z.land idx (u16 (RECOVERY_RING_DEPTH - 1))).

(** [claim] and [slot]: the same address, for writing and for reading. *)
Definition slot (r : ZeroCopyRing Q) (idx : Z) : option PacketSlot := slots r !! ring_mask idx.
Definition recovery_slot (r : ZeroCopyRing Q) (idx : Z) : option PacketSlot :=
  recovery_slots r !! recovery_mask idx.

Definition set_slot (r : ZeroCopyRing Q) (idx : Z) (s : PacketSlot) : ZeroCopyRing Q :=
  mkRing (<[ring_mask idx := s]> (slots r)) (queue r) (recovery_slots r) (recovery_queue r)
    (recovery_write_ r).

Definition publish (r : ZeroCopyRing Q) (idx : Z) : bool * ZeroCopyRing Q :=
  let '(ok, q) := try_push (queue r) idx in
  (ok, mkRing (slots r) q (recovery_slots r) (recovery_queue r) (recovery_write_ r)).

Definition consume (r : ZeroCopyRing Q) : option Z * ZeroCopyRing Q :=
  let '(x, q) := try_pop (queue r) in
  (x, mkRing (slots r) q (recovery_slots r) (recovery_queue r) (recovery_write_ r)).

Definition consume_recovered (r : ZeroCopyRing Q) : option Z * ZeroCopyRing Q :=
  let '(x, q) := try_pop (recovery_queue r) in
  (x, mkRing (slots r) (queue r) (recovery_slots r) q (recovery_write_ r)).

Definition depth_approx (r : ZeroCopyRing Q) : Z := size_approx (queue r).

(** [inject_recovered_packet]: the verdict is [true] when the packet was
    queued (the source then counts it as recovered, otherwise as dropped).
    [len] is not checked against the slot: a longer packet is an out-of-bounds
    [memcpy], [None]. *)
Definition inject_recovered_packet (r : ZeroCopyRing Q) (bs : bytes) (ts : Z)
    : option (bool * ZeroCopyRing Q) :=
  if size_approx (recovery_queue r) >=? RECOVERY_RING_DEPTH then Some (false, r)
  else
    let idx := Z.land (recovery_write_ r) (u16 (RECOVERY_RING_DEPTH - 1)) in
    old ← recovery_slots r !! Z.to_nat idx;
    d ← blit bs (data old);
    let s := mkSlot d (Z.of_nat (length bs)) (pad0 old) (pad1 old) (align old) ts in
    let rs := <[Z.to_nat idx := s]> (recovery_slots r) in
    let '(ok, q) := try_push (recovery_queue r) idx in
    Some (if ok then (true, mkRing (slots r) (queue r) rs q (u16 (recovery_write_ r + 1)))
          else (false, mkRing (slots r) (queue r) rs q (recovery_write_ r))).

(** One iteration of [ReceiverThread::run]; the input [None] is [EAGAIN] or an
    error, after which the loop spins.  [slot->length] is stored again with the
    same value. *)
Definition receive_iter (t : ReceiverThread Q) (input : option (bytes * Z))
    : option (ReceiverThread Q) :=
  match input with
  | None => Some t
  | Some (pkt, ts) =>
      old ← slot (ring_ t) (write_slot_ t);
      s ← recv_into old pkt ts;
      let r := set_slot (ring_ t) (write_slot_ t) s in
      if 0 <? Z.of_nat (length pkt) then
        let '(ok, r') := publish r (write_slot_ t) in
        Some (if ok then mkReceiver r' (u16 (write_slot_ t + 1)) (pkts_received_ t +64 1)
                           (pkts_dropped_ t)
              else mkReceiver r' (write_slot_ t) (pkts_received_ t) (pkts_dropped_ t +64 1))
      else Some (mkReceiver r (write_slot_ t) (pkts_received_ t) (pkts_dropped_ t))
  end.

(** ** Invariants

    The queued indices are consecutive and end just before the slot counter. *)

Definition idx_run (w : Z) (n : nat) : list Z :=
  (fun i => u16 (w - Z.of_nat n + Z.of_nat i)) <$> seq 0 n.

Record ring_ok (t : ReceiverThread Q) : Prop := {
  ok_queue : fifo_ok (queue (ring_ t));
  ok_cap : fifo_cap (queue (ring_ t)) = Z.to_nat PACKET_RING_DEPTH;
  ok_slots : length (slots (ring_ t)) = Z.to_nat PACKET_RING_DEPTH;
  ok_data : Forall (fun s => length (data s) = Z.to_nat MAX_UDP_PAYLOAD) (slots (ring_ t));
  ok_write : in_range 16 (write_slot_ t);
  ok_items : items (queue (ring_ t)) = idx_run (write_slot_ t) (length (items (queue (ring_ t))))
}.

(** What the consumer will see: the datagrams in the queued slots. *)
Definition datagram (s : PacketSlot) : bytes := take (Z.to_nat (length_ s)) (data s).
Definition pending (t : ReceiverThread Q) : list (option bytes) :=
  (fun i => datagram <$> slot (ring_ t) i) <$> items (queue (ring_ t)).

(** ** Lemmas *)

Lemma ring_mask_u16 z : ring_mask (u16 z) = Z.to_nat (z mod 65536).
Proof.
  unfold ring_mask. change (u16 (PACKET_RING_DEPTH - 1)) with (2 ^ 16 - 1).
  rewrite land_mask by lia. unfold wrap. by rewrite Z.mod_mod by lia.
Qed.

Lemma ring_mask_range w : in_range 16 w -> ring_mask w = Z.to_nat w.
Proof.
  intros. rewrite <- (wrap_small 16 w) at 1 by done. rewrite ring_mask_u16.
  by rewrite Z.mod_small by range_lia.
Qed.

Lemma idx_run_length w n : length (idx_run w n) = n.
Proof. unfold idx_run. by rewrite length_fmap, length_seq. Qed.

Lemma idx_run_snoc w n : in_range 16 w -> idx_run (u16 (w + 1)) (S n) = idx_run w n ++ [w].
Proof.
  intros Hw. unfold idx_run. rewrite seq_S, fmap_app. f_equal.
  - apply list_fmap_ext. intros i x Hi.
    rewrite <- wrap_add_l, wrap_sub_l, wrap_add_l. f_equal. lia.
  - simpl. f_equal. rewrite <- wrap_add_l, wrap_sub_l, wrap_add_l.
    rewrite wrap_small; range_lia.
Qed.

Lemma idx_run_lookup w n i x :
  idx_run w n !! i = Some x -> (i < n)%nat /\ x = u16 (w - Z.of_nat n + Z.of_nat i).
Proof.
  unfold idx_run. rewrite list_lookup_fmap_Some. intros (j & -> & Hj).
  apply lookup_seq in Hj as [-> ?]. done.
Qed.

(** The slot the receiver fills is queued only when the queue is full, and
    then it is the oldest one. *)
Lemma idx_run_fresh w n i x :
  in_range 16 w -> Z.of_nat n <= PACKET_RING_DEPTH -> idx_run w n !! i = Some x ->
  ring_mask x = ring_mask w -> Z.of_nat n = PACKET_RING_DEPTH /\ i = 0%nat.
Proof.
  intros Hw Hn Hi. apply idx_run_lookup in Hi as [Hi ->].
  rewrite ring_mask_u16, ring_mask_range by done. unfold PACKET_RING_DEPTH in *. intros E.
  range_lia.
Qed.

Lemma slot_set_eq r w (s : PacketSlot) :
  in_range 16 w -> length (slots r) = Z.to_nat PACKET_RING_DEPTH ->
  slot (set_slot r w s) w = Some s.
Proof.
  intros Hw Hl. unfold slot, set_slot. simpl. apply list_lookup_insert_eq.
  rewrite ring_mask_range, Hl by done. unfold PACKET_RING_DEPTH. range_lia.
Qed.

Lemma slot_set_ne r w i (s : PacketSlot) :
  ring_mask i <> ring_mask w -> slot (set_slot r w s) i = slot r i.
Proof. intros. unfold slot, set_slot. simpl. by apply list_lookup_insert_ne. Qed.

Lemma blit_Some bs old :
  (length bs <= length old)%nat -> blit bs old = Some (bs ++ drop (length bs) old).
Proof. intros. unfold blit. by rewrite decide_True. Qed.

(** The receiver can always fill its slot. *)
Lemma recv_slot t pkt ts :
  ring_ok t -> (0 < length pkt <= Z.to_nat MAX_UDP_PAYLOAD)%nat ->
  exists old s, slot (ring_ t) (write_slot_ t) = Some old /\ recv_into old pkt ts = Some s
    /\ datagram s = pkt /\ length (data s) = Z.to_nat MAX_UDP_PAYLOAD /\ recv_ts s = recv_ts old.
Proof.
  intros O Hl. pose proof (ok_write _ O). pose proof (ok_slots _ O) as Hs.
  destruct (lookup_lt_is_Some_2 (slots (ring_ t)) (ring_mask (write_slot_ t))) as [old Hold].
  { rewrite ring_mask_range, Hs by done. unfold PACKET_RING_DEPTH. range_lia. }
  pose proof (Forall_lookup_1 _ _ _ _ (ok_data _ O) Hold) as Hd. simpl in Hd.
  eexists old, _. split; [done|]. unfold recv_into. rewrite blit_Some by lia. simpl.
  split; [done|]. unfold MAX_UDP_PAYLOAD in *. split_and!; try done.
  - unfold datagram. simpl. rewrite wrap_small by range_lia.
    by rewrite Nat2Z.id, take_app_length.
  - simpl. rewrite length_app, length_drop. lia.
Qed.

Context {QF : Fifo Q Z}.

Lemma ring_items_le t : ring_ok t -> Z.of_nat (length (items (queue (ring_ t)))) <= PACKET_RING_DEPTH.
Proof.
  intros O. pose proof (cap_bound _ (ok_queue _ O)). rewrite (ok_cap _ O) in *.
  unfold PACKET_RING_DEPTH in *. lia.
Qed.

Lemma receive_shape t pkt ts :
  ring_ok t -> (0 < length pkt <= Z.to_nat MAX_UDP_PAYLOAD)%nat ->
  exists old s, slot (ring_ t) (write_slot_ t) = Some old /\ datagram s = pkt
    /\ length (data s) = Z.to_nat MAX_UDP_PAYLOAD /\ recv_ts s = recv_ts old
    /\ let r := set_slot (ring_ t) (write_slot_ t) s in
       let r' := snd (publish r (write_slot_ t)) in
       receive_iter t (Some (pkt, ts)) =
         Some (if fst (try_push (queue (ring_ t)) (write_slot_ t))
               then mkReceiver r' (u16 (write_slot_ t + 1)) (pkts_received_ t +64 1) (pkts_dropped_ t)
               else mkReceiver r' (write_slot_ t) (pkts_received_ t) (pkts_dropped_ t +64 1)).
Proof.
  intros O Hl. destruct (recv_slot t pkt ts O Hl) as (old & s & H1 & H2 & ? & ? & ?).
  exists old, s. split_and!; try done. unfold receive_iter. rewrite H1. simpl. rewrite H2. simpl.
  destruct (Z.ltb_spec 0 (Z.of_nat (length pkt))); [|lia]. unfold publish. simpl.
  by destruct (try_push _ _).
Qed.

(** With room in the queue a datagram is appended to what the consumer will
    see, and nothing already queued changes. *)
Lemma receive_room t pkt ts :
  ring_ok t -> (0 < length pkt <= Z.to_nat MAX_UDP_PAYLOAD)%nat ->
  Z.of_nat (length (items (queue (ring_ t)))) < PACKET_RING_DEPTH ->
  exists t', receive_iter t (Some (pkt, ts)) = Some t' /\ ring_ok t'
    /\ pending t' = pending t ++ [Some pkt]
    /\ pkts_received_ t' = (pkts_received_ t +64 1) /\ pkts_dropped_ t' = pkts_dropped_ t.
Proof.
  intros O Hl Hroom. destruct (receive_shape t pkt ts O Hl) as (old & s & Hold & Hd & Hlen & _ & E).
  simpl in E. destruct (push_ok (queue (ring_ t)) (write_slot_ t) (ok_queue _ O)) as [Hp Hi].
  { rewrite (ok_cap _ O). lia. }
  destruct (push_keeps (queue (ring_ t)) (write_slot_ t) (ok_queue _ O)) as [Hk1 Hk2].
  rewrite Hp in E. eexists. split; [exact E|]. unfold publish. simpl.
  destruct (try_push (queue (ring_ t)) (write_slot_ t)) as [v q'] eqn:Eq. simpl in *. subst v.
  pose proof (ok_write _ O) as Hw. pose proof (ring_items_le t O). split; [|split; [|done]].
  - constructor; simpl; try done.
    + by rewrite Hk2, (ok_cap _ O).
    + by rewrite length_insert, (ok_slots _ O).
    + apply Forall_insert; [apply O|done].
    + by apply wrap_range.
    + rewrite Hi, length_app, Nat.add_1_r, idx_run_snoc by done. f_equal. apply O.
  - unfold pending. simpl. rewrite Hi, fmap_app. f_equal.
    + apply list_fmap_ext. intros i x Hx. f_equal. rewrite (ok_items _ O) in Hx.
      apply (slot_set_ne (ring_ t)). intros Em.
      destruct (idx_run_fresh _ _ _ _ Hw H0 Hx Em). lia.
    + simpl. rewrite <- Hd. f_equal.
      pose proof (slot_set_eq (ring_ t) (write_slot_ t) s Hw (ok_slots _ O)) as Es.
      unfold slot, set_slot in *. simpl in *. by rewrite Es.
Qed.

(** With a full queue the datagram is counted as dropped, but it has already
    been written over the oldest queued one. *)
Lemma receive_full t pkt ts :
  ring_ok t -> (0 < length pkt <= Z.to_nat MAX_UDP_PAYLOAD)%nat ->
  Z.of_nat (length (items (queue (ring_ t)))) = PACKET_RING_DEPTH ->
  exists t', receive_iter t (Some (pkt, ts)) = Some t'
    /\ pending t' = Some pkt :: tail (pending t)
    /\ pkts_received_ t' = pkts_received_ t /\ pkts_dropped_ t' = (pkts_dropped_ t +64 1).
Proof.
  intros O Hl Hfull. destruct (receive_shape t pkt ts O Hl) as (old & s & Hold & Hd & Hlen & _ & E).
  simpl in E. destruct (push_full (queue (ring_ t)) (write_slot_ t) (ok_queue _ O)) as [Hp Hi].
  { rewrite (ok_cap _ O). lia. }
  rewrite Hp in E. eexists. split; [exact E|]. unfold publish. simpl.
  destruct (try_push (queue (ring_ t)) (write_slot_ t)) as [v q'] eqn:Eq. simpl in *. subst v.
  pose proof (ok_write _ O) as Hw. split; [|done].
  unfold pending. simpl. rewrite Hi. pose proof (ok_items _ O) as Hit.
  assert (Hfr : forall i x, items (queue (ring_ t)) !! i = Some x ->
    ring_mask x = ring_mask (write_slot_ t) -> i = 0%nat).
  { intros i x Hx Em. rewrite Hit in Hx.
    by destruct (idx_run_fresh _ _ _ _ Hw (Z.eq_le_incl _ _ Hfull) Hx Em). }
  destruct (items (queue (ring_ t))) as [|x0 l] eqn:El; [simpl in Hfull; unfold PACKET_RING_DEPTH in *; lia|].
  simpl. f_equal.
  - rewrite <- Hd. f_equal.
    assert (Hx0 : idx_run (write_slot_ t) (length (x0 :: l)) !! 0%nat = Some x0) by (by rewrite <- Hit).
    apply idx_run_lookup in Hx0 as [_ Hx0].
    assert (x0 = write_slot_ t) as ->.
    { rewrite Hx0. unfold PACKET_RING_DEPTH in *. range_lia. }
    pose proof (slot_set_eq (ring_ t) (write_slot_ t) s Hw (ok_slots _ O)) as Es.
    unfold slot, set_slot in *. simpl in *. by rewrite Es.
  - apply list_fmap_ext. intros i x Hx. f_equal. apply (slot_set_ne (ring_ t)).
    intros Em. specialize (Hfr (S i) x Hx Em). done.
Qed.

End Ring.

(** ** Properties *)

Section RingProperties.
Context {Q : Type} `{Fifo Q Z}.

Lemma recv_into_ts s pkt ts s' : recv_into s pkt ts = Some s' -> recv_ts s' = recv_ts s.
Proof. unfold recv_into. intros E. opt_inv E. done. Qed.

(** While the index queue has room, a received datagram is appended to
    the sequence of datagrams the consumer will read, the ones already
    queued are untouched, and the ring invariant (queued indices
    consecutive, ending before the slot counter) is kept. *)
Theorem receive_appends (t : ReceiverThread Q) pkt ts :
  ring_ok t -> (0 < length pkt <= Z.to_nat MAX_UDP_PAYLOAD)%nat ->
  Z.of_nat (length (items (queue (ring_ t)))) < PACKET_RING_DEPTH ->
  exists t', receive_iter t (Some (pkt, ts)) = Some t' /\ ring_ok t'
    /\ pending t' = pending t ++ [Some pkt]
    /\ pkts_received_ t' = (pkts_received_ t +64 1) /\ pkts_dropped_ t' = pkts_dropped_ t.
Proof. apply receive_room. Qed.

(** The claimed safety of slot reuse fails on overload: the receiver
    fills its slot before it asks the queue for room, so when the queue is
    full the datagram counted as dropped has replaced the content of the
    oldest unread one, which the consumer then reads in its place. *)
Theorem full_ring_overwrites_oldest (t : ReceiverThread Q) pkt ts :
  ring_ok t -> (0 < length pkt <= Z.to_nat MAX_UDP_PAYLOAD)%nat ->
  Z.of_nat (length (items (queue (ring_ t)))) = PACKET_RING_DEPTH ->
  exists t', receive_iter t (Some (pkt, ts)) = Some t'
    /\ pending t' = Some pkt :: tail (pending t)
    /\ pkts_received_ t' = pkts_received_ t /\ pkts_dropped_ t' = (pkts_dropped_ t +64 1).
Proof. apply receive_full. Qed.

(** Receiving never sets the receive time stamp of a slot: the packed
    [RawPacket] view writes it into the padding of [PacketSlot], so
    [recv_ts] keeps whatever value the buffer was allocated with. *)
Theorem receive_keeps_recv_ts (t t' : ReceiverThread Q) input :
  receive_iter t input = Some t' ->
  recv_ts <$> slots (ring_ t') = recv_ts <$> slots (ring_ t).
Proof.
  destruct input as [[pkt ts]|]; simpl; intros E; [|by injection E as ->].
  apply bind_Some in E as (old & Hold & E). apply bind_Some in E as (s & Hs & E).
  apply recv_into_ts in Hs.
  assert (Hkeep : recv_ts <$> <[ring_mask (write_slot_ t) := s]> (slots (ring_ t))
                  = recv_ts <$> slots (ring_ t)).
  { rewrite list_fmap_insert. apply list_insert_id. rewrite Hs.
    unfold slot in Hold. by rewrite list_lookup_fmap, Hold. }
  unfold publish in E. destruct (0 <? _); [|by injection E as <-].
  destruct (try_push _ _) as [[] q]; by injection E as <-.
Qed.

End RingProperties.

(** *** Witnesses: an idle ring and a full one over [SpscQueue] *)

Definition no_slots : list PacketSlot := replicate (Z.to_nat RECOVERY_RING_DEPTH) slot0.
Definition ring_over (q : Seq.SpscQueue Z) : ReceiverThread (Seq.SpscQueue Z) :=
  mkReceiver (mkRing (replicate (Z.to_nat PACKET_RING_DEPTH) slot0) q no_slots
                (Seq.init (Z.to_nat RECOVERY_RING_DEPTH) 0) 0) 0 0 0.

Lemma ring_over_ok q l :
  Conc.inv 16 (Conc.mkState q Conc.PIdle Conc.CIdle l []) -> l = idx_run 0 (length l) ->
  ring_ok (ring_over q) /\ items q = l.
Proof.
  intros I Hl. pose proof (Conc.contents_inv _ _ _ _ _ _ I) as Hc.
  assert (Hcap := Conc.inv_cap _ _ I). unfold Seq.Capacity in Hcap. cbn [Conc.queue] in Hcap.
  assert (Hit : items q = l) by (unfold items; cbn; by rewrite Hc).
  split; [|done]. constructor; cbn [ring_over ring_ queue slots write_slot_].
  - by exists 16, l, [].
  - unfold fifo_cap, spsc_ops. unfold PACKET_RING_DEPTH. lia.
  - by rewrite length_replicate.
  - apply Forall_replicate. unfold slot0. cbn [data]. by rewrite length_replicate.
  - range_lia.
  - by rewrite Hit.
Qed.

Lemma full_queue_inv (l : list Z) :
  Z.of_nat (length l) = 65536 ->
  Conc.inv 16 (Conc.mkState (Seq.mkSpsc 65536 0 l 65536 0) Conc.PIdle Conc.CIdle l []).
Proof.
  intros Hz. constructor; simpl; rewrite ?Hz; try done.
  - apply prefix_nil.
  - exists 0. split_and!; done || lia.
  - exists 65536. split_and!; done || lia.
  - intros i x _ Hi. pose proof (lookup_lt_Some _ _ _ Hi) as Hlt.
    unfold Conc.slot_at. rewrite Z.mod_small by (pow_consts; lia).
    by rewrite Nat2Z.id.
Qed.

Definition full_queue : Seq.SpscQueue Z :=
  Seq.mkSpsc 65536 0 (idx_run 0 (Z.to_nat PACKET_RING_DEPTH)) 65536 0.

Lemma full_queue_ok :
  ring_ok (ring_over full_queue) /\ items full_queue = idx_run 0 (Z.to_nat PACKET_RING_DEPTH).
Proof.
  apply ring_over_ok; [apply full_queue_inv|]; rewrite idx_run_length; [|done].
  unfold PACKET_RING_DEPTH. lia.
Qed.

Definition idle_ring : ReceiverThread (Seq.SpscQueue Z) := ring_over (Seq.init (Z.to_nat (2 ^ 16)) 0).

Lemma idle_ring_ok : ring_ok idle_ring /\ items (queue (ring_ idle_ring)) = [].
Proof. apply (ring_over_ok _ []); [|done]. by apply (Conc.inv_init 16 0). Qed.

Lemma idle_room : Z.of_nat (length (items (queue (ring_ idle_ring)))) < PACKET_RING_DEPTH.
Proof. by rewrite (proj2 idle_ring_ok). Qed.

Lemma sample_len : (0 < length [1; 2; 3] <= Z.to_nat MAX_UDP_PAYLOAD)%nat.
Proof. unfold MAX_UDP_PAYLOAD. cbn [length]. lia. Qed.

Lemma receive_appends_witness :
  exists t', receive_iter idle_ring (Some ([1; 2; 3], 5)) = Some t'
    /\ pending t' = [Some [1; 2; 3]].
Proof.
  destruct (receive_appends idle_ring [1; 2; 3] 5 (proj1 idle_ring_ok) sample_len idle_room)
    as (t' & Ht & _ & Hp & _).
  exists t'. split; [exact Ht|]. rewrite Hp. unfold pending. by rewrite (proj2 idle_ring_ok).
Defined.

Lemma full_ring_overwrites_oldest_witness :
  exists t', receive_iter (ring_over full_queue) (Some ([1; 2; 3], 5)) = Some t'
    /\ head (pending t') = Some (Some [1; 2; 3]).
Proof.
  destruct (full_ring_overwrites_oldest (ring_over full_queue) [1; 2; 3] 5
    (proj1 full_queue_ok) sample_len) as (t' & Ht & Hp & _).
  - cbn [ring_over ring_ queue]. rewrite (proj2 full_queue_ok), idx_run_length.
    unfold PACKET_RING_DEPTH. lia.
  - exists t'. split; [exact Ht|]. by rewrite Hp.
Defined.

Lemma receive_keeps_recv_ts_witness :
  exists t', receive_iter idle_ring (Some ([1; 2; 3], 5)) = Some t'
    /\ recv_ts <$> slots (ring_ t') = replicate (Z.to_nat PACKET_RING_DEPTH) 0.
Proof.
  destruct (receive_room idle_ring [1; 2; 3] 5 (proj1 idle_ring_ok) sample_len idle_room)
    as (t' & Ht & _).
  exists t'. split; [exact Ht|]. rewrite (receive_keeps_recv_ts _ t' _ Ht).
  unfold idle_ring, ring_over. cbn [ring_ slots]. by rewrite fmap_replicate.
Defined.
