(* ===== verification/FeedMerger.v ===== *)
(** * A/B feed merger

    [DedupWindow] and [FeedMerger] of [include/workers/feed_merger.hpp] and
    [src/workers/feed_merger.cpp].  The clock is an input of each operation
    that reads it; the advance loop of the window takes fuel, and running out
    of it is [None]. *)

From S2P Require Import Prelude Types Mold Spsc PacketRing.

(** ** The deduplication window *)

Module Dedup.

Record DedupWindow := mkDedup { base_ : Z; bits0 : Z; bits1 : Z }.

Definition reset : DedupWindow := mkDedup 0 0 0.

(** The [while] loop that moves the window until [seq] fits. *)
Fixpoint advance (fuel : nat) (w : DedupWindow) (seq : Z) : option DedupWindow :=
  match fuel with
  | O => None
  | S fuel' =>
      if seq >=? (base_ w +64 DEDUP_WINDOW_SIZE)
      then advance fuel' (mkDedup (base_ w +64 64) (bits1 w) 0) seq
      else Some w
  end.

Definition check_and_mark (fuel : nat) (w : DedupWindow) (seq : Z)
    : option (bool * DedupWindow) :=
  if seq <? base_ w then Some (false, w)
  else
    w1 ← advance fuel w seq;
    let offset := seq -64 base_ w1 in
    let word := Z.shiftr offset 6 in
    let mask := u64 (Z.shiftl 1 (Z.land offset 63)) in
    let bits := if word =? 0 then bits0 w1 else bits1 w1 in
    if negb (Z.land bits mask =? 0) then Some (false, w1)
    else
      let bits' := Z.lor bits mask in
      Some (true, if word =? 0 then mkDedup (base_ w1) bits' (bits1 w1)
                  else mkDedup (base_ w1) (bits0 w1) bits').

(** A history of calls, with the verdict of each. *)
Fixpoint run (fuel : nat) (w : DedupWindow) (seqs : list Z)
    : option (list (Z * bool) * DedupWindow) :=
  match seqs with
  | [] => Some ([], w)
  | s :: seqs' =>
      '(v, w1) ← check_and_mark fuel w s;
      '(vs, w2) ← run fuel w1 seqs';
      Some ((s, v) :: vs, w2)
  end.

(** The sequence numbers a history has forwarded. *)
Definition accepted (h : list (Z * bool)) : list Z := (filter (fun p => p.2 = true) h).*1.

(** *** Representation: which numbers the window knows as forwarded *)

Definition known (w : DedupWindow) (s : Z) : bool :=
  let o := s - base_ w in
  if o <? 64 then Z.testbit (bits0 w) o else Z.testbit (bits1 w) (o - 64).

Record rep (w : DedupWindow) (seen : list Z) : Prop := {
  rep_base : 0 <= base_ w <= 2 ^ 64 - 192 /\ base_ w mod 64 = 0;
  rep_known s : base_ w <= s < base_ w + 128 -> known w s = true <-> s ∈ seen;
  rep_below s : s ∈ seen -> s < base_ w + 128;
  rep_moved : base_ w = 0 \/ exists y, y ∈ seen /\ base_ w + 64 <= y
}.

(** Everything needed from a moved window except that some forwarded number
    justifies its base. *)
Record rep_pre (w : DedupWindow) (seen : list Z) (seq : Z) : Prop := {
  pre_base : 0 <= base_ w <= 2 ^ 64 - 192 /\ base_ w mod 64 = 0;
  pre_known s : base_ w <= s < base_ w + 128 -> known w s = true <-> s ∈ seen;
  pre_below s : s ∈ seen -> s < base_ w + 128;
  pre_moved : base_ w = 0 \/ (exists y, y ∈ seen /\ base_ w + 64 <= y) \/ base_ w + 64 <= seq;
  pre_seq : base_ w <= seq
}.

Lemma rep_to_pre w seen seq : rep w seen -> base_ w <= seq -> rep_pre w seen seq.
Proof. intros [? ? ? [?|?]] ?; constructor; auto. Qed.

Lemma advance_rep fuel w seen seq :
  rep_pre w seen seq -> seq < 2 ^ 64 - 64 -> (seq - base_ w) / 64 < Z.of_nat fuel ->
  exists w1, advance fuel w seq = Some w1 /\ rep_pre w1 seen seq /\ seq < base_ w1 + 128.
Proof.
  revert w. induction fuel as [|fuel IH]; intros w R Hseq Hf.
  { destruct R. pose proof (Z.div_pos (seq - base_ w) 64). lia. }
  cbn [advance]. unfold DEDUP_WINDOW_SIZE. pose proof (pre_base _ _ _ R).
  rewrite (wrap_small 64 (base_ w + 128)) by range_lia. rewrite Z.geb_leb.
  destruct (Z.leb_spec (base_ w + 128) seq) as [Hge|Hlt]; [|by exists w].
  rewrite (wrap_small 64 (base_ w + 64)) by range_lia.
  destruct (IH (mkDedup (base_ w + 64) (bits1 w) 0)) as (w1 & E & R1 & H1); [|done| |].
  - constructor; simpl; try lia.
    + range_lia.
    + intros s Hs. unfold known. simpl. destruct (Z.ltb_spec (s - (base_ w + 64)) 64).
      * rewrite <- (pre_known _ _ _ R s) by lia. unfold known.
        destruct (Z.ltb_spec (s - base_ w) 64); [lia|].
        by replace (s - (base_ w + 64)) with (s - base_ w - 64) by lia.
      * rewrite Z.testbit_0_l. split; [done|]. intros Hin. apply (pre_below _ _ _ R) in Hin. lia.
    + intros s Hs. apply (pre_below _ _ _ R) in Hs. lia.
  - simpl. replace (seq - (base_ w + 64)) with (seq - base_ w + (-1) * 64) by lia.
    rewrite Z.div_add by lia. lia.
  - by exists w1.
Qed.

Lemma land_bit bits i : 0 <= i -> (Z.land bits (Z.shiftl 1 i) =? 0) = negb (Z.testbit bits i).
Proof.
  intros Hi. destruct (Z.testbit bits i) eqn:E; simpl.
  - apply Z.eqb_neq. intros H0. assert (Hb : Z.testbit (Z.land bits (Z.shiftl 1 i)) i = false)
      by (rewrite H0; apply Z.testbit_0_l).
    rewrite Z.land_spec, E, Z.shiftl_spec, Z.sub_diag in Hb by lia. done.
  - apply Z.eqb_eq, Z.bits_inj'. intros j Hj. rewrite Z.land_spec, Z.testbit_0_l, Z.shiftl_spec by lia.
    destruct (decide (i = j)) as [->|]; [by rewrite E|].
    replace (Z.testbit 1 (j - i)) with false; [apply andb_false_r|]. symmetry.
    destruct (decide (j < i)); [apply Z.testbit_neg_r; lia|].
    rewrite <- Z.pow_0_r with 2, Z.pow2_bits_eqb by lia. apply Z.eqb_neq. lia.
Qed.

Lemma lor_bit bits i j :
  0 <= i -> 0 <= j -> Z.testbit (Z.lor bits (Z.shiftl 1 i)) j = Z.testbit bits j || (j =? i).
Proof.
  intros Hi Hj. rewrite Z.lor_spec, Z.shiftl_spec by lia. f_equal.
  destruct (decide (j < i)); [rewrite Z.testbit_neg_r by lia; symmetry; apply Z.eqb_neq; lia|].
  replace 1 with (2 ^ 0) by done. rewrite Z.pow2_bits_eqb by lia. zcases; lia || done.
Qed.

(** One call, against the set of numbers forwarded so far. *)
Lemma check_and_mark_rep fuel w seen seq :
  rep w seen -> 0 <= seq < 2 ^ 64 - 64 -> seq / 64 < Z.of_nat fuel ->
  exists v w', check_and_mark fuel w seq = Some (v, w')
    /\ rep w' (if v then seq :: seen else seen)
    /\ (v = true -> seq ∉ seen)
    /\ (v = false -> seq ∈ seen \/ seq < base_ w /\ exists y, y ∈ seen /\ seq + 64 < y).
Proof.
  intros R Hseq Hf. unfold check_and_mark. destruct (Z.ltb_spec seq (base_ w)) as [Hold|Hnew].
  { exists false, w. split_and!; try done. intros _. right.
    destruct (rep_moved _ _ R) as [|(y & ? & ?)]; [lia|]. split; [done|]. exists y. split; [done|lia]. }
  destruct (advance_rep fuel w seen seq) as (w1 & -> & R1 & Hlt); [by apply rep_to_pre|lia| |].
  { pose proof (rep_base _ _ R). assert ((seq - base_ w) / 64 <= seq / 64) by (apply Z.div_le_mono; lia). lia. }
  simpl. destruct R1 as [Hb Hk Hbel Hmov Hge].
  rewrite (wrap_small 64 (seq - base_ w1)) by range_lia.
  set (o := seq - base_ w1) in *. assert (Ho : 0 <= o < 128) by lia.
  rewrite Z.shiftr_div_pow2 by lia. change 63 with (2 ^ 6 - 1). rewrite land_mask by lia.
  change (2 ^ 6) with 64. rewrite wrap_small.
  2:{ rewrite Z.shiftl_1_l. split; [apply Z.pow_nonneg; lia|]. apply Z.pow_lt_mono_r; range_lia. }
  assert (Hw : (o / 64 =? 0) = (o <? 64)) by (zcases; range_lia).
  rewrite Hw, land_bit, negb_involutive by range_lia.
  assert (Hkn : known w1 seq = Z.testbit (if o <? 64 then bits0 w1 else bits1 w1) (o mod 64)).
  { unfold known. fold o. destruct (Z.ltb_spec o 64); f_equal; range_lia. }
  rewrite <- Hkn. specialize (Hk seq) as Hks. destruct (known w1 seq) eqn:Ek.
  - assert (seq ∈ seen) by (apply Hks; [lia|done]). exists false, w1. split_and!; try done; [|by left].
    constructor; try done. destruct Hmov as [?|[?|?]]; [by left|by right|]. right. by exists seq.
  - assert (Hns : seq ∉ seen) by (intros Hin; apply Hks in Hin; [done|lia]).
    eexists true, _. split_and!; try done. set (w' := if o <? 64 then _ else _).
    assert (Hb' : base_ w' = base_ w1) by (unfold w'; by destruct (o <? 64)).
    constructor; rewrite ?Hb'; try done.
    + intros s Hs. rewrite elem_of_cons, <- Hk by done.
      assert (known w' s = known w1 s || (s =? seq)) as ->.
      { unfold known, w'. destruct (Z.ltb_spec o 64); simpl; destruct (Z.ltb_spec (s - base_ w1) 64);
          try (rewrite lor_bit by range_lia; f_equal; zcases; done || range_lia);
          rewrite (proj2 (Z.eqb_neq s seq)), orb_false_r by lia; done. }
      rewrite orb_true_iff, Z.eqb_eq. tauto.
    + intros s [->|Hs]%elem_of_cons; [lia|by apply Hbel].
    + destruct Hmov as [?|[(y & ? & ?)|?]]; [by left|right; exists y|right; exists seq];
        (split; [by constructor|done]).
Qed.

Lemma rep_reset : rep reset [].
Proof.
  constructor; simpl; try lia; [done|..].
  - intros s Hs. unfold known. simpl. destruct (_ <? _); rewrite Z.testbit_0_l; by rewrite elem_of_nil.
  - intros s Hs. by apply elem_of_nil in Hs.
Qed.

(** A rejected number was forwarded before, or lies more than 64 below one. *)
Definition justified (before : list Z) (s : Z) : Prop :=
  s ∈ before \/ exists y, y ∈ before /\ s + 64 < y.

Lemma justified_mono a b s : (forall z, z ∈ a -> z ∈ b) -> justified a s -> justified b s.
Proof. intros Hab [H|(y & H & ?)]; [left; auto|right; exists y; auto]. Qed.

Lemma accepted_cons s v h :
  accepted ((s, v) :: h) = if v then s :: accepted h else accepted h.
Proof. unfold accepted. by destruct v. Qed.

Lemma run_rep fuel seqs w seen :
  rep w seen -> NoDup seen ->
  Forall (fun s => 0 <= s < 2 ^ 64 - 64 /\ s / 64 < Z.of_nat fuel) seqs ->
  exists h w', run fuel w seqs = Some (h, w') /\ h.*1 = seqs
    /\ NoDup (rev (accepted h) ++ seen)
    /\ (forall i s, h !! i = Some (s, false) -> justified (accepted (take i h) ++ seen) s).
Proof.
  revert w seen. induction seqs as [|s seqs IH]; intros w seen R Hnd Hall.
  { exists [], w. by split_and!. }
  inversion_clear Hall as [|?? [Hs Hf] Hall'].
  destruct (check_and_mark_rep fuel w seen s R Hs Hf) as (v & w1 & E & R1 & Hv1 & Hv0).
  cbn [run]. rewrite E. simpl.
  destruct (IH w1 (if v then s :: seen else seen) R1) as (h & w2 & -> & Hfst & Hnd' & Hrej); [|done|].
  { destruct v; [|done]. constructor; auto. }
  simpl. eexists _, w2. split; [done|]. split; [by rewrite <- Hfst|].
  rewrite accepted_cons. split.
  - destruct v; [|done]. cbn [rev]. by rewrite <- app_assoc.
  - intros [|i] s' Hi; cbn [take lookup list_lookup] in *.
    + injection Hi as -> ->. destruct (Hv0 eq_refl) as [?|[_ ?]]; [by left|by right].
    + rewrite accepted_cons. specialize (Hrej i s' Hi). destruct v; [|done].
      eapply justified_mono; [|exact Hrej]. intros z.
      repeat rewrite ?elem_of_app, ?elem_of_cons. tauto.
Qed.

(** Divergence near the top of the range. *)
Lemma advance_diverges fuel w seq :
  2 ^ 64 - 64 <= seq < 2 ^ 64 -> in_range 64 (base_ w) -> base_ w mod 64 = 0 ->
  advance fuel w seq = None.
Proof.
  intros Hs. revert w. induction fuel as [|fuel IH]; intros w Hb Hm; [done|].
  cbn [advance]. unfold DEDUP_WINDOW_SIZE. rewrite Z.geb_leb.
  destruct (Z.leb_spec (wrap 64 (base_ w + 128)) seq) as [_|H]; [|exfalso; range_lia].
  apply IH; simpl; [by apply wrap_range|]. range_lia.
Qed.

End Dedup.

(** ** The merger thread *)

Import Dedup.

Record MergerStats := mkMergerStats {
  secondary_packets : Z;
  dedup_drops : Z;
  feed_failover_count : Z;
  merged_drops : Z
}.

(** [secondary_ring_] is [None] when its buffer is null; [Q] and [M] are the
    types of the index queues and of the merged queue. *)
Record FeedMerger (Q M : Type) := mkMerger {
  primary_ring_ : ZeroCopyRing Q;
  secondary_ring_ : option (ZeroCopyRing Q);
  merged_queue_ : M;
  stats_ : MergerStats;
  failover_timeout_ns_ : Z;
  dedup_ : DedupWindow;
  primary_last_ts_ : Z;
  last_failover_log_ts_ : Z;
  failed_over_ : bool;
  secondary_enabled_ : bool;
  slot_counter_ : Z
}.

Arguments mkMerger {Q M}.
Arguments primary_ring_ {Q M}.
Arguments secondary_ring_ {Q M}.
Arguments merged_queue_ {Q M}.
Arguments stats_ {Q M}.
Arguments failover_timeout_ns_ {Q M}.
Arguments dedup_ {Q M}.
Arguments primary_last_ts_ {Q M}.
Arguments last_failover_log_ts_ {Q M}.
Arguments failed_over_ {Q M}.
Arguments secondary_enabled_ {Q M}.
Arguments slot_counter_ {Q M}.

Definition FAILOVER_CHECK_INTERVAL : Z := 4096.

Definition peek_sequence (s : PacketSlot) : option Z :=
  if length_ s <? 20 then Some 0
  else b ← rd_bytes 8 (drop 10 (data s)); Some (bswap 8 (le_val b)).

Definition peek_msg_count (s : PacketSlot) : option Z :=
  b ← rd_bytes 2 (drop 18 (data s)); Some (bswap 2 (le_val b)).

Section Merger.
Context {Q M : Type} `{FifoOps Q Z} `{FifoOps M MergedSlot}.

Abbreviation merger := (FeedMerger Q M).

(** Assignments to members. *)
Definition set_merged (m : merger) (q : M) (st : MergerStats) : merger :=
  mkMerger (primary_ring_ m) (secondary_ring_ m) q st (failover_timeout_ns_ m) (dedup_ m)
    (primary_last_ts_ m) (last_failover_log_ts_ m) (failed_over_ m) (secondary_enabled_ m)
    (slot_counter_ m).
Definition set_dedup (m : merger) (w : DedupWindow) : merger :=
  mkMerger (primary_ring_ m) (secondary_ring_ m) (merged_queue_ m) (stats_ m)
    (failover_timeout_ns_ m) w (primary_last_ts_ m) (last_failover_log_ts_ m) (failed_over_ m)
    (secondary_enabled_ m) (slot_counter_ m).
Definition set_health (m : merger) (last log : Z) (failed : bool) : merger :=
  mkMerger (primary_ring_ m) (secondary_ring_ m) (merged_queue_ m) (stats_ m)
    (failover_timeout_ns_ m) (dedup_ m) last log failed (secondary_enabled_ m) (slot_counter_ m).
Definition set_rings (m : merger) (p : ZeroCopyRing Q) (s : option (ZeroCopyRing Q)) : merger :=
  mkMerger p s (merged_queue_ m) (stats_ m) (failover_timeout_ns_ m) (dedup_ m)
    (primary_last_ts_ m) (last_failover_log_ts_ m) (failed_over_ m) (secondary_enabled_ m)
    (slot_counter_ m).
Definition set_counter (m : merger) (c : Z) : merger :=
  mkMerger (primary_ring_ m) (secondary_ring_ m) (merged_queue_ m) (stats_ m)
    (failover_timeout_ns_ m) (dedup_ m) (primary_last_ts_ m) (last_failover_log_ts_ m)
    (failed_over_ m) (secondary_enabled_ m) c.

Definition add_secondary (st : MergerStats) : MergerStats :=
  mkMergerStats (secondary_packets st +64 1) (dedup_drops st) (feed_failover_count st)
    (merged_drops st).
Definition add_dedup_drop (st : MergerStats) : MergerStats :=
  mkMergerStats (secondary_packets st) (dedup_drops st +64 1) (feed_failover_count st)
    (merged_drops st).
Definition add_failover (st : MergerStats) : MergerStats :=
  mkMergerStats (secondary_packets st) (dedup_drops st) (feed_failover_count st +64 1)
    (merged_drops st).
Definition add_merged_drop (st : MergerStats) : MergerStats :=
  mkMergerStats (secondary_packets st) (dedup_drops st) (feed_failover_count st)
    (merged_drops st +64 1).

Definition forward (m : merger) (ms : MergedSlot) : merger :=
  let '(ok, q) := try_push (merged_queue_ m) ms in
  set_merged m q (if ok then stats_ m else add_merged_drop (stats_ m)).

(** [now] is the value of [steady_ns()] should the handler read it. *)
Definition handle_live_slot (fuel : nat) (now : Z) (m : merger) (idx : Z) (src : FeedSource)
    : option merger :=
  s ← match src with
      | Primary => slot (primary_ring_ m) idx
      | _ => r ← secondary_ring_ m; slot r idx
      end;
  let m1 :=
    match src with
    | Primary =>
        set_health m (if recv_ts s =? 0 then now else recv_ts s) (last_failover_log_ts_ m) false
    | _ => set_merged m (merged_queue_ m) (add_secondary (stats_ m))
    end in
  seq ← peek_sequence s;
  if seq =? 0 then Some (forward m1 (mkMerged idx src))
  else
    mc ← peek_msg_count s;
    if mc =? MOLDUDP64_HEARTBEAT then Some (forward m1 (mkMerged idx src))
    else
      '(fresh, w) ← check_and_mark fuel (dedup_ m1) seq;
      let m2 := set_dedup m1 w in
      if negb fresh then Some (set_merged m2 (merged_queue_ m2) (add_dedup_drop (stats_ m2)))
      else Some (forward m2 (mkMerged idx src)).

Definition check_failover (now : Z) (m : merger) : merger :=
  if negb (failed_over_ m) then
    if (0 <? primary_last_ts_ m) && (failover_timeout_ns_ m <? (now -64 primary_last_ts_ m)) then
      set_merged (set_health m (primary_last_ts_ m) now true) (merged_queue_ m)
        (add_failover (stats_ m))
    else m
  else if (now -64 last_failover_log_ts_ m) >=? 1000000000 then
    set_health m (primary_last_ts_ m) now true
  else m.

(** The entry of [run], before the loop. *)
Definition merge_start (now : Z) (m : merger) : merger :=
  mkMerger (primary_ring_ m) (secondary_ring_ m) (merged_queue_ m) (stats_ m)
    (failover_timeout_ns_ m) (dedup_ m) now (last_failover_log_ts_ m) (failed_over_ m)
    (match secondary_ring_ m with Some _ => true | None => false end) (slot_counter_ m).

(** One iteration of the loop of [run]: recovered packets first, then one
    packet of each feed, then the amortised health check. *)
Definition poll_primary (fuel : nat) (now : Z) (m : merger) : option merger :=
  let '(got, r) := consume (primary_ring_ m) in
  let m1 := set_rings m r (secondary_ring_ m) in
  match got with
  | Some pidx => handle_live_slot fuel now m1 pidx Primary
  | None => Some m1
  end.

Definition poll_secondary (fuel : nat) (now : Z) (m : merger) : option merger :=
  if secondary_enabled_ m then
    r0 ← secondary_ring_ m;
    let '(got, r) := consume r0 in
    let m1 := set_rings m (primary_ring_ m) (Some r) in
    match got with
    | Some sidx => handle_live_slot fuel now m1 sidx Secondary
    | None => Some m1
    end
  else Some m.

Definition merge_iter (fuel : nat) (now now' : Z) (m : merger) : option merger :=
  let '(rec, r) := consume_recovered (primary_ring_ m) in
  let m0 := set_rings m r (secondary_ring_ m) in
  match rec with
  | Some rec_idx => Some (forward m0 (mkMerged rec_idx Recovery))
  | None =>
      m1 ← poll_primary fuel now m0;
      m2 ← poll_secondary fuel now m1;
      let c := slot_counter_ m2 +32 1 in
      if c >=? FAILOVER_CHECK_INTERVAL then
        let m3 := set_counter m2 0 in
        Some (if secondary_enabled_ m3 then check_failover now' m3 else m3)
      else Some (set_counter m2 c)
  end.

(** *** Lemmas *)

(** The member updates of a handler before it looks at the packet. *)
Definition noted (now : Z) (m : merger) (s : PacketSlot) (src : FeedSource) : merger :=
  match src with
  | Primary =>
      set_health m (if recv_ts s =? 0 then now else recv_ts s) (last_failover_log_ts_ m) false
  | _ => set_merged m (merged_queue_ m) (add_secondary (stats_ m))
  end.

Definition live_slot (m : merger) (idx : Z) (src : FeedSource) : option PacketSlot :=
  match src with
  | Primary => slot (primary_ring_ m) idx
  | _ => r ← secondary_ring_ m; slot r idx
  end.

(** A sequenced data packet: neither short, nor a heartbeat. *)
Definition sequenced (s : PacketSlot) (seq : Z) : Prop :=
  peek_sequence s = Some seq /\ 0 < seq < 2 ^ 64 - 64
  /\ exists mc, peek_msg_count s = Some mc /\ mc <> MOLDUDP64_HEARTBEAT.

Lemma handle_sequenced fuel now m idx src s seq :
  live_slot m idx src = Some s -> sequenced s seq ->
  handle_live_slot fuel now m idx src =
    '(fresh, w) ← check_and_mark fuel (dedup_ m) seq;
    let m2 := set_dedup (noted now m s src) w in
    if negb fresh then Some (set_merged m2 (merged_queue_ m2) (add_dedup_drop (stats_ m2)))
    else Some (forward m2 (mkMerged idx src)).
Proof.
  intros Hs (Hseq & Hr & mc & Hmc & Hne). unfold handle_live_slot.
  replace (match src with Primary => _ | _ => _ end) with (live_slot m idx src) by by destruct src.
  rewrite Hs. simpl. rewrite Hseq. simpl. destruct (Z.eqb_spec seq 0); [lia|].
  rewrite Hmc. simpl. destruct (Z.eqb_spec mc MOLDUDP64_HEARTBEAT); [done|].
  by destruct src.
Qed.

Lemma noted_merged now m s src : merged_queue_ (noted now m s src) = merged_queue_ m.
Proof. by destruct src. Qed.

End Merger.

(** ** Properties *)

Section MergerProperties.
Context {Q M : Type} `{FifoOps Q Z} `{Fifo M MergedSlot}.

(** C23: over any history of sequence numbers below 2^64 - 64, in any order
    and with any repetitions, the window answers every call, forwards no
    number twice, and rejects a number it has not forwarded only when it
    lies more than 64 below one it has. *)
Theorem dedup_exactly_once fuel seqs :
  Forall (fun s => 0 <= s < 2 ^ 64 - 64 /\ s / 64 < Z.of_nat fuel) seqs ->
  exists h w', run fuel reset seqs = Some (h, w') /\ h.*1 = seqs
    /\ NoDup (accepted h)
    /\ (forall i s, h !! i = Some (s, false) ->
          s ∈ accepted (take i h) \/ exists y, y ∈ accepted (take i h) /\ s + 64 < y).
Proof.
  intros Hall. destruct (run_rep fuel seqs reset [] rep_reset (NoDup_nil_2) Hall)
    as (h & w' & Hr & Hf & Hnd & Hj).
  exists h, w'. rewrite app_nil_r in Hnd. split_and!; try done.
  - by rewrite <- Permutation_rev in Hnd.
  - intros i s Hi. specialize (Hj i s Hi). by rewrite app_nil_r in Hj.
Qed.

(** For a sequence number in the top 64 of the range the end of the
    window wraps to zero and the loop that moves it never ends, on every
    window reached from a reset. *)
Theorem dedup_loops_at_top w seen seq :
  rep w seen -> 2 ^ 64 - 64 <= seq < 2 ^ 64 -> forall fuel, check_and_mark fuel w seq = None.
Proof.
  intros R Hs fuel. destruct (rep_base _ _ R) as [Hb Hm]. unfold check_and_mark.
  destruct (Z.ltb_spec seq (base_ w)); [lia|].
  by rewrite advance_diverges by (done || range_lia).
Qed.

(** A packet that finds the merged queue full is lost on both feeds: its
    sequence number is marked as forwarded before the push, so when the
    consumer has made room and the other feed delivers the same packet, it is
    counted as a duplicate and not forwarded. *)
Theorem full_merged_queue_loses_both_copies fuel now now' (m : FeedMerger Q M) idx s seq seen :
  rep (dedup_ m) seen -> seq ∉ seen -> base_ (dedup_ m) <= seq ->
  live_slot m idx Primary = Some s -> sequenced s seq -> seq / 64 < Z.of_nat fuel ->
  fifo_ok (merged_queue_ m) -> (fifo_cap (merged_queue_ m) <= length (items (merged_queue_ m)))%nat ->
  exists m1, handle_live_slot fuel now m idx Primary = Some m1
    /\ items (merged_queue_ m1) = items (merged_queue_ m)
    /\ merged_drops (stats_ m1) = (merged_drops (stats_ m) +64 1)
    /\ forall q r idx' s', slot r idx' = Some s' -> sequenced s' seq ->
       exists m2,
         handle_live_slot fuel now' (set_rings (set_merged m1 q (stats_ m1)) (primary_ring_ m1) (Some r))
           idx' Secondary = Some m2
         /\ merged_queue_ m2 = q /\ dedup_drops (stats_ m2) = (dedup_drops (stats_ m1) +64 1).
Proof.
  intros R Hns Hb Hs Hsq Hf Hok Hfull. pose proof Hsq as (_ & Hr & _).
  rewrite (handle_sequenced fuel now m idx Primary s seq Hs Hsq).
  destruct (check_and_mark_rep fuel (dedup_ m) seen seq R ltac:(lia) Hf) as (v & w & E & R' & _ & Hv).
  rewrite E. simpl. destruct (push_full (merged_queue_ m) (mkMerged idx Primary) Hok Hfull) as [Hp Hi].
  assert (v = true) as -> by (destruct v; [done|]; destruct (Hv eq_refl) as [?|[? _]]; [done|lia]).
  simpl. eexists. split; [done|]. unfold forward.
  destruct (try_push (merged_queue_ m) (mkMerged idx Primary)) as [ok q1] eqn:Eq. simpl in *.
  rewrite Eq. subst ok. split_and!; try done. intros q r idx' s' Hs' Hsq'.
  set (m' := set_rings _ _ _). rewrite (handle_sequenced fuel now' m' idx' Secondary s' seq) by done.
  destruct (check_and_mark_rep fuel w (seq :: seen) seq R' ltac:(lia) Hf) as (v2 & w2 & E2 & _ & Hv2 & _).
  simpl. rewrite E2. destruct v2; [by destruct (Hv2 eq_refl); left|]. by eexists.
Qed.

End MergerProperties.

(** *** Witnesses *)

Lemma dedup_exactly_once_witness :
  exists h w', run 10 reset [1; 2; 1; 300; 5; 240] = Some (h, w') /\ NoDup (accepted h).
Proof.
  destruct (dedup_exactly_once 10 [1; 2; 1; 300; 5; 240]) as (h & w' & Hr & _ & Hn & _).
  - repeat constructor; reflexivity || lia.
  - exists h, w'. split; [exact Hr|exact Hn].
Defined.

Lemma dedup_loops_at_top_witness : check_and_mark 5 reset (2 ^ 64 - 1) = None.
Proof. exact (dedup_loops_at_top reset [] (2 ^ 64 - 1) rep_reset ltac:(lia) 5). Defined.

(** A packet with sequence number 7 and one message, a one-slot merged queue
    that already holds a token. *)
Definition packet7 : PacketSlot :=
  mkSlot (replicate 10 0 ++ be_enc 8 7 ++ be_enc 2 1) 20 0 0 0 0.
Definition ring7 : ZeroCopyRing (Seq.SpscQueue Z) :=
  mkRing [packet7] (Seq.init 1 0) [] (Seq.init 1 0) 0.
Definition token : MergedSlot := mkMerged 0 Recovery.
Definition busy_merger : FeedMerger (Seq.SpscQueue Z) (Seq.SpscQueue MergedSlot) :=
  mkMerger ring7 (Some ring7) (snd (try_push (Seq.init 1 token) token))
    (mkMergerStats 0 0 0 0) 1000 reset 0 0 false true 0.

Lemma packet7_sequenced : sequenced packet7 7.
Proof. split; [reflexivity|]. split; [lia|]. exists 1. split; [reflexivity|discriminate]. Qed.

Lemma full_merged_queue_loses_both_copies_witness :
  exists m1, handle_live_slot 1 5 busy_merger 0 Primary = Some m1
    /\ merged_drops (stats_ m1) = 1
    /\ exists m2, handle_live_slot 1 6 (set_rings (set_merged m1 (Seq.init 1 token) (stats_ m1))
           (primary_ring_ m1) (Some ring7)) 0 Secondary = Some m2
         /\ items (merged_queue_ m2) = [].
Proof.
  destruct (full_merged_queue_loses_both_copies 1 5 6 busy_merger 0 packet7 7 [])
    as (m1 & H1 & _ & Hd & H2).
  - exact rep_reset.
  - apply not_elem_of_nil.
  - done.
  - reflexivity.
  - exact packet7_sequenced.
  - done.
  - exact (proj1 (push_keeps (Seq.init 1 token) token (init_fifo_ok 0 token ltac:(lia)))).
  - vm_compute. lia.
  - exists m1. split; [exact H1|]. split; [exact Hd|].
    destruct (H2 (Seq.init 1 token) ring7 0 packet7 eq_refl packet7_sequenced) as (m2 & Hm & Hq & _).
    exists m2. split; [exact Hm|]. rewrite Hq. reflexivity.
Defined.
