(* ===== verification/Failover.v ===== *)
(** * Feed failover

    How [FeedMerger] watches the primary feed ([handle_live_slot],
    [check_failover] and the loop of [run] in [src/workers/feed_merger.cpp]):
    the time the primary feed was last heard, the flag [failed_over_], the
    counter that spaces the checks and the count of failovers.  [Health] is
    that part of the merger's state and [health_step] what one iteration does
    to it, knowing only whether the iteration drained a recovered packet, heard
    the primary feed or did not; the loop of [FeedMerger] refines it
    ([merge_iter_health]).  The rest of the state does not depend on it
    ([failover_is_observational]). *)

From S2P Require Import Prelude Types Mold Spsc PacketRing FeedMerger.
Import Dedup.

Record Health := mkHealth {
  last_heard : Z;
  last_logged : Z;
  failed : bool;
  ticks : Z;
  alarms : Z
}.

(** What an iteration hears. *)
Inductive Tick := Drained | Heard (at_ : Z) | Silent.

Definition health_check (timeout now : Z) (h : Health) : Health :=
  if failed h then
    if (now -64 last_logged h) >=? 1000000000 then mkHealth (last_heard h) now true (ticks h) (alarms h) else h
  else if (0 <? last_heard h) && (timeout <? (now -64 last_heard h))
  then mkHealth (last_heard h) now true (ticks h) (alarms h +64 1)
  else h.

Definition note_tick (h : Health) (x : Tick) : Health :=
  match x with Heard t => mkHealth t (last_logged h) false (ticks h) (alarms h) | _ => h end.

Definition set_ticks (h : Health) (c : Z) : Health := mkHealth (last_heard h) (last_logged h) (failed h) c (alarms h).

(** [now]: the clock at the check, should there be one. *)
Definition health_step (timeout : Z) (enabled : bool) (h : Health) (x : Tick) (now : Z) : Health :=
  match x with
  | Drained => h
  | _ =>
      let h1 := note_tick h x in
      let c := ticks h1 +32 1 in
      if c >=? FAILOVER_CHECK_INTERVAL
      then if enabled then health_check timeout now (set_ticks h1 0) else set_ticks h1 0
      else set_ticks h1 c
  end.

Section Merger.
Context {Q M : Type} `{FifoOps Q Z} `{FifoOps M MergedSlot}.
Abbreviation merger := (FeedMerger Q M).

Definition health (m : merger) : Health :=
  mkHealth (primary_last_ts_ m) (last_failover_log_ts_ m) (failed_over_ m) (slot_counter_ m) (feed_failover_count (stats_ m)).

(** The parameters of the check do not change. *)
Definition same_setup (m m' : merger) : Prop :=
  failover_timeout_ns_ m' = failover_timeout_ns_ m /\ secondary_enabled_ m' = secondary_enabled_ m.

Definition tick_of (now : Z) (m : merger) : Tick :=
  match fst (try_pop (recovery_queue (primary_ring_ m))) with
  | Some _ => Drained
  | None =>
      match fst (try_pop (queue (primary_ring_ m))) with
      | Some idx => Heard (match slot (primary_ring_ m) idx with
                           | Some s => if recv_ts s =? 0 then now else recv_ts s
                           | None => now end)
      | None => Silent
      end
  end.

Lemma forward_health (m : merger) x : health (forward m x) = health m /\ same_setup m (forward m x).
Proof. unfold forward. destruct (try_push _ _) as [[] q]; done. Qed.

(** The handler in terms of the slot it reads and what it notes first. *)
Lemma handle_noted fuel now (m : merger) idx src : handle_live_slot fuel now m idx src =
  s ← live_slot m idx src;
  let m1 := noted now m s src in
  seq ← peek_sequence s;
  if seq =? 0 then Some (forward m1 (mkMerged idx src))
  else
    mc ← peek_msg_count s;
    if mc =? MOLDUDP64_HEARTBEAT then Some (forward m1 (mkMerged idx src))
    else
      '(fresh, w) ← check_and_mark fuel (dedup_ m1) seq;
      let m2 := set_dedup m1 w in
      if negb fresh then Some (set_merged m2 (merged_queue_ m2) (add_dedup_drop (stats_ m2)))
      else Some (forward m2 (mkMerged idx src)).
Proof. reflexivity. Qed.

Lemma handle_health fuel now (m m' : merger) idx src : handle_live_slot fuel now m idx src = Some m' ->
  exists s, live_slot m idx src = Some s /\ health m' = health (noted now m s src) /\ same_setup m m'.
Proof.
  rewrite handle_noted. intros E. apply bind_Some in E as (s & Es & E). exists s. split; [done|].
  assert (Hm : same_setup m (noted now m s src)) by (by destruct src).
  revert E Hm. generalize (noted now m s src) as m1. cbn zeta. intros m1 E [T1 S1]. apply bind_Some in E as (seq & _ & E).
  assert (Hf : forall x, health (forward m1 x) = health m1 /\ same_setup m (forward m1 x)).
  { intros x. destruct (forward_health m1 x) as [-> [? ?]]. split; [done|]. split; congruence. }
  destruct (seq =? 0); [injection E as <-; apply Hf|]. apply bind_Some in E as (mc & _ & E).
  destruct (mc =? _); [injection E as <-; apply Hf|]. apply bind_Some in E as ([fresh w] & _ & E).
  destruct fresh; injection E as <-; [|done].
  destruct (forward_health (set_dedup m1 w) (mkMerged idx src)) as [-> [? ?]]. split; [done|]. split; cbn in *; congruence.
Qed.

(** An iteration of the loop does to the health what [health_step] says. *)
Lemma merge_iter_health fuel now now' (m m' : merger) : merge_iter fuel now now' m = Some m' ->
  health m' = health_step (failover_timeout_ns_ m) (secondary_enabled_ m) (health m) (tick_of now m) now' /\ same_setup m m'.
Proof.
  unfold merge_iter, tick_of, consume_recovered. destruct (try_pop (recovery_queue (primary_ring_ m))) as [[ri|] rq]; cbn [fst].
  { intros [= <-]. destruct (forward_health (set_rings m (mkRing (slots (primary_ring_ m)) (queue (primary_ring_ m))
      (recovery_slots (primary_ring_ m)) rq (recovery_write_ (primary_ring_ m))) (secondary_ring_ m)) (mkMerged ri Recovery)) as [-> Hs].
    split; [done|exact Hs]. }
  intros E. apply bind_Some in E as (m1 & E1 & E). apply bind_Some in E as (m2 & E2 & E).
  set (x := match fst (try_pop (queue (primary_ring_ m))) with Some _ => _ | None => _ end).
  assert (H1 : health m1 = note_tick (health m) x /\ same_setup m m1 /\ x <> Drained).
  { unfold poll_primary, consume in E1. cbn [set_rings primary_ring_ queue] in E1. unfold x. clear x E E2.
    destruct (try_pop (queue (primary_ring_ m))) as [[idx|] q]; cbn [fst].
    - destruct (handle_health _ _ _ _ _ _ E1) as (s & Es & -> & Hs). change (slot (primary_ring_ m) idx = Some s) in Es.
      rewrite Es. split; [done|]. split; [exact Hs|discriminate].
    - injection E1 as <-. done. }
  assert (H2 : health m2 = health m1 /\ same_setup m1 m2).
  { unfold poll_secondary in E2. destruct (secondary_enabled_ m1); [|by injection E2 as <-].
    apply bind_Some in E2 as (r0 & _ & E2). unfold consume in E2. destruct (try_pop (queue r0)) as [[idx|] q].
    - destruct (handle_health _ _ _ _ _ _ E2) as (s & _ & -> & Hs). done.
    - by injection E2 as <-. }
  destruct H1 as (Hh1 & [T1 S1] & Hx), H2 as (Hh2 & T2 & S2). rewrite Hh1 in Hh2.
  unfold health_step. rewrite <- T1, <- S1, <- T2, <- S2.
  assert (Hgoal : health m' = (if (ticks (note_tick (health m) x) +32 1) >=? FAILOVER_CHECK_INTERVAL
      then if secondary_enabled_ m2 then health_check (failover_timeout_ns_ m2) now' (set_ticks (note_tick (health m) x) 0)
           else set_ticks (note_tick (health m) x) 0
      else set_ticks (note_tick (health m) x) (ticks (note_tick (health m) x) +32 1)) /\ same_setup m2 m').
  { rewrite <- Hh2. change (ticks (health m2)) with (slot_counter_ m2). destruct (_ >=? FAILOVER_CHECK_INTERVAL); injection E as <-; [|done]. cbn [set_counter secondary_enabled_].
    destruct (secondary_enabled_ m2); [|done]. unfold check_failover, health_check. cbn [set_counter failed_over_ health failed set_ticks].
    destruct (failed_over_ m2); cbn [negb]; [by destruct (_ >=? _)|]. cbn. by destruct (_ && _). }
  destruct Hgoal as [-> [T3 S3]]. split; [|split; congruence]. by destruct x.
Qed.

(** ** Runs of the loop *)

(** An iteration with the clock readings it may make, and what the other
    threads have done to the rings and to the merged queue before it. *)
Record Turn := mkTurn {
  clock1 : Z;
  clock2 : Z;
  arrive : ZeroCopyRing Q -> ZeroCopyRing Q;
  arrive2 : option (ZeroCopyRing Q) -> option (ZeroCopyRing Q);
  drain : M -> M
}.

Definition enter (m : merger) (x : Turn) : merger :=
  set_merged (set_rings m (arrive x (primary_ring_ m)) (arrive2 x (secondary_ring_ m))) (drain x (merged_queue_ m)) (stats_ m).

Definition merge_turn (fuel : nat) (m : merger) (x : Turn) : option merger := merge_iter fuel (clock1 x) (clock2 x) (enter m x).

Fixpoint merge_run (fuel : nat) (m : merger) (l : list Turn) : option merger :=
  match l with [] => Some m | x :: l' => m' ← merge_turn fuel m x; merge_run fuel m' l' end.

(** What holds of every iteration of a run, given the state it starts with. *)
Fixpoint throughout (Pr : merger -> Turn -> Prop) (fuel : nat) (m : merger) (l : list Turn) : Prop :=
  match l with
  | [] => True
  | x :: l' => Pr (enter m x) x /\ forall m', merge_turn fuel m x = Some m' -> throughout Pr fuel m' l'
  end.

(** The next packet of the second feed, if there is one, is in its slot, and
    is either not numbered, a heartbeat, or has a number the window can reach. *)
Definition readable (fuel : nat) (m : merger) : Prop :=
  exists r, secondary_ring_ m = Some r /\ forall idx, fst (try_pop (queue r)) = Some idx ->
    exists s seq, slot r idx = Some s /\ peek_sequence s = Some seq
      /\ (seq = 0 \/ exists mc, peek_msg_count s = Some mc
            /\ (mc = MOLDUDP64_HEARTBEAT \/ 0 <= seq < 2 ^ 64 - 64 /\ seq / 64 < Z.of_nat fuel)).

(** Nothing arrives on the primary feed and nothing is recovered, and by now
    the feed has been silent for too long. *)
Definition overdue (m : merger) (x : Turn) : Prop :=
  tick_of (clock1 x) m = Silent /\ primary_last_ts_ m + failover_timeout_ns_ m < clock2 x < 2 ^ 64.

(** The primary feed has been heard within the timeout. *)
Definition in_time (m : merger) (x : Turn) : Prop :=
  let t := last_heard (note_tick (health m) (tick_of (clock1 x) m)) in
  t <= clock2 x <= t + failover_timeout_ns_ m /\ clock2 x - t < 2 ^ 64.

(** The fields that have to do with the health of the feed. *)
Definition watching (m : merger) : Prop :=
  0 <= slot_counter_ m < FAILOVER_CHECK_INTERVAL /\ secondary_enabled_ m = true
  /\ 0 < primary_last_ts_ m /\ 0 <= failover_timeout_ns_ m.

Lemma check_expired timeout now h : failed h = false -> 0 < last_heard h -> 0 <= timeout ->
  last_heard h + timeout < now < 2 ^ 64 ->
  health_check timeout now h = mkHealth (last_heard h) now true (ticks h) (alarms h +64 1).
Proof.
  intros Hf Hl Ht Hn. unfold health_check. rewrite Hf, wrap_small by range_lia.
  rewrite (proj2 (Z.ltb_lt 0 _)), (proj2 (Z.ltb_lt timeout _)) by lia. done.
Qed.

Lemma check_failed timeout now h : failed h = true ->
  let h' := health_check timeout now h in
  last_heard h' = last_heard h /\ failed h' = true /\ ticks h' = ticks h /\ alarms h' = alarms h.
Proof. intros Hf. unfold health_check. rewrite Hf. by destruct (_ >=? _). Qed.

(** A silent iteration: the counter goes on, and the alarm is raised when it
    has gone round. *)
Lemma silent_step timeout now h : 0 <= ticks h < FAILOVER_CHECK_INTERVAL -> 0 < last_heard h -> 0 <= timeout ->
  last_heard h + timeout < now < 2 ^ 64 ->
  let h' := health_step timeout true h Silent now in
  last_heard h' = last_heard h /\ ticks h' = (ticks h + 1) mod FAILOVER_CHECK_INTERVAL
  /\ failed h' = failed h || (ticks h =? FAILOVER_CHECK_INTERVAL - 1)
  /\ alarms h' = if negb (failed h) && (ticks h =? FAILOVER_CHECK_INTERVAL - 1) then alarms h +64 1 else alarms h.
Proof.
  intros Ht Hl Hto Hn. unfold health_step. cbn [note_tick]. unfold FAILOVER_CHECK_INTERVAL in *.
  rewrite (wrap_small 32 (ticks h + 1)) by range_lia. rewrite Z.geb_leb. destruct (Z.eqb_spec (ticks h) (4096 - 1)) as [E|E].
  - rewrite (proj2 (Z.leb_le _ _)) by lia. rewrite E. destruct (failed h) eqn:Hf.
    + destruct (check_failed timeout now (set_ticks h 0) Hf) as (-> & -> & -> & ->). done.
    + rewrite check_expired by done. done.
  - rewrite (proj2 (Z.leb_gt _ _)) by lia. cbn. rewrite Z.mod_small, orb_false_r, andb_false_r by lia. done.
Qed.

Lemma watching_step fuel (m m' : merger) x : watching m -> overdue (enter m x) x -> merge_turn fuel m x = Some m' ->
  watching m' /\ health m' = health_step (failover_timeout_ns_ m) true (health m) Silent (clock2 x) /\ same_setup m m'.
Proof.
  intros (Hc & He & Hl & Ht) [Hs Hn] E. destruct (merge_iter_health _ _ _ _ _ E) as [Hh [S1 S2]]. rewrite Hs in Hh.
  change (health (enter m x)) with (health m) in Hh. change (failover_timeout_ns_ (enter m x)) with (failover_timeout_ns_ m) in *.
  change (secondary_enabled_ (enter m x)) with (secondary_enabled_ m) in *. rewrite He in Hh.
  destruct (silent_step (failover_timeout_ns_ m) (clock2 x) (health m)) as (H1 & H2 & _); try done. rewrite <- Hh in H1, H2. cbn in H1, H2.
  split; [|by split_and!]. unfold watching. rewrite S1, S2, H1, H2. pose proof (Z.mod_pos_bound (slot_counter_ m + 1) FAILOVER_CHECK_INTERVAL eq_refl). split_and!; lia || done.
Qed.

(** *** An iteration with a silent primary feed returns *)

Lemma forward_dedup (m : merger) x : dedup_ (forward m x) = dedup_ m.
Proof. unfold forward. by destruct (try_push _ _) as [[] q]. Qed.

Lemma handle_returns fuel now (m : merger) idx s seq seen : live_slot m idx Secondary = Some s -> peek_sequence s = Some seq ->
  (seq = 0 \/ exists mc, peek_msg_count s = Some mc
     /\ (mc = MOLDUDP64_HEARTBEAT \/ 0 <= seq < 2 ^ 64 - 64 /\ seq / 64 < Z.of_nat fuel)) -> rep (dedup_ m) seen ->
  exists m', handle_live_slot fuel now m idx Secondary = Some m' /\ exists seen', rep (dedup_ m') seen'.
Proof.
  intros Hs Hq Hr R. rewrite handle_noted, Hs. cbn [mbind option_bind]. rewrite Hq. cbn [mbind option_bind].
  assert (Hn : dedup_ (noted now m s Secondary) = dedup_ m) by done. rewrite <- Hn in R. cbn zeta. destruct (Z.eqb_spec seq 0) as [|Hne].
  { eexists. split; [done|]. exists seen. by rewrite forward_dedup. }
  destruct Hr as [|(mc & Hmc & Hr)]; [done|]. rewrite Hmc. cbn [mbind option_bind]. destruct (Z.eqb_spec mc MOLDUDP64_HEARTBEAT).
  { eexists. split; [done|]. exists seen. by rewrite forward_dedup. }
  destruct Hr as [|[Hb Hf]]; [done|]. destruct (check_and_mark_rep fuel _ seen seq R Hb Hf) as (v & w & -> & R' & _).
  cbn [mbind option_bind]. destruct v; eexists; (split; [done|]); eexists; rewrite ?forward_dedup; exact R'.
Qed.

Lemma silent_returns fuel now now' (m : merger) seen : readable fuel m -> secondary_enabled_ m = true -> tick_of now m = Silent ->
  rep (dedup_ m) seen -> exists m', merge_iter fuel now now' m = Some m' /\ exists seen', rep (dedup_ m') seen'.
Proof.
  intros (r & Er & Hr) He Ht R. unfold merge_iter, tick_of, consume_recovered in *.
  destruct (try_pop (recovery_queue (primary_ring_ m))) as [[i|] rq]; [discriminate|]. cbn [fst] in Ht.
  unfold poll_primary, consume. cbn [set_rings primary_ring_ queue].
  destruct (try_pop (queue (primary_ring_ m))) as [[i|] q]; [discriminate|]. cbn [mbind option_bind].
  assert (Hsec : exists m2, poll_secondary fuel now (set_rings (set_rings m (mkRing (slots (primary_ring_ m)) (queue (primary_ring_ m))
      (recovery_slots (primary_ring_ m)) rq (recovery_write_ (primary_ring_ m))) (secondary_ring_ m))
      (mkRing (slots (primary_ring_ m)) q (recovery_slots (primary_ring_ m)) rq (recovery_write_ (primary_ring_ m))) (secondary_ring_ m)) = Some m2
      /\ exists seen', rep (dedup_ m2) seen').
  { unfold poll_secondary. cbn [set_rings secondary_enabled_ secondary_ring_ primary_ring_]. rewrite He, Er. cbn [mbind option_bind].
    unfold consume. destruct (try_pop (queue r)) as [[idx|] q2] eqn:Ep; [|by eexists; split; [done|]; exists seen].
    destruct (Hr idx eq_refl) as (s & seq & Hs & Hq & Hc). by apply (handle_returns fuel now _ idx s seq seen). }
  destruct Hsec as (m2 & E2 & seen' & R2). cbn [slots recovery_slots recovery_queue recovery_write_ secondary_ring_ set_rings] in *. rewrite E2.
  cbn [mbind option_bind]. destruct (_ >=? _); [|by eexists; split; [done|]; exists seen'].
  eexists. split; [done|]. exists seen'. destruct (secondary_enabled_ _); [|done]. unfold check_failover. by repeat case_match.
Qed.

(** C24: a silent primary feed is reported, and in time.  A second feed is
    enabled, its packets are where their indices say and have numbers the
    window can reach, nothing is recovered and nothing arrives on the primary
    feed, whose silence has lasted longer than the timeout; the other threads
    may do anything else between the iterations.  Then the loop runs on, and
    the flag is set exactly when the check comes round: after
    [FAILOVER_CHECK_INTERVAL] less [slot_counter_] iterations, not before; one
    failover is counted, however long the silence lasts, and none if the merger
    had failed over already. *)
Theorem failover_detected fuel (m : merger) seen l : watching m -> rep (dedup_ m) seen ->
  throughout (fun m x => overdue m x /\ readable fuel m) fuel m l ->
  let due := FAILOVER_CHECK_INTERVAL - slot_counter_ m <=? Z.of_nat (length l) in
  exists m', merge_run fuel m l = Some m'
  /\ failed_over_ m' = failed_over_ m || due /\ primary_last_ts_ m' = primary_last_ts_ m
  /\ feed_failover_count (stats_ m') = if negb (failed_over_ m) && due then feed_failover_count (stats_ m) +64 1
                                       else feed_failover_count (stats_ m).
Proof.
  cbn zeta. revert m seen. induction l as [|x l IH]; intros m seen W R Ho; cbn [merge_run].
  { exists m. split; [done|]. destruct W as ((_ & Hc) & _). rewrite (proj2 (Z.leb_gt _ _)) by (cbn; lia). by rewrite orb_false_r, andb_false_r. }
  destruct Ho as [[Ho Hr] Hrest].
  destruct (silent_returns fuel (clock1 x) (clock2 x) (enter m x) seen Hr (proj1 (proj2 W)) (proj1 Ho) R) as (m1 & E1 & seen1 & R1).
  change (merge_turn fuel m x = Some m1) in E1. specialize (Hrest m1 E1). rewrite E1. cbn [mbind option_bind].
  destruct (watching_step fuel m m1 x W Ho E1) as (W1 & Hh & _). destruct (IH m1 seen1 W1 R1 Hrest) as (m' & E & IH').
  exists m'. split; [done|]. clear IH. destruct W as (Hc & _ & Hl & Ht). destruct Ho as [_ Hn].
  destruct (silent_step (failover_timeout_ns_ m) (clock2 x) (health m)) as (H1 & H2 & H3 & H4); try done. rewrite <- Hh in H1, H2, H3, H4.
  cbn [health last_heard ticks failed alarms] in H1, H2, H3, H4. destruct IH' as (-> & -> & ->). rewrite H1, H2, H3, H4.
  cbn [length]. unfold FAILOVER_CHECK_INTERVAL in *. destruct (Z.eqb_spec (slot_counter_ m) (4096 - 1)) as [Ec|Ec].
  - rewrite Ec, orb_true_r. rewrite (proj2 (Z.leb_le (4096 - (4096 - 1)) _)) by lia.
    split; [by rewrite orb_true_r|]. split; [done|]. by destruct (failed_over_ m).
  - rewrite orb_false_r, andb_false_r, Z.mod_small by lia.
    replace (4096 - slot_counter_ m <=? Z.of_nat (S (length l))) with (4096 - (slot_counter_ m + 1) <=? Z.of_nat (length l)); [done|].
    destruct (Z.leb_spec (4096 - (slot_counter_ m + 1)) (Z.of_nat (length l))), (Z.leb_spec (4096 - slot_counter_ m) (Z.of_nat (S (length l)))); lia || done.
Qed.

Lemma check_in_time timeout now h : failed h = false -> last_heard h <= now <= last_heard h + timeout -> now - last_heard h < 2 ^ 64 ->
  health_check timeout now h = h.
Proof.
  intros Hf Hn Hw. unfold health_check. rewrite Hf, wrap_small by range_lia.
  rewrite (proj2 (Z.ltb_ge timeout _)) by lia. by rewrite andb_false_r.
Qed.

(** The primary feed is heard in this iteration. *)
Definition hears (m : merger) (x : Turn) : Prop := exists t, tick_of (clock1 x) m = Heard t.

(** An iteration in time raises no alarm, and one that hears the primary feed
    ends a failover. *)
Lemma in_time_step fuel (m m1 : merger) x : in_time (enter m x) x -> merge_turn fuel m x = Some m1 ->
  failed_over_ m = false \/ hears (enter m x) x ->
  failed_over_ m1 = false /\ feed_failover_count (stats_ m1) = feed_failover_count (stats_ m).
Proof.
  intros [Hn Hw] E Hf. destruct (merge_iter_health _ _ _ _ _ E) as [Hh _].
  change (failed_over_ m1) with (failed (health m1)). change (feed_failover_count (stats_ m1)) with (alarms (health m1)).
  change (health (enter m x)) with (health m) in *. rewrite Hh. unfold health_step, hears in *. destruct (tick_of (clock1 x) (enter m x)) as [|t|].
  1: destruct Hf as [Hf|[? Hf]]; done.
  2: destruct Hf as [Hf|[? Hf]]; [|done].
  all: destruct (_ >=? _); [destruct (secondary_enabled_ _); [rewrite check_in_time|]|]; done.
Qed.

Lemma in_time_run fuel (m m' : merger) l : throughout in_time fuel m l -> merge_run fuel m l = Some m' -> failed_over_ m = false ->
  failed_over_ m' = false /\ feed_failover_count (stats_ m') = feed_failover_count (stats_ m).
Proof.
  revert m. induction l as [|x l IH]; intros m Ht E Hf; cbn [merge_run] in E; [by injection E as <-|].
  apply bind_Some in E as (m1 & E1 & E). destruct Ht as [Ht Hrest].
  destruct (in_time_step fuel m m1 x Ht E1 (or_introl Hf)) as [Hf1 <-]. by apply IH; [apply Hrest|..].
Qed.

(** No false alarm.  As long as every check finds that the primary feed was
    heard within the timeout, no failover is declared and none is counted,
    whatever else goes through the merger; and if the merger had failed over,
    the first packet of the primary feed ends that. *)
Theorem no_false_failover fuel (m m' : merger) l : throughout in_time fuel m l -> merge_run fuel m l = Some m' ->
  failed_over_ m = false \/ (exists x, head l = Some x /\ hears (enter m x) x) ->
  failed_over_ m' = false /\ feed_failover_count (stats_ m') = feed_failover_count (stats_ m).
Proof.
  intros Ht E [Hf|(x & Hx & Hh)]; [by apply (in_time_run fuel m m' l)|]. destruct l as [|y l]; [done|]. injection Hx as ->.
  cbn [merge_run] in E. apply bind_Some in E as (m1 & E1 & E). destruct Ht as [Ht Hrest].
  destruct (in_time_step fuel m m1 x Ht E1 (or_intror Hh)) as [Hf1 <-]. by apply (in_time_run fuel m1 m' l); [apply Hrest|..].
Qed.

(** ** Failover is observational *)

(** The state without what the health check reads and writes. *)
Definition quiet (st : MergerStats) : MergerStats := mkMergerStats (secondary_packets st) (dedup_drops st) 0 (merged_drops st).
Definition traffic (m : merger) : merger :=
  mkMerger (primary_ring_ m) (secondary_ring_ m) (merged_queue_ m) (quiet (stats_ m)) 0 (dedup_ m) 0 0 false (secondary_enabled_ m) 0.

(** Two mergers are equivalent when they differ in nothing else. *)
#[local] Instance merger_equiv : Equiv merger := fun m1 m2 => traffic m1 = traffic m2.
#[local] Instance merger_equivalence : Equivalence (≡@{merger}).
Proof. unfold equiv, merger_equiv. split; [done|by intros ??|by intros ??? ->]. Qed.

(** Take an equivalence apart, and prove one field by field. *)
Ltac take_fields E :=
  unfold equiv, merger_equiv, traffic, quiet in E;
  let E1 := fresh "E" in let E2 := fresh "E" in let E3 := fresh "E" in let E4 := fresh "E" in
  let E5 := fresh "E" in let E6 := fresh "E" in let E7 := fresh "E" in let E8 := fresh "E" in
  injection E as E1 E2 E3 E4 E5 E6 E7 E8.
Ltac by_fields := unfold equiv, merger_equiv, traffic, quiet; cbn; congruence.

Definition whenever : relation Z := fun _ _ => True.

#[local] Instance forward_proper : Proper ((≡) ==> (=) ==> (≡)) (forward (Q := Q) (M := M)).
Proof.
  intros m1 m2 E x _ <-. take_fields E. unfold forward.
  replace (merged_queue_ m2) with (merged_queue_ m1). destruct (try_push _ _) as [[] q]; by_fields.
Qed.

#[local] Instance set_dedup_proper : Proper ((≡) ==> (=) ==> (≡)) (set_dedup (Q := Q) (M := M)).
Proof. intros m1 m2 E w _ <-. take_fields E. by_fields. Qed.

#[local] Instance set_rings_proper : Proper ((≡) ==> (=) ==> (=) ==> (≡)) (set_rings (Q := Q) (M := M)).
Proof. intros m1 m2 E p _ <- r _ <-. take_fields E. by_fields. Qed.

#[local] Instance noted_proper : Proper (whenever ==> (≡) ==> (=) ==> (=) ==> (≡)) (noted (Q := Q) (M := M)).
Proof. intros n1 n2 _ m1 m2 E s _ <- src _ <-. take_fields E. destruct src; by_fields. Qed.

#[local] Instance handle_proper fuel : Proper (whenever ==> (≡) ==> (=) ==> (=) ==> (≡)) (handle_live_slot fuel (Q := Q) (M := M)).
Proof.
  intros n1 n2 _ m1 m2 E idx _ <- src _ <-. rewrite !handle_noted.
  replace (live_slot m2 idx src) with (live_slot m1 idx src) by (take_fields E; destruct src; cbn; congruence).
  destruct (live_slot m1 idx src) as [s|]; [|constructor]. cbn [mbind option_bind].
  assert (Hn : noted n1 m1 s src ≡ noted n2 m2 s src) by (by apply noted_proper).
  revert Hn. generalize (noted n1 m1 s src) as k1. generalize (noted n2 m2 s src) as k2. intros k2 k1 Hn.
  destruct (peek_sequence s) as [seq|]; [|constructor]. cbn [mbind option_bind]. destruct (seq =? 0); [by rewrite Hn|].
  destruct (peek_msg_count s) as [mc|]; [|constructor]. cbn [mbind option_bind]. destruct (mc =? _); [by rewrite Hn|].
  replace (dedup_ k2) with (dedup_ k1) by (by take_fields Hn). destruct (check_and_mark _ _ _) as [[[] w]|]; [|..|constructor];
    cbn [mbind option_bind negb]; [constructor; by rewrite Hn|]. constructor. take_fields Hn. by_fields.
Qed.

#[local] Instance poll_primary_proper fuel : Proper (whenever ==> (≡) ==> (≡)) (poll_primary fuel (Q := Q) (M := M)).
Proof.
  intros n1 n2 Hn m1 m2 E. unfold poll_primary. replace (primary_ring_ m2) with (primary_ring_ m1) by (by take_fields E).
  replace (secondary_ring_ m2) with (secondary_ring_ m1) by (by take_fields E). destruct (consume _) as [[idx|] r]; [|constructor; by apply set_rings_proper].
  apply handle_proper; [done| |done..]. by apply set_rings_proper.
Qed.

#[local] Instance poll_secondary_proper fuel : Proper (whenever ==> (≡) ==> (≡)) (poll_secondary fuel (Q := Q) (M := M)).
Proof.
  intros n1 n2 Hn m1 m2 E. unfold poll_secondary. replace (secondary_enabled_ m2) with (secondary_enabled_ m1) by (by take_fields E).
  destruct (secondary_enabled_ m1); [|by constructor]. replace (primary_ring_ m2) with (primary_ring_ m1) by (by take_fields E).
  replace (secondary_ring_ m2) with (secondary_ring_ m1) by (by take_fields E). destruct (secondary_ring_ m1) as [r0|]; [|constructor].
  cbn [mbind option_bind]. destruct (consume _) as [[idx|] r]; [|constructor; by apply set_rings_proper].
  apply handle_proper; [done| |done..]. by apply set_rings_proper.
Qed.

(** The check and the counter leave the traffic alone. *)
Lemma check_failover_equiv now (m : merger) : check_failover now m ≡ m.
Proof. unfold check_failover. repeat case_match; done. Qed.

Lemma set_counter_equiv (m : merger) c : set_counter m c ≡ m.
Proof. done. Qed.

Lemma merge_iter_equiv fuel n1 n1' n2 n2' (m1 m2 : merger) : m1 ≡ m2 -> merge_iter fuel n1 n1' m1 ≡ merge_iter fuel n2 n2' m2.
Proof.
  intros E. unfold merge_iter. replace (primary_ring_ m2) with (primary_ring_ m1) by (by take_fields E).
  replace (secondary_ring_ m2) with (secondary_ring_ m1) by (by take_fields E). destruct (consume_recovered _) as [[idx|] r]; [constructor; apply forward_proper; [by apply set_rings_proper|done]|].
  apply option_bind_proper; [|apply poll_primary_proper; [done|by apply set_rings_proper]]. intros k1 k2 Hk.
  apply option_bind_proper; [|by apply poll_secondary_proper]. clear. intros k1 k2 Hk.
  assert (Hc : forall n (k : merger), (let c := slot_counter_ k +32 1 in if c >=? FAILOVER_CHECK_INTERVAL then
    let k' := set_counter k 0 in Some (if secondary_enabled_ k' then check_failover n k' else k') else Some (set_counter k c)) ≡ Some k).
  { intros n k. cbn zeta. destruct (_ >=? _); constructor; [|done]. destruct (secondary_enabled_ _); [by rewrite check_failover_equiv|done]. }
  rewrite !Hc. by constructor.
Qed.

(** The other threads do the same in both runs; the clocks are unrelated. *)
Definition same_others (x y : Turn) : Prop := arrive x = arrive y /\ arrive2 x = arrive2 y /\ drain x = drain y.

(** C25: the watch on the primary feed only reports.  Two mergers with the same
    rings, queue, window and traffic counters, but any clocks, timeouts, states
    of the watch and failover counts, forward the same packets in the same
    order over any number of iterations, the other threads doing the same to
    rings and queue in between, and end with the same rings, queue, window and
    counters: failing over does not change what is read or forwarded. *)
Theorem failover_is_observational fuel (m1 m2 : merger) l1 l2 : traffic m1 = traffic m2 -> Forall2 same_others l1 l2 ->
  traffic <$> merge_run fuel m1 l1 = traffic <$> merge_run fuel m2 l2.
Proof.
  intros E Hl. revert m1 m2 E. induction Hl as [|x y l1 l2 (Ha & Ha2 & Hd) _ IH]; intros m1 m2 E; [by cbn; rewrite E|].
  assert (Ee : enter m1 x ≡ enter m2 y).
  { change (m1 ≡ m2) in E. take_fields E. unfold enter. rewrite Ha, Ha2, Hd. by_fields. }
  cbn [merge_run]. unfold merge_turn.
  destruct (merge_iter_equiv fuel (clock1 x) (clock2 x) (clock1 y) (clock2 y) _ _ Ee) as [k1 k2 Hk|]; [|done].
  cbn [mbind option_bind]. apply IH. exact Hk.
Qed.

End Merger.

(** ** Witnesses *)

Definition idle_ring : ZeroCopyRing (Seq.SpscQueue Z) := mkRing [packet7] (Seq.init 2 0) [] (Seq.init 2 0) 0.
Definition fed_ring : ZeroCopyRing (Seq.SpscQueue Z) :=
  mkRing [packet7] (snd (try_push (Seq.init 2 0) 0)) [] (Seq.init 2 0) 0.

(** A merger about to check, with a packet on the second feed or on the first. *)
Definition watcher (p s : ZeroCopyRing (Seq.SpscQueue Z)) (timeout : Z) (over : bool) (c : Z)
    : FeedMerger (Seq.SpscQueue Z) (Seq.SpscQueue MergedSlot) :=
  mkMerger p (Some s) (Seq.init 4 token) (mkMergerStats 0 0 0 0) timeout reset 5 0 over true c.

(** The other threads do nothing. *)
Definition quiet_turn (t : Z) : Turn (Q := Seq.SpscQueue Z) (M := Seq.SpscQueue MergedSlot) :=
  mkTurn t t (fun r => r) (fun r => r) (fun q => q).
Definition silent_merger := watcher idle_ring fed_ring 1000 false 4094.

Lemma fed_readable : readable 1 silent_merger.
Proof.
  exists fed_ring. split; [reflexivity|]. intros idx Hi. vm_compute in Hi. injection Hi as <-.
  exists packet7, 7. split; [reflexivity|]. split; [reflexivity|]. right. exists 1. split; [reflexivity|]. right. split; [lia|done].
Qed.

Lemma failover_detected_witness :
  exists m', merge_run 1 silent_merger [quiet_turn 2000; quiet_turn 2001] = Some m'
    /\ failed_over_ m' = true /\ feed_failover_count (stats_ m') = 1.
Proof.
  assert (Ho : throughout (fun m x => overdue m x /\ readable 1 m) 1 silent_merger [quiet_turn 2000; quiet_turn 2001]).
  { split; [split; [split; [reflexivity|cbn; lia]|exact fed_readable]|]. intros m1 E1. vm_compute in E1. injection E1 as <-.
    split; [split; [split; [reflexivity|cbn; lia]|]|intros ? _; exact I]. eexists. split; [reflexivity|].
    intros idx Hi. vm_compute in Hi. discriminate Hi. }
  assert (W : watching silent_merger) by (unfold watching, silent_merger, watcher;
    cbn [slot_counter_ secondary_enabled_ primary_last_ts_ failover_timeout_ns_]; unfold FAILOVER_CHECK_INTERVAL; lia).
  destruct (failover_detected 1 silent_merger [] _ W rep_reset Ho) as (m' & E & Hf & _ & Hc). exists m'. split; [exact E|].
  rewrite Hf, Hc. split; vm_compute; reflexivity.
Defined.

Lemma no_false_failover_witness :
  exists m', merge_run 1 (watcher fed_ring fed_ring 1000 true 4094) [quiet_turn 2000; quiet_turn 2900] = Some m'
    /\ failed_over_ m' = false /\ feed_failover_count (stats_ m') = 0.
Proof.
  assert (Ht : throughout in_time 1 (watcher fed_ring fed_ring 1000 true 4094) [quiet_turn 2000; quiet_turn 2900]).
  { split; [vm_compute; split; [split|]; discriminate || done|]. intros m1 E1. vm_compute in E1. injection E1 as <-.
    split; [vm_compute; split; [split|]; discriminate || done|]. intros ? _. exact I. }
  destruct (merge_run 1 (watcher fed_ring fed_ring 1000 true 4094) [quiet_turn 2000; quiet_turn 2900]) as [m'|] eqn:E;
    [|vm_compute in E; discriminate E].
  exists m'. split; [reflexivity|].
  destruct (no_false_failover 1 _ m' _ Ht E) as [Hf Hc]; [|rewrite Hf, Hc; split; vm_compute; reflexivity].
  right. exists (quiet_turn 2000). split; [reflexivity|]. exists 2000. reflexivity.
Defined.

Lemma failover_is_observational_witness :
  traffic <$> merge_run 1 silent_merger [quiet_turn 2000; quiet_turn 2001]
  = traffic <$> merge_run 1 (watcher idle_ring fed_ring 50000 true 7) [quiet_turn 3; quiet_turn 5].
Proof. apply failover_is_observational; [reflexivity|]. repeat constructor. Defined.
