(* ===== verification/Histogram.v ===== *)
(** * Latency histogram

    [LatencyHistogram] of [include/monitoring/latency_histogram.hpp] and
    [src/monitoring/latency_histogram.cpp].  Each atomic counter has one
    writer, so an operation is one function on the record.  The rank that
    [percentile] computes in floating point is an argument of the model. *)

From S2P Require Import Prelude Types.

Definition LINEAR_BUCKETS : Z := 256.
Definition LOG_BUCKETS : Z := 256.
Definition TOTAL_BUCKETS : Z := LINEAR_BUCKETS + LOG_BUCKETS.

Record LatencyHistogram := mkHist { buckets_ : list Z; count_ : Z; max_ : Z }.

Definition hist_reset : LatencyHistogram := mkHist (replicate (Z.to_nat TOTAL_BUCKETS) 0) 0 0.

(** [63 - __builtin_clzll(ns)]. *)
Definition msb_of (ns : Z) : Z := Z.log2 ns.

Definition bucket_for (ns : Z) : Z :=
  if ns <? LINEAR_BUCKETS then u32 ns
  else
    let msb := msb_of ns in
    if msb >=? 32 then TOTAL_BUCKETS - 1
    else
      let sub := Z.land (Z.shiftr ns (if 3 <? msb then msb - 4 else 0)) 15 in
      let octave := u32 (msb - 7) in
      u32 (LINEAR_BUCKETS + octave * 16 + sub).

Definition bucket_lower (b : Z) : Z :=
  if b <? LINEAR_BUCKETS then b
  else
    let log_b := b - LINEAR_BUCKETS in
    let octave := log_b / 16 in
    let sub := log_b mod 16 in
    let msb := octave + 7 in
    Z.lor (Z.shiftl 1 msb) (Z.shiftl sub (msb - 4)).

(** [None]: the bucket index lies outside the array. *)
Definition record (h : LatencyHistogram) (latency_ns : Z) : option LatencyHistogram :=
  let b := Z.to_nat (bucket_for latency_ns) in
  old ← buckets_ h !! b;
  Some (mkHist (<[b := old +64 1]> (buckets_ h)) (count_ h +64 1)
          (if max_ h <? latency_ns then latency_ns else max_ h)).

Fixpoint record_all (h : LatencyHistogram) (l : list Z) : option LatencyHistogram :=
  match l with [] => Some h | x :: l' => h' ← record h x; record_all h' l' end.

(** The loop of [percentile]: the buckets from index [i] on. *)
Fixpoint percentile_loop (bs : list Z) (i cumulative target : Z) : option Z :=
  match bs with
  | [] => None
  | b :: bs' =>
      let cumulative' := cumulative +64 b in
      if target <? cumulative' then Some (bucket_lower i)
      else percentile_loop bs' (i + 1) cumulative' target
  end.

Definition percentile (h : LatencyHistogram) (target : Z) : Z :=
  if count_ h =? 0 then 0
  else match percentile_loop (buckets_ h) 0 0 target with
       | Some v => v
       | None => max_ h
       end.

(** ** Bucket indices *)

Lemma log2_bounds ns : 256 <= ns -> 2 ^ Z.log2 ns <= ns < 2 ^ (Z.log2 ns + 1) /\ 8 <= Z.log2 ns.
Proof.
  intros H. pose proof (Z.log2_spec ns ltac:(lia)) as Hs. rewrite <- Z.add_1_r in Hs.
  split; [done|]. apply (Z.log2_le_mono 256 ns) in H. exact H.
Qed.

(** Within an octave, the index is the four bits below the leading one. *)
Lemma bucket_for_log ns :
  256 <= ns < 2 ^ 32 ->
  bucket_for ns = 256 + (Z.log2 ns - 7) * 16 + (ns / 2 ^ (Z.log2 ns - 4) - 16)
  /\ 16 <= ns / 2 ^ (Z.log2 ns - 4) < 32.
Proof.
  intros H. destruct (log2_bounds ns) as [[H1 H2] H3]; [lia|].
  assert (Hlt : Z.log2 ns < 32) by (apply Z.log2_lt_pow2; lia).
  assert (Hq : 16 <= ns / 2 ^ (Z.log2 ns - 4) < 32).
  { pose proof (Z.pow_pos_nonneg 2 (Z.log2 ns - 4) ltac:(lia) ltac:(lia)) as Hp.
    split; [apply Z.div_le_lower_bound; [lia|]|apply Z.div_lt_upper_bound; [lia|]].
    - rewrite Z.mul_comm. change 16 with (2 ^ 4). rewrite <- Z.pow_add_r by lia.
      by replace (4 + (Z.log2 ns - 4)) with (Z.log2 ns) by lia.
    - change 32 with (2 ^ 5). rewrite <- Z.pow_add_r by lia.
      by replace (Z.log2 ns - 4 + 5) with (Z.log2 ns + 1) by lia. }
  split; [|done]. unfold bucket_for, LINEAR_BUCKETS, msb_of.
  destruct (Z.ltb_spec ns 256); [lia|]. rewrite Z.geb_leb.
  destruct (Z.leb_spec 32 (Z.log2 ns)); [lia|]. destruct (Z.ltb_spec 3 (Z.log2 ns)); [|lia].
  rewrite Z.shiftr_div_pow2 by lia. change 15 with (2 ^ 4 - 1). rewrite land_mask by lia.
  rewrite (wrap_small 32 (Z.log2 ns - 7)) by range_lia.
  replace ((ns / 2 ^ (Z.log2 ns - 4)) mod 2 ^ 4) with (ns / 2 ^ (Z.log2 ns - 4) - 16).
  2:{ change (2 ^ 4) with 16. apply Z.mod_unique with 1; lia. }
  rewrite wrap_small; range_lia.
Qed.

Lemma bucket_for_small ns : 0 <= ns < 256 -> bucket_for ns = ns.
Proof.
  intros. unfold bucket_for, LINEAR_BUCKETS. destruct (Z.ltb_spec ns 256); [|lia].
  apply wrap_small. range_lia.
Qed.

Lemma bucket_lower_log k j :
  8 <= k < 64 -> 16 <= j < 32 -> bucket_lower (256 + (k - 7) * 16 + (j - 16)) = j * 2 ^ (k - 4).
Proof.
  intros Hk Hj. unfold bucket_lower, LINEAR_BUCKETS.
  destruct (Z.ltb_spec (256 + (k - 7) * 16 + (j - 16)) 256); [lia|].
  replace ((256 + (k - 7) * 16 + (j - 16) - 256) / 16) with (k - 7)
    by (apply Z.div_unique with (j - 16); lia).
  replace ((256 + (k - 7) * 16 + (j - 16) - 256) mod 16) with (j - 16)
    by (apply Z.mod_unique with (k - 7); lia).
  replace (k - 7 + 7) with k by lia. rewrite Z.shiftl_1_l, Z.shiftl_mul_pow2 by lia.
  replace (2 ^ k) with (1 * 2 ^ k) by lia. rewrite lor_mul_add; [|lia|].
  - replace (1 * 2 ^ k) with (16 * 2 ^ (k - 4)); [lia|].
    change 16 with (2 ^ 4). rewrite <- Z.pow_add_r by lia. rewrite Z.mul_1_l. f_equal. lia.
  - pose proof (Z.pow_pos_nonneg 2 (k - 4) ltac:(lia) ltac:(lia)).
    replace (2 ^ k) with (16 * 2 ^ (k - 4)); [nia|].
    change 16 with (2 ^ 4). rewrite <- Z.pow_add_r by lia. f_equal. lia.
Qed.

Lemma bucket_for_ge ns : 256 <= ns < 2 ^ 32 -> 272 <= bucket_for ns.
Proof.
  intros H. destruct (bucket_for_log ns H) as [-> ?]. destruct (log2_bounds ns); lia.
Qed.

Lemma bucket_in_range ns : 0 <= ns < 2 ^ 23 -> 0 <= bucket_for ns < TOTAL_BUCKETS.
Proof.
  intros H. unfold TOTAL_BUCKETS, LINEAR_BUCKETS, LOG_BUCKETS.
  destruct (decide (ns < 256)) as [Hs|Hs]; [rewrite bucket_for_small; lia|].
  destruct (bucket_for_log ns) as [-> Hq]; [lia|]. destruct (log2_bounds ns); [lia|].
  assert (Z.log2 ns < 23) by (apply Z.log2_lt_pow2; lia). lia.
Qed.

Lemma bucket_mono ns ns' : 0 <= ns <= ns' -> ns' < 2 ^ 32 -> bucket_for ns <= bucket_for ns'.
Proof.
  intros H H'. destruct (decide (ns' < 256)); [rewrite !bucket_for_small; lia|].
  destruct (decide (ns < 256)).
  { rewrite (bucket_for_small ns) by lia. pose proof (bucket_for_ge ns'). lia. }
  destruct (bucket_for_log ns) as [-> Hq]; [lia|]. destruct (bucket_for_log ns') as [-> Hq']; [lia|].
  pose proof (Z.log2_le_mono ns ns'). destruct (decide (Z.log2 ns = Z.log2 ns')) as [E|]; [|lia].
  rewrite E. destruct (log2_bounds ns'); [lia|].
  pose proof (Z.div_le_mono ns ns' (2 ^ (Z.log2 ns' - 4))
    ltac:(apply Z.pow_pos_nonneg; lia) ltac:(lia)). lia.
Qed.

(** ** What a histogram holds after recording a list of samples *)

Definition count_below (l : list Z) (i : Z) : Z :=
  Z.of_nat (length (filter (fun y => bucket_for y < i) l)).
Definition count_in (l : list Z) (i : Z) : Z :=
  Z.of_nat (length (filter (fun y => bucket_for y = i) l)).

Lemma count_below_succ l i : count_below l (i + 1) = count_below l i + count_in l i.
Proof.
  unfold count_below, count_in. induction l as [|y l IH]; [done|].
  rewrite !filter_cons. repeat case_decide; simpl; lia.
Qed.

Lemma count_below_all l : Forall (fun ns => 0 <= ns < 2 ^ 23) l ->
  count_below l TOTAL_BUCKETS = Z.of_nat (length l).
Proof.
  unfold count_below. induction 1 as [|y l Hy Hl IH]; [done|].
  rewrite filter_cons_True by (pose proof (bucket_in_range y Hy); lia). simpl. lia.
Qed.

Lemma count_below_0 l : Forall (fun ns => 0 <= ns < 2 ^ 23) l -> count_below l 0 = 0.
Proof.
  unfold count_below. induction 1 as [|y l Hy Hl IH]; [done|].
  rewrite filter_cons_False by (pose proof (bucket_in_range y Hy); lia). done.
Qed.

Lemma count_in_pos l i : 0 < count_in l i -> exists x, x ∈ l /\ bucket_for x = i.
Proof.
  unfold count_in. destruct (filter _ l) as [|x l'] eqn:E; [simpl; lia|]. intros _. exists x.
  assert (Hx : x ∈ filter (fun y => bucket_for y = i) l) by (rewrite E; left).
  apply list_elem_of_filter in Hx as [? ?]. done.
Qed.

Lemma in_rev_elem (x : Z) l : x ∈ l <-> x ∈ rev l.
Proof. by rewrite <- Permutation_rev. Qed.

Lemma Forall_rev' (P : Z -> Prop) l : Forall P l -> Forall P (rev l).
Proof. by rewrite <- Permutation_rev. Qed.

Definition holds (h : LatencyHistogram) (l : list Z) : Prop :=
  length (buckets_ h) = Z.to_nat TOTAL_BUCKETS
  /\ (forall i, 0 <= i < TOTAL_BUCKETS -> buckets_ h !! Z.to_nat i = Some (count_in l i))
  /\ count_ h = Z.of_nat (length l) /\ Forall (fun x => x <= max_ h) l.

Lemma count_in_le l i : count_in l i <= Z.of_nat (length l).
Proof. unfold count_in. pose proof (length_filter (fun y => bucket_for y = i) l). lia. Qed.

Lemma record_holds h l x :
  holds h l -> 0 <= x < 2 ^ 23 -> Z.of_nat (length l) < 2 ^ 64 - 1 ->
  exists h', record h x = Some h' /\ holds h' (x :: l).
Proof.
  intros (Hlen & Hb & Hc & Hm) Hx Hl. pose proof (bucket_in_range x Hx) as Hr.
  unfold record. rewrite (Hb _ Hr). simpl. eexists. split; [done|].
  split; simpl; [by rewrite length_insert|]. split_and!.
  - intros i Hi. pose proof (count_in_le l i). unfold count_in. rewrite filter_cons.
    destruct (decide (bucket_for x = i)) as [<-|Hne].
    + rewrite list_lookup_insert_eq by lia. f_equal. simpl. fold (count_in l (bucket_for x)) in *.
      unfold count_in in *. rewrite wrap_small; range_lia.
    + rewrite list_lookup_insert_ne by lia. by apply Hb.
  - rewrite Hc, wrap_small by range_lia. lia.
  - constructor; [zcases; lia|]. eapply Forall_impl; [exact Hm|]. simpl. intros. zcases; lia.
Qed.

Lemma record_all_holds l h l0 :
  holds h l0 -> Forall (fun ns => 0 <= ns < 2 ^ 23) l ->
  Z.of_nat (length l + length l0) < 2 ^ 64 ->
  exists h', record_all h l = Some h' /\ holds h' (rev l ++ l0).
Proof.
  revert h l0. induction l as [|x l IH]; intros h l0 Hh Hall Hlen; [by exists h|].
  inversion_clear Hall as [|?? Hx Hl]. simpl in Hlen.
  destruct (record_holds h l0 x Hh Hx) as (h1 & E1 & Hh1); [lia|].
  destruct (IH h1 (x :: l0) Hh1 Hl) as (h' & E & Hh'); [simpl; lia|].
  exists h'. simpl. rewrite E1. simpl. split; [done|]. by rewrite <- app_assoc.
Qed.

Lemma holds_reset : holds hist_reset [].
Proof.
  split; [done|]. split_and!; try done.
  intros i Hi. unfold hist_reset. cbn [buckets_]. rewrite lookup_replicate_2; [done|].
  unfold TOTAL_BUCKETS, LINEAR_BUCKETS, LOG_BUCKETS in *. lia.
Qed.

Lemma percentile_loop_rank h l target n i :
  holds h l -> Forall (fun ns => 0 <= ns < 2 ^ 23) l -> Z.of_nat (length l) < 2 ^ 64 ->
  0 <= i -> Z.of_nat n = TOTAL_BUCKETS - i ->
  count_below l i <= target < Z.of_nat (length l) ->
  exists x, x ∈ l /\
    percentile_loop (drop (Z.to_nat i) (buckets_ h)) i (count_below l i) target
      = Some (bucket_lower (bucket_for x))
    /\ count_below l (bucket_for x) <= target < count_below l (bucket_for x + 1).
Proof.
  intros (Hlen & Hb & _ & _) Hall Hl. revert i. induction n as [|n IH]; intros i Hi Hn Ht.
  { replace i with TOTAL_BUCKETS in Ht by lia. rewrite count_below_all in Ht by done. lia. }
  rewrite (drop_S _ (count_in l i)) by (apply Hb; lia). cbn [percentile_loop].
  assert (Hle : count_below l i + count_in l i <= Z.of_nat (length l)).
  { rewrite <- count_below_succ. unfold count_below.
    pose proof (length_filter (fun y => bucket_for y < i + 1) l). lia. }
  assert (0 <= count_in l i /\ 0 <= count_below l i) by (unfold count_in, count_below; lia).
  rewrite wrap_small by range_lia. rewrite <- count_below_succ.
  destruct (Z.ltb_spec target (count_below l (i + 1))) as [Hlt|Hge].
  - destruct (count_in_pos l i) as (x & Hx & Hbx); [rewrite count_below_succ in Hlt; lia|].
    exists x. rewrite Hbx. split_and!; done || lia.
  - replace (S (Z.to_nat i)) with (Z.to_nat (i + 1)) by lia. apply IH; lia.
Qed.

(** ** Properties *)

Section HistogramProperties.

(** A latency is stored outside the 512-entry bucket array exactly when
    it lies between 2^23 ns (8.4 ms) and 2^32 ns: the documented range is
    [256 ns, ~100 ms] and the cap only covers 2^32 ns and more. *)
Theorem record_out_of_bounds_iff h ns :
  length (buckets_ h) = Z.to_nat TOTAL_BUCKETS -> in_range 64 ns ->
  record h ns = None <-> 2 ^ 23 <= ns < 2 ^ 32.
Proof.
  intros Hlen Hns. unfold record. rewrite bind_None. split.
  - intros [Hn|(old & _ & ?)]; [|done]. apply lookup_ge_None in Hn.
    destruct (decide (ns < 2 ^ 23)); [pose proof (bucket_in_range ns); unfold in_range in *; lia|].
    destruct (decide (ns < 2 ^ 32)); [lia|]. exfalso. revert Hn. unfold bucket_for, LINEAR_BUCKETS, msb_of.
    destruct (Z.ltb_spec ns 256); [lia|]. rewrite Z.geb_leb.
    assert (32 <= Z.log2 ns) by (apply Z.log2_le_pow2; lia).
    destruct (Z.leb_spec 32 (Z.log2 ns)); [|lia]. rewrite Hlen. vm_compute. lia.
  - intros Hr. left. apply lookup_ge_None. rewrite Hlen. destruct (bucket_for_log ns) as [-> Hq]; [lia|].
    assert (23 <= Z.log2 ns) by (apply Z.log2_le_pow2; lia).
    unfold TOTAL_BUCKETS, LINEAR_BUCKETS, LOG_BUCKETS. lia.
Qed.

(** For a latency below 2^23 ns the lower bound of its bucket is at most
    the latency and less than a sixteenth of it away (exact below 256 ns),
    and larger latencies never land in smaller buckets. *)
Theorem bucket_resolution ns ns' :
  0 <= ns < 2 ^ 23 -> ns <= ns' < 2 ^ 23 ->
  bucket_lower (bucket_for ns) <= ns
  /\ (ns < 256 -> bucket_lower (bucket_for ns) = ns)
  /\ (256 <= ns -> 16 * (ns - bucket_lower (bucket_for ns)) < ns)
  /\ bucket_for ns <= bucket_for ns'.
Proof.
  intros H H'. pose proof (bucket_mono ns ns' ltac:(lia) ltac:(lia)).
  destruct (decide (ns < 256)) as [Hs|Hs].
  - rewrite bucket_for_small in * by lia. unfold bucket_lower, LINEAR_BUCKETS.
    destruct (Z.ltb_spec ns 256); lia.
  - destruct (bucket_for_log ns) as [E Hq]; [lia|]. destruct (log2_bounds ns) as [[H1 H2] H3]; [lia|].
    assert (Z.log2 ns < 23) by (apply Z.log2_lt_pow2; lia).
    rewrite E at 1 2 3. rewrite bucket_lower_log by lia.
    pose proof (Z.pow_pos_nonneg 2 (Z.log2 ns - 4) ltac:(lia) ltac:(lia)).
    assert (H16 : 2 ^ Z.log2 ns = 16 * 2 ^ (Z.log2 ns - 4)).
    { change 16 with (2 ^ 4). rewrite <- Z.pow_add_r by lia. f_equal. lia. }
    pose proof (Z.mul_div_le ns (2 ^ (Z.log2 ns - 4)) ltac:(lia)).
    pose proof (Z.mul_succ_div_gt ns (2 ^ (Z.log2 ns - 4)) ltac:(lia)).
    split_and!; lia.
Qed.

(** After any samples below 2^23 ns are recorded into a fresh histogram,
    the percentile query with rank [target] returns the lower bound of the
    bucket in which the sample of that rank lies: fewer or as many samples
    lie in lower buckets, more lie in this and lower ones. *)
Theorem percentile_rank l target :
  Forall (fun ns => 0 <= ns < 2 ^ 23) l -> Z.of_nat (length l) < 2 ^ 64 ->
  0 <= target < Z.of_nat (length l) ->
  exists h x, record_all hist_reset l = Some h /\ x ∈ l
    /\ percentile h target = bucket_lower (bucket_for x)
    /\ count_below l (bucket_for x) <= target < count_below l (bucket_for x + 1).
Proof.
  intros Hall Hlen Ht. destruct (record_all_holds l hist_reset [] holds_reset Hall) as (h & E & Hh).
  { simpl. lia. }
  rewrite app_nil_r in Hh. exists h.
  assert (Hp : forall i, count_below (rev l) i = count_below l i).
  { intros i. unfold count_below. f_equal. apply Permutation_length.
    by rewrite <- Permutation_rev. }
  destruct (percentile_loop_rank h (rev l) target (Z.to_nat TOTAL_BUCKETS) 0 Hh) as (x & Hx & El & Hr).
  - by apply Forall_rev'.
  - by rewrite length_rev.
  - done.
  - done.
  - rewrite count_below_0 by (by apply Forall_rev'). by rewrite length_rev.
  - rewrite count_below_0 in El by (by apply Forall_rev'). rewrite drop_0 in El.
    exists x. rewrite <- in_rev_elem in Hx. rewrite !Hp in Hr. split_and!; try done; try lia.
    unfold percentile. destruct Hh as (_ & _ & Hc & _). rewrite Hc, length_rev, El.
    destruct (Z.eqb_spec (Z.of_nat (length l)) 0); [lia|done].
Qed.

Lemma record_out_of_bounds_iff_witness : record hist_reset 10000000 = None.
Proof. apply (record_out_of_bounds_iff hist_reset 10000000 eq_refl); concrete. Defined.

Lemma bucket_resolution_witness : bucket_lower (bucket_for 1000) <= 1000 /\ bucket_for 1000 <= bucket_for 2000.
Proof.
  destruct (bucket_resolution 1000 2000 ltac:(lia) ltac:(lia)) as (H1 & _ & _ & H2).
  split; [exact H1|exact H2].
Defined.

Lemma percentile_rank_witness : exists h x, record_all hist_reset [300; 20; 5000] = Some h
  /\ percentile h 1 = bucket_lower (bucket_for x) /\ x ∈ [300; 20; 5000].
Proof.
  destruct (percentile_rank [300; 20; 5000] 1) as (h & x & E & Hx & Hp & _).
  - concrete.
  - reflexivity.
  - simpl. lia.
  - exists h, x. split; [exact E|]. split; [exact Hp|exact Hx].
Defined.

End HistogramProperties.
