(* ===== verification/HistogramThreads.v ===== *)
(** * Latency histogram with several recording threads

    [LatencyHistogram::record] of [include/monitoring/latency_histogram.hpp]
    at the grain of its atomic accesses, so that calls of several threads
    interleave: the increment of the bucket, the increment of the count, the
    load of the maximum and each attempt of the compare-and-exchange loop are
    one step.  [compare_exchange_weak] may fail although the values agree.
    Nothing is lost ([concurrent_records_counted]), a thread that is left
    alone does what [Histogram.record] does ([solo_record]) and an attempt
    fails only if another thread raised the maximum in between, or spuriously
    ([lost_race_raised_max]). *)

From S2P Require Import Prelude Types Histogram.

(** Where a thread is in [record]. *)
Inductive record_pc :=
  | Idle
  | AddCount (ns : Z)
  | LoadMax (ns : Z)
  | TryMax (ns cur : Z).

Record Recording := mkRecording { hist : LatencyHistogram; threads : list record_pc; begun : list Z }.

(** A thread calls [record], or makes its next access; [spurious] says whether
    the compare-and-exchange fails for no reason. *)
Inductive RecordStep :=
  | Call (i : nat) (ns : Z)
  | Next (i : nat) (spurious : bool).

Definition set_pc (s : Recording) (i : nat) (pc : record_pc) (h : LatencyHistogram) : Recording :=
  mkRecording h (<[i := pc]> (threads s)) (begun s).

(** [None]: no such thread, a call by a thread that is busy, or a bucket
    outside the array. *)
Definition record_access (s : Recording) (e : RecordStep) : option Recording :=
  let h := hist s in
  match e with
  | Call i ns =>
      pc ← threads s !! i;
      match pc with
      | Idle =>
          let b := Z.to_nat (bucket_for ns) in
          old ← buckets_ h !! b;
          Some (mkRecording (mkHist (<[b := old +64 1]> (buckets_ h)) (count_ h) (max_ h))
                  (<[i := AddCount ns]> (threads s)) (ns :: begun s))
      | _ => None
      end
  | Next i spurious =>
      pc ← threads s !! i;
      match pc with
      | Idle => Some s
      | AddCount ns => Some (set_pc s i (LoadMax ns) (mkHist (buckets_ h) (count_ h +64 1) (max_ h)))
      | LoadMax ns => Some (set_pc s i (TryMax ns (max_ h)) h)
      | TryMax ns cur =>
          if cur <? ns then
            if (max_ h =? cur) && negb spurious
            then Some (set_pc s i Idle (mkHist (buckets_ h) (count_ h) ns))
            else Some (set_pc s i (TryMax ns (max_ h)) h)
          else Some (set_pc s i Idle h)
      end
  end.

Fixpoint record_run (s : Recording) (es : list RecordStep) : option Recording :=
  match es with [] => Some s | e :: es' => s' ← record_access s e; record_run s' es' end.

Definition recording0 (n : nat) : Recording := mkRecording hist_reset (replicate n Idle) [].

(** The sample a thread still has to fold into the maximum. *)
Definition pending (pc : record_pc) : option Z :=
  match pc with Idle => None | AddCount ns | LoadMax ns | TryMax ns _ => Some ns end.

(** Threads between the two increments. *)
Definition weight (pc : record_pc) : Z := match pc with AddCount _ => 1 | _ => 0 end.

Fixpoint uncounted (l : list record_pc) : Z := match l with [] => 0 | pc :: l' => weight pc + uncounted l' end.

Lemma uncounted_insert l : forall i pc pc', l !! i = Some pc -> uncounted (<[i := pc']> l) = uncounted l - weight pc + weight pc'.
Proof.
  induction l as [|x l IH]; intros i pc pc' Hi; [done|]. destruct i as [|i].
  - injection Hi as ->. cbn. lia.
  - change (<[S i := pc']> (x :: l)) with (x :: <[i := pc']> l). cbn [uncounted]. rewrite (IH i pc pc' Hi). lia.
Qed.

Lemma uncounted_idle l : Forall (fun pc => pc = Idle) l -> uncounted l = 0.
Proof. induction 1 as [|pc l -> _ IH]; [done|]. exact IH. Qed.

Lemma uncounted_nonneg l : 0 <= uncounted l.
Proof. induction l as [|[] l IH]; cbn; lia. Qed.

(** ** Invariant *)

Record recording_ok (s : Recording) : Prop := {
  re_len : length (buckets_ (hist s)) = Z.to_nat TOTAL_BUCKETS;
  re_samples : Forall (fun x => 0 <= x < 2 ^ 23) (begun s);
  re_few : Z.of_nat (length (begun s)) < 2 ^ 64;
  re_buckets i : 0 <= i < TOTAL_BUCKETS -> buckets_ (hist s) !! Z.to_nat i = Some (count_in (begun s) i);
  re_count : count_ (hist s) + uncounted (threads s) = Z.of_nat (length (begun s));
  re_nonneg : 0 <= count_ (hist s);
  re_max : Forall (fun x => x <= max_ (hist s) \/ exists i pc, threads s !! i = Some pc /\ pending pc = Some x) (begun s);
  re_attained : max_ (hist s) = 0 \/ max_ (hist s) ∈ begun s;
  re_pending i pc ns : threads s !! i = Some pc -> pending pc = Some ns -> ns ∈ begun s;
  re_read i ns cur : threads s !! i = Some (TryMax ns cur) -> cur <= max_ (hist s)
}.

Lemma recording0_ok n : recording_ok (recording0 n).
Proof.
  destruct holds_reset as (H1 & H2 & _). split; cbn [recording0 hist threads begun]; try done.
  - cbn. by rewrite uncounted_idle by (by apply Forall_replicate).
  - by left.
  - intros i pc ns Hi Hp. apply lookup_replicate in Hi as [-> _]. done.
  - intros i ns cur Hi. apply lookup_replicate in Hi as [[=] _].
Qed.

(** What the other threads still have to fold in is not touched. *)
Lemma max_or_pending (l : list record_pc) i pc pc' m m' x : l !! i = Some pc -> m <= m' ->
  (pending pc = Some x -> x <= m' \/ pending pc' = Some x) ->
  (x <= m \/ exists j q, l !! j = Some q /\ pending q = Some x) ->
  x <= m' \/ exists j q, <[i := pc']> l !! j = Some q /\ pending q = Some x.
Proof.
  intros Hi Hm Hx [Hle|(j & q & Hj & Hq)]; [left; lia|]. destruct (decide (j = i)) as [->|Hne].
  - rewrite Hi in Hj. injection Hj as <-. destruct (Hx Hq) as [?|Hp]; [by left|]. right. exists i, pc'.
    rewrite list_lookup_insert_eq by (by eapply lookup_lt_Some). done.
  - right. exists j, q. by rewrite list_lookup_insert_ne.
Qed.

(** A step of a busy thread. *)
Lemma set_pc_ok s i pc pc' h : recording_ok s -> threads s !! i = Some pc -> buckets_ h = buckets_ (hist s) ->
  weight pc' = 0 -> count_ h = count_ (hist s) + weight pc -> max_ (hist s) <= max_ h ->
  (max_ h = 0 \/ max_ h ∈ begun s) -> (forall x, pending pc = Some x -> x <= max_ h \/ pending pc' = Some x) ->
  (forall x, pending pc' = Some x -> pending pc = Some x) ->
  (forall ns cur, pc' = TryMax ns cur -> cur <= max_ h) -> recording_ok (set_pc s i pc' h).
Proof.
  intros [R1 R2 R3 R4 R5 R0 R6 R7 R8 R9] Hi Hb Hw Hc Hm Ha Hp Hp' Hr. split; cbn; rewrite ?Hb; try done.
  - rewrite (uncounted_insert _ _ pc) by done. lia.
  - rewrite Hc. destruct pc; cbn; lia.
  - eapply Forall_impl; [exact R6|]. cbn. intros x Hx. eapply max_or_pending; [done|exact Hm|apply Hp|exact Hx].
  - intros j q ns Hj Hq. apply list_lookup_insert_Some in Hj as [(-> & -> & _)|[_ Hj]]; [|by eapply R8].
    eapply R8; [exact Hi|by apply Hp'].
  - intros j ns cur Hj. apply list_lookup_insert_Some in Hj as [(-> & -> & _)|[_ Hj]]; [by eapply Hr|].
    specialize (R9 j ns cur Hj). lia.
Qed.

(** A step of a run in which every sample fits the histogram. *)
Definition step_fits (s : Recording) (e : RecordStep) : Prop :=
  match e with
  | Call i ns => 0 <= ns < 2 ^ 23 /\ threads s !! i = Some Idle /\ Z.of_nat (length (begun s)) < 2 ^ 64 - 1
  | Next i _ => (i < length (threads s))%nat
  end.

Lemma call_ok s i ns : recording_ok s -> step_fits s (Call i ns) ->
  exists s', record_access s (Call i ns) = Some s' /\ recording_ok s' /\ begun s' = ns :: begun s.
Proof.
  intros [R1 R2 R3 R4 R5 R0 R6 R7 R8 R9] (Hns & Hi & Hl). pose proof (bucket_in_range ns Hns) as Hr.
  cbn [record_access]. rewrite Hi. cbn [mbind option_bind]. rewrite (R4 _ Hr). cbn [mbind option_bind].
  eexists. split; [done|]. split; [|done].
  assert (Hlt : (i < length (threads s))%nat) by (by eapply lookup_lt_Some). split; cbn.
  - by rewrite length_insert.
  - by constructor.
  - lia.
  - intros j Hj. pose proof (count_in_le (begun s) j). unfold count_in. rewrite filter_cons.
    destruct (decide (bucket_for ns = j)) as [<-|Hne].
    + rewrite list_lookup_insert_eq by lia. f_equal. cbn [length]. unfold count_in in *. rewrite wrap_small; range_lia.
    + rewrite list_lookup_insert_ne by lia. by apply R4.
  - rewrite (uncounted_insert _ _ Idle) by done. cbn [weight]. lia.
  - done.
  - constructor.
    + right. exists i, (AddCount ns). by rewrite list_lookup_insert_eq.
    + eapply Forall_impl; [exact R6|]. cbn. intros x Hx. by eapply (max_or_pending _ _ Idle); [done|reflexivity| |exact Hx].
  - rewrite elem_of_cons. tauto.
  - intros j q x Hj Hq. apply list_lookup_insert_Some in Hj as [(-> & <- & _)|[_ Hj]].
    + injection Hq as <-. left.
    + right. by eapply R8.
  - intros j x cur Hj. apply list_lookup_insert_Some in Hj as [(-> & [=] & _)|[_ Hj]]. by eapply R9.
Qed.

Lemma next_ok s i spurious : recording_ok s -> step_fits s (Next i spurious) ->
  exists s', record_access s (Next i spurious) = Some s' /\ recording_ok s' /\ begun s' = begun s.
Proof.
  intros R Hi. cbn [step_fits] in Hi. destruct (lookup_lt_is_Some_2 _ _ Hi) as [pc Hpc]. cbn [record_access]. rewrite Hpc.
  cbn [mbind option_bind]. pose proof (re_attained s R) as Ha. pose proof (uncounted_nonneg (threads s)) as Hu.
  destruct pc as [|ns|ns|ns cur].
  - by exists s.
  - eexists. split; [done|]. split; [|done]. apply (set_pc_ok s i (AddCount ns)); try done; cbn; try lia; auto.
    pose proof (re_count s R). pose proof (re_few s R).
    assert (1 <= uncounted (threads s)).
    { pose proof (uncounted_insert (threads s) i (AddCount ns) Idle Hpc). pose proof (uncounted_nonneg (<[i := Idle]> (threads s))).
      cbn [weight] in *. lia. }
    pose proof (re_nonneg s R).
    rewrite wrap_small by range_lia. lia.
  - eexists. split; [done|]. split; [|done]. apply (set_pc_ok s i (LoadMax ns)); try done; cbn; try lia; auto.
    intros ? ? [= _ <-]. lia.
  - destruct (Z.ltb_spec cur ns) as [Hlt|Hge].
    + destruct ((max_ (hist s) =? cur) && negb spurious) eqn:E.
      * apply andb_true_iff in E as [E%Z.eqb_eq _]. eexists. split; [done|]. split; [|done].
        apply (set_pc_ok s i (TryMax ns cur)); try done; cbn; try lia; [right; by eapply re_pending|].
        intros x [= <-]. left. lia.
      * eexists. split; [done|]. split; [|done]. apply (set_pc_ok s i (TryMax ns cur)); try done; cbn; try lia; auto.
        intros ? ? [= _ <-]. lia.
    + eexists. split; [done|]. split; [|done]. apply (set_pc_ok s i (TryMax ns cur)); try done; cbn; try lia; auto.
      intros x [= <-]. left. pose proof (re_read s R i ns cur Hpc). lia.
Qed.

(** ** Properties *)

Fixpoint run_fits (s : Recording) (es : list RecordStep) : Prop :=
  match es with
  | [] => True
  | e :: es' => step_fits s e /\ forall s', record_access s e = Some s' -> run_fits s' es'
  end.

(** The samples of the calls of a run, last first. *)
Definition calls (es : list RecordStep) : list Z :=
  rev (omap (fun e => match e with Call _ ns => Some ns | Next _ _ => None end) es).

Lemma record_run_ok es : forall s, recording_ok s -> run_fits s es ->
  exists s', record_run s es = Some s' /\ recording_ok s' /\ begun s' = calls es ++ begun s.
Proof.
  induction es as [|e es IH]; intros s R F; [by exists s|]. destruct F as [Fe F]. cbn [record_run].
  assert (Hstep : exists s1, record_access s e = Some s1 /\ recording_ok s1 /\ begun s1 = calls [e] ++ begun s).
  { destruct e as [i ns|i spurious]; [by apply call_ok|by apply next_ok]. }
  destruct Hstep as (s1 & E1 & R1 & B1). destruct (IH s1 R1 (F s1 E1)) as (s' & E & R' & B').
  rewrite E1. cbn [mbind option_bind]. exists s'. split_and!; [done..|]. rewrite B', B1, app_assoc. f_equal.
  unfold calls. destruct e; cbn; by rewrite ?app_nil_r.
Qed.

(** C26: no observation is lost or counted twice.  Any number of threads call
    [record] with samples below 2^23 ns and interleave at every atomic access,
    with spurious failures of the compare-and-exchange anywhere.  No access is
    out of bounds, and at any moment each bucket holds the number of samples
    recorded into it, the count is the number of calls less those between their
    two increments, the maximum is one of the samples (or zero), and it is at
    least every sample that is not still on its way in a thread.  When every
    call is over the histogram is the one that holds these samples, whatever
    the order. *)
Theorem concurrent_records_counted n es :
  run_fits (recording0 n) es ->
  exists s, record_run (recording0 n) es = Some s
    /\ (forall i, 0 <= i < TOTAL_BUCKETS -> buckets_ (hist s) !! Z.to_nat i = Some (count_in (calls es) i))
    /\ count_ (hist s) + uncounted (threads s) = Z.of_nat (length (calls es))
    /\ (max_ (hist s) = 0 \/ max_ (hist s) ∈ calls es)
    /\ Forall (fun x => x <= max_ (hist s) \/ exists i pc, threads s !! i = Some pc /\ pending pc = Some x) (calls es)
    /\ (Forall (fun pc => pc = Idle) (threads s) -> holds (hist s) (calls es)).
Proof.
  intros F. destruct (record_run_ok es _ (recording0_ok n) F) as (s & E & [R1 R2 R3 R4 R5 R0 R6 R7 R8 R9] & B).
  cbn [begun recording0] in B. rewrite app_nil_r in B. rewrite B in *.
  exists s. split_and!; try done. intros Hidle. rewrite (uncounted_idle _ Hidle) in R5.
  split_and!; [done|done|lia|]. eapply Forall_impl; [exact R6|]. cbn. intros x [?|(i & pc & Hi & Hp)]; [done|].
  pose proof (Forall_lookup_1 _ _ _ _ Hidle Hi) as ->. done.
Qed.

(** A call without interference has the effect of [Histogram.record]. *)
Theorem solo_record s i ns h : threads s !! i = Some Idle -> record (hist s) ns = Some h ->
  record_run s [Call i ns; Next i false; Next i false; Next i false] = Some (mkRecording h (threads s) (ns :: begun s)).
Proof.
  intros Hi E. unfold record in E. apply bind_Some in E as (old & Hold & [= <-]).
  pose proof (lookup_lt_Some _ _ _ Hi) as Hlt. cbn [record_run record_access]. rewrite Hi. cbn [mbind option_bind].
  rewrite Hold. cbn [mbind option_bind threads hist]. rewrite list_lookup_insert_eq by done.
  cbn [mbind option_bind set_pc threads hist buckets_ count_ max_]. rewrite list_lookup_insert_eq by (by rewrite length_insert).
  cbn [mbind option_bind set_pc threads hist buckets_ count_ max_].
  rewrite list_lookup_insert_eq by (by rewrite !length_insert). cbn [mbind option_bind].
  rewrite Z.eqb_refl. cbn [andb negb begun]. unfold set_pc. cbn [threads begun].
  destruct (max_ (hist s) <? ns); rewrite !list_insert_insert_eq, (list_insert_id (threads s) i Idle Hi); done.
Qed.

(** An attempt that fails for a reason has seen a larger maximum. *)
Theorem lost_race_raised_max s i ns cur s' cur' : recording_ok s -> threads s !! i = Some (TryMax ns cur) ->
  record_access s (Next i false) = Some s' -> threads s' !! i = Some (TryMax ns cur') -> cur < cur' /\ cur' = max_ (hist s).
Proof.
  intros R Hi E Hi'. pose proof (re_read s R i ns cur Hi) as Hle. cbn [record_access] in E. rewrite Hi in E. cbn [mbind option_bind] in E.
  assert (Hins : forall pc, <[i := pc]> (threads s) !! i = Some pc) by (intros; apply list_lookup_insert_eq; by eapply lookup_lt_Some).
  destruct (Z.ltb_spec cur ns); [|injection E as <-; cbn in Hi'; rewrite Hins in Hi'; done].
  destruct (Z.eqb_spec (max_ (hist s)) cur); injection E as <-; cbn in Hi'; rewrite Hins in Hi'; [done|].
  injection Hi' as <-. lia.
Qed.

(** *** Witness: two threads race for the maximum *)

Definition race : list RecordStep :=
  [Call 0 300; Call 1 700; Next 0 false; Next 1 false; Next 0 false; Next 1 false; Next 1 false;
   Next 0 false; Next 0 false].

Lemma concurrent_records_counted_witness :
  exists s, record_run (recording0 2) race = Some s /\ holds (hist s) [700; 300] /\ max_ (hist s) = 700.
Proof.
  assert (F : run_fits (recording0 2) race).
  { repeat (split; [first [split; [lia|]; split; [reflexivity|reflexivity] | cbn; lia]|]; intros s' E; vm_compute in E;
      injection E as <-). exact I. }
  destruct (concurrent_records_counted 2 race F) as (s & E & _ & _ & _ & _ & Hdone). exists s. split; [exact E|].
  vm_compute in E. injection E as <-. split; [|reflexivity]. apply Hdone. repeat constructor.
Defined.
