(* ===== verification/OrderPool.v ===== *)
(** * Order pool

    [Order] and [OrderPool] of [include/orderbook/order_pool.hpp] and
    [src/orderbook/order_pool.cpp].  A pointer to an order is its pool index;
    an access outside the order array or the free stack is [None]. *)

From S2P Require Import Prelude Types.

(** ** Data (the padding byte of [Order] is never read) *)

Record Order := mkOrder {
  id : Z;
  price : Z;
  qty : Z;
  prev_idx : Z;
  next_idx : Z;
  level_idx : Z;
  side : Side
}.

Record OrderPool := mkPool {
  pool_ : list Order;
  capacity_ : Z;
  freelist_ : list Z;
  freelist_top_ : Z;
  allocated_ : Z
}.

Definition order0 : Order := mkOrder 0 0 0 0 0 0 (OtherSide 0).

(** ** Operations *)

(** [freelist_[i] = capacity - 1 - i]. *)
Definition fill_freelist (capacity : Z) : list Z :=
  (fun i => capacity - 1 - i) <$> seqZ 0 capacity.

(** The constructor, over zeroed memory. *)
Definition new_pool (capacity : Z) : OrderPool :=
  mkPool (replicate (Z.to_nat capacity) order0) capacity (fill_freelist capacity) capacity 0.

Definition pool_at (p : OrderPool) (idx : Z) : option Order := pool_ p !! Z.to_nat idx.

(** A write through a pointer into the pool. *)
Definition set_order (p : OrderPool) (idx : Z) (o : Order) : OrderPool :=
  mkPool (<[Z.to_nat idx := o]> (pool_ p)) (capacity_ p) (freelist_ p) (freelist_top_ p)
    (allocated_ p).

Definition set_links (o : Order) (prev next : Z) : Order :=
  mkOrder (id o) (price o) (qty o) prev next (level_idx o) (side o).

(** [alloc]: the inner [None] is the null pointer of an exhausted pool. *)
Definition alloc (p : OrderPool) : option (option Z * OrderPool) :=
  if freelist_top_ p =? 0 then Some (None, p)
  else
    let top := freelist_top_ p -32 1 in
    idx ← freelist_ p !! Z.to_nat top;
    o ← pool_at p idx;
    Some (Some idx,
          mkPool (<[Z.to_nat idx := set_links o kInvalidIdx kInvalidIdx]> (pool_ p)) (capacity_ p)
            (freelist_ p) top (allocated_ p +32 1)).

Definition free (p : OrderPool) (idx : Z) : option OrderPool :=
  if decide (Z.to_nat (freelist_top_ p) < length (freelist_ p))%nat then
    Some (mkPool (pool_ p) (capacity_ p) (<[Z.to_nat (freelist_top_ p) := idx]> (freelist_ p))
            (freelist_top_ p +32 1) (allocated_ p -32 1))
  else None.

Definition pool_reset (p : OrderPool) : OrderPool :=
  mkPool (pool_ p) (capacity_ p) (fill_freelist (capacity_ p)) (capacity_ p) 0.

(** ** Invariant *)

(** The stack of free indices, next allocation last. *)
Definition free_stack (p : OrderPool) : list Z := take (Z.to_nat (freelist_top_ p)) (freelist_ p).

Record pool_ok (p : OrderPool) : Prop := {
  ok_cap : 0 <= capacity_ p < 2 ^ 32;
  ok_pool : length (pool_ p) = Z.to_nat (capacity_ p);
  ok_free : length (freelist_ p) = Z.to_nat (capacity_ p);
  ok_top : 0 <= freelist_top_ p <= capacity_ p;
  ok_nodup : NoDup (free_stack p);
  ok_range : Forall (fun i => 0 <= i < capacity_ p) (free_stack p);
  ok_alloc : allocated_ p = capacity_ p - freelist_top_ p
}.

(** [i] is handed out. *)
Definition in_use (p : OrderPool) (i : Z) : Prop := 0 <= i < capacity_ p /\ i ∉ free_stack p.

Lemma free_stack_length p : pool_ok p -> length (free_stack p) = Z.to_nat (freelist_top_ p).
Proof.
  intros K. unfold free_stack. rewrite length_take, (ok_free _ K). pose proof (ok_top _ K). lia.
Qed.

Lemma pool_at_Some p i : pool_ok p -> 0 <= i < capacity_ p -> exists o, pool_at p i = Some o.
Proof. intros K Hi. apply lookup_lt_is_Some_2. rewrite (ok_pool _ K). lia. Qed.

Lemma pool_at_range p i o : pool_ok p -> 0 <= i -> pool_at p i = Some o -> i < capacity_ p.
Proof.
  intros K Hi Ho. apply lookup_lt_Some in Ho. rewrite (ok_pool _ K) in Ho. lia.
Qed.

Lemma pool_at_set p i j o :
  pool_ok p -> 0 <= i < capacity_ p -> 0 <= j ->
  pool_at (set_order p i o) j = if decide (i = j) then Some o else pool_at p j.
Proof.
  intros K Hi Hj. unfold pool_at, set_order. simpl. destruct (decide (i = j)) as [<-|Hne].
  - apply list_lookup_insert_eq. rewrite (ok_pool _ K). lia.
  - apply list_lookup_insert_ne. lia.
Qed.

Lemma set_order_ok p i o : pool_ok p -> pool_ok (set_order p i o).
Proof. intros []. constructor; simpl; rewrite ?length_insert; done. Qed.

Lemma set_order_stack p i o : free_stack (set_order p i o) = free_stack p.
Proof. done. Qed.

Lemma alloc_ok p :
  pool_ok p -> 0 < freelist_top_ p ->
  exists i o p', alloc p = Some (Some i, p') /\ pool_ok p'
    /\ free_stack p = free_stack p' ++ [i] /\ 0 <= i < capacity_ p
    /\ pool_at p i = Some o /\ freelist_top_ p' = freelist_top_ p - 1
    /\ capacity_ p' = capacity_ p
    /\ pool_ p' = <[Z.to_nat i := set_links o kInvalidIdx kInvalidIdx]> (pool_ p).
Proof.
  intros K Ht. pose proof (ok_top _ K). pose proof (ok_cap _ K). unfold alloc.
  destruct (Z.eqb_spec (freelist_top_ p) 0); [lia|].
  rewrite (wrap_small 32 (freelist_top_ p - 1)) by range_lia.
  destruct (lookup_lt_is_Some_2 (freelist_ p) (Z.to_nat (freelist_top_ p - 1))) as [i Hi].
  { rewrite (ok_free _ K). lia. }
  assert (Hs : free_stack p = take (Z.to_nat (freelist_top_ p - 1)) (freelist_ p) ++ [i]).
  { unfold free_stack. replace (Z.to_nat (freelist_top_ p)) with (S (Z.to_nat (freelist_top_ p - 1))) by lia.
    by apply take_S_r. }
  pose proof (ok_range _ K) as Hr. pose proof (ok_nodup _ K) as Hn. rewrite Hs in Hr, Hn.
  apply Forall_app in Hr as [Hr Hri]. rewrite Forall_singleton in Hri.
  apply list.NoDup_app in Hn as (Hn & _ & _).
  destruct (pool_at_Some p i K Hri) as [o Ho]. rewrite Hi. simpl. rewrite Ho. simpl.
  eexists i, o, _. split; [done|]. split_and!; try done; try lia.
  constructor; simpl; try lia; try done.
  - by rewrite length_insert, (ok_pool _ K).
  - by rewrite (ok_free _ K).
  - rewrite (ok_alloc _ K), wrap_small by range_lia. lia.
Qed.

Lemma alloc_null p : freelist_top_ p = 0 -> alloc p = Some (None, p).
Proof. intros E. unfold alloc. by rewrite E. Qed.

Lemma free_ok p i :
  pool_ok p -> in_use p i -> (length (free_stack p) < Z.to_nat (capacity_ p))%nat ->
  exists p', free p i = Some p' /\ pool_ok p' /\ free_stack p' = free_stack p ++ [i]
    /\ pool_ p' = pool_ p /\ capacity_ p' = capacity_ p
    /\ freelist_top_ p' = freelist_top_ p + 1.
Proof.
  intros K [Hi Hnu] Hlt. rewrite free_stack_length in Hlt by done.
  pose proof (ok_top _ K). pose proof (ok_cap _ K). pose proof (ok_free _ K) as Hf.
  unfold free. rewrite decide_True by lia.
  assert (Hs : take (Z.to_nat (freelist_top_ p + 1)) (<[Z.to_nat (freelist_top_ p):=i]> (freelist_ p))
               = free_stack p ++ [i]).
  { replace (Z.to_nat (freelist_top_ p + 1)) with (S (Z.to_nat (freelist_top_ p))) by lia.
    rewrite (take_S_r _ _ i) by (apply list_lookup_insert_eq; lia).
    by rewrite take_insert_ge by lia. }
  rewrite wrap_small by range_lia. eexists. split; [done|].
  split; [|by split_and!].
  constructor; unfold free_stack; simpl; try (rewrite length_insert);
    try apply K; try lia.
  - rewrite Hs. apply list.NoDup_app. split_and!; [apply K| |apply NoDup_singleton].
    intros x Hx ->%list_elem_of_singleton. done.
  - rewrite Hs. apply Forall_app. split; [apply K|]. by rewrite Forall_singleton.
  - rewrite (ok_alloc _ K), wrap_small by range_lia. lia.
Qed.

Lemma fill_freelist_length c : length (fill_freelist c) = Z.to_nat c.
Proof. unfold fill_freelist. by rewrite length_fmap, length_seqZ. Qed.

(** The stack the constructor and [reset] build holds every index. *)
Lemma refilled_ok p :
  0 <= capacity_ p < 2 ^ 32 -> length (pool_ p) = Z.to_nat (capacity_ p) ->
  freelist_ p = fill_freelist (capacity_ p) -> freelist_top_ p = capacity_ p -> allocated_ p = 0 ->
  pool_ok p /\ free_stack p = fill_freelist (capacity_ p).
Proof.
  intros Hc Hp Hf Ht Ha. pose proof (fill_freelist_length (capacity_ p)) as Hl.
  assert (Hs : free_stack p = fill_freelist (capacity_ p)).
  { unfold free_stack. rewrite Hf, Ht. apply take_ge. lia. }
  split; [|done]. constructor; rewrite ?Hs, ?Hf; try done; try lia.
  - unfold fill_freelist. apply NoDup_fmap_2_strong; [|apply NoDup_seqZ]. intros; lia.
  - unfold fill_freelist. apply Forall_fmap, list.Forall_forall. intros x Hx. apply elem_of_seqZ in Hx.
    simpl. lia.
Qed.

Lemma pool_reset_ok p :
  pool_ok p -> pool_ok (pool_reset p) /\ free_stack (pool_reset p) = fill_freelist (capacity_ p).
Proof. intros K. apply (refilled_ok (pool_reset p)); simpl; try done; apply K. Qed.

(** ** Runs: allocations, and releases of orders that are handed out *)

Inductive pool_step : OrderPool * list Z -> OrderPool * list Z -> Prop :=
  | step_alloc p live i p' : alloc p = Some (Some i, p') -> pool_step (p, live) (p', i :: live)
  | step_full p live p' : alloc p = Some (None, p') -> pool_step (p, live) (p', live)
  | step_free p live l1 i l2 p' :
      live = l1 ++ i :: l2 -> free p i = Some p' -> pool_step (p, live) (p', l1 ++ l2)
  | step_reset p live : pool_step (p, live) (pool_reset p, []).

(** The indices handed out and the free ones are all the indices, once. *)
Definition accounted (s : OrderPool * list Z) : Prop :=
  pool_ok s.1 /\ s.2 ++ free_stack s.1 ≡ₚ seqZ 0 (capacity_ s.1).

Lemma fill_freelist_perm c : fill_freelist c ≡ₚ seqZ 0 c.
Proof.
  apply NoDup_Permutation.
  - apply NoDup_fmap_2_strong; [|apply NoDup_seqZ]. intros; lia.
  - apply NoDup_seqZ.
  - intros x. unfold fill_freelist. rewrite list_elem_of_fmap, elem_of_seqZ. split.
    + intros (y & -> & Hy%elem_of_seqZ). lia.
    + intros Hx. exists (c - 1 - x). rewrite elem_of_seqZ. lia.
Qed.

Lemma accounted_room p live i : accounted (p, live) -> i ∈ live ->
  in_use p i /\ (length (free_stack p) < Z.to_nat (capacity_ p))%nat.
Proof.
  intros [K Hp] Hi. simpl in *. pose proof (NoDup_seqZ 0 (capacity_ p)) as Hn.
  rewrite <- Hp in Hn. apply list.NoDup_app in Hn as (_ & Hd & _). split; [split|].
  - apply (elem_of_seqZ 0 (capacity_ p) i). rewrite <- Hp. apply elem_of_app. by left.
  - by apply Hd.
  - apply Permutation_length in Hp. rewrite length_app, length_seqZ in Hp.
    destruct live; [by apply elem_of_nil in Hi|]. simpl in Hp. lia.
Qed.

Lemma accounted_step s s' : accounted s -> pool_step s s' -> accounted s'.
Proof.
  intros HA Hs. destruct Hs as [p live i p' E|p live p' E|p live l1 i l2 p' -> E|p live].
  - destruct HA as [K Hp]. simpl in *. destruct (decide (freelist_top_ p = 0)) as [H0|H0];
      [by rewrite alloc_null in E by done|].
    pose proof (ok_top _ K). destruct (alloc_ok p K) as (j & o & p1 & E1 & K1 & Hs & _ & _ & _ & Hc & _); [lia|].
    rewrite E1 in E. injection E as -> ->. split; [done|]. simpl. rewrite Hc, <- Hp, Hs.
    rewrite (Permutation_app_comm (free_stack p')), app_assoc. simpl.
    by rewrite Permutation_middle, <- app_assoc.
  - destruct HA as [K Hp]. simpl in *. destruct (decide (freelist_top_ p = 0)) as [H0|H0].
    + rewrite alloc_null in E by done. by injection E as <-.
    + pose proof (ok_top _ K). destruct (alloc_ok p K) as (j & o & p1 & E1 & _); [lia|].
      by rewrite E1 in E.
  - destruct (accounted_room p (l1 ++ i :: l2) i HA) as [Hu Hr]; [apply elem_of_app; right; left|].
    destruct HA as [K Hp]. simpl in *.
    destruct (free_ok p i K Hu Hr) as (p1 & E1 & K1 & Hs & _ & Hc & _).
    rewrite E1 in E. injection E as ->. split; [done|]. simpl. rewrite Hs, Hc, <- Hp.
    rewrite (Permutation_app_comm (free_stack p)). simpl. rewrite <- !app_assoc. simpl.
    by rewrite <- (Permutation_middle l2).
  - destruct HA as [K Hp]. destruct (pool_reset_ok p K) as [K' Hs]. split; [done|]. simpl.
    by rewrite Hs, fill_freelist_perm.
Qed.

Lemma new_pool_accounted c : 0 <= c < 2 ^ 32 -> accounted (new_pool c, []).
Proof.
  intros Hc. destruct (refilled_ok (new_pool c)) as [K Hs]; try done.
  { simpl. by rewrite length_replicate. }
  split; [done|]. simpl in *. by rewrite Hs, fill_freelist_perm.
Qed.

(** ** Properties *)

(** C27: in every run of allocations, releases of handed-out orders and
    resets, an allocation never returns an index that is still handed out;
    it returns null only when all [capacity] orders are handed out; a
    release always succeeds; and [allocated()] is their number. *)
Theorem pool_never_double_allocates c p live :
  0 <= c < 2 ^ 32 -> steps pool_step (new_pool c, []) (p, live) ->
  NoDup live /\ allocated_ p = Z.of_nat (length live)
  /\ (forall i, i ∈ live -> exists p', free p i = Some p')
  /\ exists r p', alloc p = Some (r, p') /\
     match r with
     | Some i => i ∉ live
     | None => Z.of_nat (length live) = capacity_ p
     end.
Proof.
  intros Hc Hs. pose proof (steps_invariant _ accounted accounted_step _ _ Hs (new_pool_accounted c Hc)) as HA.
  pose proof HA as [K Hp]. simpl in *. pose proof (NoDup_seqZ 0 (capacity_ p)) as Hn.
  rewrite <- Hp in Hn. apply list.NoDup_app in Hn as (Hn & Hd & _).
  apply Permutation_length in Hp. rewrite length_app, length_seqZ, free_stack_length in Hp by done.
  pose proof (ok_top _ K). split; [done|]. split; [rewrite (ok_alloc _ K); lia|]. split.
  - intros i Hi. destruct (accounted_room p live i HA Hi) as [Hu Hr].
    destruct (free_ok p i K Hu Hr) as (p' & ? & _). by exists p'.
  - destruct (decide (freelist_top_ p = 0)) as [H0|H0].
    + exists None, p. split; [by apply alloc_null|lia].
    + destruct (alloc_ok p K) as (i & o & p' & E & _ & Hs' & _); [lia|].
      exists (Some i), p'. split; [done|]. intros Hi. apply (Hd i Hi). rewrite Hs'.
      apply elem_of_app. right. left.
Qed.

Lemma pool_never_double_allocates_witness :
  exists p, steps pool_step (new_pool 1, []) (p, [0]) /\ exists p', alloc p = Some (None, p').
Proof.
  destruct (alloc (new_pool 1)) as [[[i|] p]|] eqn:E; try discriminate E.
  assert (Hs : steps pool_step (new_pool 1, []) (p, [0])).
  { injection E as <- <-. eapply steps_cons; [by apply step_alloc|]. apply steps_refl. }
  exists p. split; [exact Hs|].
  destruct (pool_never_double_allocates 1 p [0] ltac:(lia) Hs) as (_ & _ & _ & r & p' & Hr & _).
  exists p'. injection E as <- <-. injection Hr as <- <-. reflexivity.
Defined.
