(* ===== verification/OrderMap.v ===== *)
(** * Order map

    [OrderMap] of [include/orderbook/order_map.hpp] and
    [src/orderbook/order_map.cpp]: a Robin Hood open-addressing hash table from
    order references to pool indices.  Each [while (true)] loop takes fuel; a
    loop that runs out of it is [None].  Class [MapLaws] is what the order
    book relies on; the last section shows that the table satisfies it. *)

From stdpp Require Import gmap.
From S2P Require Import Prelude Types.

(** ** The interface of the order book *)

Class MapOps (T : Type) := {
  map_insert : T -> Z -> Z -> option (bool * T);
  map_find : T -> Z -> option Z;
  map_erase : T -> Z -> option (bool * T);
  map_reset : T -> T;
  map_rep : T -> gmap Z Z -> Prop;
  map_room : T -> Z -> Prop
}.

Class MapLaws (T : Type) `{MapOps T} := {
  law_find m g i : map_rep m g -> i <> 0 -> map_find m i = Some (default kInvalidIdx (g !! i));
  law_insert m g i v : map_rep m g -> i <> 0 -> map_room m i ->
    exists m', map_insert m i v = Some (true, m') /\ map_rep m' (<[i := v]> g);
  law_erase m g i : map_rep m g -> i <> 0 ->
    exists m', map_erase m i = Some (bool_decide (is_Some (g !! i)), m')
      /\ map_rep m' (delete i g);
  law_reset m g : map_rep m g -> map_rep (map_reset m) ∅
}.

(** ** The table *)

Definition kEmptyKey : Z := 0.
Definition kMapEmpty : Z := kInvalidIdx.

Record MapEntry := mkEntry { key : Z; value : Z; probe_dist : Z }.

Definition entry0 : MapEntry := mkEntry kEmptyKey 0 0.

Record OrderMap := mkMap {
  table_ : list MapEntry;
  capacity_ : Z;
  mask_ : Z;
  size_ : Z
}.

Definition new_map (capacity : Z) : OrderMap :=
  mkMap (replicate (Z.to_nat capacity) entry0) capacity (capacity -32 1) 0.

Definition reset (m : OrderMap) : OrderMap :=
  mkMap (replicate (Z.to_nat (capacity_ m)) entry0) (capacity_ m) (mask_ m) 0.

(** [__builtin_ctz]: the number of trailing zero bits. *)
Definition ctz (c : Z) : Z := Z.log2 (Z.land c (- c)).

Definition hash_slot (capacity i : Z) : Z :=
  u32 (Z.shiftr (u64 (i * 11400714819323198485)) (64 - ctz capacity)).

Definition slot_at (m : OrderMap) (slot : Z) : nat := Z.to_nat (Z.land slot (mask_ m)).

Definition set_entry (m : OrderMap) (slot : Z) (e : MapEntry) : OrderMap :=
  mkMap (<[slot_at m slot := e]> (table_ m)) (capacity_ m) (mask_ m) (size_ m).

Definition set_size (m : OrderMap) (n : Z) : OrderMap :=
  mkMap (table_ m) (capacity_ m) (mask_ m) n.

Definition bump (e : MapEntry) : MapEntry :=
  mkEntry (key e) (value e) (u16 (probe_dist e + 1)).

(** The loop of [insert]: [c] is [to_insert]. *)
Fixpoint insert_loop (fuel : nat) (m : OrderMap) (i pool_idx : Z) (c : MapEntry) (slot : Z)
    : option (bool * OrderMap) :=
  match fuel with
  | O => None
  | S fuel' =>
      e ← table_ m !! slot_at m slot;
      if key e =? kEmptyKey then
        let m' := set_entry m slot c in Some (true, set_size m' (size_ m' +32 1))
      else if key e =? i then
        Some (true, set_entry m slot (mkEntry (key e) pool_idx (probe_dist e)))
      else if probe_dist e <? probe_dist c then
        insert_loop fuel' (set_entry m slot c) i pool_idx (bump e) (slot +32 1)
      else insert_loop fuel' m i pool_idx (bump c) (slot +32 1)
  end.

Definition insert (fuel : nat) (m : OrderMap) (i pool_idx : Z) : option (bool * OrderMap) :=
  insert_loop fuel m i pool_idx (mkEntry i pool_idx 0) (hash_slot (capacity_ m) i).

(** The search loop of [find] and of [erase]: the slot of the key, if any. *)
Fixpoint probe (fuel : nat) (m : OrderMap) (i : Z) (slot dist : Z) : option (option Z) :=
  match fuel with
  | O => None
  | S fuel' =>
      e ← table_ m !! slot_at m slot;
      if (key e =? kEmptyKey) || (probe_dist e <? dist) then Some None
      else if key e =? i then Some (Some slot)
      else probe fuel' m i (slot +32 1) (u16 (dist + 1))
  end.

Definition find (fuel : nat) (m : OrderMap) (i : Z) : option Z :=
  r ← probe fuel m i (hash_slot (capacity_ m) i) 0;
  match r with
  | None => Some kMapEmpty
  | Some slot => e ← table_ m !! slot_at m slot; Some (value e)
  end.

(** The backward shift of [erase]. *)
Fixpoint shift_back (fuel : nat) (m : OrderMap) (pos : Z) : option OrderMap :=
  match fuel with
  | O => None
  | S fuel' =>
      let next := Z.land (pos +32 1) (mask_ m) in
      next_e ← table_ m !! Z.to_nat next;
      if (key next_e =? kEmptyKey) || (probe_dist next_e =? 0) then
        Some (set_entry m pos entry0)
      else
        shift_back fuel'
          (set_entry m pos (mkEntry (key next_e) (value next_e) (u16 (probe_dist next_e - 1)))) next
  end.

Definition erase (fuel : nat) (m : OrderMap) (i : Z) : option (bool * OrderMap) :=
  r ← probe fuel m i (hash_slot (capacity_ m) i) 0;
  match r with
  | None => Some (false, m)
  | Some slot =>
      m' ← shift_back fuel m slot;
      Some (true, set_size m' (size_ m' -32 1))
  end.

(** ** Reasoning about the table as a function on cyclic positions *)

Section Table.
Variable (k : Z).
Hypothesis (Hk : 1 <= k <= 32).
Abbreviation cap := (2 ^ k).
Variable (hash : Z -> Z).

Definition ent (t : list MapEntry) (i : Z) : MapEntry := default entry0 (t !! Z.to_nat (i mod cap)).
Definition used (t : list MapEntry) (i : Z) : Prop := key (ent t i) <> 0.
Definition dist (t : list MapEntry) (i : Z) : Z := probe_dist (ent t i).

(** Longest tolerated probe: distances stay below the 16-bit limit. *)
Definition max_run : Z := Z.min 65535 cap.
Definition short_runs (t : list MapEntry) : Prop :=
  forall i, exists n, 0 <= n < max_run /\ ~ used t (i + n).

(** An entry is where its hash and distance say. *)
Definition placed (e : MapEntry) (i : Z) : Prop :=
  0 <= probe_dist e /\ (hash (key e) + probe_dist e) mod cap = i mod cap.

(** What must precede an entry at distance [d] in slot [i]. *)
Definition prev_ok (t : list MapEntry) (i d : Z) : Prop :=
  0 < d -> used t (i - 1) /\ d - 1 <= dist t (i - 1).

Record shape_ok (t : list MapEntry) : Prop := {
  sh_len : length t = Z.to_nat cap;
  sh_placed i : used t i -> placed (ent t i) i;
  sh_prev i : used t i -> prev_ok t i (dist t i)
}.

Definition distinct (t : list MapEntry) : Prop :=
  forall i j, used t i -> key (ent t i) = key (ent t j) -> i mod cap = j mod cap.

Definition holds (t : list MapEntry) (x v : Z) : Prop :=
  exists i, key (ent t i) = x /\ value (ent t i) = v.

Lemma cap_pos : 2 <= cap.
Proof. change 2 with (2 ^ 1) at 1. apply Z.pow_le_mono_r; lia. Qed.

Lemma ent_cong t i j : i mod cap = j mod cap -> ent t i = ent t j.
Proof. intros E. unfold ent. by rewrite E. Qed.

Lemma ent_lookup t i : length t = Z.to_nat cap -> t !! Z.to_nat (i mod cap) = Some (ent t i).
Proof.
  intros Hl. unfold ent. pose proof cap_pos. pose proof (Z.mod_pos_bound i cap ltac:(lia)).
  destruct (lookup_lt_is_Some_2 t (Z.to_nat (i mod cap))) as [e ->]; [lia|done].
Qed.

Lemma ent_insert t i j e :
  length t = Z.to_nat cap ->
  ent (<[Z.to_nat (i mod cap) := e]> t) j = if decide (i mod cap = j mod cap) then e else ent t j.
Proof.
  intros Hl. unfold ent. pose proof cap_pos.
  pose proof (Z.mod_pos_bound i cap ltac:(lia)). pose proof (Z.mod_pos_bound j cap ltac:(lia)).
  destruct (decide (i mod cap = j mod cap)) as [E|E].
  - rewrite E, list_lookup_insert_eq by lia. done.
  - rewrite list_lookup_insert_ne by lia. done.
Qed.

(** Positions less than [cap] apart are different slots. *)
Lemma mod_ne i n : 0 < n < cap -> i mod cap <> (i + n) mod cap.
Proof.
  intros Hn E. assert (H0 : (i + n - i) mod cap = 0)
    by (rewrite Zminus_mod, <- E, Z.sub_diag; apply Z.mod_0_l; lia).
  replace (i + n - i) with n in H0 by lia. rewrite Z.mod_small in H0; lia.
Qed.

Lemma mod_shift i j n : i mod cap = j mod cap -> (i + n) mod cap = (j + n) mod cap.
Proof. intros E. by rewrite Zplus_mod, E, <- Zplus_mod. Qed.

(** *** Runs of used slots *)

Lemma chain_used t i d n :
  shape_ok t -> prev_ok t i d -> 0 < n <= d ->
  used t (i - n) /\ d - n <= dist t (i - n).
Proof.
  intros S Hp Hn. destruct (Z_of_nat_complete (n - 1)) as [m Hm]; [lia|].
  revert n Hm Hn. induction m as [|m IH]; intros n Hm Hn.
  - replace n with 1 by lia. apply Hp. lia.
  - destruct (IH (n - 1)) as [Hu Hd]; [lia|lia|].
    destruct (sh_prev _ S _ Hu) as [Hu' Hd']; [lia|].
    replace (i - n) with (i - (n - 1) - 1) by lia. split; [done|lia].
Qed.

Lemma prev_bound t i d : shape_ok t -> short_runs t -> prev_ok t i d -> d < max_run.
Proof.
  intros S R Hp. destruct (decide (d < max_run)) as [|Hge]; [done|].
  destruct (R (i - d)) as (n & Hn & He). exfalso. apply He.
  replace (i - d + n) with (i - (d - n)) by lia. apply (chain_used t i d (d - n) S Hp). lia.
Qed.

(** *** Writing a slot *)

Lemma write_shape t p c :
  shape_ok t -> key c <> 0 -> placed c p -> prev_ok t p (probe_dist c) ->
  (used t (p + 1) -> 0 < dist t (p + 1) -> dist t (p + 1) - 1 <= probe_dist c) ->
  shape_ok (<[Z.to_nat (p mod cap) := c]> t).
Proof.
  intros S Hc Hpl Hpr Hw. pose proof cap_pos. pose proof (sh_len _ S) as Hl. constructor.
  - by rewrite length_insert.
  - intros i. unfold used. rewrite ent_insert by done. case_decide as E; [|apply S].
    intros _. unfold placed in *. by rewrite <- E.
  - intros i. unfold prev_ok, used, dist. rewrite !ent_insert by done.
    assert (Hself : (i - 1) mod cap <> i mod cap).
    { replace i with (i - 1 + 1) at 2 by lia. apply mod_ne. lia. }
    case_decide as E; case_decide as E'.
    + congruence.
    + intros _ Hd. rewrite !(ent_cong t (i - 1) (p - 1)) by (apply (mod_shift i p (-1)); done).
      by apply Hpr.
    + intros Hu Hd. split; [done|]. assert (Ei : (p + 1) mod cap = i mod cap).
      { rewrite (mod_shift p (i - 1) 1 E'). f_equal. lia. }
      unfold used, dist in Hw. rewrite (ent_cong t _ _ Ei) in Hw. by apply Hw.
    + intros Hu Hd. by apply (sh_prev _ S i Hu Hd).
Qed.

Lemma put_shape t p c :
  shape_ok t -> key c <> 0 -> placed c p -> prev_ok t p (probe_dist c) ->
  (~ used t p \/ dist t p < probe_dist c) ->
  shape_ok (<[Z.to_nat (p mod cap) := c]> t).
Proof.
  intros S Hc Hpl Hpr Hw. apply write_shape; try done. intros Hu Hd.
  destruct (sh_prev _ S _ Hu Hd) as [Hu' Hd']. replace (p + 1 - 1) with p in * by lia.
  destruct Hw as [Hw|Hw]; [done|]. lia.
Qed.

Lemma put_distinct t p c :
  length t = Z.to_nat cap -> distinct t -> (forall i, key (ent t i) <> key c) -> key c <> 0 ->
  distinct (<[Z.to_nat (p mod cap) := c]> t).
Proof.
  intros Hl Hd Hf Hc i j. unfold used. rewrite !ent_insert by done.
  case_decide as E; case_decide as E'; intros Hu Hk'.
  - congruence.
  - destruct (Hf j). by symmetry.
  - destruct (Hf i). done.
  - by apply Hd.
Qed.

(** *** The steps of [insert] *)

(** [t] plus the entry in hand hold what [x], [v] says. *)
Definition holds_with (t : list MapEntry) (c : MapEntry) (x v : Z) : Prop :=
  holds t x v \/ (key c = x /\ value c = v).

(** The loop may go on from [p] with [c] in hand. *)
Record carrying (t : list MapEntry) (c : MapEntry) (p : Z) : Prop := {
  ca_shape : shape_ok t;
  ca_distinct : distinct t;
  ca_key : key c <> 0;
  ca_placed : placed c p;
  ca_prev : prev_ok t p (probe_dist c);
  ca_fresh i : key (ent t i) <> key c
}.

Lemma holds_put t p c x v :
  length t = Z.to_nat cap -> ~ used t p -> x <> 0 ->
  holds (<[Z.to_nat (p mod cap) := c]> t) x v <-> holds_with t c x v.
Proof.
  intros Hl Hu Hx. unfold holds_with, holds. split.
  - intros (i & Hi). rewrite !ent_insert in Hi by done. case_decide; [by right|left; by exists i].
  - intros [(i & Hi)|Hc].
    + exists i. rewrite !ent_insert by done. case_decide as E; [|done].
      destruct Hu. unfold used. rewrite (ent_cong t p i E). destruct Hi. congruence.
    + exists p. rewrite !ent_insert by done. by rewrite decide_True.
Qed.

Lemma place_ok t c p :
  carrying t c p -> ~ used t p ->
  let t' := <[Z.to_nat (p mod cap) := c]> t in
  shape_ok t' /\ distinct t'
  /\ (forall x v, x <> 0 -> holds t' x v <-> holds_with t c x v)
  /\ (forall i, used t' i <-> used t i \/ p mod cap = i mod cap).
Proof.
  intros [] Hu. pose proof (sh_len _ ca_shape0). split_and!.
  - apply put_shape; auto.
  - by apply put_distinct.
  - intros. by apply holds_put.
  - intros i. unfold used. rewrite ent_insert by done. case_decide; naive_solver.
Qed.

Lemma bump_dist t c p : shape_ok t -> short_runs t -> prev_ok t p (probe_dist c) ->
  0 <= probe_dist c -> u16 (probe_dist c + 1) = probe_dist c + 1.
Proof.
  intros S R Hp H0. pose proof (prev_bound t p _ S R Hp) as Hb. unfold max_run in Hb.
  apply wrap_small. range_lia.
Qed.

Lemma placed_next e p : placed e p -> u16 (probe_dist e + 1) = probe_dist e + 1 ->
  placed (bump e) (p + 1).
Proof.
  intros [H0 He] Hb. split; simpl; rewrite Hb; [lia|].
  rewrite Z.add_assoc. by apply mod_shift.
Qed.

Lemma pass_ok t c p :
  carrying t c p -> short_runs t -> used t p -> probe_dist c <= dist t p ->
  carrying t (bump c) (p + 1).
Proof.
  intros [] R Hu Hd. destruct ca_placed0 as [H0 Hp].
  pose proof (bump_dist t c p ca_shape0 R ca_prev0 H0) as Hb. constructor; try done.
  - by apply placed_next.
  - simpl. rewrite Hb. intros _. replace (p + 1 - 1) with p by lia. split; [done|lia].
Qed.

Lemma swap_ok t c p :
  carrying t c p -> short_runs t -> used t p -> dist t p < probe_dist c ->
  let t' := <[Z.to_nat (p mod cap) := c]> t in
  carrying t' (bump (ent t p)) (p + 1)
  /\ (forall x v, x <> 0 -> holds_with t' (bump (ent t p)) x v <-> holds_with t c x v)
  /\ (forall i, used t' i <-> used t i).
Proof.
  intros [] R Hu Hd t'. pose proof (sh_len _ ca_shape0) as Hl.
  pose proof (sh_placed _ ca_shape0 p Hu) as Hpl. pose proof (proj1 Hpl) as H0.
  pose proof (bump_dist t (ent t p) p ca_shape0 R (sh_prev _ ca_shape0 p Hu) H0) as Hb.
  assert (Hent : forall i, ent t' i = if decide (p mod cap = i mod cap) then c else ent t i)
    by (intros; by apply ent_insert).
  split_and!.
  - constructor; try done.
    + apply put_shape; auto.
    + by apply put_distinct.
    + by apply placed_next.
    + intros _. simpl. rewrite Hb. unfold used, dist. replace (p + 1 - 1) with p by lia.
      rewrite Hent, decide_True by done. split; [done|]. unfold dist in Hd. lia.
    + intros i. simpl. rewrite Hent. case_decide as E.
      * intros Hc. apply (ca_fresh0 p). by symmetry.
      * intros Hc. apply E. symmetry in Hc. by apply ca_distinct0 in Hc.
  - intros x v Hx. unfold holds_with, holds. simpl. split.
    + intros [(i & Hi)|Hi]; [|left; by exists p].
      rewrite !Hent in Hi. case_decide; [by right|left; by exists i].
    + intros [(i & Hi)|Hi].
      * destruct (decide (p mod cap = i mod cap)) as [E|E].
        { right. by rewrite (ent_cong t p i E). }
        left. exists i. by rewrite !Hent, decide_False by done.
      * left. exists p. by rewrite !Hent, decide_True by done.
  - intros i. unfold used. rewrite Hent. case_decide as E; [|done].
    rewrite <- (ent_cong t p i E). done.
Qed.

(** The first free slot at or after a position. *)
Definition first_free (t : list MapEntry) (p n : Z) : Prop :=
  0 <= n < max_run /\ ~ used t (p + n) /\ forall j, 0 <= j < n -> used t (p + j).

Lemma used_dec t i : used t i \/ ~ used t i.
Proof. unfold used. destruct (decide (key (ent t i) = 0)); auto. Qed.

Lemma first_free_exists t p : short_runs t -> exists n, first_free t p n.
Proof.
  intros R. destruct (R p) as (n & Hn & He). destruct (Z_of_nat_complete n) as [m Hm]; [lia|].
  assert (Hleast : forall m', (m' <= S m)%nat ->
    (exists n, 0 <= n < max_run /\ ~ used t (p + n) /\ forall j, 0 <= j < n -> used t (p + j))
    \/ forall j, 0 <= j < Z.of_nat m' -> used t (p + j)).
  { induction m' as [|m' IH]; intros Hle; [right; lia|].
    destruct IH as [?|Hall]; [lia|by left|].
    destruct (used_dec t (p + Z.of_nat m')) as [Hu|Hu].
    - right. intros j Hj. destruct (decide (j = Z.of_nat m')) as [->|]; [done|]. apply Hall. lia.
    - left. exists (Z.of_nat m'). split; [lia|done]. }
  destruct (Hleast (S m) ltac:(lia)) as [?|Hall]; [done|]. destruct He. apply Hall. lia.
Qed.

Lemma first_free_next t p n : first_free t p n -> used t p -> first_free t (p + 1) (n - 1).
Proof.
  intros (Hn & He & Hu) Hp. assert (n <> 0) by (intros ->; by rewrite Z.add_0_r in He).
  split; [lia|]. split; [by replace (p + 1 + (n - 1)) with (p + n) by lia|].
  intros j Hj. replace (p + 1 + j) with (p + (1 + j)) by lia. apply Hu. lia.
Qed.

Lemma first_free_ext t t' p n :
  (forall i, used t' i <-> used t i) -> first_free t p n -> first_free t' p n.
Proof.
  intros He (Hn & Hf & Hu). split; [done|]. split; [by rewrite He|]. intros. apply He. auto.
Qed.

Lemma short_runs_ext t t' : (forall i, used t' i -> used t i) -> short_runs t -> short_runs t'.
Proof. intros He R i. destruct (R i) as (n & Hn & Hf). exists n. eauto. Qed.

(** *** The loops against the table *)

Definition framed (m : OrderMap) : Prop :=
  capacity_ m = cap /\ mask_ m = cap - 1 /\ length (table_ m) = Z.to_nat cap.

Lemma slot_at_mod m q : framed m -> slot_at m q = Z.to_nat (q mod cap).
Proof. intros (_ & Hm & _). unfold slot_at. by rewrite Hm, land_mask by lia. Qed.

Lemma u32_mod q : (u32 q) mod cap = q mod cap.
Proof.
  unfold wrap. apply Z.mod_mod_divide. exists (2 ^ (32 - k)).
  rewrite <- Z.pow_add_r by lia. f_equal. lia.
Qed.

Lemma lookup_slot m q : framed m -> table_ m !! slot_at m (u32 q) = Some (ent (table_ m) q).
Proof.
  intros F. rewrite slot_at_mod, u32_mod by done. apply ent_lookup, F.
Qed.

Lemma set_entry_at m s q e : framed m -> s mod cap = q mod cap ->
  table_ (set_entry m s e) = <[Z.to_nat (q mod cap) := e]> (table_ m) /\ framed (set_entry m s e).
Proof.
  intros F E. unfold set_entry. rewrite slot_at_mod, E by done. split; [done|].
  destruct F as (? & ? & ?). split_and!; simpl; [done..|by rewrite length_insert].
Qed.

Lemma set_entry_table m q e : framed m ->
  table_ (set_entry m (u32 q) e) = <[Z.to_nat (q mod cap) := e]> (table_ m)
  /\ framed (set_entry m (u32 q) e).
Proof. intros F. apply set_entry_at; [done|apply u32_mod]. Qed.

Lemma insert_loop_absent fuel m x v c p n :
  framed m -> carrying (table_ m) c p -> short_runs (table_ m) -> first_free (table_ m) p n ->
  (forall j, 0 <= j <= n -> key (ent (table_ m) (p + j)) <> x) -> n < Z.of_nat fuel ->
  exists m', insert_loop fuel m x v c (u32 p) = Some (true, m') /\ framed m'
    /\ shape_ok (table_ m') /\ distinct (table_ m')
    /\ (forall y w, y <> 0 -> holds (table_ m') y w <-> holds_with (table_ m) c y w)
    /\ (forall i, used (table_ m') i <-> used (table_ m) i \/ (p + n) mod cap = i mod cap)
    /\ size_ m' = (size_ m +32 1).
Proof.
  revert m c p n. induction fuel as [|fuel IH]; intros m c p n F C R Hff Hx Hn.
  { destruct Hff. lia. }
  cbn [insert_loop]. rewrite lookup_slot by done. simpl.
  destruct (Z.eqb_spec (key (ent (table_ m) p)) kEmptyKey) as [He|He].
  - assert (n = 0) as -> by (destruct Hff as (? & _ & Hu); destruct (decide (0 < n)); [|lia];
      specialize (Hu 0 ltac:(lia)); rewrite Z.add_0_r in Hu; done).
    destruct (place_ok _ _ _ C) as (H1 & H2 & H3 & H4); [intros Hc; by apply Hc|].
    destruct (set_entry_table m p c F) as [Ht F']. eexists. split; [done|]. simpl.
    rewrite Z.add_0_r. simpl in Ht. rewrite Ht. split; [exact F'|by split_and!].
  - pose proof (first_free_next _ _ _ Hff He) as Hff'.
    assert (Hnx : key (ent (table_ m) p) <> x)
      by (rewrite <- (Z.add_0_r p); apply Hx; destruct Hff; lia).
    destruct (Z.eqb_spec (key (ent (table_ m) p)) x); [done|]. rewrite wrap_add_l.
    destruct (Z.ltb_spec (probe_dist (ent (table_ m) p)) (probe_dist c)) as [Hlt|Hge].
    + destruct (set_entry_table m p c F) as [Ht F'].
      destruct (swap_ok _ _ _ C R He Hlt) as (C' & Hh & Hu). rewrite <- Ht in C', Hh, Hu.
      destruct (IH (set_entry m (u32 p) c) (bump (ent (table_ m) p)) (p + 1) (n - 1) F' C')
        as (m' & E & F'' & H1 & H2 & H3 & H4 & H5); [| | |lia|].
      * eapply short_runs_ext; [|exact R]. intros. by apply Hu.
      * by eapply first_free_ext.
      * intros j Hj. rewrite Ht, ent_insert by apply F.
        rewrite decide_False; [replace (p + 1 + j) with (p + (1 + j)) by lia; apply Hx; lia|].
        replace (p + 1 + j) with (p + (1 + j)) by lia. apply mod_ne.
        destruct Hff as [? _]. unfold max_run in *. lia.
      * exists m'. rewrite E. split_and!; try done.
        -- intros y w Hy. by rewrite H3, Hh.
        -- intros i. rewrite H4, Hu. by replace (p + 1 + (n - 1)) with (p + n) by lia.
    + destruct (IH m (bump c) (p + 1) (n - 1) F (pass_ok _ _ _ C R He Hge) R Hff')
        as (m' & E & F'' & H1 & H2 & H3 & H4 & H5); [|lia|].
      * intros j Hj. replace (p + 1 + j) with (p + (1 + j)) by lia. apply Hx. lia.
      * exists m'. rewrite E. split_and!; try done.
        intros i. rewrite H4. by replace (p + 1 + (n - 1)) with (p + n) by lia.
Qed.

(** Where a stored key sits, and what the search passes on the way. *)
Definition found_at (t : list MapEntry) (x d : Z) : Prop :=
  0 <= d < max_run /\ key (ent t (hash x + d)) = x /\ dist t (hash x + d) = d
  /\ forall j, 0 <= j < d ->
       used t (hash x + j) /\ j <= dist t (hash x + j) /\ key (ent t (hash x + j)) <> x.

Lemma find_position t x i :
  shape_ok t -> distinct t -> short_runs t -> x <> 0 -> key (ent t i) = x ->
  exists d, found_at t x d /\ ent t (hash x + d) = ent t i.
Proof.
  intros S D R Hx Hi. assert (Hu : used t i) by (unfold used; congruence).
  destruct (sh_placed _ S i Hu) as [H0 Hp]. rewrite Hi in Hp. fold (dist t i) in *.
  pose proof (prev_bound t i _ S R (sh_prev _ S i Hu)) as Hb. set (d := dist t i) in *.
  exists d. pose proof (ent_cong t _ _ Hp) as He. split; [|done]. split; [lia|].
  unfold dist. rewrite He. split; [done|]. split; [done|].
  intros j Hj. assert (Hji : (hash x + j) mod cap = (i - (d - j)) mod cap).
  { replace (hash x + j) with (hash x + d + (j - d)) by lia.
    rewrite (mod_shift _ _ (j - d) Hp). f_equal. lia. }
  destruct (chain_used t i d (d - j) S (sh_prev _ S i Hu) ltac:(lia)) as [Hu' Hd'].
  unfold used, dist in *. rewrite (ent_cong t _ _ Hji). split_and!; [done|lia|].
  intros Hk'. assert (Hm : (i - (d - j)) mod cap = i mod cap) by (apply D; [done|congruence]).
  revert Hm. replace i with (i - (d - j) + (d - j)) at 2 by lia. apply mod_ne.
  unfold max_run in *. lia.
Qed.

Lemma probe_found fuel m x d n :
  framed m -> x <> 0 -> found_at (table_ m) x d -> 0 <= n <= d -> d - n < Z.of_nat fuel ->
  probe fuel m x (u32 (hash x + n)) n = Some (Some (u32 (hash x + d))).
Proof.
  intros F Hx (Hd & Hkey & Hdist & Hwalk). revert n. induction fuel as [|fuel IH]; intros n Hn Hf; [lia|].
  cbn [probe]. rewrite lookup_slot by done. simpl.
  destruct (decide (n = d)) as [->|Hne].
  - rewrite Hkey. unfold dist in Hdist. rewrite Hdist, Z.ltb_irrefl, Z.eqb_refl.
    by destruct (Z.eqb_spec x kEmptyKey).
  - destruct (Hwalk n ltac:(lia)) as (Hu & Hle & Hnx). unfold dist, used in *.
    destruct (Z.eqb_spec (key (ent (table_ m) (hash x + n))) kEmptyKey); [done|].
    destruct (Z.ltb_spec (probe_dist (ent (table_ m) (hash x + n))) n); [lia|]. simpl.
    destruct (Z.eqb_spec (key (ent (table_ m) (hash x + n))) x); [done|].
    rewrite wrap_add_l, (wrap_small 16) by (unfold max_run in *; range_lia).
    rewrite <- Z.add_assoc. apply IH; lia.
Qed.

Lemma probe_absent fuel m x p n dst :
  framed m -> (forall i, key (ent (table_ m) i) <> x) -> first_free (table_ m) p n ->
  n < Z.of_nat fuel -> probe fuel m x (u32 p) dst = Some None.
Proof.
  intros F Hx. revert p n dst. induction fuel as [|fuel IH]; intros p n dst Hff Hn.
  { destruct Hff. lia. }
  cbn [probe]. rewrite lookup_slot by done. simpl.
  destruct (Z.eqb_spec (key (ent (table_ m) p)) kEmptyKey) as [He|He]; [done|].
  destruct (_ <? _); [done|]. simpl. destruct (Z.eqb_spec (key (ent (table_ m) p)) x) as [Hk'|_].
  { by destruct (Hx p). }
  rewrite wrap_add_l. apply (IH (p + 1) (n - 1)); [by apply first_free_next|lia].
Qed.

Lemma insert_loop_present fuel m x v d c n :
  framed m -> x <> 0 -> found_at (table_ m) x d -> 0 <= n <= d -> d - n < Z.of_nat fuel ->
  probe_dist c = n ->
  insert_loop fuel m x v c (u32 (hash x + n)) =
    Some (true, set_entry m (u32 (hash x + d)) (mkEntry x v d)).
Proof.
  intros F Hx (Hd & Hkey & Hdist & Hwalk). revert c n.
  induction fuel as [|fuel IH]; intros c n Hn Hf Hc; [lia|].
  cbn [insert_loop]. rewrite lookup_slot by done. simpl.
  destruct (decide (n = d)) as [->|Hne].
  - rewrite Hkey. unfold dist in Hdist. rewrite Hdist, Z.eqb_refl. by destruct (Z.eqb_spec x kEmptyKey).
  - destruct (Hwalk n ltac:(lia)) as (Hu & Hle & Hnx). unfold dist, used in *.
    destruct (Z.eqb_spec (key (ent (table_ m) (hash x + n))) kEmptyKey); [done|].
    destruct (Z.eqb_spec (key (ent (table_ m) (hash x + n))) x); [done|].
    destruct (Z.ltb_spec (probe_dist (ent (table_ m) (hash x + n))) (probe_dist c)); [lia|].
    rewrite wrap_add_l, <- Z.add_assoc. apply IH; [lia|lia|].
    simpl. rewrite Hc. apply wrap_small. unfold max_run in *. range_lia.
Qed.

(** Overwriting an entry with one of the same key and distance. *)
Lemma update_ok t p e :
  shape_ok t -> distinct t -> used t p -> key e = key (ent t p) -> probe_dist e = dist t p ->
  let t' := <[Z.to_nat (p mod cap) := e]> t in
  shape_ok t' /\ distinct t' /\ (forall i, used t' i <-> used t i)
  /\ (forall y w, y <> 0 -> holds t' y w <-> if decide (y = key e) then w = value e else holds t y w).
Proof.
  intros S D Hp Hke Hde t'. pose proof (sh_len _ S) as Hl.
  assert (Hent : forall i, ent t' i = if decide (p mod cap = i mod cap) then e else ent t i)
    by (intros; by apply ent_insert).
  assert (Hk' : forall i, key (ent t' i) = key (ent t i)).
  { intros i. rewrite Hent. case_decide as E; [|done]. by rewrite Hke, (ent_cong t p i E). }
  assert (Hd' : forall i, dist t' i = dist t i).
  { intros i. unfold dist. rewrite Hent. case_decide as E; [|done]. by rewrite Hde, <- (ent_cong t p i E). }
  assert (Hu' : forall i, used t' i <-> used t i) by (intros i; unfold used; by rewrite Hk').
  split_and!; try done.
  - constructor.
    + unfold t'. by rewrite length_insert.
    + intros i Hi. apply Hu', (sh_placed _ S) in Hi. unfold placed in *.
      fold (dist t' i). by rewrite Hk', Hd'.
    + intros i Hi. apply Hu', (sh_prev _ S) in Hi. unfold prev_ok in *. by rewrite Hu', !Hd'.
  - intros i j Hi Hij. rewrite !Hk' in Hij. apply D; [by apply Hu'|done].
  - intros y w Hy. unfold holds. case_decide as E.
    + split; [|intros ->; exists p; by rewrite Hent, decide_True].
      intros (i & Hi & Hw). rewrite Hent in Hw. rewrite Hk' in Hi. case_decide as Ei; [done|].
      destruct Ei. apply D; [done|congruence].
    + split; intros (i & Hi & Hw); exists i; rewrite ?Hent in *.
      * case_decide; [congruence|done].
      * rewrite decide_False; [done|]. intros Ei. apply E. by rewrite Hke, (ent_cong t p i Ei).
Qed.

(** *** The backward shift: slot [pos] is the one to be vacated *)

Record hole (t : list MapEntry) (pos : Z) : Prop := {
  ho_shape : shape_ok t;
  ho_used : used t pos;
  ho_distinct i j : i mod cap <> pos mod cap -> j mod cap <> pos mod cap -> used t i ->
    key (ent t i) = key (ent t j) -> i mod cap = j mod cap
}.

Definition holds_except (t : list MapEntry) (pos x v : Z) : Prop :=
  exists i, i mod cap <> pos mod cap /\ key (ent t i) = x /\ value (ent t i) = v.

Lemma shift_step t pos :
  hole t pos -> used t (pos + 1) -> 0 < dist t (pos + 1) ->
  let e := ent t (pos + 1) in
  let t' := <[Z.to_nat (pos mod cap) := mkEntry (key e) (value e) (probe_dist e - 1)]> t in
  hole t' (pos + 1) /\ (forall i, used t' i <-> used t i)
  /\ (forall x v, holds_except t' (pos + 1) x v <-> holds_except t pos x v).
Proof.
  intros [S Hu D] Hn Hd e t'. pose proof (sh_len _ S) as Hl. pose proof cap_pos.
  destruct (sh_placed _ S _ Hn) as [H0 Hpl]. destruct (sh_prev _ S _ Hn Hd) as [_ Hpd].
  replace (pos + 1 - 1) with pos in Hpd by lia. fold e in H0, Hpl.
  assert (Hne : pos mod cap <> (pos + 1) mod cap) by (apply mod_ne; lia).
  set (c := mkEntry _ _ _) in t'.
  assert (Hent : forall i, ent t' i = if decide (pos mod cap = i mod cap) then c else ent t i)
    by (intros; by apply ent_insert).
  assert (Hus : forall i, used t' i <-> used t i).
  { intros i. unfold used. rewrite Hent. case_decide as E; [|done].
    rewrite <- (ent_cong t pos i E). done. }
  split_and!; [|done|].
  - constructor; [|by apply Hus|].
    + unfold dist in *. fold e in Hd, Hpd. apply write_shape; try done; unfold dist; fold e; simpl; try lia.
      * split; simpl; [lia|]. apply (mod_shift _ _ (-1)) in Hpl.
        replace (pos + 1 + -1) with pos in Hpl by lia. rewrite <- Hpl. f_equal. lia.
      * intros Hd2. destruct (sh_prev _ S pos Hu) as [Hu' Hd']; unfold dist in *; [lia|].
        split; [done|lia].
    + intros i j Hi Hj. rewrite Hus. unfold used. rewrite !Hent.
      case_decide as Ei; case_decide as Ej; intros Hui Hk'; try congruence.
      * destruct Hj. symmetry. apply D; [congruence|congruence|done|done].
      * destruct Hi. apply D; [congruence|congruence|done|done].
      * apply D; congruence.
  - intros x v. unfold holds_except. split; intros (i & Hi & Hk' & Hv).
    + rewrite Hent in Hk', Hv. case_decide as E.
      * exists (pos + 1). split; [congruence|done].
      * exists i. split; [congruence|done].
    + destruct (decide (i mod cap = (pos + 1) mod cap)) as [E|E].
      * exists pos. rewrite Hent, decide_True by done. split; [done|].
        simpl. unfold e. rewrite <- (ent_cong t _ _ E). done.
      * exists i. rewrite Hent, decide_False by congruence. done.
Qed.

Lemma shift_end t pos :
  hole t pos -> (~ used t (pos + 1) \/ dist t (pos + 1) = 0) ->
  let t' := <[Z.to_nat (pos mod cap) := entry0]> t in
  shape_ok t' /\ distinct t' /\ (forall i, used t' i -> used t i)
  /\ (forall x v, x <> 0 -> holds t' x v <-> holds_except t pos x v).
Proof.
  intros [S Hu D] Hend t'. pose proof (sh_len _ S) as Hl. pose proof cap_pos.
  assert (Hent : forall i, ent t' i = if decide (pos mod cap = i mod cap) then entry0 else ent t i)
    by (intros; by apply ent_insert).
  split_and!.
  - constructor; [unfold t'; by rewrite length_insert|..]; intros i; unfold prev_ok, used, dist; rewrite !Hent;
      case_decide as E; try done; [apply S|]. intros Hui Hd. case_decide as E'; [|by apply (sh_prev _ S i)].
    exfalso. assert (Ei : (pos + 1) mod cap = i mod cap).
    { rewrite (mod_shift pos (i - 1) 1 E'). f_equal. lia. }
    unfold used, dist in Hend. rewrite (ent_cong t _ _ Ei) in Hend. destruct Hend; [done|lia].
  - intros i j. unfold used. rewrite !Hent. case_decide; [done|]. case_decide.
    + intros Hi E. by rewrite E in Hi.
    + intros Hi E. apply D; congruence.
  - intros i. unfold used. rewrite Hent. by case_decide.
  - intros x v Hx. unfold holds, holds_except. split.
    + intros (i & Hi & Hv). rewrite Hent in Hi, Hv. case_decide; [simpl in Hi; unfold kEmptyKey in *; congruence|].
      exists i. split; [congruence|done].
    + intros (i & Hne & Hi). exists i. by rewrite Hent, decide_False by congruence.
Qed.

Lemma shift_back_ok fuel m s pos n :
  framed m -> s mod cap = pos mod cap -> hole (table_ m) pos -> short_runs (table_ m) -> first_free (table_ m) pos n ->
  n <= Z.of_nat fuel ->
  exists m', shift_back fuel m s = Some m' /\ framed m' /\ size_ m' = size_ m
    /\ shape_ok (table_ m') /\ distinct (table_ m')
    /\ (forall i, used (table_ m') i -> used (table_ m) i)
    /\ (forall x v, x <> 0 -> holds (table_ m') x v <-> holds_except (table_ m) pos x v).
Proof.
  revert m s pos n. induction fuel as [|fuel IH]; intros m s pos n F Es Ho R Hff Hn.
  all: pose proof (first_free_next _ _ _ Hff (ho_used _ _ Ho)) as Hff'.
  { destruct Hff' as [? _]. lia. }
  cbn [shift_back].
  assert (Hnx : Z.land (u32 (s + 1)) (mask_ m) = (pos + 1) mod cap).
  { destruct F as (_ & -> & _). rewrite land_mask, u32_mod by lia. by apply mod_shift. }
  rewrite Hnx, ent_lookup by apply F. simpl.
  destruct (set_entry_at m s pos entry0 F Es) as [Ht0 F0].
  assert (Hcase : (~ used (table_ m) (pos + 1) \/ dist (table_ m) (pos + 1) = 0)
    \/ (used (table_ m) (pos + 1) /\ 0 < dist (table_ m) (pos + 1))).
  { destruct (used_dec (table_ m) (pos + 1)) as [Hu|Hu]; [|by left; left].
    destruct (sh_placed _ (ho_shape _ _ Ho) _ Hu) as [Hd _]. fold (dist (table_ m) (pos + 1)) in Hd.
    destruct (decide (dist (table_ m) (pos + 1) = 0)); [by left; right|right; split; [done|lia]]. }
  destruct Hcase as [Hend|[Hu Hd]].
  - assert ((key (ent (table_ m) (pos + 1)) =? kEmptyKey)
            || (probe_dist (ent (table_ m) (pos + 1)) =? 0) = true) as ->.
    { apply orb_true_iff. rewrite !Z.eqb_eq. destruct Hend as [Hu|Hd]; [left|by right].
      destruct (decide (key (ent (table_ m) (pos + 1)) = 0)); [done|]. by destruct Hu. }
    destruct (shift_end _ _ Ho Hend) as (H1 & H2 & H3 & H4). rewrite <- Ht0 in H1, H2, H3, H4.
    eexists. split; [done|]. by split_and!.
  - unfold used, dist in Hu, Hd.
    destruct (Z.eqb_spec (key (ent (table_ m) (pos + 1))) kEmptyKey); [done|].
    destruct (Z.eqb_spec (probe_dist (ent (table_ m) (pos + 1))) 0); [lia|]. simpl.
    pose proof (prev_bound _ _ _ (ho_shape _ _ Ho) R (sh_prev _ (ho_shape _ _ Ho) _ Hu)) as Hb.
    unfold dist in Hb. rewrite (wrap_small 16) by (unfold max_run in *; range_lia).
    set (c := mkEntry _ _ _). destruct (set_entry_at m s pos c F Es) as [Ht F'].
    destruct (shift_step _ _ Ho Hu Hd) as (Ho' & Hus & Hh). fold c in Ho', Hus, Hh.
    rewrite <- Ht in Ho', Hus, Hh.
    destruct (IH (set_entry m s c) ((pos + 1) mod cap) (pos + 1) (n - 1) F')
      as (m' & E & F'' & Hsz & H1 & H2 & H3 & H4); [|done| | |lia|].
    + pose proof cap_pos. by rewrite Z.mod_mod by lia.
    + eapply short_runs_ext; [|exact R]. intros. by apply Hus.
    + by eapply first_free_ext.
    + exists m'. split; [exact E|]. split_and!; try done.
      * intros i Hi. by apply Hus, H3.
      * intros x v Hx. by rewrite H4, Hh.
Qed.

End Table.

(** ** The table implements the interface *)

(** Enough fuel for every loop: one step per slot, and one more. *)
Definition map_fuel (m : OrderMap) : nat := S (Z.to_nat (capacity_ m)).

(** Table [m] stores exactly the bindings of [g]. *)
Record stores (k : Z) (m : OrderMap) (g : gmap Z Z) : Prop := {
  st_k : 1 <= k <= 32;
  st_frame : framed k m;
  st_shape : shape_ok k (hash_slot (2 ^ k)) (table_ m);
  st_distinct : distinct k (table_ m);
  st_runs : short_runs k (table_ m);
  st_holds x v : x <> 0 -> g !! x = Some v <-> holds k (table_ m) x v;
  st_zero : g !! 0 = None;
  st_size : size_ m = u32 (Z.of_nat (size g))
}.

(** Taking the first free slot on the probe path of [x] leaves a free slot in
    every window of [max_run] slots. *)
Definition has_room (k : Z) (m : OrderMap) (x : Z) : Prop :=
  forall n, first_free k (table_ m) (hash_slot (2 ^ k) x) n ->
  forall i, exists j, 0 <= j < max_run k /\ ~ used k (table_ m) (i + j)
    /\ (hash_slot (2 ^ k) x + n) mod 2 ^ k <> (i + j) mod 2 ^ k.

Section Laws.
Variables (k : Z) (m : OrderMap) (g : gmap Z Z).
Hypothesis (S : stores k m g).
Abbreviation h := (hash_slot (2 ^ k)).

Lemma fuel_enough n : n < max_run k -> n < Z.of_nat (map_fuel m).
Proof.
  intros Hn. unfold map_fuel, max_run in *. pose proof (st_k _ _ _ S).
  destruct (st_frame _ _ _ S) as (-> & _ & _).
  pose proof (Z.pow_pos_nonneg 2 k ltac:(lia) ltac:(lia)). lia.
Qed.

Lemma hash_u32 x : u32 (h x + 0) = hash_slot (capacity_ m) x.
Proof.
  destruct (st_frame _ _ _ S) as (-> & _ & _). rewrite Z.add_0_r. apply wrap_wrap.
Qed.

Lemma absent_key x : x <> 0 -> g !! x = None -> forall i, key (ent k (table_ m) i) <> x.
Proof.
  intros Hx Hg i Hi. assert (Hh : holds k (table_ m) x (value (ent k (table_ m) i))) by (by exists i).
  apply (st_holds _ _ _ S) in Hh; [|done]. congruence.
Qed.

Lemma present_at x v : x <> 0 -> g !! x = Some v ->
  exists d, found_at k h (table_ m) x d /\ value (ent k (table_ m) (h x + d)) = v.
Proof.
  intros Hx Hg. apply (st_holds _ _ _ S) in Hg as (i & Hi & Hv); [|done].
  destruct (find_position k (st_k _ _ _ S) h (table_ m) x i) as (d & Hd & He); try apply S; try done.
  exists d. by rewrite He.
Qed.

Ltac law_side :=
  first [done | lia | by apply S | by apply absent_key | by apply fuel_enough; lia].

Lemma find_law x : x <> 0 -> find (map_fuel m) m x = Some (default kMapEmpty (g !! x)).
Proof.
  intros Hx. unfold find. rewrite <- hash_u32. destruct (g !! x) as [v|] eqn:Hg.
  - destruct (present_at x v Hx Hg) as (d & Hd & Hv). pose proof Hd as (Hdm & _).
    rewrite (probe_found k (st_k _ _ _ S) h _ m x d 0) by law_side.
    simpl. rewrite (lookup_slot k (st_k _ _ _ S)) by apply S. simpl. by rewrite Hv.
  - destruct (first_free_exists k (table_ m) (h x + 0) (st_runs _ _ _ S)) as (n & Hn).
    pose proof Hn as (Hn1 & _).
    rewrite (probe_absent k (st_k _ _ _ S) _ m x (h x + 0) n) by
      law_side. done.
Qed.

Lemma insert_law x v : x <> 0 -> has_room k m x ->
  exists m', insert (map_fuel m) m x v = Some (true, m') /\ stores k m' (<[x := v]> g).
Proof.
  intros Hx Hroom. unfold insert. rewrite <- hash_u32. pose proof (st_k _ _ _ S) as Hk.
  destruct (g !! x) as [v0|] eqn:Hg.
  - destruct (present_at x v0 Hx Hg) as (d & Hd & Hv). pose proof Hd as (Hdm & Hkey & Hdist & _).
    rewrite (insert_loop_present k Hk h _ m x v d) by
      law_side.
    eexists. split; [done|]. destruct (set_entry_table k Hk m (h x + d) (mkEntry x v d) (st_frame _ _ _ S)) as [Ht F].
    destruct (update_ok k Hk h (table_ m) (h x + d) (mkEntry x v d)) as (H1 & H2 & H3 & H4); try apply S; try done.
    { unfold used. by rewrite Hkey. }
    constructor; rewrite ?Ht; try done.
    + eapply short_runs_ext; [|apply S]. intros. by apply H3.
    + intros y w Hy. rewrite H4 by done. simpl. case_decide as E.
      * subst y. rewrite lookup_insert_eq. naive_solver.
      * rewrite lookup_insert_ne by done. by apply S.
    + rewrite lookup_insert_ne by done. apply S.
    + simpl. rewrite (st_size _ _ _ S). f_equal. f_equal. symmetry. apply map_size_insert_Some. by exists v0.
  - destruct (first_free_exists k (table_ m) (h x + 0) (st_runs _ _ _ S)) as (n & Hn).
    pose proof Hn as (Hn1 & _). pose proof (absent_key x Hx Hg) as Hab.
    destruct (insert_loop_absent k Hk h (map_fuel m) m x v (mkEntry x v 0) (h x + 0) n)
      as (m' & E & F & H1 & H2 & H3 & H4 & H5); try apply S; try done.
    { constructor; simpl; try done; apply S. }
    { apply fuel_enough. lia. }
    exists m'. split; [done|]. constructor; try done.
    + intros i. rewrite !Z.add_0_r in *. destruct (Hroom n Hn i) as (j & Hj & Hu & Hne).
      exists j. split; [done|]. rewrite H4. intros [?|?]; done.
    + intros y w Hy. rewrite H3 by done. unfold holds_with. simpl.
      destruct (decide (x = y)) as [<-|Hne].
      * rewrite lookup_insert_eq. split; [naive_solver|]. intros [Hh|[_ ?]]; [|congruence].
        destruct Hh as (i & Hi & _). by destruct (Hab i).
      * rewrite lookup_insert_ne by done. rewrite (st_holds _ _ _ S) by done. naive_solver.
    + rewrite lookup_insert_ne by done. apply S.
    + rewrite H5, (st_size _ _ _ S), map_size_insert_None, wrap_add_l by done. f_equal. lia.
Qed.

Lemma erase_law x : x <> 0 ->
  exists m', erase (map_fuel m) m x = Some (bool_decide (is_Some (g !! x)), m')
    /\ stores k m' (delete x g).
Proof.
  intros Hx. unfold erase. rewrite <- hash_u32. pose proof (st_k _ _ _ S) as Hk.
  destruct (g !! x) as [v0|] eqn:Hg.
  - destruct (present_at x v0 Hx Hg) as (d & Hd & Hv). pose proof Hd as (Hdm & Hkey & Hdist & _).
    rewrite (probe_found k Hk h _ m x d 0) by law_side.
    cbn [mbind option_bind]. destruct (first_free_exists k (table_ m) (h x + d) (st_runs _ _ _ S)) as (n & Hn).
    pose proof Hn as (Hn1 & _). assert (Hu : used k (table_ m) (h x + d)) by (unfold used; by rewrite Hkey).
    destruct (shift_back_ok k Hk h (map_fuel m) m (u32 (h x + d)) (h x + d) n)
      as (m' & E & F & Hsz & H1 & H2 & H3 & H4); [apply S|by apply u32_mod| |apply S|done| |].
    { constructor; [apply S|done|]. intros i j _ _. apply S. }
    { pose proof (fuel_enough n). lia. }
    rewrite E. simpl. eexists. split; [done|]. constructor; simpl; try done.
    + eapply short_runs_ext; [|apply S]. done.
    + intros y w Hy. rewrite H4 by done. destruct (decide (x = y)) as [<-|Hne].
      * rewrite lookup_delete_eq. split; [done|]. intros (i & Hi & Hki & _). destruct Hi.
        apply (st_distinct _ _ _ S); [unfold used; by rewrite Hki|by rewrite Hki].
      * rewrite lookup_delete_ne, (st_holds _ _ _ S) by done. unfold holds, holds_except. split.
        -- intros (i & Hi & Hw). exists i. split; [|done]. intros Ei.
           rewrite (ent_cong k _ _ _ Ei) in Hi. congruence.
        -- intros (i & _ & Hi). by exists i.
    + rewrite lookup_delete_ne by done. apply S.
    + rewrite Hsz, (st_size _ _ _ S), map_size_delete_Some, wrap_sub_l by (by exists v0).
      f_equal. assert (size g <> 0%nat); [|lia]. intros H0%map_size_empty_inv. by rewrite H0 in Hg.
  - destruct (first_free_exists k (table_ m) (h x + 0) (st_runs _ _ _ S)) as (n & Hn).
    pose proof Hn as (Hn1 & _).
    rewrite (probe_absent k Hk _ m x (h x + 0) n) by
      law_side.
    simpl. exists m. split; [done|]. by rewrite delete_id.
Qed.

End Laws.

Lemma empty_stores k m :
  1 <= k <= 32 -> framed k m -> table_ m = replicate (Z.to_nat (2 ^ k)) entry0 -> size_ m = 0 ->
  stores k m ∅.
Proof.
  intros Hk F Ht Hs. assert (He : forall i, ent k (table_ m) i = entry0).
  { intros i. unfold ent. rewrite Ht. destruct (_ !! _) as [e|] eqn:E; [|done].
    by apply lookup_replicate in E as [-> _]. }
  assert (Hu : forall i, ~ used k (table_ m) i) by (intros i Hi; apply Hi; by rewrite He).
  pose proof (cap_pos k Hk). constructor; try done.
  - constructor; [apply F|..]; intros i Hi; by destruct (Hu i).
  - intros i j Hi. by destruct (Hu i).
  - intros i. exists 0. unfold max_run. split; [lia|apply Hu].
  - intros x v Hx. rewrite lookup_empty. split; [done|]. intros (i & Hi & _). by rewrite He in Hi.
Qed.

Lemma new_map_stores k : 1 <= k <= 32 -> stores k (new_map (2 ^ k)) ∅.
Proof.
  intros Hk. apply empty_stores; try done. split; [done|]. simpl. split; [|by rewrite length_replicate].
  pose proof (cap_pos k Hk). pose proof (Z.pow_le_mono_r 2 k 32 ltac:(lia) ltac:(lia)).
  apply wrap_small. unfold in_range. lia.
Qed.

Lemma reset_stores k m g : stores k m g -> stores k (reset m) ∅.
Proof.
  intros S. destruct (st_frame _ _ _ S) as (Hc & Hm & Hl).
  apply empty_stores; [apply S| |simpl; by rewrite Hc|done].
  split; [done|]. split; [done|]. simpl. by rewrite length_replicate, Hc.
Qed.

#[export] Instance order_map_ops : MapOps OrderMap := {
  map_insert m := insert (map_fuel m) m;
  map_find m := find (map_fuel m) m;
  map_erase m := erase (map_fuel m) m;
  map_reset := reset;
  map_rep m g := exists k, stores k m g;
  map_room m x := forall k, capacity_ m = 2 ^ k -> has_room k m x
}.

#[export] Instance order_map_laws : MapLaws OrderMap.
Proof.
  split; simpl.
  - intros m g x (k & S) Hx. by apply (find_law k m g S).
  - intros m g x v (k & S) Hx Hr. destruct (insert_law k m g S x v Hx) as (m' & ? & ?).
    { apply Hr, S. }
    exists m'. split; [done|]. by exists k.
  - intros m g x (k & S) Hx. destruct (erase_law k m g S x Hx) as (m' & ? & ?).
    exists m'. split; [done|]. by exists k.
  - intros m g (k & S). exists k. by eapply reset_stores.
Qed.

(** Two free slots are room enough in a table of at most 65535 slots. *)
Lemma room_small m k x a b :
  1 <= k <= 32 -> capacity_ m = 2 ^ k -> 2 ^ k <= 65535 ->
  ~ used k (table_ m) a -> ~ used k (table_ m) b -> a mod 2 ^ k <> b mod 2 ^ k ->
  map_room m x.
Proof.
  intros Hk Hc Hle Ha Hb Hab k' Hk' n _ i.
  assert (k' = k) as ->.
  { rewrite Hc in Hk'. destruct (decide (0 <= k')); [by apply (Z.pow_inj_r 2) in Hk'; [|lia..]|].
    rewrite (Z.pow_neg_r 2 k') in Hk' by lia. pose proof (cap_pos k Hk). lia. }
  pose proof (cap_pos k Hk).
  assert (Hone : forall c, ~ used k (table_ m) c -> (hash_slot (2 ^ k) x + n) mod 2 ^ k <> c mod 2 ^ k ->
    exists j, 0 <= j < max_run k /\ ~ used k (table_ m) (i + j)
      /\ (hash_slot (2 ^ k) x + n) mod 2 ^ k <> (i + j) mod 2 ^ k).
  { intros c Hu Hne. exists ((c - i) mod 2 ^ k). pose proof (Z.mod_pos_bound (c - i) (2 ^ k) ltac:(lia)).
    assert (E : (i + (c - i) mod 2 ^ k) mod 2 ^ k = c mod 2 ^ k).
    { rewrite Zplus_mod_idemp_r. f_equal. lia. }
    rewrite E. unfold used in *. rewrite (ent_cong k _ _ _ E). unfold max_run. split; [lia|done]. }
  destruct (decide ((hash_slot (2 ^ k) x + n) mod 2 ^ k = a mod 2 ^ k)); [apply (Hone b)|apply (Hone a)];
    try done; congruence.
Qed.

(** ** Properties *)

(** Sequences of operations on a map, with what each returns. *)
Inductive MapOp := OpInsert (x v : Z) | OpFind (x : Z) | OpErase (x : Z).
Inductive MapRes := RInsert (ok : bool) | RFind (v : Z) | RErase (ok : bool).

Definition op_key (o : MapOp) : Z := match o with OpInsert x _ | OpFind x | OpErase x => x end.

Definition apply_op (m : OrderMap) (o : MapOp) : option (MapRes * OrderMap) :=
  match o with
  | OpInsert x v => '(b, m') ← insert (map_fuel m) m x v; Some (RInsert b, m')
  | OpFind x => r ← find (map_fuel m) m x; Some (RFind r, m)
  | OpErase x => '(b, m') ← erase (map_fuel m) m x; Some (RErase b, m')
  end.

Fixpoint apply_ops (m : OrderMap) (l : list MapOp) : option (list MapRes * OrderMap) :=
  match l with
  | [] => Some ([], m)
  | o :: l' => '(r, m1) ← apply_op m o; '(rs, m2) ← apply_ops m1 l'; Some (r :: rs, m2)
  end.

(** The reference: a finite map. *)
Definition spec_op (g : gmap Z Z) (o : MapOp) : MapRes * gmap Z Z :=
  match o with
  | OpInsert x v => (RInsert true, <[x := v]> g)
  | OpFind x => (RFind (default kMapEmpty (g !! x)), g)
  | OpErase x => (RErase (bool_decide (is_Some (g !! x))), delete x g)
  end.

Fixpoint spec_ops (g : gmap Z Z) (l : list MapOp) : list MapRes * gmap Z Z :=
  match l with
  | [] => ([], g)
  | o :: l' => let '(r, g1) := spec_op g o in let '(rs, g2) := spec_ops g1 l' in (r :: rs, g2)
  end.

(** No insertion of the run fills the last free slot of a window. *)
Fixpoint roomy (m : OrderMap) (l : list MapOp) : Prop :=
  match l with
  | [] => True
  | o :: l' =>
      match o with OpInsert x _ => map_room m x | _ => True end
      /\ forall r m1, apply_op m o = Some (r, m1) -> roomy m1 l'
  end.

Lemma apply_op_refines k m g o :
  stores k m g -> op_key o <> 0 -> match o with OpInsert x _ => map_room m x | _ => True end ->
  exists m', apply_op m o = Some ((spec_op g o).1, m') /\ stores k m' (spec_op g o).2.
Proof.
  intros S Hx Hr. destruct o as [x v|x|x]; simpl in *.
  - destruct (insert_law k m g S x v Hx) as (m' & -> & ?); [apply Hr, S|]. by exists m'.
  - rewrite (find_law k m g S x Hx). by exists m.
  - destruct (erase_law k m g S x Hx) as (m' & -> & ?). by exists m'.
Qed.

Lemma apply_ops_refines k l : forall m g,
  stores k m g -> Forall (fun o => op_key o <> 0) l -> roomy m l ->
  exists m', apply_ops m l = Some ((spec_ops g l).1, m') /\ stores k m' (spec_ops g l).2.
Proof.
  induction l as [|o l IH]; intros m g S Hall Hr; [by exists m|].
  inversion_clear Hall as [|?? Ho Hl]. destruct Hr as [Hr Hrs]. cbn [apply_ops spec_ops].
  destruct (apply_op_refines k m g o S Ho Hr) as (m1 & E & S1). rewrite E.
  destruct (spec_op g o) as [r g1]. destruct (IH m1 g1 S1 Hl (Hrs _ _ E)) as (m2 & E2 & S2).
  simpl. rewrite E2. destruct (spec_ops g1 l) as [rs g2]. by exists m2.
Qed.

(** C5: on a fresh table of any power-of-two capacity, every sequence of
    insertions, lookups and erasures of non-zero order references terminates
    and returns what a finite map returns, as long as no insertion takes the
    last free slot of a window of 65535 slots; swaps on insertion and
    backward shifts on erasure lose and duplicate nothing. *)
Theorem order_map_refines_finite_map k l :
  1 <= k <= 32 -> Forall (fun o => op_key o <> 0) l -> roomy (new_map (2 ^ k)) l ->
  exists m, apply_ops (new_map (2 ^ k)) l = Some ((spec_ops ∅ l).1, m)
    /\ map_rep m (spec_ops ∅ l).2 /\ size_ m = u32 (Z.of_nat (size (spec_ops ∅ l).2)).
Proof.
  intros Hk Hall Hr. destruct (apply_ops_refines k l _ ∅ (new_map_stores k Hk) Hall Hr) as (m & E & S).
  exists m. split; [done|]. split; [by exists k|apply S].
Qed.

Definition sample_ops : list MapOp :=
  [OpInsert 7 1; OpInsert 8 2; OpInsert 7 3; OpFind 7; OpErase 8; OpFind 8; OpErase 9].

Lemma sample_roomy : roomy (new_map (2 ^ 3)) sample_ops.
Proof.
  cbn [roomy sample_ops].
  repeat first
    [ exact I
    | match goal with |- _ /\ _ => split end
    | match goal with |- map_room ?m _ =>
        apply (room_small m 3 _ 3 4); [lia|reflexivity|lia| | |discriminate];
        let H := fresh in intros H; apply H; vm_compute; reflexivity end
    | let r := fresh "r" in let m := fresh "m" in let E := fresh "E" in
      intros r m E; vm_compute in E; injection E as <- <- ].
Qed.

Lemma order_map_refines_finite_map_witness :
  exists m, apply_ops (new_map (2 ^ 3)) sample_ops =
    Some ([RInsert true; RInsert true; RInsert true; RFind 3; RErase true; RFind kMapEmpty;
           RErase false], m).
Proof.
  destruct (order_map_refines_finite_map 3 sample_ops) as (m & E & _).
  - lia.
  - repeat constructor; discriminate.
  - exact sample_roomy.
  - exists m. exact E.
Defined.
