(* ===== verification/Level2Book.v ===== *)
(** * Level 2 order book: data and operations

    [PriceLevel] of [include/orderbook/price_level.hpp] and [Level2Book] of
    [include/orderbook/level2_book.hpp] and [src/orderbook/level2_book.cpp].
    A book shares the order pool, the order map and the drop and in-place
    counters of its shard with the other books of the shard, so these are a
    record of their own ([ShardMem]) that every operation takes and returns.
    An operation is [None] on an access outside an array or when a loop of the
    order map does not end.  Orders and levels are reached through indices, as
    in the source, so an assignment through a reference is an update of the
    pool or of the level array. *)

From S2P Require Import Prelude Types OrderPool OrderMap.

(** ** Data *)

Record PriceLevel := mkLevel {
  level_price : Z;
  total_qty : Z;
  order_count : Z;
  head_order_idx : Z;
  tail_order_idx : Z;
  pad : bytes
}.

(** A level after [memset] to zero and the two assignments that follow it. *)
Definition blank_level (p : Z) : PriceLevel :=
  mkLevel p 0 0 kInvalidIdx kInvalidIdx (replicate 40 0).

(** [enum class TradingStatus : uint8_t]; [static_cast] accepts every byte. *)
Inductive TradingStatus := Unknown | Halted | Paused | Quotation | Trading | OtherStatus (c : Z).

Definition TradingStatus_of_byte (c : Z) : TradingStatus :=
  if c =? 0 then Unknown else if c =? 72 then Halted else if c =? 80 then Paused
  else if c =? 81 then Quotation else if c =? 84 then Trading else OtherStatus c.

Record BboSnapshot := mkBbo {
  bbo_locate : Z;
  bid_price : Z;
  bid_qty : Z;
  ask_price : Z;
  ask_qty : Z;
  bbo_ts : Z
}.

(** [drop_ctr_] and [inplace_ctr_] are pointers to counters of the shard:
    here, whether they are set. *)
Record Level2Book := mkBook {
  locate_ : Z;
  status_ : TradingStatus;
  bid_levels_ : list PriceLevel;
  ask_levels_ : list PriceLevel;
  bid_count_ : Z;
  ask_count_ : Z;
  drop_ctr_ : bool;
  inplace_ctr_ : bool
}.

Record ShardMem (M : Type) := mkMem {
  pool : OrderPool;
  order_map_ : M;
  price_level_drops : Z;
  order_replaces_inplace : Z
}.

Arguments mkMem {M}.
Arguments pool {M}.
Arguments order_map_ {M}.
Arguments price_level_drops {M}.
Arguments order_replaces_inplace {M}.

Definition blank_levels : list PriceLevel :=
  replicate (Z.to_nat MAX_PRICE_LEVELS) (blank_level 0).

(** ** Construction, reset, queries *)

Definition new_book (loc : Z) : Level2Book :=
  mkBook loc Halted blank_levels blank_levels 0 0 false false.

Definition clear (b : Level2Book) : Level2Book :=
  mkBook (locate_ b) Halted blank_levels blank_levels 0 0 (drop_ctr_ b) (inplace_ctr_ b).

Definition set_ctrs (b : Level2Book) : Level2Book :=
  mkBook (locate_ b) (status_ b) (bid_levels_ b) (ask_levels_ b) (bid_count_ b) (ask_count_ b)
    true true.

Definition on_trading_action (b : Level2Book) (trading_state : Z) : Level2Book :=
  mkBook (locate_ b) (TradingStatus_of_byte trading_state) (bid_levels_ b) (ask_levels_ b)
    (bid_count_ b) (ask_count_ b) (drop_ctr_ b) (inplace_ctr_ b).

Definition get_bbo (b : Level2Book) : option BboSnapshot :=
  bid ← (if 0 <? bid_count_ b then l ← bid_levels_ b !! 0%nat; Some (level_price l, total_qty l)
         else Some (0, 0));
  ask ← (if 0 <? ask_count_ b then l ← ask_levels_ b !! 0%nat; Some (level_price l, total_qty l)
         else Some (0, 0));
  Some (mkBbo (locate_ b) bid.1 bid.2 ask.1 ask.2 0).

(** The depth accessors return [uint8_t]. *)
Definition bid_depth (b : Level2Book) : Z := u8 (bid_count_ b).
Definition ask_depth (b : Level2Book) : Z := u8 (ask_count_ b).
Definition is_full (b : Level2Book) : bool :=
  (bid_count_ b >=? MAX_PRICE_LEVELS) || (ask_count_ b >=? MAX_PRICE_LEVELS).

(** The conditional expressions that select the array and the count of a
    side, and an assignment through them. *)
Definition levels_of (b : Level2Book) (buy : bool) : list PriceLevel :=
  if buy then bid_levels_ b else ask_levels_ b.
Definition count_of (b : Level2Book) (buy : bool) : Z :=
  if buy then bid_count_ b else ask_count_ b.
Definition set_side (b : Level2Book) (buy : bool) (ls : list PriceLevel) (c : Z) : Level2Book :=
  if buy then mkBook (locate_ b) (status_ b) ls (ask_levels_ b) c (ask_count_ b) (drop_ctr_ b)
                (inplace_ctr_ b)
  else mkBook (locate_ b) (status_ b) (bid_levels_ b) ls (bid_count_ b) c (drop_ctr_ b)
         (inplace_ctr_ b).

(** ** Level arrays *)

(** The scan of [find_level]; [i] counts up along the array. *)
Fixpoint find_level_from (ls : list PriceLevel) (i count p : Z) : Z :=
  match ls with
  | l :: ls' =>
      if i <? count then if level_price l =? p then i else find_level_from ls' (i + 1) count p
      else count
  | [] => count
  end.

Definition find_level (ls : list PriceLevel) (count p : Z) : Z := find_level_from ls 0 count p.

(** [levels[pos].price > price] for bids, [<] for asks. *)
Definition goes_before (buy : bool) (p q : Z) : bool := if buy then q <? p else p <? q.

Fixpoint level_pos_from (buy : bool) (ls : list PriceLevel) (pos count p : Z) : Z :=
  match ls with
  | l :: ls' =>
      if (pos <? count) && goes_before buy (level_price l) p
      then level_pos_from buy ls' (pos + 1) count p else pos
  | [] => pos
  end.

(** [memmove(&levels[dst], &levels[src], n * sizeof(PriceLevel))]. *)
Definition memmove (ls : list PriceLevel) (dst src n : nat) : option (list PriceLevel) :=
  if decide (dst + n <= length ls /\ src + n <= length ls)%nat
  then Some (take dst ls ++ take n (drop src ls) ++ drop (dst + n) ls)
  else None.

(** A store to [levels[i]]; [None] outside the array. *)
Definition store {A} (l : list A) (i : Z) (x : A) : option (list A) :=
  if decide (0 <= i < Z.of_nat (length l)) then Some (<[Z.to_nat i := x]> l) else None.

(** [insert_level]: the new array, the new count and the index of the new
    level; [MAX_PRICE_LEVELS] as index when the side is full. *)
Definition insert_level (buy : bool) (ls : list PriceLevel) (count p : Z)
    : option (list PriceLevel * Z * Z) :=
  if count >=? MAX_PRICE_LEVELS then Some (ls, count, MAX_PRICE_LEVELS)
  else
    let pos := level_pos_from buy ls 0 count p in
    ls1 ← (if pos <? count
           then memmove ls (Z.to_nat (pos + 1)) (Z.to_nat pos) (Z.to_nat (count - pos))
           else Some ls);
    ls2 ← store ls1 pos (blank_level p);
    Some (ls2, u16 (count + 1), pos).

Definition remove_level (ls : list PriceLevel) (count idx : Z) : option (list PriceLevel * Z) :=
  ls1 ← (if idx + 1 <? count
         then memmove ls (Z.to_nat idx) (Z.to_nat (idx + 1)) (Z.to_nat (count - idx - 1))
         else Some ls);
  ls2 ← store ls1 (count - 1) (blank_level 0);
  Some (ls2, u16 (count - 1)).

(** ** The doubly linked list of a level *)

Definition set_next (o : Order) (n : Z) : Order := set_links o (prev_idx o) n.
Definition set_prev (o : Order) (n : Z) : Order := set_links o n (next_idx o).

Definition link_order_tail (p : OrderPool) (lvl : PriceLevel) (idx : Z)
    : option (OrderPool * PriceLevel) :=
  o ← pool_at p idx;
  let p1 := set_order p idx (set_links o (tail_order_idx lvl) kInvalidIdx) in
  '(p2, head) ←
    (if negb (tail_order_idx lvl =? kInvalidIdx) then
       t ← pool_at p1 (tail_order_idx lvl);
       Some (set_order p1 (tail_order_idx lvl) (set_next t idx), head_order_idx lvl)
     else Some (p1, idx));
  Some (p2, mkLevel (level_price lvl) (total_qty lvl +32 qty o) (order_count lvl +32 1) head idx
              (pad lvl)).

Definition unlink_order (p : OrderPool) (lvl : PriceLevel) (idx : Z)
    : option (OrderPool * PriceLevel) :=
  o ← pool_at p idx;
  '(p1, head) ←
    (if negb (prev_idx o =? kInvalidIdx) then
       a ← pool_at p (prev_idx o);
       Some (set_order p (prev_idx o) (set_next a (next_idx o)), head_order_idx lvl)
     else Some (p, next_idx o));
  '(p2, tail) ←
    (if negb (next_idx o =? kInvalidIdx) then
       a ← pool_at p1 (next_idx o);
       Some (set_order p1 (next_idx o) (set_prev a (prev_idx o)), tail_order_idx lvl)
     else Some (p1, prev_idx o));
  Some (p2, mkLevel (level_price lvl) (total_qty lvl -32 qty o) (order_count lvl -32 1) head tail
              (pad lvl)).

(** ** Message handlers *)

Section Handlers.
Context {M : Type} `{MapOps M}.
Abbreviation mem := (ShardMem M).

Definition set_pool (s : mem) (p : OrderPool) : mem :=
  mkMem p (order_map_ s) (price_level_drops s) (order_replaces_inplace s).
Definition set_map (s : mem) (m : M) : mem :=
  mkMem (pool s) m (price_level_drops s) (order_replaces_inplace s).
Definition count_drop (b : Level2Book) (s : mem) : mem :=
  if drop_ctr_ b then mkMem (pool s) (order_map_ s) (price_level_drops s +64 1) (order_replaces_inplace s)
  else s.
Definition count_inplace (b : Level2Book) (s : mem) : mem :=
  if inplace_ctr_ b then mkMem (pool s) (order_map_ s) (price_level_drops s) (order_replaces_inplace s +64 1)
  else s.

(** [find_level], then [insert_level] when the price has no level: the book
    and the level's index, [MAX_PRICE_LEVELS] when there is no room.  The drop
    counter is incremented inside [insert_level]. *)
Definition level_for (b : Level2Book) (s : mem) (buy : bool) (p : Z)
    : option (Level2Book * mem * Z) :=
  let ls := levels_of b buy in
  let count := count_of b buy in
  let lvl_idx := find_level ls count p in
  if lvl_idx =? count then
    '(ls', count', i) ← insert_level buy ls count p;
    let s' := if count >=? MAX_PRICE_LEVELS then count_drop b s else s in
    Some (set_side b buy ls' count', s', i)
  else Some (b, s, lvl_idx).

(** The assignments to a fresh order, [link_order_tail] and [map_.insert]. *)
Definition place_order (b : Level2Book) (s : mem) (buy : bool) (lvl_idx pool_idx ref p q : Z)
    (sd : Side) : option (Level2Book * mem) :=
  o ← pool_at (pool s) pool_idx;
  let p1 := set_order (pool s) pool_idx
              (mkOrder ref p q (prev_idx o) (next_idx o) lvl_idx sd) in
  let ls := levels_of b buy in
  lvl ← ls !! Z.to_nat lvl_idx;
  '(p2, lvl') ← link_order_tail p1 lvl pool_idx;
  ls' ← store ls lvl_idx lvl';
  '(_, m') ← map_insert (order_map_ s) ref pool_idx;
  Some (set_side b buy ls' (count_of b buy), set_map (set_pool s p2) m').

Definition on_add_order (b : Level2Book) (s : mem) (ref : Z) (sd : Side) (shares p : Z)
    : option (Level2Book * mem) :=
  '(o, p1) ← alloc (pool s);
  let s1 := set_pool s p1 in
  match o with
  | None => Some (b, s1)
  | Some pool_idx =>
      let buy := is_buy sd in
      '(b1, s2, lvl_idx) ← level_for b s1 buy p;
      if lvl_idx =? MAX_PRICE_LEVELS then
        p2 ← free (pool s2) pool_idx; Some (b1, set_pool s2 p2)
      else place_order b1 s2 buy lvl_idx pool_idx ref p shares sd
  end.

(** [unlink_order], then [remove_level] when the level has no order left. *)
Definition detach (b : Level2Book) (p : OrderPool) (buy : bool) (idx : Z)
    : option (Level2Book * OrderPool) :=
  o ← pool_at p idx;
  let ls := levels_of b buy in
  lvl ← ls !! Z.to_nat (level_idx o);
  '(p1, lvl') ← unlink_order p lvl idx;
  ls1 ← store ls (level_idx o) lvl';
  '(ls2, count2) ←
    (if order_count lvl' =? 0 then remove_level ls1 (count_of b buy) (level_idx o)
     else Some (ls1, count_of b buy));
  Some (set_side b buy ls2 count2, p1).

Definition reduce_qty (b : Level2Book) (s : mem) (ref by_qty : Z) : option (Level2Book * mem) :=
  pool_idx ← map_find (order_map_ s) ref;
  if pool_idx =? kMapEmpty then Some (b, s)
  else
    o ← pool_at (pool s) pool_idx;
    let buy := is_buy (side o) in
    let ls := levels_of b buy in
    lvl ← ls !! Z.to_nat (level_idx o);
    let lvl1 := mkLevel (level_price lvl) (total_qty lvl -32 by_qty) (order_count lvl)
                  (head_order_idx lvl) (tail_order_idx lvl) (pad lvl) in
    ls1 ← store ls (level_idx o) lvl1;
    let o1 := mkOrder (id o) (price o) (qty o -32 by_qty) (prev_idx o) (next_idx o) (level_idx o)
                (side o) in
    let p1 := set_order (pool s) pool_idx o1 in
    let b1 := set_side b buy ls1 (count_of b buy) in
    if qty o1 =? 0 then
      '(b2, p2) ← detach b1 p1 buy pool_idx;
      '(_, m') ← map_erase (order_map_ s) ref;
      p3 ← free p2 pool_idx;
      Some (b2, set_map (set_pool s p3) m')
    else Some (b1, set_pool s p1).

Definition on_order_executed (b : Level2Book) (s : mem) (ref executed_shares : Z) :=
  reduce_qty b s ref executed_shares.
Definition on_order_executed_price (b : Level2Book) (s : mem) (ref executed_shares : Z) :=
  reduce_qty b s ref executed_shares.
Definition on_order_cancel (b : Level2Book) (s : mem) (ref cancelled_shares : Z) :=
  reduce_qty b s ref cancelled_shares.

Definition on_order_delete (b : Level2Book) (s : mem) (ref : Z) : option (Level2Book * mem) :=
  pool_idx ← map_find (order_map_ s) ref;
  if pool_idx =? kMapEmpty then Some (b, s)
  else
    o ← pool_at (pool s) pool_idx;
    '(b1, p1) ← detach b (pool s) (is_buy (side o)) pool_idx;
    '(_, m') ← map_erase (order_map_ s) ref;
    p2 ← free p1 pool_idx;
    Some (b1, set_map (set_pool s p2) m').

(** Case A of [on_order_replace]: the order keeps its place. *)
Definition replace_inplace (b : Level2Book) (s : mem) (old_idx : Z) (o : Order)
    (orig_ref new_ref new_shares : Z) : option (Level2Book * mem) :=
  let buy := is_buy (side o) in
  let ls := levels_of b buy in
  lvl ← ls !! Z.to_nat (level_idx o);
  let lvl' := mkLevel (level_price lvl) (total_qty lvl -32 qty o +32 new_shares) (order_count lvl)
                (head_order_idx lvl) (tail_order_idx lvl) (pad lvl) in
  ls' ← store ls (level_idx o) lvl';
  let p1 := set_order (pool s) old_idx
              (mkOrder new_ref (price o) new_shares (prev_idx o) (next_idx o) (level_idx o) (side o)) in
  '(_, m1) ← map_erase (order_map_ s) orig_ref;
  '(_, m2) ← map_insert m1 new_ref old_idx;
  Some (set_side b buy ls' (count_of b buy), count_inplace b (set_map (set_pool s p1) m2)).

(** Case B: delete, then add at the tail of the new price's level. *)
Definition replace_full (b : Level2Book) (s : mem) (old_idx : Z) (o : Order)
    (orig_ref new_ref new_shares new_price : Z) : option (Level2Book * mem) :=
  let buy := is_buy (side o) in
  '(b1, p1) ← detach b (pool s) buy old_idx;
  '(_, m1) ← map_erase (order_map_ s) orig_ref;
  p2 ← free p1 old_idx;
  '(r, p3) ← alloc p2;
  let s1 := set_map (set_pool s p3) m1 in
  match r with
  | None => Some (b1, s1)
  | Some new_idx =>
      '(b2, s2, lvl_idx) ← level_for b1 s1 buy new_price;
      if lvl_idx =? MAX_PRICE_LEVELS then
        p4 ← free (pool s2) new_idx; Some (b2, set_pool s2 p4)
      else place_order b2 s2 buy lvl_idx new_idx new_ref new_price new_shares (side o)
  end.

Definition on_order_replace (b : Level2Book) (s : mem) (orig_ref new_ref new_shares new_price : Z)
    : option (Level2Book * mem) :=
  old_idx ← map_find (order_map_ s) orig_ref;
  if old_idx =? kMapEmpty then Some (b, s)
  else
    o ← pool_at (pool s) old_idx;
    if (new_price =? price o) && (new_shares <=? qty o)
    then replace_inplace b s old_idx o orig_ref new_ref new_shares
    else replace_full b s old_idx o orig_ref new_ref new_shares new_price.

(** ** Runs of messages *)

Inductive BookMsg :=
  | MAdd (ref : Z) (sd : Side) (shares p : Z)
  | MReduce (ref by_qty : Z)
  | MDelete (ref : Z)
  | MReplace (orig_ref new_ref new_shares new_price : Z)
  | MStatus (trading_state : Z)
  | MClear.

Definition book_step (b : Level2Book) (s : mem) (m : BookMsg) : option (Level2Book * mem) :=
  match m with
  | MAdd ref sd shares p => on_add_order b s ref sd shares p
  | MReduce ref by_qty => reduce_qty b s ref by_qty
  | MDelete ref => on_order_delete b s ref
  | MReplace o n q p => on_order_replace b s o n q p
  | MStatus c => Some (on_trading_action b c, s)
  | MClear => Some (clear b, s)
  end.

Fixpoint book_run (b : Level2Book) (s : mem) (ms : list BookMsg) : option (Level2Book * mem) :=
  match ms with
  | [] => Some (b, s)
  | m :: ms' => '(b', s') ← book_step b s m; book_run b' s' ms'
  end.

End Handlers.
