(* ===== verification/BookLevels.v ===== *)
(** * The level arrays of a book

    What [find_level], [insert_level] and [remove_level] do to the active
    prefix of a level array, and the invariant that every handler keeps
    whatever the orders say: both sides stay strictly sorted, best price
    first, with no price twice. *)

From stdpp Require Import sorting.
From S2P Require Import Prelude Types OrderPool OrderMap Level2Book.

(** ** Active levels *)

Definition active (ls : list PriceLevel) (count : Z) : list PriceLevel := take (Z.to_nat count) ls.
Definition prices (ls : list PriceLevel) (count : Z) : list Z := level_price <$> active ls count.

(** Best first, strictly. *)
Definition better (buy : bool) (p q : Z) : Prop := if buy then q < p else p < q.
Definition best_first (buy : bool) (l : list Z) : Prop := StronglySorted (better buy) l.

Record side_ok (buy : bool) (ls : list PriceLevel) (count : Z) : Prop := {
  so_len : Z.of_nat (length ls) = MAX_PRICE_LEVELS;
  so_count : 0 <= count <= MAX_PRICE_LEVELS;
  so_sorted : best_first buy (prices ls count)
}.

Lemma goes_before_spec buy p q : goes_before buy p q = true <-> better buy p q.
Proof. destruct buy; simpl; apply Z.ltb_lt. Qed.

Lemma active_length ls count :
  0 <= count <= Z.of_nat (length ls) -> length (active ls count) = Z.to_nat count.
Proof. intros. unfold active. rewrite length_take. lia. Qed.

(** *** Finding a level *)

Lemma find_level_from_spec ls i count p :
  0 <= i <= count ->
  (find_level_from ls i count p = count
     /\ forall n l, ls !! n = Some l -> i + Z.of_nat n < count -> level_price l <> p)
  \/ exists n l, find_level_from ls i count p = i + Z.of_nat n /\ i + Z.of_nat n < count
       /\ ls !! n = Some l /\ level_price l = p.
Proof.
  revert i. induction ls as [|l ls IH]; intros i Hi; [by left|]. simpl.
  destruct (Z.ltb_spec i count) as [Hlt|Hge].
  2:{ left. split; [done|]. intros n l' _ Hn. lia. }
  destruct (Z.eqb_spec (level_price l) p) as [Hp|Hp].
  { right. exists 0%nat, l. rewrite Z.add_0_r. done. }
  destruct (IH (i + 1)) as [[E Hno]|(n & l' & E & Hn & Hl & Hpl)]; [lia|left|right].
  - split; [done|]. intros [|n] l' Hl' Hn; [by injection Hl' as <-|]. apply (Hno n); [done|lia].
  - exists (S n), l'. split; [rewrite E; lia|]. split; [lia|done].
Qed.

Lemma find_level_spec ls count p :
  0 <= count ->
  (find_level ls count p = count /\ p ∉ prices ls count)
  \/ exists l, 0 <= find_level ls count p < count
       /\ ls !! Z.to_nat (find_level ls count p) = Some l /\ level_price l = p.
Proof.
  intros Hc. unfold find_level.
  destruct (find_level_from_spec ls 0 count p) as [[E Hno]|(n & l & E & Hn & Hl & Hp)]; [lia|left|right].
  - split; [done|]. unfold prices, active. intros (l & -> & Hl)%list_elem_of_fmap.
    apply list_elem_of_lookup in Hl as (n & Hn). apply lookup_take_Some in Hn as [Hl Hn].
    apply (Hno n l Hl); [lia|done].
  - exists l. rewrite E. split; [lia|]. by replace (Z.to_nat (0 + Z.of_nat n)) with n by lia.
Qed.

(** *** The position of a new level *)

Lemma level_pos_from_spec buy ls pos count p :
  0 <= pos <= count ->
  exists n, level_pos_from buy ls pos count p = pos + Z.of_nat n /\ pos + Z.of_nat n <= count
    /\ (n <= length ls)%nat
    /\ Forall (fun l => better buy (level_price l) p) (take n ls)
    /\ (forall l, ls !! n = Some l -> pos + Z.of_nat n < count -> ~ better buy (level_price l) p).
Proof.
  revert pos. induction ls as [|l ls IH]; intros pos Hp.
  { exists 0%nat. rewrite Z.add_0_r. split_and!; try done; simpl; lia. }
  simpl. destruct (Z.ltb_spec pos count) as [Hlt|Hge]; simpl.
  2:{ exists 0%nat. rewrite Z.add_0_r. split_and!; try done; try lia. }
  destruct (goes_before buy (level_price l) p) eqn:E.
  - destruct (IH (pos + 1)) as (n & En & Hn & Hlen & Hall & Hnext); [lia|].
    exists (S n). split_and!; try lia.
    + simpl. constructor; [by apply goes_before_spec|done].
    + intros l' Hl' Hlt'. apply Hnext; [done|lia].
  - exists 0%nat. rewrite Z.add_0_r. split_and!; try done; try lia.
    intros l' Hl' _ Hb. injection Hl' as ->. apply goes_before_spec in Hb. congruence.
Qed.

(** *** Inserting and removing levels *)

Lemma insert_level_full buy ls p : forall count, MAX_PRICE_LEVELS <= count ->
  insert_level buy ls count p = Some (ls, count, MAX_PRICE_LEVELS).
Proof.
  intros count Hc. unfold insert_level. rewrite Z.geb_leb.
  by destruct (Z.leb_spec MAX_PRICE_LEVELS count); [|lia].
Qed.

Lemma insert_level_spec buy ls count p :
  Z.of_nat (length ls) = MAX_PRICE_LEVELS -> 0 <= count < MAX_PRICE_LEVELS ->
  exists pos ls',
    insert_level buy ls count p = Some (ls', count + 1, Z.of_nat pos)
    /\ (pos <= Z.to_nat count)%nat /\ length ls' = length ls
    /\ active ls' (count + 1) = take pos (active ls count) ++ blank_level p :: drop pos (active ls count)
    /\ Forall (fun l => better buy (level_price l) p) (take pos (active ls count))
    /\ (forall l, active ls count !! pos = Some l -> ~ better buy (level_price l) p).
Proof.
  intros Hl Hc. unfold MAX_PRICE_LEVELS in *.
  destruct (level_pos_from_spec buy ls 0 count p) as (pos & Ep & Hpc & Hpl & Hall & Hnext); [lia|].
  rewrite Z.add_0_l in Ep, Hpc. unfold insert_level, MAX_PRICE_LEVELS. rewrite Z.geb_leb.
  destruct (Z.leb_spec 256 count); [lia|]. rewrite Ep.
  assert (Htake : take pos (active ls count) = take pos ls).
  { unfold active. rewrite take_take. f_equal. lia. }
  exists pos. exists (take pos ls ++ blank_level p :: drop pos (active ls count) ++ drop (Z.to_nat count + 1) ls).
  assert (Hlen : length (take pos ls ++ blank_level p :: drop pos (active ls count) ++ drop (Z.to_nat count + 1) ls)
                 = length ls).
  { rewrite length_app, length_take. simpl. rewrite length_app, length_drop, length_drop.
    unfold active. rewrite length_take. lia. }
  split; [|split_and!; try done].
  - assert (Hm : exists old, (if Z.of_nat pos <? count
       then memmove ls (Z.to_nat (Z.of_nat pos + 1)) (Z.to_nat (Z.of_nat pos)) (Z.to_nat (count - Z.of_nat pos))
       else Some ls) = Some (take pos ls ++ old :: drop pos (active ls count) ++ drop (Z.to_nat count + 1) ls)).
    { destruct (lookup_lt_is_Some_2 ls pos) as [old Hold]; [lia|]. exists old.
      destruct (Z.ltb_spec (Z.of_nat pos) count) as [Hlt|Hge].
      - unfold memmove. rewrite decide_True by lia. f_equal.
        replace (Z.to_nat (Z.of_nat pos + 1)) with (S pos) by lia. rewrite Nat2Z.id.
        rewrite (take_S_r ls pos old Hold), <- app_assoc. simpl. f_equal. f_equal. f_equal.
        + unfold active. rewrite skipn_firstn_comm. f_equal. lia.
        + f_equal. lia.
      - f_equal. assert (Z.to_nat count = pos) as Hcp by lia.
        unfold active. rewrite (drop_ge (take _ _)) by (rewrite length_take; lia). simpl.
        rewrite Hcp. replace (pos + 1)%nat with (S pos) by lia.
        symmetry. by apply take_drop_middle. }
    destruct Hm as [old ->]. simpl. unfold store. rewrite decide_True.
    2:{ rewrite length_app, length_take. simpl. lia. }
    simpl. rewrite Nat2Z.id. f_equal. f_equal. f_equal.
    + rewrite insert_app_r_alt by (rewrite length_take; lia).
      rewrite length_take, Nat.min_l, Nat.sub_diag by lia. done.
    + apply wrap_small. range_lia.
  - lia.
  - unfold active at 1. rewrite Htake, app_comm_cons, app_assoc, take_app_length'; [done|].
    rewrite length_app, length_take. simpl. rewrite length_drop, active_length by lia. lia.
  - by rewrite Htake.
  - intros l Hl'. unfold active in Hl'. apply lookup_take_Some in Hl' as [? ?]. apply Hnext; [done|lia].
Qed.

Lemma remove_level_spec ls count idx :
  Z.of_nat (length ls) = MAX_PRICE_LEVELS -> 0 < count <= MAX_PRICE_LEVELS -> 0 <= idx ->
  exists ls', remove_level ls count idx = Some (ls', count - 1) /\ length ls' = length ls
    /\ active ls' (count - 1) =
         if idx <? count then delete (Z.to_nat idx) (active ls count)
         else take (Z.to_nat (count - 1)) (active ls count).
Proof.
  intros Hl Hc Hi. unfold MAX_PRICE_LEVELS in *. unfold remove_level.
  rewrite (wrap_small 16) by range_lia.
  assert (Hm : exists ls1, (if idx + 1 <? count
      then memmove ls (Z.to_nat idx) (Z.to_nat (idx + 1)) (Z.to_nat (count - idx - 1)) else Some ls) = Some ls1
    /\ length ls1 = length ls
    /\ take (Z.to_nat (count - 1)) ls1 = if idx <? count then delete (Z.to_nat idx) (active ls count)
         else take (Z.to_nat (count - 1)) (active ls count)).
  { unfold active. destruct (Z.ltb_spec (idx + 1) count) as [Hlt|Hge].
    - unfold memmove. rewrite decide_True by lia. eexists. split; [done|]. split.
      + rewrite !length_app, !length_take, !length_drop. lia.
      + destruct (Z.ltb_spec idx count); [|lia]. rewrite app_assoc, take_app_length'.
        * rewrite delete_take_drop, take_take. f_equal; [f_equal; lia|].
          rewrite skipn_firstn_comm. replace (S (Z.to_nat idx)) with (Z.to_nat (idx + 1)) by lia.
          f_equal. lia.
        * rewrite length_app, !length_take, length_drop. lia.
    - exists ls. split; [done|]. split; [done|]. destruct (Z.ltb_spec idx count) as [Hlt|Hge'].
      + rewrite delete_take_drop, take_take, skipn_firstn_comm.
        replace (Z.to_nat count - S (Z.to_nat idx))%nat with 0%nat by lia.
        rewrite take_0, app_nil_r. f_equal. lia.
      + rewrite take_take. f_equal. lia. }
  destruct Hm as (ls1 & -> & Hl1 & Ht). simpl. unfold store. rewrite decide_True by lia. simpl.
  eexists. split; [done|]. split; [by rewrite length_insert|].
  unfold active at 1. rewrite take_insert_ge by lia. done.
Qed.

(** ** Sortedness *)

Lemma prices_app buy a p b :
  best_first buy (a ++ b) -> Forall (fun x => better buy x p) a ->
  Forall (fun x => better buy p x) b -> best_first buy (a ++ p :: b).
Proof.
  unfold best_first. intros Hs Ha Hb. induction a as [|x a IH]; simpl in *.
  - by constructor.
  - inversion_clear Hs as [|?? Hs' Hx]. inversion_clear Ha as [|?? Hxp Ha'].
    constructor; [by apply IH|]. apply Forall_app in Hx as [Hx1 Hx2].
    apply Forall_app. split; [done|]. by constructor.
Qed.

Lemma better_trans buy p q r : better buy p q -> better buy q r -> better buy p r.
Proof. destruct buy; simpl; lia. Qed.

Lemma sorted_delete {A} (R : A -> A -> Prop) l n : StronglySorted R l -> StronglySorted R (delete n l).
Proof.
  intros Hs. revert n. induction Hs as [|x l Hs IH Hx]; intros [|n]; simpl; try done; try by constructor.
  constructor; [apply IH|]. rewrite delete_take_drop. rewrite <- (take_drop n l) in Hx.
  apply Forall_app in Hx as [H1 H2]. apply Forall_app. split; [done|].
  destruct (drop n l) as [|y l'] eqn:E; [by rewrite (drop_ge l (S n)); [|
    apply (f_equal length) in E; rewrite length_drop in E; simpl in E; lia]|].
  replace (drop (S n) l) with l'; [by inversion_clear H2|].
  replace (S n) with (n + 1)%nat by lia. by rewrite <- drop_drop, E.
Qed.

Lemma sorted_take {A} (R : A -> A -> Prop) l n : StronglySorted R l -> StronglySorted R (take n l).
Proof.
  intros Hs. revert n. induction Hs as [|x l Hs IH Hx]; intros [|n]; simpl; try constructor; auto.
  by apply Forall_take.
Qed.

(** A new level goes where the array stays sorted. *)
Lemma new_level_sorted buy l p n :
  best_first buy l -> p ∉ l -> (n <= length l)%nat ->
  Forall (fun x => better buy x p) (take n l) ->
  (forall x, l !! n = Some x -> ~ better buy x p) -> best_first buy (take n l ++ p :: drop n l).
Proof.
  intros Hs Hp Hn Ha Hx. apply prices_app; [by rewrite take_drop|done|].
  destruct (drop n l) as [|x l'] eqn:E; [constructor|].
  assert (Hxn : l !! n = Some x) by (rewrite <- (take_drop n l), lookup_app_r, length_take, Nat.min_l,
    Nat.sub_diag, E; [done|lia|rewrite length_take; lia]).
  assert (Hxp : better buy p x).
  { specialize (Hx x Hxn). assert (x <> p) by (intros ->; apply Hp; by eapply list_elem_of_lookup_2).
    destruct buy; simpl in *; lia. }
  constructor; [done|]. rewrite <- (take_drop n l), E in Hs. unfold best_first in Hs.
  apply StronglySorted_app in Hs as (_ & _ & Hs). inversion_clear Hs as [|?? _ Hx'].
  eapply Forall_impl; [exact Hx'|]. intros y Hy. by eapply better_trans.
Qed.

(** ** The invariant of a side under each array operation *)

Lemma store_Some {A} (l l' : list A) i x :
  store l i x = Some l' -> 0 <= i < Z.of_nat (length l) /\ l' = <[Z.to_nat i := x]> l.
Proof. unfold store. case_decide; [|done]. intros [= <-]. done. Qed.

Lemma store_keeps_prices ls i lvl lvl' ls' count :
  ls !! Z.to_nat i = Some lvl -> level_price lvl' = level_price lvl -> store ls i lvl' = Some ls' ->
  prices ls' count = prices ls count.
Proof.
  intros Hl Hp [_ ->]%store_Some. unfold prices, active. rewrite !fmap_take. f_equal.
  rewrite list_fmap_insert. apply list_insert_id. by rewrite list_lookup_fmap, Hl, Hp.
Qed.

Lemma store_side_ok buy ls i lvl lvl' ls' count :
  side_ok buy ls count -> ls !! Z.to_nat i = Some lvl -> level_price lvl' = level_price lvl ->
  store ls i lvl' = Some ls' -> side_ok buy ls' count.
Proof.
  intros [] Hl Hp Hs. pose proof (store_keeps_prices ls i lvl lvl' ls' count Hl Hp Hs) as E.
  apply store_Some in Hs as [_ ->]. constructor; [by rewrite length_insert|done|by rewrite E].
Qed.

Lemma insert_level_side_ok buy ls count p ls' count' i :
  side_ok buy ls count -> p ∉ prices ls count -> insert_level buy ls count p = Some (ls', count', i) ->
  side_ok buy ls' count'.
Proof.
  intros S Hp E. pose proof S as [Hl Hc Hs]. destruct (decide (count = MAX_PRICE_LEVELS)) as [->|Hne].
  { rewrite insert_level_full in E by lia. by injection E as <- <- <-. }
  destruct (insert_level_spec buy ls count p Hl) as (pos & ls1 & E1 & Hpos & Hl1 & Ha & Hb & Hn); [lia|].
  rewrite E1 in E. injection E as <- <- <-. constructor; [by rewrite Hl1|lia|].
  unfold prices in *. rewrite Ha, fmap_app, fmap_cons, fmap_take, fmap_drop. cbn [level_price blank_level].
  apply new_level_sorted; try done.
  - rewrite length_fmap, active_length by lia. lia.
  - by rewrite <- fmap_take, Forall_fmap.
  - intros x Hx. apply list_lookup_fmap_Some in Hx as (l & -> & Hl2). by apply Hn.
Qed.

Lemma remove_level_side_ok buy ls count idx ls' count' :
  side_ok buy ls count -> 0 <= idx -> remove_level ls count idx = Some (ls', count') ->
  side_ok buy ls' count'.
Proof.
  intros [Hl Hc Hs] Hi E. destruct (decide (count = 0)) as [->|Hne].
  { exfalso. unfold remove_level in E. destruct (Z.ltb_spec (idx + 1) 0); [lia|].
    apply bind_Some in E as (ls1 & [= <-] & E). apply bind_Some in E as (ls2 & E & _).
    apply store_Some in E as [? _]. lia. }
  destruct (remove_level_spec ls count idx Hl) as (ls1 & E1 & Hl1 & Ha); [lia|done|].
  rewrite E1 in E. injection E as <- <-. constructor; [by rewrite Hl1|lia|].
  unfold prices in *. rewrite Ha. destruct (_ <? _).
  - rewrite list_fmap_delete. by apply sorted_delete.
  - rewrite fmap_take. by apply sorted_take.
Qed.

(** ** The invariant of a book under every handler *)

Definition book_ok (b : Level2Book) : Prop :=
  side_ok true (bid_levels_ b) (bid_count_ b) /\ side_ok false (ask_levels_ b) (ask_count_ b).

Lemma book_ok_side b buy : book_ok b -> side_ok buy (levels_of b buy) (count_of b buy).
Proof. intros [? ?]. by destruct buy. Qed.

Lemma book_ok_set b buy ls c : book_ok b -> side_ok buy ls c -> book_ok (set_side b buy ls c).
Proof. intros [? ?] ?. by destruct buy. Qed.

Lemma blank_side_ok buy : side_ok buy blank_levels 0.
Proof. constructor; [done|done|]. constructor. Qed.

Lemma new_book_ok loc : book_ok (new_book loc).
Proof. split; apply blank_side_ok. Qed.

#[export] Hint Resolve book_ok_side book_ok_set store_side_ok : mach.

Section Handlers.
Context {M : Type} `{MapOps M}.

Lemma level_for_ok b (s : ShardMem M) buy p b' s' i :
  book_ok b -> level_for b s buy p = Some (b', s', i) -> book_ok b'.
Proof.
  intros K E. unfold level_for in E. pose proof (book_ok_side b buy K) as S.
  destruct (find_level_spec (levels_of b buy) (count_of b buy) p) as [[Hf Hp]|(l & Hf & _)]; [apply S| |].
  - rewrite Hf, Z.eqb_refl in E. apply bind_Some in E as ([[ls' c'] j] & E1 & E).
    injection E as <- _ _. apply book_ok_set; [done|]. by eapply insert_level_side_ok.
  - destruct (Z.eqb_spec (find_level (levels_of b buy) (count_of b buy) p) (count_of b buy)); [lia|].
    by injection E as <- _ _.
Qed.

Lemma link_price p lvl idx p' lvl' :
  link_order_tail p lvl idx = Some (p', lvl') -> level_price lvl' = level_price lvl.
Proof.
  unfold link_order_tail. intros E. apply bind_Some in E as (o & _ & E).
  apply bind_Some in E as ([p2 hd] & _ & E). by injection E as _ <-.
Qed.

Lemma unlink_price p lvl idx p' lvl' :
  unlink_order p lvl idx = Some (p', lvl') -> level_price lvl' = level_price lvl.
Proof.
  unfold unlink_order. intros E. apply bind_Some in E as (o & _ & E).
  apply bind_Some in E as ([p1 hd] & _ & E). apply bind_Some in E as ([p2 tl] & _ & E).
  by injection E as _ <-.
Qed.

Lemma place_order_ok b (s : ShardMem M) buy li pi ref p q sd b' s' :
  book_ok b -> place_order b s buy li pi ref p q sd = Some (b', s') -> book_ok b'.
Proof.
  intros K E. unfold place_order in E. apply bind_Some in E as (o & _ & E).
  apply bind_Some in E as (lvl & Hl & E). apply bind_Some in E as ([p2 lvl'] & Hk & E).
  apply bind_Some in E as (ls' & Hs & E). apply bind_Some in E as ([r m'] & _ & E).
  injection E as <- _. apply link_price in Hk. eauto with mach.
Qed.

Lemma detach_ok b p buy idx b' p' :
  book_ok b -> detach b p buy idx = Some (b', p') -> book_ok b'.
Proof.
  intros K E. unfold detach in E. apply bind_Some in E as (o & _ & E).
  apply bind_Some in E as (lvl & Hl & E). apply bind_Some in E as ([p2 lvl'] & Hk & E).
  apply bind_Some in E as (ls1 & Hs & E). apply bind_Some in E as ([ls2 c2] & Hr & E).
  injection E as <- _. apply unlink_price in Hk. apply book_ok_set; [done|].
  assert (S1 : side_ok buy ls1 (count_of b buy)) by eauto with mach.
  apply store_Some in Hs as [? _].
  destruct (_ =? _); [eapply remove_level_side_ok; [exact S1| |exact Hr]; lia|by injection Hr as <- <-].
Qed.

Lemma on_add_order_ok b (s : ShardMem M) ref sd q p b' s' :
  book_ok b -> on_add_order b s ref sd q p = Some (b', s') -> book_ok b'.
Proof.
  intros K E. unfold on_add_order in E. apply bind_Some in E as ([[i|] p1] & _ & E); [|by injection E as <- _].
  apply bind_Some in E as ([[b1 s2] li] & Hl & E). apply level_for_ok in Hl; [|done].
  destruct (_ =? _); [|by eapply place_order_ok]. apply bind_Some in E as (p2 & _ & E). by injection E as <- _.
Qed.

Lemma reduce_qty_ok b (s : ShardMem M) ref q b' s' :
  book_ok b -> reduce_qty b s ref q = Some (b', s') -> book_ok b'.
Proof.
  intros K E. unfold reduce_qty in E. apply bind_Some in E as (i & _ & E).
  destruct (_ =? _); [by injection E as <- _|]. apply bind_Some in E as (o & _ & E).
  apply bind_Some in E as (lvl & Hl & E). apply bind_Some in E as (ls1 & Hs & E).
  assert (K1 : book_ok (set_side b (is_buy (side o)) ls1 (count_of b (is_buy (side o)))))
    by (apply book_ok_set; [done|];
        eapply store_side_ok; [by apply book_ok_side|exact Hl| |exact Hs]; done).
  destruct (_ =? _); [|by injection E as <- _]. apply bind_Some in E as ([b2 p2] & Hd & E).
  apply bind_Some in E as ([r m'] & _ & E). apply bind_Some in E as (p3 & _ & E).
  injection E as <- _. by eapply detach_ok.
Qed.

Lemma on_order_delete_ok b (s : ShardMem M) ref b' s' :
  book_ok b -> on_order_delete b s ref = Some (b', s') -> book_ok b'.
Proof.
  intros K E. unfold on_order_delete in E. apply bind_Some in E as (i & _ & E).
  destruct (_ =? _); [by injection E as <- _|]. apply bind_Some in E as (o & _ & E).
  apply bind_Some in E as ([b2 p2] & Hd & E).
  apply bind_Some in E as ([r m'] & _ & E). apply bind_Some in E as (p3 & _ & E).
  injection E as <- _. by eapply detach_ok.
Qed.

Lemma on_order_replace_ok b (s : ShardMem M) o n q p b' s' :
  book_ok b -> on_order_replace b s o n q p = Some (b', s') -> book_ok b'.
Proof.
  intros K E. unfold on_order_replace in E. apply bind_Some in E as (i & _ & E).
  destruct (_ =? _); [by injection E as <- _|]. apply bind_Some in E as (od & _ & E).
  destruct (_ && _).
  - unfold replace_inplace in E. apply bind_Some in E as (lvl & Hl & E).
    apply bind_Some in E as (ls1 & Hs & E). apply bind_Some in E as ([r m1] & _ & E).
    apply bind_Some in E as ([r' m2] & _ & E). injection E as <- _.
    apply book_ok_set; [done|].
    eapply store_side_ok; [by apply book_ok_side|exact Hl| |exact Hs]. done.
  - unfold replace_full in E. apply bind_Some in E as ([b1 p1] & Hd & E). apply detach_ok in Hd; [|done].
    apply bind_Some in E as ([r m1] & _ & E). apply bind_Some in E as (p2 & _ & E).
    apply bind_Some in E as ([[j|] p3] & _ & E); [|by injection E as <- _].
    apply bind_Some in E as ([[b2 s2] li] & Hl & E). apply level_for_ok in Hl; [|done].
    destruct (_ =? _); [|by eapply place_order_ok]. apply bind_Some in E as (p4 & _ & E). by injection E as <- _.
Qed.

Lemma book_step_ok b (s : ShardMem M) m b' s' :
  book_ok b -> book_step b s m = Some (b', s') -> book_ok b'.
Proof.
  intros K. destruct m; simpl; [by apply on_add_order_ok|by apply reduce_qty_ok|
    by apply on_order_delete_ok|by apply on_order_replace_ok|by intros [= <- _]|].
  intros [= <- _]. split; apply blank_side_ok.
Qed.

Lemma book_run_ok ms b (s : ShardMem M) b' s' :
  book_ok b -> book_run b s ms = Some (b', s') -> book_ok b'.
Proof.
  revert b s. induction ms as [|m ms IH]; intros b s K E; simpl in E; [by injection E as <- _|].
  apply bind_Some in E as ([b1 s1] & E1 & E). apply book_step_ok in E1; eauto.
Qed.

(** ** Properties *)

(** After any sequence of messages on a new book, in any state of the
    shared pool and map and also when the level indices kept in the orders
    are out of date, bids are strictly descending and asks strictly
    ascending, at most 256 each, and no price has two levels. *)
Theorem book_levels_stay_sorted loc (s s' : ShardMem M) ms b :
  book_run (new_book loc) s ms = Some (b, s') ->
  StronglySorted (fun p q => q < p) (prices (bid_levels_ b) (bid_count_ b))
  /\ StronglySorted Z.lt (prices (ask_levels_ b) (ask_count_ b))
  /\ 0 <= bid_count_ b <= MAX_PRICE_LEVELS /\ 0 <= ask_count_ b <= MAX_PRICE_LEVELS.
Proof.
  intros E. apply book_run_ok in E as [[_ Hb Sb] [_ Ha Sa]]; [|apply new_book_ok].
  split; [exact Sb|]. split; [exact Sa|]. by split.
Qed.

End Handlers.

(** *** Witness: a small shard and a few messages *)

Definition small_mem : ShardMem OrderMap := mkMem (new_pool 4) (new_map 8) 0 0.
Definition sample_msgs : list BookMsg :=
  [MAdd 11 Buy 5 100; MAdd 12 Buy 7 101; MAdd 13 Sell 3 105; MReduce 12 2; MDelete 11].
Definition sample_end : option (Level2Book * ShardMem OrderMap) :=
  Eval vm_compute in book_run (new_book 9) small_mem sample_msgs.

Lemma sample_end_eq : book_run (new_book 9) small_mem sample_msgs = sample_end.
Proof. vm_compute. reflexivity. Qed.

Lemma book_levels_stay_sorted_witness :
  exists b s, book_run (new_book 9) small_mem sample_msgs = Some (b, s)
    /\ StronglySorted (fun p q => q < p) (prices (bid_levels_ b) (bid_count_ b)).
Proof.
  destruct sample_end as [[b s]|] eqn:E; [|discriminate E].
  assert (R : book_run (new_book 9) small_mem sample_msgs = Some (b, s))
    by (rewrite sample_end_eq; exact E).
  exists b, s. split; [exact R|]. exact (proj1 (book_levels_stay_sorted 9 small_mem s sample_msgs b R)).
Defined.
