(* ===== verification/BookRep.v ===== *)
(** * Representation of one side of a book

    The abstract side is a list of price levels, each with its orders in time
    priority; an abstract order carries its reference, its quantity and the
    pool index that holds it.  This file relates it to the linked lists in
    the pool and to the level array, and proves [link_order_tail] and
    [unlink_order] against it. *)

From stdpp Require Import sorting.
From S2P Require Import Prelude Types OrderMap OrderPool Level2Book BookLevels.

(** ** Abstract sides *)

Record AOrder := mkA { a_idx : Z; a_id : Z; a_qty : Z }.
Abbreviation ALevel := (Z * list AOrder)%type.

Definition qsum (l : list AOrder) : Z := zsum (a_qty <$> l).
Definition orders (A : list ALevel) : list AOrder := concat A.*2.
Definition idxs (A : list ALevel) : list Z := a_idx <$> orders A.

(** The index of the first and last order, or a default. *)
Definition first_or (d : Z) (l : list AOrder) : Z :=
  match l with [] => d | a :: _ => a_idx a end.
Definition last_or (d : Z) (l : list AOrder) : Z :=
  match last l with None => d | Some a => a_idx a end.

(** ** Linked segments *)

Definition order_rep (p : OrderPool) (buy : bool) (pr prev next : Z) (a : AOrder) : Prop :=
  exists o, pool_at p (a_idx a) = Some o /\ 0 <= a_idx a < capacity_ p /\ id o = a_id a
    /\ price o = pr /\ qty o = a_qty a /\ is_buy (side o) = buy
    /\ prev_idx o = prev /\ next_idx o = next.

Fixpoint dseg (p : OrderPool) (buy : bool) (pr prev : Z) (l : list AOrder) (next : Z) : Prop :=
  match l with
  | [] => True
  | a :: l' => order_rep p buy pr prev (first_or next l') a /\ dseg p buy pr (a_idx a) l' next
  end.

(** A level whose list may be empty, as between two statements of a handler. *)
Record level_rep (p : OrderPool) (buy : bool) (lv : PriceLevel) (L : ALevel) : Prop := {
  lr_price : level_price lv = L.1;
  lr_seg : dseg p buy L.1 kInvalidIdx L.2 kInvalidIdx;
  lr_head : head_order_idx lv = first_or kInvalidIdx L.2;
  lr_tail : tail_order_idx lv = last_or kInvalidIdx L.2;
  lr_count : order_count lv = u32 (Z.of_nat (length L.2));
  lr_total : total_qty lv = u32 (qsum L.2)
}.

Lemma last_or_snoc d l a : last_or d (l ++ [a]) = a_idx a.
Proof. unfold last_or. by rewrite last_snoc. Qed.

Lemma dseg_app p buy pr prev l1 l2 next :
  dseg p buy pr prev (l1 ++ l2) next <->
  dseg p buy pr prev l1 (first_or next l2) /\ dseg p buy pr (last_or prev l1) l2 next.
Proof.
  revert prev. induction l1 as [|a l1 IH]; intros prev; simpl.
  - unfold last_or. simpl. tauto.
  - rewrite IH. assert (first_or next (l1 ++ l2) = first_or (first_or next l2) l1) as -> by by destruct l1.
    assert (last_or prev (a :: l1) = last_or (a_idx a) l1) as ->.
    { unfold last_or. destruct l1 as [|b l1]; [done|]. rewrite last_cons_cons.
      destruct (last (b :: l1)) eqn:E; [done|]. by apply last_None in E. }
    tauto.
Qed.

Lemma order_rep_frame p p' buy pr prev next a :
  pool_at p' (a_idx a) = pool_at p (a_idx a) -> capacity_ p' = capacity_ p ->
  order_rep p buy pr prev next a -> order_rep p' buy pr prev next a.
Proof. intros E Ec (o & Ho & H). exists o. rewrite E, Ec. done. Qed.

Lemma dseg_frame p p' buy pr l : forall prev next,
  (forall a, a ∈ l -> pool_at p' (a_idx a) = pool_at p (a_idx a)) -> capacity_ p' = capacity_ p ->
  dseg p buy pr prev l next -> dseg p' buy pr prev l next.
Proof.
  induction l as [|a l IH]; intros prev next Hf Hc; simpl; [done|]. intros [Ha Hl]. split.
  - eapply order_rep_frame; [apply Hf; left|done|done].
  - apply IH; [|done|done]. intros b Hb. apply Hf. by right.
Qed.

Lemma level_rep_frame p p' buy lv L :
  (forall a, a ∈ L.2 -> pool_at p' (a_idx a) = pool_at p (a_idx a)) -> capacity_ p' = capacity_ p ->
  level_rep p buy lv L -> level_rep p' buy lv L.
Proof. intros Hf Hc []. constructor; try done. by eapply dseg_frame. Qed.

Lemma dseg_in p buy pr l : forall prev next a,
  dseg p buy pr prev l next -> a ∈ l -> exists pv nx, order_rep p buy pr pv nx a.
Proof.
  induction l as [|b l IH]; intros prev next a; [by intros _ ?%elem_of_nil|].
  intros [Hb Hl] [->|Ha]%elem_of_cons; [by eexists _, _|by eapply IH].
Qed.

(** Indices of stored orders are never the "no index" marker. *)
Lemma order_rep_range p buy pr prev next a :
  pool_ok p -> order_rep p buy pr prev next a -> 0 <= a_idx a < capacity_ p /\ a_idx a <> kInvalidIdx.
Proof.
  intros K (o & _ & Hr & _). pose proof (ok_cap _ K). split; [done|]. unfold kInvalidIdx. range_lia.
Qed.

(** *** Redirecting the ends of a segment *)

Lemma dseg_retail p buy pr prev l b next next' o :
  pool_ok p -> dseg p buy pr prev (l ++ [b]) next -> NoDup (a_idx <$> l ++ [b]) ->
  pool_at p (a_idx b) = Some o ->
  dseg (set_order p (a_idx b) (set_next o next')) buy pr prev (l ++ [b]) next'.
Proof.
  intros K Hd Hn Ho. apply dseg_app in Hd as [Hl Hb]. apply dseg_app. destruct Hb as [Hb _].
  pose proof Hb as (o' & Ho' & Hr & H). rewrite Ho in Ho'. injection Ho' as <-. split.
  - apply (dseg_frame p); [|done|exact Hl]. intros a Ha. rewrite pool_at_set; try done.
    + rewrite decide_False; [done|]. intros E. rewrite fmap_app in Hn. apply list.NoDup_app in Hn as (_ & Hn & _).
      apply (Hn (a_idx a)); [by apply list_elem_of_fmap_2|]. rewrite <- E. simpl. left.
    + destruct (dseg_in _ _ _ _ _ _ a Hl Ha) as (pv & nx & Hx).
      by apply order_rep_range in Hx as [[? _] _].
  - split; [|done]. exists (set_next o next'). rewrite pool_at_set, decide_True by (done || apply Hr).
    split; [done|]. split; [done|]. simpl. tauto.
Qed.

Lemma dseg_rehead p buy pr prev prev' b l next o :
  pool_ok p -> dseg p buy pr prev (b :: l) next -> NoDup (a_idx <$> b :: l) ->
  pool_at p (a_idx b) = Some o ->
  dseg (set_order p (a_idx b) (set_prev o prev')) buy pr prev' (b :: l) next.
Proof.
  intros K [Hb Hl] Hn Ho. pose proof Hb as (o' & Ho' & Hr & H). rewrite Ho in Ho'. injection Ho' as <-. split.
  - exists (set_prev o prev'). rewrite pool_at_set, decide_True by (done || apply Hr).
    split; [done|]. split; [done|]. simpl. tauto.
  - apply (dseg_frame p); [|done|exact Hl]. intros a Ha. rewrite pool_at_set; try done.
    + rewrite decide_False; [done|]. intros E. apply NoDup_cons in Hn as [Hn _]. apply Hn.
      rewrite E. by apply list_elem_of_fmap_2.
    + destruct (dseg_in _ _ _ _ _ _ a Hl Ha) as (pv & nx & Hx).
      by apply order_rep_range in Hx as [[? _] _].
Qed.

(** ** Pool changes confined to some orders, leaving level indices alone *)

Record pool_frame (X : list Z) (p p' : OrderPool) : Prop := {
  pf_ok : pool_ok p';
  pf_cap : capacity_ p' = capacity_ p;
  pf_stack : free_stack p' = free_stack p;
  pf_same j : 0 <= j -> j ∉ X -> pool_at p' j = pool_at p j;
  pf_level j : 0 <= j -> level_idx <$> pool_at p' j = level_idx <$> pool_at p j
}.

Lemma pool_frame_refl X p : pool_ok p -> pool_frame X p p.
Proof. by constructor. Qed.

Lemma pool_frame_trans X p1 p2 p3 : pool_frame X p1 p2 -> pool_frame X p2 p3 -> pool_frame X p1 p3.
Proof.
  intros [] []. constructor; try done; try congruence.
  - intros j Hj Hx. rewrite pf_same1, pf_same0; done.
  - intros j Hj. rewrite pf_level1, pf_level0; done.
Qed.

Lemma pool_frame_sub X Y p p' : (forall j, j ∈ X -> j ∈ Y) -> pool_frame X p p' -> pool_frame Y p p'.
Proof. intros Hs []. constructor; try done. intros j Hj Hy. apply pf_same0; auto. Qed.

Lemma set_order_frame X p j o o' :
  pool_ok p -> j ∈ X -> 0 <= j < capacity_ p -> pool_at p j = Some o -> level_idx o' = level_idx o ->
  pool_frame X p (set_order p j o').
Proof.
  intros K Hx Hj Ho Hl. constructor; try done; [by apply set_order_ok|..].
  - intros i Hi Hni. rewrite pool_at_set, decide_False; try done. by intros ->.
  - intros i Hi. rewrite pool_at_set by done. case_decide as E; [|done]. subst. rewrite Ho. simpl. by rewrite Hl.
Qed.

Lemma u32_sum a b : (u32 a +32 u32 b) = u32 (a + b).
Proof. by rewrite wrap_add_l, wrap_add_r. Qed.

Lemma qsum_app a b : qsum (a ++ b) = qsum a + qsum b.
Proof. unfold qsum. by rewrite fmap_app, zsum_app. Qed.

Lemma qsum_cons a l : qsum (a :: l) = a_qty a + qsum l.
Proof. done. Qed.

Lemma last_or_cases d l : (l = [] /\ last_or d l = d) \/ exists l' b, l = l' ++ [b] /\ last_or d l = a_idx b.
Proof.
  destruct l as [|b l _] using rev_ind; [by left|right]. exists l, b. by rewrite last_or_snoc.
Qed.

(** A level with one order more at the tail. *)
Lemma level_rep_snoc p p' buy lvl lv pr l a q : level_rep p buy lvl (pr, l) -> a_qty a = q ->
  dseg p' buy pr kInvalidIdx l (a_idx a) -> order_rep p' buy pr (last_or kInvalidIdx l) kInvalidIdx a ->
  level_price lv = level_price lvl -> head_order_idx lv = first_or (a_idx a) l -> tail_order_idx lv = a_idx a ->
  total_qty lv = (total_qty lvl +32 q) -> order_count lv = (order_count lvl +32 1) -> level_rep p' buy lv (pr, l ++ [a]).
Proof.
  intros [Rp _ _ _ Rc Rq] Hq Hs Ho Hp Hh Ht Htot Hcnt. simpl in *. split; simpl.
  - congruence.
  - by apply dseg_app.
  - rewrite Hh. by destruct l.
  - by rewrite last_or_snoc.
  - rewrite Hcnt, Rc, wrap_add_l, length_app. simpl. f_equal. lia.
  - rewrite Htot, Rq, wrap_add_l, qsum_app, <- Hq. f_equal. unfold qsum. simpl. lia.
Qed.

(** Appending an order to a level. *)
Lemma link_ok p buy lvl pr l a o :
  pool_ok p -> level_rep p buy lvl (pr, l) -> NoDup (a_idx <$> l ++ [a]) ->
  pool_at p (a_idx a) = Some o -> 0 <= a_idx a < capacity_ p ->
  id o = a_id a -> price o = pr -> qty o = a_qty a -> is_buy (side o) = buy ->
  exists p' lvl', link_order_tail p lvl (a_idx a) = Some (p', lvl')
    /\ level_rep p' buy lvl' (pr, l ++ [a]) /\ pool_frame (a_idx <$> l ++ [a]) p p'.
Proof.
  intros K R Hn Ho Hr Hid Hpr Hq Hb. pose proof R as [Rp Rs Rh Rt Rc Rq]. simpl in *.
  unfold link_order_tail. rewrite Ho. simpl. rewrite Rt.
  set (p1 := set_order p (a_idx a) (set_links o (last_or kInvalidIdx l) kInvalidIdx)).
  assert (Hax : a_idx a ∈ a_idx <$> l ++ [a]) by (apply list_elem_of_fmap_2, elem_of_app; right; left).
  assert (F1 : pool_frame (a_idx <$> l ++ [a]) p p1) by (by eapply set_order_frame).
  pose proof (pf_ok _ _ _ F1) as K1. rewrite fmap_app in Hn. apply list.NoDup_app in Hn as (Hnl & Hna & _).
  assert (Hnot : forall b, b ∈ l -> a_idx b <> a_idx a).
  { intros b Hbl E. apply (Hna (a_idx b)); [by apply list_elem_of_fmap_2|]. rewrite E. simpl. left. }
  assert (Hs1 : dseg p1 buy pr kInvalidIdx l kInvalidIdx).
  { apply (dseg_frame p); [|done|done]. intros b Hbl.
    destruct (dseg_in _ _ _ _ _ _ b Rs Hbl) as (pv & nx & Hx). apply order_rep_range in Hx as [[? _] _]; [|done].
    unfold p1. rewrite pool_at_set, decide_False; try done. intros E. by apply (Hnot b). }
  assert (Hoa : order_rep p1 buy pr (last_or kInvalidIdx l) kInvalidIdx a).
  { eexists. unfold p1. rewrite pool_at_set, decide_True by (done || apply Hr).
    split; [done|]. simpl. split_and!; done || lia. }
  destruct (last_or_cases kInvalidIdx l) as [[-> El]|(l' & b & -> & El)]; rewrite El.
  - rewrite Z.eqb_refl. simpl. eexists _, _. split; [done|]. split; [by apply (level_rep_snoc p p1 buy lvl _ pr [] a (qty o))|done].
  - assert (Hbl : b ∈ l' ++ [b]) by (apply elem_of_app; right; left).
    destruct (dseg_in _ _ _ _ _ _ b Hs1 Hbl) as (pv & nx & Hx).
    pose proof (order_rep_range _ _ _ _ _ _ K1 Hx) as [Hbr Hbi]. destruct Hx as (t & Ht & _).
    destruct (Z.eqb_spec (a_idx b) kInvalidIdx); [done|]. simpl. rewrite Ht. simpl.
    assert (F2 : pool_frame (a_idx <$> (l' ++ [b]) ++ [a]) p1 (set_order p1 (a_idx b) (set_next t (a_idx a)))).
    { eapply set_order_frame; try done. apply list_elem_of_fmap_2, elem_of_app. by left. }
    eexists _, _. split; [done|]. split; [|by eapply pool_frame_trans].
    apply (level_rep_snoc p _ buy lvl _ pr (l' ++ [b]) a (qty o)); try done.
    + by eapply dseg_retail.
    + apply (order_rep_frame p1); [|done|exact Hoa].
      rewrite pool_at_set, decide_False; try done; [|lia]. by apply Hnot.
    + rewrite Rh. by destruct l'.
Qed.

Lemma NoDup_middle {A} (l1 l2 : list A) x : NoDup (l1 ++ x :: l2) -> NoDup (l1 ++ l2) /\ x ∉ l1 ++ l2.
Proof. rewrite <- Permutation_middle. by intros [? ?]%NoDup_cons. Qed.

(** Redirecting the forward link into a segment's end, if it has one. *)
Lemma retail_step p buy pr l old new X :
  pool_ok p -> dseg p buy pr kInvalidIdx l old -> NoDup (a_idx <$> l) ->
  (forall b, b ∈ l -> a_idx b ∈ X) ->
  exists p', (if negb (last_or kInvalidIdx l =? kInvalidIdx)
              then b ← pool_at p (last_or kInvalidIdx l);
                   Some (set_order p (last_or kInvalidIdx l) (set_next b new))
              else Some p) = Some p'
    /\ dseg p' buy pr kInvalidIdx l new /\ pool_frame X p p'
    /\ (forall j, 0 <= j -> j ∉ a_idx <$> l -> pool_at p' j = pool_at p j)
    /\ (last_or kInvalidIdx l =? kInvalidIdx) = bool_decide (l = []).
Proof.
  intros K Hd Hn HX. destruct (last_or_cases kInvalidIdx l) as [[-> El]|(l' & b & -> & El)]; rewrite El.
  - exists p. split_and!; try done; by apply pool_frame_refl.
  - assert (Hbl : b ∈ l' ++ [b]) by (apply elem_of_app; right; left).
    destruct (dseg_in _ _ _ _ _ _ b Hd Hbl) as (pv & nx & Hx).
    pose proof (order_rep_range _ _ _ _ _ _ K Hx) as [Hbr Hbi]. destruct Hx as (t & Ht & _).
    destruct (Z.eqb_spec (a_idx b) kInvalidIdx); [done|]. simpl. rewrite Ht. simpl.
    eexists. split; [done|]. split; [by eapply dseg_retail|]. split; [eapply set_order_frame; [done|by apply HX|done|exact Ht|done]|].
    split; [|symmetry; apply bool_decide_eq_false_2; by destruct l'].
    intros j Hj Hjl. rewrite pool_at_set, decide_False; try done. intros <-. apply Hjl.
    by apply list_elem_of_fmap_2.
Qed.

Lemma rehead_step p buy pr l old new X :
  pool_ok p -> dseg p buy pr old l kInvalidIdx -> NoDup (a_idx <$> l) ->
  (forall b, b ∈ l -> a_idx b ∈ X) ->
  exists p', (if negb (first_or kInvalidIdx l =? kInvalidIdx)
              then b ← pool_at p (first_or kInvalidIdx l);
                   Some (set_order p (first_or kInvalidIdx l) (set_prev b new))
              else Some p) = Some p'
    /\ dseg p' buy pr new l kInvalidIdx /\ pool_frame X p p'
    /\ (forall j, 0 <= j -> j ∉ a_idx <$> l -> pool_at p' j = pool_at p j)
    /\ (first_or kInvalidIdx l =? kInvalidIdx) = bool_decide (l = []).
Proof.
  intros K Hd Hn HX. destruct l as [|b l]; simpl.
  - exists p. split_and!; try done; by apply pool_frame_refl.
  - assert (Hbl : b ∈ b :: l) by left.
    destruct (dseg_in _ _ _ _ _ _ b Hd Hbl) as (pv & nx & Hx).
    pose proof (order_rep_range _ _ _ _ _ _ K Hx) as [Hbr Hbi]. destruct Hx as (t & Ht & _).
    destruct (Z.eqb_spec (a_idx b) kInvalidIdx); [done|]. simpl. rewrite Ht. simpl.
    eexists. split; [done|]. split; [by eapply (dseg_rehead p)|]. split; [eapply set_order_frame; [done|by apply HX|done|exact Ht|done]|].
    split; [|done].
    intros j Hj Hjl. rewrite pool_at_set, decide_False; try done. intros <-. apply Hjl. left.
Qed.

(** The writes of [unlink_order] when the neighbours are those of the queue. *)
Lemma unlink_writes p p1 p2 lvl l1 l2 a o :
  (if negb (last_or kInvalidIdx l1 =? kInvalidIdx)
   then b ← pool_at p (last_or kInvalidIdx l1); Some (set_order p (last_or kInvalidIdx l1) (set_next b (first_or kInvalidIdx l2)))
   else Some p) = Some p1 ->
  (if negb (first_or kInvalidIdx l2 =? kInvalidIdx)
   then b ← pool_at p1 (first_or kInvalidIdx l2); Some (set_order p1 (first_or kInvalidIdx l2) (set_prev b (last_or kInvalidIdx l1)))
   else Some p1) = Some p2 ->
  (last_or kInvalidIdx l1 =? kInvalidIdx) = bool_decide (l1 = []) ->
  (first_or kInvalidIdx l2 =? kInvalidIdx) = bool_decide (l2 = []) ->
  head_order_idx lvl = first_or kInvalidIdx (l1 ++ a :: l2) -> tail_order_idx lvl = last_or kInvalidIdx (l1 ++ a :: l2) ->
  ('(p1, head) ←
     (if negb (last_or kInvalidIdx l1 =? kInvalidIdx)
      then b ← pool_at p (last_or kInvalidIdx l1);
           Some (set_order p (last_or kInvalidIdx l1) (set_next b (first_or kInvalidIdx l2)), head_order_idx lvl)
      else Some (p, first_or kInvalidIdx l2));
   '(p2, tail) ←
     (if negb (first_or kInvalidIdx l2 =? kInvalidIdx)
      then b ← pool_at p1 (first_or kInvalidIdx l2);
           Some (set_order p1 (first_or kInvalidIdx l2) (set_prev b (last_or kInvalidIdx l1)), tail_order_idx lvl)
      else Some (p1, last_or kInvalidIdx l1));
   Some (p2, mkLevel (level_price lvl) (total_qty lvl -32 qty o) (order_count lvl -32 1) head tail (pad lvl)))
  = Some (p2, mkLevel (level_price lvl) (total_qty lvl -32 qty o) (order_count lvl -32 1)
                (first_or kInvalidIdx (l1 ++ l2)) (last_or kInvalidIdx (l1 ++ l2)) (pad lvl)).
Proof.
  intros E1 E2 T1 T2 Rh Rt. rewrite T1, T2 in *. destruct (bool_decide_reflect (l1 = [])) as [->|N1]; simpl in *.
  - injection E1 as <-. destruct (bool_decide_reflect (l2 = [])) as [->|N2]; simpl in *.
    + by injection E2 as <-.
    + apply bind_Some in E2 as (t & -> & [= <-]). simpl. rewrite Rt. unfold last_or.
      destruct l2 as [|c l2]; [done|]. by rewrite last_cons_cons.
  - apply bind_Some in E1 as (t & -> & [= <-]). simpl. destruct (bool_decide_reflect (l2 = [])) as [->|N2]; simpl in *.
    + injection E2 as <-. rewrite Rh, app_nil_r. by destruct l1.
    + apply bind_Some in E2 as (t2 & -> & [= <-]). simpl. rewrite Rh, Rt. unfold last_or.
      destruct l2 as [|c l2]; [done|]. rewrite !last_app_cons, last_cons_cons. by destruct l1.
Qed.

(** Removing an order from its level; the order itself is not written. *)
Lemma unlink_ok p buy lvl pr l1 a l2 :
  pool_ok p -> level_rep p buy lvl (pr, l1 ++ a :: l2) -> NoDup (a_idx <$> l1 ++ a :: l2) ->
  exists p' lvl', unlink_order p lvl (a_idx a) = Some (p', lvl')
    /\ level_rep p' buy lvl' (pr, l1 ++ l2) /\ pool_frame (a_idx <$> l1 ++ l2) p p'.
Proof.
  intros K [Rp Rs Rh Rt Rc Rq] Hn. simpl in *. apply dseg_app in Rs as [Hs1 [Ha Hs2]]. simpl in Hs1.
  rewrite fmap_app, fmap_cons in Hn. apply list.NoDup_app in Hn as (Hn1 & Hd & Hn2).
  apply NoDup_cons in Hn2 as [Hna2 Hn2].
  assert (Hna1 : a_idx a ∉ a_idx <$> l1) by (intros Hx; apply (Hd _ Hx); left).
  assert (Hd12 : forall b, b ∈ l2 -> a_idx b ∉ a_idx <$> l1).
  { intros b Hb Hx. apply (Hd _ Hx). right. by apply list_elem_of_fmap_2. }
  destruct (retail_step p buy pr l1 (a_idx a) (first_or kInvalidIdx l2) (a_idx <$> l1 ++ l2) K Hs1 Hn1)
    as (p1 & E1 & S1 & F1 & Same1 & T1).
  { intros b Hb. apply list_elem_of_fmap_2, elem_of_app. by left. }
  assert (Hs2' : dseg p1 buy pr (a_idx a) l2 kInvalidIdx).
  { apply (dseg_frame p); [|apply F1|done]. intros b Hb. apply Same1; [|by apply Hd12].
    destruct (dseg_in _ _ _ _ _ _ b Hs2 Hb) as (pv & nx & Hx). by apply order_rep_range in Hx as [[? _] _]. }
  destruct (rehead_step p1 buy pr l2 (a_idx a) (last_or kInvalidIdx l1) (a_idx <$> l1 ++ l2) (pf_ok _ _ _ F1) Hs2' Hn2)
    as (p2 & E2 & S2 & F2 & Same2 & T2).
  { intros b Hb. apply list_elem_of_fmap_2, elem_of_app. by right. }
  destruct Ha as (o & Ho & Hr & Hid & Hpr & Hq & Hsd & Hpv & Hnx).
  unfold unlink_order. rewrite Ho. simpl. rewrite Hpv, Hnx.
  rewrite (unlink_writes p p1 p2 lvl l1 l2 a o E1 E2 T1 T2 Rh Rt). eexists p2, _. split; [done|].
  split; [|by eapply pool_frame_trans]. constructor; simpl; try done.
  - apply dseg_app. split; [|done]. apply (dseg_frame p1); [|apply F2|done].
    intros b Hb. apply Same2.
    + destruct (dseg_in _ _ _ _ _ _ b S1 Hb) as (pv & nx & Hx).
      apply order_rep_range in Hx as [[? _] _]; [done|apply F1].
    + intros (c & Ec & Hc)%list_elem_of_fmap. apply (Hd12 c Hc). rewrite <- Ec. by apply list_elem_of_fmap_2.
  - rewrite Rc, wrap_sub_l, !length_app, length_cons. f_equal. lia.
  - rewrite Rq, Hq, wrap_sub_l, !qsum_app, qsum_cons. f_equal. lia.
Qed.

(** Changing reference and quantity of an order in place. *)
Lemma amend_ok p buy lvl pr l1 a l2 o new_id new_qty total :
  pool_ok p -> level_rep p buy lvl (pr, l1 ++ a :: l2) -> NoDup (a_idx <$> l1 ++ a :: l2) ->
  pool_at p (a_idx a) = Some o ->
  total = u32 (qsum (l1 ++ mkA (a_idx a) new_id new_qty :: l2)) ->
  let p' := set_order p (a_idx a) (mkOrder new_id (price o) new_qty (prev_idx o) (next_idx o)
                                     (level_idx o) (side o)) in
  level_rep p' buy (mkLevel (level_price lvl) total (order_count lvl) (head_order_idx lvl)
                      (tail_order_idx lvl) (pad lvl))
    (pr, l1 ++ mkA (a_idx a) new_id new_qty :: l2)
  /\ pool_frame [a_idx a] p p' /\ is_buy (side o) = buy /\ price o = pr /\ qty o = a_qty a
  /\ id o = a_id a /\ 0 <= a_idx a < capacity_ p.
Proof.
  intros K [Rp Rs Rh Rt Rc Rq] Hn Ho Ht p'. simpl in *.
  apply dseg_app in Rs as [Hs1 [Ha Hs2]]. simpl in Hs1.
  pose proof Ha as (o' & Ho' & Hr & Hid & Hpr & Hq & Hsd & Hpv & Hnx).
  rewrite Ho in Ho'. injection Ho' as <-.
  rewrite fmap_app, fmap_cons in Hn. apply NoDup_middle in Hn as [_ Hn]. rewrite <- fmap_app in Hn.
  assert (Same : forall b, b ∈ l1 ++ l2 -> 0 <= a_idx b -> pool_at p' (a_idx b) = pool_at p (a_idx b)).
  { intros b Hb Hb0. unfold p'. rewrite pool_at_set, decide_False; try done. intros E. apply Hn.
    rewrite E. by apply list_elem_of_fmap_2. }
  split; [|split; [|done]].
  - constructor; simpl; try done.
    + apply dseg_app. simpl. split; [|split].
      * apply (dseg_frame p); [|done|done]. intros b Hb.
        destruct (dseg_in _ _ _ _ _ _ b Hs1 Hb) as (pv & nx & Hx). apply order_rep_range in Hx as [[? _] _]; [|done].
        apply Same; [apply elem_of_app; by left|done].
      * eexists. unfold p'. simpl. rewrite pool_at_set, decide_True by (done || apply Hr).
        split; [done|]. simpl. split_and!; done || lia.
      * apply (dseg_frame p); [|done|done]. intros b Hb.
        destruct (dseg_in _ _ _ _ _ _ b Hs2 Hb) as (pv & nx & Hx). apply order_rep_range in Hx as [[? _] _]; [|done].
        apply Same; [apply elem_of_app; by right|done].
    + rewrite Rh. by destruct l1.
    + rewrite Rt. unfold last_or. rewrite !last_app_cons. by destruct l2.
    + rewrite Rc, !length_app, !length_cons. done.
  - eapply set_order_frame; try done. left.
Qed.

(** ** Sides *)

Record side_rep (p : OrderPool) (buy : bool) (ls : list PriceLevel) (count : Z) (A : list ALevel) : Prop := {
  sr_len : Z.of_nat (length ls) = MAX_PRICE_LEVELS;
  sr_count : count = Z.of_nat (length A);
  sr_max : count <= MAX_PRICE_LEVELS;
  sr_levels : Forall2 (level_rep p buy) (active ls count) A;
  sr_sorted : best_first buy A.*1
}.

Lemma levels_prices p buy lvs A : Forall2 (level_rep p buy) lvs A -> level_price <$> lvs = A.*1.
Proof. induction 1 as [|lv L l A' H _ IH]; [done|]. simpl. f_equal; [apply H|done]. Qed.

Lemma orders_app A1 A2 : orders (A1 ++ A2) = orders A1 ++ orders A2.
Proof. unfold orders. by rewrite fmap_app, concat_app. Qed.

Lemma orders_cons L A : orders (L :: A) = L.2 ++ orders A.
Proof. done. Qed.

Lemma levels_frame p p' buy lvs A :
  Forall2 (level_rep p buy) lvs A -> capacity_ p' = capacity_ p ->
  (forall a, a ∈ orders A -> pool_at p' (a_idx a) = pool_at p (a_idx a)) ->
  Forall2 (level_rep p' buy) lvs A.
Proof.
  intros H Hc. induction H as [|lv L l A' H _ IH]; intros Hf; constructor.
  - apply (level_rep_frame p); [|done|done]. intros a Ha. apply Hf. rewrite orders_cons. apply elem_of_app. by left.
  - apply IH. intros a Ha. apply Hf. rewrite orders_cons. apply elem_of_app. by right.
Qed.

Lemma side_rep_frame p p' buy ls count A :
  side_rep p buy ls count A -> capacity_ p' = capacity_ p ->
  (forall a, a ∈ orders A -> pool_at p' (a_idx a) = pool_at p (a_idx a)) ->
  side_rep p' buy ls count A.
Proof. intros [] Hc Hf. constructor; try done. by eapply levels_frame. Qed.

(** Reading and overwriting a level. *)
Lemma side_lookup p buy ls count A1 L A2 :
  side_rep p buy ls count (A1 ++ L :: A2) ->
  exists lv, ls !! length A1 = Some lv /\ level_rep p buy lv L.
Proof.
  intros []. apply Forall2_app_inv_r in sr_levels0 as (v1 & v2 & H1 & H2 & E).
  inversion H2 as [|lv ? v2' ? Hl H2']; subst. exists lv. split; [|done].
  apply Forall2_length in H1. unfold active in E.
  assert (Hlk : take (Z.to_nat (Z.of_nat (length (A1 ++ L :: A2)))) ls !! length A1 = Some lv).
  { rewrite E, <- H1, lookup_app_r, Nat.sub_diag by lia. done. }
  by apply lookup_take_Some in Hlk as [? _].
Qed.

Lemma side_store p p' buy ls count A1 L A2 lv' L' :
  side_rep p buy ls count (A1 ++ L :: A2) -> level_rep p' buy lv' L' -> L'.1 = L.1 ->
  capacity_ p' = capacity_ p ->
  (forall a, a ∈ orders A1 ++ orders A2 -> pool_at p' (a_idx a) = pool_at p (a_idx a)) ->
  exists ls', store ls (Z.of_nat (length A1)) lv' = Some ls'
    /\ side_rep p' buy ls' count (A1 ++ L' :: A2).
Proof.
  intros S Hl Hp Hc Hf. pose proof S as [Hlen Hcount Hmax Hlev Hs].
  pose proof (side_lookup _ _ _ _ _ _ _ S) as (lv & Hlk & _). pose proof (lookup_lt_Some _ _ _ Hlk) as Hlt.
  unfold store. rewrite decide_True by lia. eexists. split; [done|]. rewrite Nat2Z.id.
  constructor.
  - by rewrite length_insert.
  - rewrite Hcount, !length_app. done.
  - done.
  - unfold active in *. rewrite take_insert_lt.
    2:{ rewrite Hcount, length_app. simpl. lia. }
    apply Forall2_app_inv_r in Hlev as (v1 & v2 & H1 & H2 & E).
    inversion H2 as [|lv0 ? v2' ? Hl0 H2']; subst v2 y l'. rewrite E. pose proof (Forall2_length _ _ _ H1) as Hl1.
    rewrite insert_app_r_alt, <- Hl1, Nat.sub_diag by lia. simpl. apply Forall2_app; [|constructor; [done|]].
    + eapply levels_frame; [done|done|]. intros a Ha. apply Hf, elem_of_app. by left.
    + eapply levels_frame; [done|done|]. intros a Ha. apply Hf, elem_of_app. by right.
  - rewrite fmap_app, fmap_cons in *. by rewrite Hp.
Qed.

Lemma side_prices p buy ls count A : side_rep p buy ls count A -> prices ls count = A.*1.
Proof. intros []. by eapply levels_prices. Qed.

(** A blank level at its sorted place. *)
Lemma side_insert p buy ls count A pr :
  side_rep p buy ls count A -> pr ∉ A.*1 -> count < MAX_PRICE_LEVELS ->
  exists A1 A2 ls', A = A1 ++ A2
    /\ insert_level buy ls count pr = Some (ls', count + 1, Z.of_nat (length A1))
    /\ side_rep p buy ls' (count + 1) (A1 ++ (pr, []) :: A2)
    /\ Forall (fun L => better buy L.1 pr) A1 /\ Forall (fun L => better buy pr L.1) A2.
Proof.
  intros S Hp Hlt. pose proof S as [Hl Hc Hm Hlev Hs]. pose proof (side_prices _ _ _ _ _ S) as Hpr.
  assert (Hok : side_ok buy ls count) by (constructor; [done|lia|by rewrite Hpr]).
  destruct (insert_level_spec buy ls count pr Hl) as (pos & ls' & E & Hpos & Hl' & Ha & Hb & Hn); [lia|].
  pose proof (insert_level_side_ok buy ls count pr ls' (count + 1) _ Hok ltac:(by rewrite Hpr) E) as [_ _ Hs'].
  exists (take pos A), (drop pos A), ls'. split; [by rewrite take_drop|].
  rewrite length_take, Nat.min_l by lia. split; [done|].
  assert (Hlev' : Forall2 (level_rep p buy) (active ls' (count + 1)) (take pos A ++ (pr, []) :: drop pos A)).
  { rewrite Ha. apply Forall2_app; [by apply Forall2_take|]. constructor; [by constructor|by apply Forall2_drop]. }
  pose proof (levels_prices _ _ _ _ Hlev') as Hpr'. fold (prices ls' (count + 1)) in Hpr'.
  rewrite Hpr', fmap_app, fmap_cons in Hs'. simpl in Hs'.
  split; [|split].
  - constructor; try done.
    + by rewrite Hl'.
    + rewrite Hc, length_app, length_cons, length_take, length_drop. lia.
    + lia.
    + by rewrite fmap_app, fmap_cons.
  - rewrite <- (Forall_fmap fst (fun x => better buy x pr)), fmap_take, <- Hpr.
    unfold prices. by rewrite <- fmap_take, Forall_fmap.
  - apply StronglySorted_app in Hs' as (_ & _ & Hs'). inversion_clear Hs' as [|?? _ Hx].
    by rewrite Forall_fmap in Hx.
Qed.

Lemma side_remove p buy ls count A1 L A2 :
  side_rep p buy ls count (A1 ++ L :: A2) ->
  exists ls', remove_level ls count (Z.of_nat (length A1)) = Some (ls', count - 1)
    /\ side_rep p buy ls' (count - 1) (A1 ++ A2).
Proof.
  intros [Hl Hc Hm Hlev Hs]. rewrite length_app, length_cons in Hc.
  destruct (remove_level_spec ls count (Z.of_nat (length A1)) Hl) as (ls' & E & Hl' & Ha); [lia|lia|].
  exists ls'. split; [done|]. constructor.
  - by rewrite Hl'.
  - rewrite length_app. lia.
  - lia.
  - rewrite Ha. destruct (Z.ltb_spec (Z.of_nat (length A1)) count); [|lia]. rewrite Nat2Z.id.
    apply Forall2_app_inv_r in Hlev as (v1 & v2 & H1 & H2 & E2).
    inversion H2 as [|lv0 ? v2' ? Hl0 H2']; subst v2 y l'. rewrite E2. pose proof (Forall2_length _ _ _ H1) as Hl1.
    rewrite <- Hl1, delete_middle. by apply Forall2_app.
  - rewrite fmap_app, fmap_cons in Hs. rewrite fmap_app.
    apply (sorted_delete _ _ (length A1.*1)) in Hs. by rewrite delete_middle in Hs.
Qed.
