(* ===== verification/BookRefine.v ===== *)
(** * The handlers of a book refine operations on price-time priority lists

    The abstract book of this file is, for each side, a list of price levels
    best first, each a queue of orders in time priority.  Every handler is
    shown to implement its abstract operation, given that the level index
    stored in the order it acts on is up to date; the last section shows what
    happens when it is not. *)

From stdpp Require Import sorting gmap.
From S2P Require Import Prelude Types OrderMap OrderPool Level2Book BookLevels BookRep.

(** ** Specification *)

Fixpoint spec_add (buy : bool) (A : list ALevel) (pr : Z) (a : AOrder) : list ALevel :=
  match A with
  | [] => [(pr, [a])]
  | (p, l) :: A' =>
      if p =? pr then (p, l ++ [a]) :: A'
      else if goes_before buy p pr then (p, l) :: spec_add buy A' pr a
      else (pr, [a]) :: (p, l) :: A'
  end.

(** An order leaves its queue; a level without orders disappears. *)
Definition spec_remove (ref : Z) (A : list ALevel) : list ALevel :=
  omap (fun L => let l := filter (fun a => a_id a <> ref) L.2 in
                 match l with [] => None | _ => Some (L.1, l) end) A.

(** An order changes reference and quantity and keeps its place. *)
Definition spec_amend (ref new_ref new_qty : Z) (A : list ALevel) : list ALevel :=
  (fun L : ALevel =>
     (L.1, (fun a => if a_id a =? ref then mkA (a_idx a) new_ref new_qty else a) <$> L.2)) <$> A.

(** An abstract book has a side for each Boolean (true: bids). *)
Abbreviation ABook := (bool -> list ALevel).
Definition set_aside (B : ABook) (buy : bool) (A : list ALevel) : ABook :=
  fun b => if Bool.eqb b buy then A else B b.
Definition all_orders (B : ABook) : list AOrder := orders (B true) ++ orders (B false).

(** ** Representation of a book *)

Definition sides (p : OrderPool) (b : Level2Book) (B : ABook) : Prop :=
  forall buy, side_rep p buy (levels_of b buy) (count_of b buy) (B buy).

Section Rep.
Context {M : Type} `{MapLaws M}.

Record book_rep (b : Level2Book) (s : ShardMem M) (B : ABook) (g : gmap Z Z) : Prop := {
  br_pool : pool_ok (pool s);
  br_map : map_rep (order_map_ s) g;
  br_sides : sides (pool s) b B;
  br_nonempty buy : Forall (fun L => L.2 <> []) (B buy);
  br_nodup : NoDup (a_idx <$> all_orders B);
  br_known a : a ∈ all_orders B ->
    in_use (pool s) (a_idx a) /\ a_id a <> 0 /\ g !! a_id a = Some (a_idx a)
}.

(** The level index stored in the pool for [a] is the one of its level. *)
Definition current (p : OrderPool) (A : list ALevel) (a : AOrder) : Prop :=
  exists n L o, A !! n = Some L /\ a ∈ L.2 /\ pool_at p (a_idx a) = Some o
    /\ level_idx o = Z.of_nat n.

End Rep.

(** ** Lemmas on the specification *)

Lemma spec_add_found buy A1 pr l A2 a :
  Forall (fun L => better buy L.1 pr) A1 ->
  spec_add buy (A1 ++ (pr, l) :: A2) pr a = A1 ++ (pr, l ++ [a]) :: A2.
Proof.
  induction 1 as [|[p l'] A1 Hb HA IH]; simpl; [by rewrite Z.eqb_refl|]. simpl in Hb.
  destruct (Z.eqb_spec p pr); [subst; destruct buy; simpl in Hb; lia|].
  rewrite (proj2 (goes_before_spec buy p pr) Hb). by rewrite IH.
Qed.

Lemma spec_add_new buy A1 pr A2 a :
  Forall (fun L => better buy L.1 pr) A1 -> Forall (fun L => better buy pr L.1) A2 ->
  spec_add buy (A1 ++ A2) pr a = A1 ++ (pr, [a]) :: A2.
Proof.
  intros H1 H2. induction H1 as [|[p l'] A1 Hb HA IH]; simpl.
  - destruct H2 as [|[p l] A2 Hb _]; [done|]. simpl in *.
    destruct (Z.eqb_spec p pr); [subst; destruct buy; simpl in Hb; lia|].
    destruct (goes_before buy p pr) eqn:E; [|done].
    apply goes_before_spec in E. destruct buy; simpl in *; lia.
  - simpl in Hb. destruct (Z.eqb_spec p pr); [subst; destruct buy; simpl in Hb; lia|].
    rewrite (proj2 (goes_before_spec buy p pr) Hb). by rewrite IH.
Qed.

(** A queue as the levels it leaves. *)
Definition keep (pr : Z) (l : list AOrder) : list ALevel := match l with [] => [] | _ => [(pr, l)] end.

Lemma filter_all (P : AOrder -> Prop) `{forall a, Decision (P a)} (l : list AOrder) :
  (forall a, a ∈ l -> P a) -> filter P l = l.
Proof.
  induction l as [|a l IH]; intros Hl; [done|]. rewrite filter_cons_True by (apply Hl; left).
  f_equal. apply IH. intros b Hb. apply Hl. by right.
Qed.

Lemma spec_remove_other ref A :
  Forall (fun L => L.2 <> []) A -> (forall a, a ∈ orders A -> a_id a <> ref) -> spec_remove ref A = A.
Proof.
  unfold spec_remove. induction 1 as [|[p l] A Hl HA IH]; intros Hr; [done|]. simpl in *.
  rewrite filter_all.
  - destruct l as [|x l0]; [done|]. f_equal. apply IH. intros a Ha. apply Hr. rewrite orders_cons.
    apply elem_of_app. by right.
  - intros a Ha. apply Hr. rewrite orders_cons. apply elem_of_app. by left.
Qed.

Lemma spec_remove_app ref A1 A2 :
  spec_remove ref (A1 ++ A2) = spec_remove ref A1 ++ spec_remove ref A2.
Proof. apply omap_app. Qed.

Lemma spec_remove_cons ref pr l A :
  spec_remove ref ((pr, l) :: A) = keep pr (filter (fun a => a_id a <> ref) l) ++ spec_remove ref A.
Proof. unfold spec_remove. simpl. by destruct (filter _ l). Qed.

Lemma spec_remove_at A1 pr l1 a l2 A2 :
  Forall (fun L => L.2 <> []) A1 -> Forall (fun L => L.2 <> []) A2 ->
  (forall c, c ∈ orders A1 ++ orders A2 ++ l1 ++ l2 -> a_id c <> a_id a) ->
  spec_remove (a_id a) (A1 ++ (pr, l1 ++ a :: l2) :: A2) = A1 ++ keep pr (l1 ++ l2) ++ A2.
Proof.
  intros H1 H2 Hr. rewrite spec_remove_app, spec_remove_cons.
  rewrite (spec_remove_other _ A1), (spec_remove_other _ A2); try done;
    try (intros c Hc; apply Hr; rewrite !elem_of_app; tauto).
  rewrite filter_app, filter_cons_False by (intros Hx; by apply Hx).
  by rewrite !filter_all by (intros c Hc; apply Hr; rewrite !elem_of_app; tauto).
Qed.

Lemma spec_amend_other ref n q A : (forall a, a ∈ orders A -> a_id a <> ref) -> spec_amend ref n q A = A.
Proof.
  unfold spec_amend. induction A as [|[p l] A IH]; intros Hr; [done|]. simpl. f_equal.
  - f_equal. rewrite <- (list_fmap_id l) at 2. apply list_fmap_ext. intros i a Ha. simpl.
    destruct (Z.eqb_spec (a_id a) ref) as [E|]; [|done].
    destruct (Hr a); [|done]. rewrite orders_cons. apply elem_of_app. left. by eapply list_elem_of_lookup_2.
  - apply IH. intros a Ha. apply Hr. rewrite orders_cons. apply elem_of_app. by right.
Qed.

Lemma spec_amend_at A1 pr l1 a l2 A2 n q :
  (forall c, c ∈ orders A1 ++ orders A2 ++ l1 ++ l2 -> a_id c <> a_id a) ->
  spec_amend (a_id a) n q (A1 ++ (pr, l1 ++ a :: l2) :: A2)
    = A1 ++ (pr, l1 ++ mkA (a_idx a) n q :: l2) :: A2.
Proof.
  intros Hr. assert (Hl : forall l : list AOrder, (forall c, c ∈ l -> a_id c <> a_id a) ->
    (fun c => if a_id c =? a_id a then mkA (a_idx c) n q else c) <$> l = l).
  { intros l Hx. pose proof (spec_amend_other (a_id a) n q [(pr, l)]) as E.
    unfold spec_amend in E. simpl in E. rewrite orders_cons in E. simpl in E. rewrite app_nil_r in E.
    specialize (E Hx). by injection E. }
  unfold spec_amend. rewrite fmap_app, fmap_cons. simpl. rewrite fmap_app, fmap_cons, Z.eqb_refl.
  rewrite !Hl by (intros c Hc; apply Hr; rewrite !elem_of_app; tauto).
  pose proof (spec_amend_other (a_id a) n q A1) as E1. pose proof (spec_amend_other (a_id a) n q A2) as E2.
  unfold spec_amend in E1, E2. rewrite E1, E2; [done|..]; intros c Hc; apply Hr; rewrite !elem_of_app; tauto.
Qed.

(** ** One side of a book at a time *)

Lemma set_aside_eq B buy A : set_aside B buy A buy = A.
Proof. unfold set_aside. by rewrite eqb_reflx. Qed.

Lemma set_aside_other B buy A : set_aside B buy A (negb buy) = B (negb buy).
Proof. unfold set_aside. by destruct buy. Qed.

Lemma set_aside_forall (P : bool -> list ALevel -> Prop) B buy A :
  P buy A -> P (negb buy) (B (negb buy)) -> forall b, P b (set_aside B buy A b).
Proof. intros H1 H2 b. unfold set_aside. by destruct b, buy. Qed.

Lemma levels_of_set b buy ls c buy' :
  levels_of (set_side b buy ls c) buy' = if Bool.eqb buy' buy then ls else levels_of b buy'.
Proof. by destruct buy, buy'. Qed.

Lemma count_of_set b buy ls c buy' :
  count_of (set_side b buy ls c) buy' = if Bool.eqb buy' buy then c else count_of b buy'.
Proof. by destruct buy, buy'. Qed.

(** The orders of a book, one queue first. *)
Lemma all_orders_side B buy : all_orders B ≡ₚ orders (B buy) ++ orders (B (negb buy)).
Proof. unfold all_orders. destruct buy; simpl; [done|]. apply Permutation_app_comm. Qed.

Lemma all_orders_queue B buy A1 pr l A2 :
  B buy = A1 ++ (pr, l) :: A2 ->
  all_orders B ≡ₚ l ++ (orders A1 ++ orders A2) ++ orders (B (negb buy)).
Proof.
  intros E. rewrite (all_orders_side B buy), E, orders_app, orders_cons. simpl.
  by rewrite !app_assoc, (Permutation_app_comm (orders A1) l).
Qed.

Lemma queue_disjoint B buy A1 pr l A2 :
  NoDup (a_idx <$> all_orders B) -> B buy = A1 ++ (pr, l) :: A2 ->
  NoDup (a_idx <$> l)
  /\ forall c, c ∈ (orders A1 ++ orders A2) ++ orders (B (negb buy)) -> a_idx c ∉ a_idx <$> l.
Proof.
  intros Hn E. rewrite (all_orders_queue _ _ _ _ _ _ E), fmap_app in Hn.
  apply NoDup_app in Hn as (Hl & Hd & _). split; [done|]. intros c Hc Hx.
  apply (Hd _ Hx). by apply list_elem_of_fmap_2.
Qed.

(** Overwriting one level, with a change of the pool elsewhere invisible. *)
Lemma sides_store p p' b B buy A1 pr l A2 lv' l' :
  sides p b B -> B buy = A1 ++ (pr, l) :: A2 -> level_rep p' buy lv' (pr, l') ->
  capacity_ p' = capacity_ p ->
  (forall c, c ∈ (orders A1 ++ orders A2) ++ orders (B (negb buy)) ->
     pool_at p' (a_idx c) = pool_at p (a_idx c)) ->
  exists ls', store (levels_of b buy) (Z.of_nat (length A1)) lv' = Some ls'
    /\ sides p' (set_side b buy ls' (count_of b buy)) (set_aside B buy (A1 ++ (pr, l') :: A2)).
Proof.
  intros S E Hl Hc Hf. pose proof (S buy) as Sb. rewrite E in Sb.
  destruct (side_store p p' buy _ _ _ _ _ lv' (pr, l') Sb Hl eq_refl Hc) as (ls' & Hs & S').
  { intros c Hcc. apply Hf, elem_of_app. by left. }
  exists ls'. split; [done|]. intros b'. rewrite levels_of_set, count_of_set. unfold set_aside.
  destruct (Bool.eqb b' buy) eqn:Eb.
  - apply eqb_prop in Eb. by subst.
  - assert (b' = negb buy) as -> by (destruct b', buy; done).
    apply (side_rep_frame p); [apply S|done|]. intros c Hcc. apply Hf, elem_of_app. by right.
Qed.

Lemma sides_frame p p' b B :
  sides p b B -> capacity_ p' = capacity_ p ->
  (forall c, c ∈ all_orders B -> pool_at p' (a_idx c) = pool_at p (a_idx c)) -> sides p' b B.
Proof.
  intros S Hc Hf buy. apply (side_rep_frame p); [apply S|done|]. intros c Hcc. apply Hf.
  rewrite (all_orders_side B buy). apply elem_of_app. by left.
Qed.

Lemma sides_set p b B buy ls c A :
  sides p b B -> side_rep p buy ls c A -> sides p (set_side b buy ls c) (set_aside B buy A).
Proof.
  intros S Hs b'. rewrite levels_of_set, count_of_set. unfold set_aside.
  destruct (Bool.eqb b' buy) eqn:Eb; [apply eqb_prop in Eb; by subst|apply S].
Qed.

(** Every order of a book is a valid pool index holding that order. *)
Lemma sides_order p b B a : sides p b B -> a ∈ all_orders B -> pool_ok p ->
  0 <= a_idx a < capacity_ p.
Proof.
  intros S Ha K. assert (Hb : exists buy, a ∈ orders (B buy)).
  { unfold all_orders in Ha. apply elem_of_app in Ha as [?|?]; [by exists true|by exists false]. }
  destruct Hb as (buy & Hb). destruct (S buy) as [_ _ _ Hl _]. revert Hb.
  generalize dependent (B buy). intros A Hl Hb.
  induction Hl as [|lv L lvs A' HL _ IH]; [by apply elem_of_nil in Hb|].
  rewrite orders_cons in Hb. apply elem_of_app in Hb as [Hb|Hb]; [|by apply IH].
  destruct (dseg_in _ _ _ _ _ _ a (lr_seg _ _ _ _ HL) Hb) as (pv & nx & Hx).
  by apply order_rep_range in Hx as [? _].
Qed.

(** Where an order sits. *)
Lemma order_position A a : a ∈ orders A ->
  exists A1 pr l1 l2 A2, A = A1 ++ (pr, l1 ++ a :: l2) :: A2.
Proof.
  induction A as [|[pr l] A IH]; [by intros ?%elem_of_nil|]. rewrite orders_cons. simpl.
  intros [Hl|Ha]%elem_of_app.
  - apply list_elem_of_split in Hl as (l1 & l2 & ->). by exists [], pr, l1, l2, A.
  - destruct (IH Ha) as (A1 & pr' & l1 & l2 & A2 & ->). by exists ((pr, l) :: A1), pr', l1, l2, A2.
Qed.

(** A queue is shorter than the pool. *)
Lemma queue_length p buy lv pr l : pool_ok p -> level_rep p buy lv (pr, l) -> NoDup (a_idx <$> l) ->
  Z.of_nat (length l) <= capacity_ p.
Proof.
  intros K R Hn. assert (Hsub : a_idx <$> l ⊆+ seqZ 0 (capacity_ p)).
  { apply NoDup_submseteq; [done|]. intros x (a & -> & Ha)%list_elem_of_fmap. apply elem_of_seqZ.
    destruct (dseg_in _ _ _ _ _ _ a (lr_seg _ _ _ _ R) Ha) as (pv & nx & Hx).
    apply order_rep_range in Hx as [? _]; [|done]. lia. }
  apply submseteq_length in Hsub. rewrite length_fmap, length_seqZ in Hsub. pose proof (ok_cap _ K). lia.
Qed.

Lemma set_side_twice b buy ls c ls' c' : set_side (set_side b buy ls c) buy ls' c' = set_side b buy ls' c'.
Proof. by destruct buy. Qed.

Lemma set_aside_twice B buy A A' b : set_aside (set_aside B buy A) buy A' b = set_aside B buy A' b.
Proof. unfold set_aside. by destruct (Bool.eqb b buy). Qed.

Lemma sides_ext p b B B' : (forall buy, B buy = B' buy) -> sides p b B -> sides p b B'.
Proof. intros E S buy. rewrite <- E. apply S. Qed.

(** ** The shared steps of the handlers *)

Lemma detach_rep p b B buy A1 pr l1 a l2 A2 o :
  pool_ok p -> sides p b B -> NoDup (a_idx <$> all_orders B) ->
  B buy = A1 ++ (pr, l1 ++ a :: l2) :: A2 ->
  pool_at p (a_idx a) = Some o -> level_idx o = Z.of_nat (length A1) ->
  exists b' p', detach b p buy (a_idx a) = Some (b', p')
    /\ sides p' b' (set_aside B buy (A1 ++ keep pr (l1 ++ l2) ++ A2))
    /\ pool_frame (a_idx <$> l1 ++ l2) p p'
    /\ drop_ctr_ b' = drop_ctr_ b /\ inplace_ctr_ b' = inplace_ctr_ b.
Proof.
  intros K S Hn E Ho Hlv. destruct (queue_disjoint _ _ _ _ _ _ Hn E) as [Hnl Hd].
  pose proof (S buy) as Sb. rewrite E in Sb. destruct (side_lookup _ _ _ _ _ _ _ Sb) as (lv & Hlk & R).
  pose proof (queue_length _ _ _ _ _ K R Hnl) as Hq. pose proof (ok_cap _ K).
  destruct (unlink_ok p buy lv pr l1 a l2 K R Hnl) as (p1 & lv' & Hu & R' & F).
  destruct (sides_store p p1 b B buy A1 pr _ A2 lv' (l1 ++ l2) S E R' (pf_cap _ _ _ F)) as (ls1 & Hs & S1).
  { intros c Hc. apply (pf_same _ _ _ F).
    - apply (sides_order p b B c S); [|done]. rewrite (all_orders_queue _ _ _ _ _ _ E).
      apply elem_of_app. by right.
    - intros Hx. apply (Hd c Hc). rewrite fmap_app, fmap_cons. rewrite fmap_app in Hx.
      apply elem_of_app. apply elem_of_app in Hx as [?|?]; [by left|right; by right]. }
  unfold detach. rewrite Ho. simpl. rewrite Hlv, Nat2Z.id, Hlk. simpl. rewrite Hu. simpl. rewrite Hs. simpl.
  pose proof (lr_count _ _ _ _ R') as Hcnt. simpl in Hcnt.
  rewrite length_app, length_cons in Hq. rewrite wrap_small in Hcnt by (rewrite length_app; unfold in_range; lia).
  rewrite Hcnt. destruct (Z.eqb_spec (Z.of_nat (length (l1 ++ l2))) 0) as [E0|E0].
  - assert (l1 ++ l2 = []) as E12 by (apply nil_length_inv; lia). rewrite E12 in *. simpl.
    pose proof (S1 buy) as S1b. rewrite set_aside_eq, levels_of_set, count_of_set, eqb_reflx in S1b.
    destruct (side_remove _ _ _ _ _ _ _ S1b) as (ls2 & Hr & S2). rewrite Hr. simpl.
    eexists _, p1. split; [done|]. split_and!; try done; [|by destruct buy..].
    rewrite <- (set_side_twice b buy ls1 (count_of b buy)).
    eapply sides_ext; [|by apply sides_set; [exact S1|exact S2]]. intros. apply set_aside_twice.
  - simpl. eexists _, p1. split; [done|]. split_and!; try done; [|by destruct buy..].
    unfold keep. by destruct (l1 ++ l2).
Qed.

Section Steps.
Context {M : Type} `{MapLaws M}.

Lemma better_sorted buy A1 pr l A2 :
  best_first buy (A1 ++ (pr, l) :: A2 : list ALevel).*1 -> Forall (fun L => better buy L.1 pr) A1.
Proof.
  intros Hs. rewrite fmap_app, fmap_cons in Hs. apply StronglySorted_app in Hs as (Hs & _).
  apply Forall_forall. intros L HL. apply Hs; [by apply list_elem_of_fmap_2|left].
Qed.

(** [level_for]: an existing level, or a new blank one at its sorted place. *)
Lemma level_for_rep p b (s : ShardMem M) B buy pr :
  sides p b B -> pr ∈ (B buy).*1 \/ Z.of_nat (length (B buy)) < MAX_PRICE_LEVELS ->
  exists b' A1 l A2, level_for b s buy pr = Some (b', s, Z.of_nat (length A1))
    /\ Z.of_nat (length A1) < MAX_PRICE_LEVELS
    /\ sides p b' (set_aside B buy (A1 ++ (pr, l) :: A2))
    /\ orders (A1 ++ (pr, l) :: A2) = orders (B buy)
    /\ (forall a, spec_add buy (B buy) pr a = A1 ++ (pr, l ++ [a]) :: A2)
    /\ drop_ctr_ b' = drop_ctr_ b /\ inplace_ctr_ b' = inplace_ctr_ b.
Proof.
  intros S Hroom. pose proof (S buy) as Sb. pose proof Sb as [Hl Hc Hm Hlev Hso].
  pose proof (side_prices _ _ _ _ _ Sb) as Hpr. unfold level_for.
  destruct (find_level_spec (levels_of b buy) (count_of b buy) pr) as [[Hf Hp]|(lv & Hf & Hlk & Hlp)]; [lia| |].
  - rewrite Hf, Z.eqb_refl. rewrite Hpr in Hp. destruct Hroom as [?|Hroom]; [done|].
    destruct (side_insert _ _ _ _ _ pr Sb Hp) as (A1 & A2 & ls' & EA & Hi & S' & H1 & H2); [lia|].
    rewrite Hi. simpl. rewrite Z.geb_leb. destruct (Z.leb_spec MAX_PRICE_LEVELS (count_of b buy)); [lia|].
    eexists _, A1, [], A2. split; [done|]. split_and!; try done; try (by destruct buy).
    + rewrite EA, length_app in Hc. lia.
    + by apply sides_set.
    + rewrite EA, !orders_app. done.
    + intros a. rewrite EA. by apply spec_add_new.
  - destruct (Z.eqb_spec (find_level (levels_of b buy) (count_of b buy) pr) (count_of b buy)) as [|_]; [lia|].
    set (n := Z.to_nat (find_level (levels_of b buy) (count_of b buy) pr)) in *.
    assert (HL : exists L, B buy !! n = Some L /\ L.1 = pr).
    { destruct (Forall2_lookup_l _ _ _ n lv Hlev) as (L & HL & HR).
      { unfold active. rewrite lookup_take_lt by lia. done. }
      exists L. split; [done|]. rewrite <- (lr_price _ _ _ _ HR). done. }
    destruct HL as ([pr' l] & HL & E'). simpl in E'. subst pr'.
    pose proof (take_drop_middle _ _ _ HL) as EA. pose proof (lookup_lt_Some _ _ _ HL) as Hn.
    exists b, (take n (B buy)), l, (drop (Datatypes.S n) (B buy)).
    rewrite length_take, Nat.min_l by lia. rewrite EA.
    split_and!; try done.
    + f_equal. f_equal. lia.
    + lia.
    + eapply sides_ext; [|exact S]. intros b'. unfold set_aside.
      destruct (Bool.eqb b' buy) eqn:Eb; [apply eqb_prop in Eb; by subst|done].
    + intros a. rewrite <- EA at 1. apply spec_add_found. rewrite <- EA in Hso. by eapply better_sorted.
Qed.

(** [place_order]: a fresh order at the tail of a level. *)
Lemma place_order_rep b (s : ShardMem M) B buy A1 pr l A2 i ref q sd g :
  pool_ok (pool s) -> sides (pool s) b B -> B buy = A1 ++ (pr, l) :: A2 ->
  NoDup (a_idx <$> all_orders B) -> i ∉ a_idx <$> all_orders B -> 0 <= i < capacity_ (pool s) ->
  is_buy sd = buy -> map_rep (order_map_ s) g -> ref <> 0 -> map_room (order_map_ s) ref ->
  exists b' s', place_order b s buy (Z.of_nat (length A1)) i ref pr q sd = Some (b', s')
    /\ sides (pool s') b' (set_aside B buy (A1 ++ (pr, l ++ [mkA i ref q]) :: A2))
    /\ pool_ok (pool s') /\ free_stack (pool s') = free_stack (pool s)
    /\ capacity_ (pool s') = capacity_ (pool s)
    /\ map_rep (order_map_ s') (<[ref := i]> g)
    /\ (level_idx <$> pool_at (pool s') i) = Some (Z.of_nat (length A1))
    /\ price_level_drops s' = price_level_drops s.
Proof.
  intros K S E Hn Hi Hr Hsd Hm Href Hroom. destruct (queue_disjoint _ _ _ _ _ _ Hn E) as [Hnl Hd].
  destruct (pool_at_Some (pool s) i K Hr) as (o & Ho).
  set (o1 := mkOrder ref pr q (prev_idx o) (next_idx o) (Z.of_nat (length A1)) sd).
  set (p1 := set_order (pool s) i o1). pose proof (set_order_ok (pool s) i o1 K) as K1. fold p1 in K1.
  assert (Hi' : forall c, c ∈ all_orders B -> a_idx c <> i).
  { intros c Hc <-. apply Hi. by apply list_elem_of_fmap_2. }
  assert (S1 : sides p1 b B).
  { apply (sides_frame (pool s)); [done|done|]. intros c Hc. unfold p1.
    pose proof (sides_order _ _ _ c S Hc K). rewrite pool_at_set, decide_False; try done; [|lia].
    intros Ec. by apply (Hi' c Hc). }
  assert (Ho1 : pool_at p1 i = Some o1) by (unfold p1; rewrite pool_at_set, decide_True; done || lia).
  pose proof (S1 buy) as Sb. rewrite E in Sb. destruct (side_lookup _ _ _ _ _ _ _ Sb) as (lv & Hlk & R).
  assert (Hnl' : NoDup (a_idx <$> l ++ [mkA i ref q])).
  { rewrite fmap_app. apply NoDup_app. split; [done|]. split; [|apply NoDup_singleton].
    intros x (c & -> & Hc)%list_elem_of_fmap. simpl. rewrite list_elem_of_singleton. apply Hi'.
    rewrite (all_orders_queue _ _ _ _ _ _ E). apply elem_of_app. by left. }
  destruct (link_ok p1 buy lv pr l (mkA i ref q) o1 K1 R Hnl' Ho1 Hr) as (p2 & lv' & Hlink & R' & F); try done.
  destruct (sides_store p1 p2 b B buy A1 pr l A2 lv' (l ++ [mkA i ref q]) S1 E R' (pf_cap _ _ _ F)) as (ls' & Hs & S').
  { intros c Hc. assert (Hca : c ∈ all_orders B).
    { rewrite (all_orders_queue _ _ _ _ _ _ E). apply elem_of_app. by right. }
    apply (pf_same _ _ _ F); [by apply (sides_order p1 b B c S1)|].
    rewrite fmap_app. intros [Hx|Hx]%elem_of_app; [by apply (Hd c Hc)|].
    simpl in Hx. apply list_elem_of_singleton in Hx. by apply (Hi' c Hca). }
  destruct (law_insert (order_map_ s) g ref i Hm Href Hroom) as (m' & Hins & Hm').
  unfold place_order. rewrite Ho. simpl. fold o1 p1. rewrite Nat2Z.id, Hlk. simpl in Hlink |- *.
  rewrite Hlink. simpl. rewrite Hs. simpl. rewrite Hins. simpl. eexists _, _. split; [done|]. simpl.
  split_and!; try done; try apply F.
  pose proof (pf_level _ _ _ F i ltac:(lia)) as Hlev. by rewrite Hlev, Ho1.
Qed.

End Steps.

(** ** Rebuilding the representation after a handler *)

Lemma all_orders_set B buy A : all_orders (set_aside B buy A) ≡ₚ orders A ++ orders (B (negb buy)).
Proof. by rewrite (all_orders_side _ buy), set_aside_eq, set_aside_other. Qed.

Lemma spec_add_nonempty buy A pr a :
  Forall (fun L => L.2 <> []) A -> Forall (fun L => L.2 <> []) (spec_add buy A pr a).
Proof.
  induction 1 as [|[p l] A Hl HA IH]; simpl; [by repeat constructor|].
  repeat case_match; repeat constructor; try done. simpl. by destruct l.
Qed.

Lemma spec_remove_nonempty ref A : Forall (fun L => L.2 <> []) (spec_remove ref A).
Proof.
  induction A as [|[p l] A IH]; [constructor|]. rewrite spec_remove_cons. apply Forall_app.
  split; [|done]. unfold keep. destruct (filter _ l); by repeat constructor.
Qed.

Lemma in_use_room p i : pool_ok p -> in_use p i -> (length (free_stack p) < Z.to_nat (capacity_ p))%nat.
Proof.
  intros K [Hr Hni]. assert (Hsub : i :: free_stack p ⊆+ seqZ 0 (capacity_ p)).
  { apply NoDup_submseteq; [constructor; [done|apply K]|].
    intros x [->|Hx]%elem_of_cons; apply elem_of_seqZ; [lia|].
    pose proof (ok_range _ K) as Ha. rewrite Forall_forall in Ha. specialize (Ha x Hx). lia. }
  apply submseteq_length in Hsub. simpl in Hsub. rewrite length_seqZ in Hsub. lia.
Qed.

Lemma orders_keep pr l : orders (keep pr l) = l.
Proof. unfold keep. destruct l; [done|]. rewrite orders_cons. simpl. by rewrite app_nil_r. Qed.

Lemma perm_lift {A} (x y z n : list A) : x ++ (y ++ z) ++ n ≡ₚ (y ++ x ++ z) ++ n.
Proof. by rewrite !app_assoc, (Permutation_app_comm x y). Qed.

(** Where an order with an up-to-date level index is. *)
Lemma current_split p A a o : current p A a -> pool_at p (a_idx a) = Some o ->
  exists A1 pr l1 l2 A2, A = A1 ++ (pr, l1 ++ a :: l2) :: A2 /\ level_idx o = Z.of_nat (length A1).
Proof.
  intros (n & [pr l] & o' & HL & Ha & Ho' & Hlv) Ho. rewrite Ho in Ho'. injection Ho' as <-.
  cbn [snd] in Ha. apply list_elem_of_split in Ha as (l1 & l2 & ->). exists (take n A), pr, l1, l2, (drop (S n) A).
  split; [by rewrite take_drop_middle|]. rewrite length_take. apply lookup_lt_Some in HL. rewrite Hlv. f_equal. lia.
Qed.

Section Refinement.
Context {M : Type} `{MapLaws M}.

Lemma rebuild b (s : ShardMem M) B buy A g :
  pool_ok (pool s) -> map_rep (order_map_ s) g -> sides (pool s) b (set_aside B buy A) ->
  Forall (fun L => L.2 <> []) A -> Forall (fun L => L.2 <> []) (B (negb buy)) ->
  NoDup (a_idx <$> orders A ++ orders (B (negb buy))) ->
  (forall a, a ∈ orders A ++ orders (B (negb buy)) ->
     in_use (pool s) (a_idx a) /\ a_id a <> 0 /\ g !! a_id a = Some (a_idx a)) ->
  book_rep b s (set_aside B buy A) g.
Proof.
  intros K Hm Hs Hne1 Hne2 Hnd Hkn. constructor; try done.
  - by apply (set_aside_forall (fun _ A => Forall (fun L => L.2 <> []) A)).
  - by rewrite all_orders_set.
  - intros a. rewrite all_orders_set. apply Hkn.
Qed.

Lemma rep_side_nodup b (s : ShardMem M) B g buy : book_rep b s B g ->
  NoDup (a_idx <$> orders (B buy) ++ orders (B (negb buy))).
Proof. intros []. by rewrite <- all_orders_side. Qed.

(** Two orders of a book with the same reference are the same slot. *)
Lemma rep_ids b (s : ShardMem M) B g a c :
  book_rep b s B g -> a ∈ all_orders B -> c ∈ all_orders B -> a_id c = a_id a -> a_idx c = a_idx a.
Proof.
  intros R Ha Hc E. destruct (br_known _ _ _ _ R a Ha) as (_ & _ & H1).
  destruct (br_known _ _ _ _ R c Hc) as (_ & _ & H2). rewrite E in H2. congruence.
Qed.

Lemma orders_snoc A1 pr l A2 a :
  orders (A1 ++ (pr, l ++ [a]) :: A2) ≡ₚ a :: orders (A1 ++ (pr, l) :: A2).
Proof.
  rewrite !orders_app, !orders_cons. simpl. rewrite <- app_assoc. simpl.
  by rewrite <- (Permutation_middle l), <- Permutation_middle.
Qed.

Lemma add_rep b (s : ShardMem M) B g ref sd q pr :
  book_rep b s B g -> ref <> 0 -> g !! ref = None -> map_room (order_map_ s) ref ->
  0 < freelist_top_ (pool s) ->
  pr ∈ (B (is_buy sd)).*1 \/ Z.of_nat (length (B (is_buy sd))) < MAX_PRICE_LEVELS ->
  exists b' s' i, on_add_order b s ref sd q pr = Some (b', s')
    /\ book_rep b' s' (set_aside B (is_buy sd) (spec_add (is_buy sd) (B (is_buy sd)) pr (mkA i ref q)))
         (<[ref := i]> g)
    /\ current (pool s') (spec_add (is_buy sd) (B (is_buy sd)) pr (mkA i ref q)) (mkA i ref q)
    /\ price_level_drops s' = price_level_drops s.
Proof.
  intros R Href Hg Hroom Htop Hlev. pose proof R as [K Hm S Hne Hn Hkn].
  destruct (alloc_ok (pool s) K Htop) as (i & o & p1 & Ea & K1 & Hst & Hr & Ho & _ & Hc & Hp).
  assert (Hi : i ∉ a_idx <$> all_orders B).
  { intros (c & Ec & Hcc)%list_elem_of_fmap. destruct (Hkn c Hcc) as [[_ Hu] _]. apply Hu.
    rewrite Hst, <- Ec. apply elem_of_app. right. left. }
  assert (S1 : sides p1 b B).
  { apply (sides_frame (pool s)); [done|done|]. intros c Hcc. unfold pool_at. rewrite Hp.
    pose proof (sides_order _ _ _ c S Hcc K). apply list_lookup_insert_ne. intros E. apply Hi.
    replace i with (a_idx c) by lia. by apply list_elem_of_fmap_2. }
  destruct (level_for_rep p1 b (set_pool s p1) B (is_buy sd) pr S1 Hlev)
    as (b1 & A1 & l & A2 & El & Hlt & S2 & Hord & Hspec & _).
  set (B1 := set_aside B (is_buy sd) (A1 ++ (pr, l) :: A2)).
  assert (Hall : all_orders B1 ≡ₚ all_orders B).
  { unfold B1. by rewrite all_orders_set, Hord, <- all_orders_side. }
  destruct (place_order_rep b1 (set_pool s p1) B1 (is_buy sd) A1 pr l A2 i ref q sd g)
    as (b' & s' & Ep & S' & K' & Hst' & Hc' & Hm' & Hli & Hdr); try done.
  { apply set_aside_eq. } { by rewrite Hall. } { by rewrite Hall. } { simpl. by rewrite Hc. }
  exists b', s', i. split.
  { unfold on_add_order. rewrite Ea. simpl. rewrite El. simpl.
    destruct (Z.eqb_spec (Z.of_nat (length A1)) MAX_PRICE_LEVELS); [lia|done]. }
  split; [|split; [|done]].
  2:{ rewrite Hspec. apply fmap_Some in Hli as (o' & Ho' & Hli).
      exists (length A1), (pr, l ++ [mkA i ref q]), o'.
      split; [by rewrite lookup_app_r, Nat.sub_diag by lia|]. split; [apply elem_of_app; right; left|done]. }
  rewrite Hspec.
  assert (Hperm : orders (A1 ++ (pr, l ++ [mkA i ref q]) :: A2) ++ orders (B (negb (is_buy sd)))
                  ≡ₚ mkA i ref q :: all_orders B).
  { by rewrite orders_snoc, Hord, (all_orders_side B (is_buy sd)). }
  apply rebuild; try done.
  - eapply sides_ext; [|exact S']. intros. apply set_aside_twice.
  - rewrite <- Hspec. by apply spec_add_nonempty.
  - rewrite Hperm. simpl. by constructor.
  - intros a. rewrite Hperm. simpl in Hst', Hc'. intros [->|Ha]%elem_of_cons; simpl.
    + split_and!; [split; [by rewrite Hc', Hc|]|done|by rewrite lookup_insert_eq].
      rewrite Hst'. pose proof (ok_nodup _ K) as Hnd. rewrite Hst in Hnd.
      apply NoDup_app in Hnd as (_ & Hx & _). intros Hin. apply (Hx i Hin). left.
    + destruct (Hkn a Ha) as ([Hu1 Hu2] & Hid & Hga). split_and!; [split; [by rewrite Hc', Hc|]|done|].
      * rewrite Hst'. intros Hin. apply Hu2. rewrite Hst. apply elem_of_app. by left.
      * rewrite lookup_insert_ne; [done|]. congruence.
Qed.

(** The other orders of the book differ from [a] in index and reference. *)
Lemma others_apart b (s : ShardMem M) B g buy A1 pr l1 a l2 A2 c :
  book_rep b s B g -> B buy = A1 ++ (pr, l1 ++ a :: l2) :: A2 ->
  c ∈ (l1 ++ l2) ++ (orders A1 ++ orders A2) ++ orders (B (negb buy)) ->
  c ∈ all_orders B /\ a_idx c <> a_idx a /\ a_id c <> a_id a.
Proof.
  intros R EA Hc. assert (Hperm : all_orders B ≡ₚ a :: (l1 ++ l2) ++ (orders A1 ++ orders A2) ++ orders (B (negb buy))).
  { rewrite (all_orders_queue _ _ _ _ _ _ EA). by rewrite <- Permutation_middle. }
  assert (Hca : c ∈ all_orders B) by (rewrite Hperm; by right).
  assert (Haa : a ∈ all_orders B) by (rewrite Hperm; left).
  pose proof (br_nodup _ _ _ _ R) as Hn. rewrite Hperm, fmap_cons in Hn. apply NoDup_cons in Hn as [Hna _].
  assert (Hne : a_idx c <> a_idx a) by (intros E; apply Hna; rewrite <- E; by apply list_elem_of_fmap_2).
  split_and!; try done. intros E. by pose proof (rep_ids b s B g a c R Haa Hca E).
Qed.

(** The removal shared by delete, full execution and replacement. *)
Lemma remove_rep b (s : ShardMem M) B g buy a :
  book_rep b s B g -> a ∈ orders (B buy) -> current (pool s) (B buy) a ->
  exists b1 p1 m1 p2, detach b (pool s) buy (a_idx a) = Some (b1, p1)
    /\ map_erase (order_map_ s) (a_id a) = Some (true, m1)
    /\ free p1 (a_idx a) = Some p2
    /\ book_rep b1 (set_map (set_pool s p2) m1) (set_aside B buy (spec_remove (a_id a) (B buy)))
         (delete (a_id a) g)
    /\ free_stack p2 = free_stack (pool s) ++ [a_idx a] /\ freelist_top_ p2 = freelist_top_ p1 + 1.
Proof.
  intros R Ha Hcur. pose proof R as [K Hm S Hne Hn Hkn]. pose proof Hcur as (_ & _ & o & _ & _ & Ho & _).
  destruct (current_split _ _ _ _ Hcur Ho) as (A1 & pr & l1 & l2 & A2 & EA & Hlv).
  destruct (detach_rep (pool s) b B buy A1 pr l1 a l2 A2 o K S Hn EA Ho Hlv) as (b1 & p1 & Ed & S1 & F & _).
  assert (Haa : a ∈ all_orders B) by (rewrite (all_orders_side B buy); apply elem_of_app; by left).
  destruct (Hkn a Haa) as ([Hr Hu] & Hid & Hga).
  destruct (law_erase (order_map_ s) g (a_id a) Hm Hid) as (m1 & Ee & Hm1).
  rewrite bool_decide_eq_true_2 in Ee by (by exists (a_idx a)).
  assert (Hu1 : in_use p1 (a_idx a)) by (split; [by rewrite (pf_cap _ _ _ F)|by rewrite (pf_stack _ _ _ F)]).
  destruct (free_ok p1 (a_idx a) (pf_ok _ _ _ F) Hu1) as (p2 & Ef & K2 & Hst & Hp & Hc & Ht).
  { eapply in_use_room; [apply F|exact Hu1]. }
  exists b1, p1, m1, p2. split_and!; try done; [|by rewrite Hst, (pf_stack _ _ _ F)].
  assert (Hperm : all_orders B ≡ₚ a :: orders (A1 ++ keep pr (l1 ++ l2) ++ A2) ++ orders (B (negb buy))).
  { rewrite (all_orders_queue _ _ _ _ _ _ EA), !orders_app.
    rewrite orders_keep.
    rewrite <- Permutation_middle. simpl. constructor. apply perm_lift. }
  assert (Hnd : NoDup (a_idx <$> a :: orders (A1 ++ keep pr (l1 ++ l2) ++ A2) ++ orders (B (negb buy))))
    by (by rewrite <- Hperm).
  rewrite fmap_cons in Hnd. apply NoDup_cons in Hnd as [Hna Hnd].
  assert (Hrest : forall c, c ∈ orders (A1 ++ keep pr (l1 ++ l2) ++ A2) ++ orders (B (negb buy)) ->
    c ∈ all_orders B /\ a_idx c <> a_idx a /\ a_id c <> a_id a).
  { intros c Hcc. apply (others_apart b s B g buy A1 pr l1 a l2 A2 c R EA).
    rewrite !orders_app, orders_keep, !elem_of_app in Hcc. rewrite !elem_of_app. tauto. }
  assert (Hsp : spec_remove (a_id a) (B buy) = A1 ++ keep pr (l1 ++ l2) ++ A2).
  { specialize (Hne buy). rewrite EA in Hne |- *. apply Forall_app in Hne as [Hne1 Hne2].
    inversion_clear Hne2 as [|?? _ Hne2']. apply spec_remove_at; try done.
    intros c Hcc. apply Hrest. rewrite !orders_app.
    rewrite orders_keep.
    rewrite !elem_of_app in *. tauto. }
  apply rebuild; try done.
  - rewrite Hsp. apply (sides_frame p1); [done|done|]. intros c _. simpl. unfold pool_at. by rewrite Hp.
  - apply spec_remove_nonempty.
  - by rewrite Hsp.
  - rewrite Hsp. intros c Hcc. destruct (Hrest c Hcc) as (Hca & Hne1 & Hne2).
    destruct (Hkn c Hca) as ([Hcr Hcu] & Hcid & Hcg). split_and!; [split|done|].
    + simpl. rewrite Hc. by rewrite (pf_cap _ _ _ F).
    + simpl. rewrite Hst, (pf_stack _ _ _ F). intros [?|Hx]%elem_of_app; [done|].
      by apply list_elem_of_singleton in Hx.
    + by rewrite lookup_delete_ne.
Qed.

(** The facts about an order that the handlers start from. *)
Lemma rep_order b (s : ShardMem M) B g buy a :
  book_rep b s B g -> a ∈ orders (B buy) ->
  map_find (order_map_ s) (a_id a) = Some (a_idx a) /\ (a_idx a =? kMapEmpty) = false
  /\ exists o, pool_at (pool s) (a_idx a) = Some o /\ is_buy (side o) = buy /\ qty o = a_qty a
       /\ id o = a_id a.
Proof.
  intros R Ha. assert (Haa : a ∈ all_orders B) by (rewrite (all_orders_side B buy); apply elem_of_app; by left).
  destruct (br_known _ _ _ _ R a Haa) as (_ & Hid & Hg).
  split; [by rewrite (law_find _ g _ (br_map _ _ _ _ R) Hid), Hg|].
  destruct (order_position _ _ Ha) as (A1 & pr & l1 & l2 & A2 & EA).
  pose proof (br_sides _ _ _ _ R buy) as Sb. rewrite EA in Sb.
  destruct (side_lookup _ _ _ _ _ _ _ Sb) as (lv & _ & HR).
  pose proof (lr_seg _ _ _ _ HR) as Hs. simpl in Hs. apply dseg_app in Hs as [_ [Hx _]].
  pose proof (order_rep_range _ _ _ _ _ _ (br_pool _ _ _ _ R) Hx) as [_ Hne].
  destruct Hx as (o & Ho & _ & Hoid & _ & Hq & Hsd & _). split; [by apply Z.eqb_neq|]. by exists o.
Qed.

(** Amending an order in place, as [reduce_qty] and the in-place replacement do. *)
Lemma amend_sides b (s : ShardMem M) B g buy a o new_id new_qty :
  book_rep b s B g -> a ∈ orders (B buy) -> current (pool s) (B buy) a ->
  pool_at (pool s) (a_idx a) = Some o ->
  exists lv, levels_of b buy !! Z.to_nat (level_idx o) = Some lv /\
  forall total, total = u32 (total_qty lv - a_qty a + new_qty) ->
  let p' := set_order (pool s) (a_idx a)
              (mkOrder new_id (price o) new_qty (prev_idx o) (next_idx o) (level_idx o) (side o)) in
  let B' := set_aside B buy (spec_amend (a_id a) new_id new_qty (B buy)) in
  exists ls', store (levels_of b buy) (level_idx o)
      (mkLevel (level_price lv) total (order_count lv) (head_order_idx lv) (tail_order_idx lv) (pad lv))
      = Some ls'
    /\ sides p' (set_side b buy ls' (count_of b buy)) B'
    /\ pool_frame [a_idx a] (pool s) p'
    /\ mkA (a_idx a) new_id new_qty ∈ orders (B' buy) /\ current p' (B' buy) (mkA (a_idx a) new_id new_qty)
    /\ exists rest, all_orders B ≡ₚ a :: rest
         /\ orders (B' buy) ++ orders (B (negb buy)) ≡ₚ mkA (a_idx a) new_id new_qty :: rest
         /\ Forall (fun L => L.2 <> []) (B' buy).
Proof.
  intros R Ha Hcur Ho. pose proof R as [K Hm S Hne Hn Hkn].
  destruct (current_split _ _ _ _ Hcur Ho) as (A1 & pr & l1 & l2 & A2 & EA & Hlv).
  destruct (queue_disjoint _ _ _ _ _ _ Hn EA) as [Hnl Hd].
  pose proof (S buy) as Sb. rewrite EA in Sb. destruct (side_lookup _ _ _ _ _ _ _ Sb) as (lv & Hlk & HR).
  exists lv. rewrite Hlv, Nat2Z.id. split; [done|]. intros total Ht p' B'.
  set (a' := mkA (a_idx a) new_id new_qty).
  destruct (amend_ok (pool s) buy lv pr l1 a l2 o new_id new_qty total K HR Hnl Ho) as (HR' & F & _).
  { rewrite Ht, (lr_total _ _ _ _ HR), <- wrap_add_l, wrap_sub_l, wrap_add_l. simpl.
    rewrite !qsum_app, !qsum_cons. simpl. f_equal. lia. }
  rewrite Hlv in HR', F.
  destruct (sides_store (pool s) _ b B buy A1 pr _ A2 _ (l1 ++ a' :: l2) S EA HR' (pf_cap _ _ _ F))
    as (ls' & Hs & S').
  { intros c Hc. apply (pf_same _ _ _ F).
    - apply (sides_order _ _ _ c S); [|done]. rewrite (all_orders_queue _ _ _ _ _ _ EA). apply elem_of_app. by right.
    - intros Hx%list_elem_of_singleton. apply (Hd c Hc). rewrite Hx, fmap_app, fmap_cons.
      apply elem_of_app. right. left. }
  assert (Hother : forall c, c ∈ orders A1 ++ orders A2 ++ l1 ++ l2 -> a_id c <> a_id a).
  { intros c Hc. apply (others_apart b s B g buy A1 pr l1 a l2 A2 c R EA). rewrite !elem_of_app in *. tauto. }
  assert (HB' : B' buy = A1 ++ (pr, l1 ++ a' :: l2) :: A2).
  { unfold B'. rewrite set_aside_eq, EA. by apply spec_amend_at. }
  exists ls'. split; [done|]. split.
  { eapply sides_ext; [|exact S']. intros b'. unfold set_aside, B', set_aside.
    destruct (Bool.eqb b' buy); [|done]. rewrite EA. symmetry. by apply spec_amend_at. }
  rewrite HB'. split; [done|]. split.
  { rewrite orders_app, orders_cons. simpl. rewrite !elem_of_app, elem_of_cons. tauto. }
  split.
  - exists (length A1), (pr, l1 ++ a' :: l2), (mkOrder new_id (price o) new_qty (prev_idx o) (next_idx o)
      (Z.of_nat (length A1)) (side o)).
    split; [by rewrite lookup_app_r, Nat.sub_diag by lia|]. split; [simpl; rewrite elem_of_app, elem_of_cons; tauto|].
    simpl. split; [|done]. assert (Hr : 0 <= a_idx a < capacity_ (pool s)).
    { apply (sides_order _ _ _ a S); [|done]. rewrite (all_orders_queue _ _ _ _ _ _ EA). rewrite !elem_of_app, elem_of_cons. tauto. }
    unfold p'. rewrite pool_at_set, decide_True; try done; lia.
  - exists ((l1 ++ l2) ++ (orders A1 ++ orders A2) ++ orders (B (negb buy))). split_and!.
    + rewrite (all_orders_queue _ _ _ _ _ _ EA). by rewrite <- Permutation_middle.
    + rewrite orders_app, orders_cons. cbn [snd]. rewrite <- perm_lift. by rewrite <- (Permutation_middle l1 l2 a').
    + specialize (Hne buy). rewrite EA in Hne. apply Forall_app in Hne as [Hne1 Hne2].
      inversion_clear Hne2 as [|?? _ Hne2']. apply Forall_app. split; [done|]. constructor; [|done].
      simpl. by destruct l1.
Qed.

Lemma book_rep_ext b (s : ShardMem M) B B' g :
  (forall buy, B buy = B' buy) -> book_rep b s B g -> book_rep b s B' g.
Proof.
  intros E []. assert (Hall : all_orders B' = all_orders B) by (unfold all_orders; by rewrite !E).
  constructor; try done.
  - by eapply sides_ext.
  - intros buy. by rewrite <- E.
  - by rewrite Hall.
  - intros a. rewrite Hall. auto.
Qed.

Lemma amend_rep b (s s' : ShardMem M) b' B g g' buy a rest new_id new_qty :
  book_rep b s B g -> a ∈ orders (B buy) ->
  let B' := set_aside B buy (spec_amend (a_id a) new_id new_qty (B buy)) in
  sides (pool s') b' B' -> pool_frame [a_idx a] (pool s) (pool s') ->
  all_orders B ≡ₚ a :: rest ->
  orders (B' buy) ++ orders (B (negb buy)) ≡ₚ mkA (a_idx a) new_id new_qty :: rest ->
  Forall (fun L => L.2 <> []) (B' buy) ->
  map_rep (order_map_ s') g' -> new_id <> 0 -> g' !! new_id = Some (a_idx a) ->
  (forall c, c ∈ rest -> a_idx c <> a_idx a -> a_id c <> a_id a -> g !! a_id c = Some (a_idx c) ->
     g' !! a_id c = Some (a_idx c)) ->
  book_rep b' s' B' g'.
Proof.
  intros R Ha B' S' F Hall Hall' Hne Hm Hid Hg Hrest. unfold B' in *. rewrite set_aside_eq in *.
  pose proof (br_nodup _ _ _ _ R) as Hn. rewrite Hall, fmap_cons in Hn. pose proof Hn as Hn0.
  apply NoDup_cons in Hn as [Hna Hnr].
  apply rebuild; try done.
  - apply F.
  - apply R.
  - by rewrite Hall'.
  - intros c. rewrite Hall'.
    assert (Huse : forall c, c ∈ all_orders B -> in_use (pool s') (a_idx c)).
    { intros d Hd. destruct (br_known _ _ _ _ R d Hd) as [[? ?] _]. split.
      - by rewrite (pf_cap _ _ _ F).
      - by rewrite (pf_stack _ _ _ F). }
    intros [->|Hc]%elem_of_cons; simpl.
    + split; [|done]. apply (Huse a). rewrite Hall. left.
    + assert (Hca : c ∈ all_orders B) by (rewrite Hall; by right).
      assert (Haa : a ∈ all_orders B) by (rewrite Hall; left).
      destruct (br_known _ _ _ _ R c Hca) as (_ & Hcid & Hcg).
      assert (Hne' : a_idx c <> a_idx a) by (intros E; apply Hna; rewrite <- E; by apply list_elem_of_fmap_2).
      split_and!; [by apply Huse|done|]. apply Hrest; try done.
      intros E. by pose proof (rep_ids b s B g a c R Haa Hca E).
Qed.

Lemma spec_amend_cons ref n q p l A :
  spec_amend ref n q ((p, l) :: A) =
    (p, (fun a => if a_id a =? ref then mkA (a_idx a) n q else a) <$> l) :: spec_amend ref n q A.
Proof. done. Qed.

Lemma spec_remove_amend ref q A : spec_remove ref (spec_amend ref ref q A) = spec_remove ref A.
Proof.
  induction A as [|[p l] A IH]; [done|]. rewrite spec_amend_cons, !spec_remove_cons, IH.
  f_equal. f_equal. clear. induction l as [|a l IH]; [done|].
  rewrite fmap_cons. destruct (Z.eqb_spec (a_id a) ref) as [E|E].
  - rewrite !filter_cons_False; [done|simpl; intros Hx; by apply Hx..].
  - rewrite !filter_cons_True by done. by rewrite IH.
Qed.

Lemma reduce_rep b (s : ShardMem M) B g buy a by_qty :
  book_rep b s B g -> a ∈ orders (B buy) -> current (pool s) (B buy) a ->
  exists b' s', reduce_qty b s (a_id a) by_qty = Some (b', s') /\
    let q := a_qty a -32 by_qty in
    if q =? 0 then book_rep b' s' (set_aside B buy (spec_remove (a_id a) (B buy))) (delete (a_id a) g)
    else book_rep b' s' (set_aside B buy (spec_amend (a_id a) (a_id a) q (B buy))) g.
Proof.
  intros R Ha Hcur. destruct (rep_order b s B g buy a R Ha) as (Hf & Hk & o & Ho & Hsd & Hq & Hoid).
  set (q := a_qty a -32 by_qty).
  destruct (amend_sides b s B g buy a o (a_id a) q R Ha Hcur Ho) as (lv & Hlk & Hst).
  destruct (Hst (total_qty lv -32 by_qty)) as (ls' & Hs & S' & F & Hin & Hcur' & rest & Hall & Hall' & Hne).
  { unfold q. rewrite wrap_add_r. f_equal. lia. }
  assert (Haa : a ∈ all_orders B) by (rewrite (all_orders_side B buy); apply elem_of_app; by left).
  destruct (br_known _ _ _ _ R a Haa) as (_ & Hid & Hga).
  set (p' := set_order _ _ _) in S', F, Hcur'.
  assert (R' : book_rep (set_side b buy ls' (count_of b buy)) (set_pool s p')
     (set_aside B buy (spec_amend (a_id a) (a_id a) q (B buy))) g).
  { eapply (amend_rep b s (set_pool s p') _ B g g buy a rest); try done. apply R. }
  unfold reduce_qty. rewrite Hf. simpl. rewrite Hk, Ho. simpl. rewrite Hsd, Hlk. simpl. rewrite Hs. simpl.
  rewrite Hoid, Hq. fold q. fold p'.
  destruct (Z.eqb_spec q 0) as [E0|E0]; [|by eexists _, _].
  destruct (remove_rep _ _ _ _ buy _ R' Hin Hcur') as (b1 & p1 & m1 & p2 & Ed & Ee & Ef & R2 & _).
  simpl in Ed, Ee, Ef. rewrite Ed. simpl. rewrite Ee. simpl. rewrite Ef. simpl. eexists _, _. split; [done|].
  eapply book_rep_ext; [|exact R2]. intros b'. simpl. rewrite set_aside_twice, set_aside_eq. f_equal.
  apply spec_remove_amend.
Qed.

Lemma delete_rep b (s : ShardMem M) B g buy a :
  book_rep b s B g -> a ∈ orders (B buy) -> current (pool s) (B buy) a ->
  exists b' s', on_order_delete b s (a_id a) = Some (b', s')
    /\ book_rep b' s' (set_aside B buy (spec_remove (a_id a) (B buy))) (delete (a_id a) g).
Proof.
  intros R Ha Hcur. destruct (rep_order b s B g buy a R Ha) as (Hf & Hk & o & Ho & Hsd & _).
  destruct (remove_rep _ _ _ _ buy _ R Ha Hcur) as (b1 & p1 & m1 & p2 & Ed & Ee & Ef & R2 & _).
  unfold on_order_delete. rewrite Hf. simpl. rewrite Hk, Ho. simpl. rewrite Hsd, Ed. simpl. rewrite Ee. simpl.
  rewrite Ef. simpl. by eexists _, _.
Qed.

Lemma replace_inplace_rep b (s : ShardMem M) B g buy a new_ref new_shares o :
  book_rep b s B g -> a ∈ orders (B buy) -> current (pool s) (B buy) a ->
  pool_at (pool s) (a_idx a) = Some o ->
  new_ref <> 0 -> g !! new_ref = None \/ new_ref = a_id a ->
  (forall r m, map_erase (order_map_ s) (a_id a) = Some (r, m) -> map_room m new_ref) ->
  exists b' s', replace_inplace b s (a_idx a) o (a_id a) new_ref new_shares = Some (b', s')
    /\ book_rep b' s' (set_aside B buy (spec_amend (a_id a) new_ref new_shares (B buy)))
         (<[new_ref := a_idx a]> (delete (a_id a) g)).
Proof.
  intros R Ha Hcur Ho Hnr Hfresh Hroom.
  destruct (rep_order b s B g buy a R Ha) as (_ & _ & o' & Ho' & Hsd & Hq & _).
  rewrite Ho in Ho'. injection Ho' as <-.
  destruct (amend_sides b s B g buy a o new_ref new_shares R Ha Hcur Ho) as (lv & Hlk & Hst).
  destruct (Hst (total_qty lv -32 qty o +32 new_shares)) as (ls' & Hs & S' & F & _ & _ & rest & Hall & Hall' & Hne).
  { by rewrite wrap_add_l, Hq. }
  assert (Haa : a ∈ all_orders B) by (rewrite (all_orders_side B buy); apply elem_of_app; by left).
  destruct (br_known _ _ _ _ R a Haa) as (_ & Hid & Hga).
  destruct (law_erase (order_map_ s) g (a_id a) (br_map _ _ _ _ R) Hid) as (m1 & Ee & Hm1).
  destruct (law_insert m1 (delete (a_id a) g) new_ref (a_idx a) Hm1 Hnr) as (m2 & Ei & Hm2); [by eapply Hroom|].
  unfold replace_inplace. rewrite Hsd, Hlk. simpl. rewrite Hs. simpl. rewrite Ee. simpl. rewrite Ei. simpl.
  eexists _, _. split; [done|]. set (p' := set_order _ _ _) in *.
  eapply (amend_rep b s _ _ B g _ buy a rest); try done.
  - unfold count_inplace. by destruct (inplace_ctr_ b).
  - unfold count_inplace. by destruct (inplace_ctr_ b).
  - unfold count_inplace. by destruct (inplace_ctr_ b).
  - by rewrite lookup_insert_eq.
  - intros c Hc Hne1 Hne2 Hgc. rewrite lookup_insert_ne, lookup_delete_ne; try done.
    intros E. destruct Hfresh as [Hf|Hf]; congruence.
Qed.

Lemma replace_full_as_add b (s : ShardMem M) idx o orig new_ref q p :
  replace_full b s idx o orig new_ref q p =
    '(b1, p1) ← detach b (pool s) (is_buy (side o)) idx;
    '(_, m1) ← map_erase (order_map_ s) orig;
    p2 ← free p1 idx;
    on_add_order b1 (set_map (set_pool s p2) m1) new_ref (side o) q p.
Proof. done. Qed.

(** A new price on a full side: the allocated order goes back to the pool. *)
Lemma add_no_level b (s : ShardMem M) B g ref sd q pr :
  book_rep b s B g -> 0 < freelist_top_ (pool s) ->
  pr ∉ (B (is_buy sd)).*1 -> Z.of_nat (length (B (is_buy sd))) = MAX_PRICE_LEVELS ->
  exists b' s', on_add_order b s ref sd q pr = Some (b', s') /\ book_rep b' s' B g
    /\ price_level_drops s' = (if drop_ctr_ b then price_level_drops s +64 1 else price_level_drops s).
Proof.
  intros R Htop Hp Hfull. pose proof R as [K Hm S Hne Hn Hkn]. set (buy := is_buy sd) in *.
  destruct (alloc_ok (pool s) K Htop) as (i & o & p1 & Ea & K1 & Hst & Hr & Ho & Ht & Hc & Hpl).
  assert (Hifree : i ∈ free_stack (pool s)) by (rewrite Hst; apply elem_of_app; right; left).
  assert (Hu : in_use p1 i).
  { split; [by rewrite Hc|]. pose proof (ok_nodup _ K) as Hnd. rewrite Hst in Hnd.
    apply NoDup_app in Hnd as (_ & Hx & _). intros Hin. apply (Hx i Hin). left. }
  destruct (free_ok p1 i K1 Hu) as (p2 & Ef & K2 & Hst2 & Hp2 & Hc2 & _); [by apply in_use_room with i|].
  pose proof (S buy) as Sb. pose proof Sb as [Hl Hcnt Hmx Hlev Hso].
  assert (Hfl : find_level (levels_of b buy) (count_of b buy) pr = count_of b buy).
  { destruct (find_level_spec (levels_of b buy) (count_of b buy) pr) as [[? _]|(lv & Hf & Hlk & Hlp)]; [lia|done|].
    destruct Hp. rewrite <- (side_prices _ _ _ _ _ Sb), <- Hlp. unfold prices, active.
    apply list_elem_of_fmap_2. apply list_elem_of_lookup.
    exists (Z.to_nat (find_level (levels_of b buy) (count_of b buy) pr)).
    rewrite lookup_take_lt by lia. done. }
  unfold on_add_order. rewrite Ea. simpl. fold buy. unfold level_for. rewrite Hfl, Z.eqb_refl.
  rewrite insert_level_full by lia. simpl. rewrite Z.geb_leb.
  destruct (Z.leb_spec MAX_PRICE_LEVELS (count_of b buy)); [|lia].
  assert (Hpool : pool (count_drop b (set_pool s p1)) = p1) by (unfold count_drop; by destruct (drop_ctr_ b)).
  rewrite Hpool, Ef. simpl. eexists _, _. split; [done|]. split.
  - assert (Hset : set_side b buy (levels_of b buy) (count_of b buy) = b) by (by destruct buy, b).
    rewrite Hset. constructor; simpl; try done.
    + unfold count_drop. by destruct (drop_ctr_ b).
    + apply (sides_frame (pool s)); [done|by rewrite Hc2|]. intros c Hcc. unfold pool_at. rewrite Hp2, Hpl.
      pose proof (sides_order _ _ _ c S Hcc K). destruct (Hkn c Hcc) as [[_ Hnu] _].
      apply list_lookup_insert_ne. intros E. apply Hnu. by replace (a_idx c) with i by lia.
    + intros a Ha. destruct (Hkn a Ha) as ([? Hnu] & ? & ?). split_and!; [split|done|done].
      * by rewrite Hc2, Hc.
      * by rewrite Hst2, <- Hst.
  - simpl. unfold count_drop. by destruct (drop_ctr_ b).
Qed.

End Refinement.
