(* ===== verification/BookProperties.v ===== *)
(** * Properties of the order book

    What each handler of [Level2Book] does to the price-time priority queues,
    on every branch; the best bid and offer; and the behaviour when the level
    index kept in an order is out of date. *)

From stdpp Require Import sorting gmap.
From S2P Require Import Prelude Types OrderMap OrderPool Level2Book BookLevels BookRep BookRefine.

Section Properties.
Context {M : Type} `{MapLaws M}.


(** C3: deleting an order whose stored level index is up to date removes it
    from its queue, removes the level when it was the last one, returns the
    slot to the pool and forgets the reference. *)
Theorem delete_order_refines b (s : ShardMem M) B g buy a :
  book_rep b s B g -> a ∈ orders (B buy) -> current (pool s) (B buy) a ->
  exists b' s', on_order_delete b s (a_id a) = Some (b', s')
    /\ book_rep b' s' (set_aside B buy (spec_remove (a_id a) (B buy))) (delete (a_id a) g).
Proof. apply delete_rep. Qed.

(** C4: an execution or a cancellation (messages E, C and X share the code)
    of an order whose stored level index is up to date reduces its quantity,
    modulo 2^32, and leaves it in its place in the queue; when the result is
    zero the order is removed like a deleted one. *)
Theorem reduce_order_refines b (s : ShardMem M) B g buy a by_qty :
  book_rep b s B g -> a ∈ orders (B buy) -> current (pool s) (B buy) a ->
  exists b' s', reduce_qty b s (a_id a) by_qty = Some (b', s') /\
    let q := a_qty a -32 by_qty in
    if q =? 0 then book_rep b' s' (set_aside B buy (spec_remove (a_id a) (B buy))) (delete (a_id a) g)
    else book_rep b' s' (set_aside B buy (spec_amend (a_id a) (a_id a) q (B buy))) g.
Proof. apply reduce_rep. Qed.

(** C2: the replacement of an order whose stored level index is up to date, by
    a reference that is not in use, when the order map has room for it and the
    new price has a level or finds one free.  At the same price and without
    increasing the quantity it keeps the order's place in the queue and re-keys
    it; otherwise it removes the order and appends the new one to the tail of
    the queue of the new price, also when the pool was exhausted before. *)
Theorem replace_order_refines b (s : ShardMem M) B g buy a pr new_ref new_shares new_price :
  book_rep b s B g -> a ∈ orders (B buy) -> current (pool s) (B buy) a ->
  price <$> pool_at (pool s) (a_idx a) = Some pr ->
  new_ref <> 0 -> g !! new_ref = None ->
  (forall r m, map_erase (order_map_ s) (a_id a) = Some (r, m) -> map_room m new_ref) ->
  let rest := spec_remove (a_id a) (B buy) in
  new_price ∈ rest.*1 \/ Z.of_nat (length rest) < MAX_PRICE_LEVELS ->
  exists b' s', on_order_replace b s (a_id a) new_ref new_shares new_price = Some (b', s')
    /\ if (new_price =? pr) && (new_shares <=? a_qty a)
       then book_rep b' s' (set_aside B buy (spec_amend (a_id a) new_ref new_shares (B buy)))
              (<[new_ref := a_idx a]> (delete (a_id a) g))
       else exists i, book_rep b' s'
              (set_aside B buy (spec_add buy rest new_price (mkA i new_ref new_shares)))
              (<[new_ref := i]> (delete (a_id a) g)).
Proof.
  intros R Ha Hcur Hpr Hnr Hfr Hroom rest Hlev.
  destruct (rep_order b s B g buy a R Ha) as (Hf & Hk & o & Ho & Hsd & Hq & _).
  rewrite Ho in Hpr. injection Hpr as Hpr. unfold on_order_replace. rewrite Hf. simpl. rewrite Hk, Ho. simpl.
  rewrite Hpr, Hq. destruct ((new_price =? pr) && (new_shares <=? a_qty a)).
  - apply (replace_inplace_rep b s B g buy a); try done. by left.
  - rewrite replace_full_as_add, Hsd.
    destruct (remove_rep _ _ _ _ buy _ R Ha Hcur) as (b1 & p1 & m1 & p2 & Ed & Ee & Ef & R1 & Hst & Ht).
    rewrite Ed. simpl. rewrite Ee. simpl. rewrite Ef. simpl.
    destruct (add_rep b1 _ _ _ new_ref (side o) new_shares new_price R1 Hnr) as (b' & s' & i & E & R' & _ & _).
    + rewrite lookup_delete_ne; [done|]. intros E. destruct (br_known _ _ _ _ R a) as (_ & _ & Hg).
      { rewrite (all_orders_side B buy). apply elem_of_app. by left. }
      rewrite E in Hg. congruence.
    + simpl. by eapply Hroom.
    + simpl. pose proof (free_stack_length p2 (br_pool _ _ _ _ R1)) as Hl. rewrite Hst, length_app in Hl. simpl in Hl. lia.
    + rewrite Hsd, set_aside_eq. done.
    + exists b', s'. split; [done|]. exists i. rewrite Hsd, set_aside_eq in R'.
      eapply book_rep_ext; [|exact R']. intros. apply set_aside_twice.
Qed.

(** A delete, reduction or replacement that names a reference the map
    does not hold changes nothing. *)
Theorem unknown_reference_ignored b (s : ShardMem M) g ref q new_ref new_shares new_price :
  map_rep (order_map_ s) g -> ref <> 0 -> g !! ref = None ->
  on_order_delete b s ref = Some (b, s) /\ reduce_qty b s ref q = Some (b, s)
  /\ on_order_replace b s ref new_ref new_shares new_price = Some (b, s).
Proof.
  intros Hm Href Hg. pose proof (law_find _ g ref Hm Href) as Hf. rewrite Hg in Hf. simpl in Hf.
  unfold on_order_delete, reduce_qty, on_order_replace. rewrite Hf. done.
Qed.

(** The best bid and offer report the highest bid and the lowest ask
    price with the total quantity queued there (modulo 2^32), and zeros for
    an empty side. *)
Theorem bbo_is_best b (s : ShardMem M) B g :
  book_rep b s B g ->
  exists bbo, get_bbo b = Some bbo /\ bbo_locate bbo = locate_ b
    /\ (B true = [] -> bid_price bbo = 0 /\ bid_qty bbo = 0)
    /\ (B false = [] -> ask_price bbo = 0 /\ ask_qty bbo = 0)
    /\ (forall p l A, B true = (p, l) :: A -> bid_price bbo = p /\ bid_qty bbo = u32 (qsum l)
          /\ Forall (fun L => L.1 < p) A)
    /\ (forall p l A, B false = (p, l) :: A -> ask_price bbo = p /\ ask_qty bbo = u32 (qsum l)
          /\ Forall (fun L => p < L.1) A).
Proof.
  intros R. assert (Hside : forall buy, exists v,
    (if 0 <? count_of b buy then l ← levels_of b buy !! 0%nat; Some (level_price l, total_qty l)
     else Some (0, 0)) = Some v
    /\ (B buy = [] -> v = (0, 0))
    /\ forall p l A, B buy = (p, l) :: A -> v = (p, u32 (qsum l)) /\ Forall (fun L => better buy p L.1) A).
  { intros buy. pose proof (br_sides _ _ _ _ R buy) as Sb. pose proof (sr_count _ _ _ _ _ Sb) as Hc.
    destruct (B buy) as [|[p l] A] eqn:E.
    - rewrite Hc. exists (0, 0). split; [done|]. split; [done|]. intros. done.
    - destruct (side_lookup _ _ _ _ [] _ _ Sb) as (lv & Hlk & HR). simpl in Hlk.
      destruct (Z.ltb_spec 0 (count_of b buy)); [|rewrite Hc in *; simpl in *; lia].
      rewrite Hlk. simpl. eexists. split; [done|]. split; [done|]. intros p' l' A' [= <- <- <-].
      rewrite (lr_price _ _ _ _ HR), (lr_total _ _ _ _ HR). split; [done|].
      pose proof (sr_sorted _ _ _ _ _ Sb) as Hs. inversion_clear Hs as [|?? _ Hx]. by rewrite Forall_fmap in Hx. }
  destruct (Hside true) as (vb & Eb & Hb0 & Hb1). destruct (Hside false) as (va & Eaa & Ha0 & Ha1).
  unfold get_bbo. simpl in Eb, Eaa. rewrite Eb. simpl. rewrite Eaa. simpl. eexists. split; [done|]. simpl.
  split; [done|]. split; [by intros ->%Hb0|]. split; [by intros ->%Ha0|]. split.
  - intros p l A [-> Hx]%Hb1. done.
  - intros p l A [-> Hx]%Ha1. done.
Qed.

End Properties.

(** ** The level index kept in an order can be out of date *)

(** C22: [insert_level] and [remove_level] shift levels without updating the
    level index of the orders in them, so a later message acts on the wrong
    level.  After bids 5 @ 100 (order 11) and 7 @ 101 (order 12) and the
    deletion of order 11, the queues hold only order 12 at 101; the book has
    lost that level and still shows 5 @ 100 as its best bid, headed by a pool
    slot that is free. *)
Theorem stale_level_index_corrupts_book :
  let ms := [MAdd 11 Buy 5 100; MAdd 12 Buy 7 101; MDelete 11] in
  let queues := spec_remove 11 (spec_add true (spec_add true [] 100 (mkA 0 11 5)) 101 (mkA 1 12 7)) in
  queues = [(101, [mkA 1 12 7])]
  /\ exists b s, book_run (new_book 9) small_mem ms = Some (b, s)
     /\ get_bbo b = Some (mkBbo 9 100 5 0 0 0)
     /\ prices (bid_levels_ b) (bid_count_ b) = [100]
     /\ head_order_idx <$> bid_levels_ b !! 0%nat = Some 0
     /\ 0 ∈ free_stack (pool s) /\ map_find (order_map_ s) 12 = Some 1.
Proof.
  split; [reflexivity|].
  destruct (book_run (new_book 9) small_mem [MAdd 11 Buy 5 100; MAdd 12 Buy 7 101; MDelete 11])
    as [[b s]|] eqn:E; [|vm_compute in E; discriminate E].
  exists b, s. split; [reflexivity|]. vm_compute in E. injection E as <- <-.
  split_and!; try (vm_compute; reflexivity). vm_compute. repeat constructor.
Qed.

(** ** Witnesses: an empty book over the Robin Hood table *)

Definition no_orders : ABook := fun _ => [].

Lemma empty_book_rep : book_rep (new_book 9) small_mem no_orders ∅.
Proof.
  constructor.
  - exact (proj1 (new_pool_accounted 4 ltac:(lia))).
  - exists 3. exact (new_map_stores 3 ltac:(lia)).
  - intros buy. constructor; destruct buy; first [done | constructor].
  - intros buy. constructor.
  - constructor.
  - intros a Ha. by apply elem_of_nil in Ha.
Qed.

Lemma empty_room x : map_room (new_map 8) x.
Proof. apply (room_small (new_map 8) 3 x 1 2); try lia; try done; intros Hx; by apply Hx. Qed.


(** A book with one bid. *)
Lemma one_bid :
  exists b s i, on_add_order (new_book 9) small_mem 11 Buy 5 100 = Some (b, s)
    /\ book_rep b s (set_aside no_orders true [(100, [mkA i 11 5])]) (<[11 := i]> ∅)
    /\ current (pool s) [(100, [mkA i 11 5])] (mkA i 11 5).
Proof.
  destruct (add_rep (new_book 9) small_mem no_orders ∅ 11 Buy 5 100) as (b & s & i & E & R & C & _).
  - exact empty_book_rep.
  - done.
  - done.
  - exact (empty_room 11).
  - done.
  - by right.
  - by exists b, s, i.
Qed.

Lemma delete_order_refines_witness :
  exists b s, on_add_order (new_book 9) small_mem 11 Buy 5 100 = Some (b, s)
    /\ exists b' s', on_order_delete b s 11 = Some (b', s').
Proof.
  destruct one_bid as (b & s & i & E & R & C). exists b, s. split; [exact E|].
  destruct (delete_order_refines b s _ _ true (mkA i 11 5) R) as (b' & s' & E' & _).
  - by left.
  - exact C.
  - exists b', s'. exact E'.
Defined.

Lemma reduce_order_refines_witness :
  exists b s, on_add_order (new_book 9) small_mem 11 Buy 5 100 = Some (b, s)
    /\ exists b' s', reduce_qty b s 11 2 = Some (b', s').
Proof.
  destruct one_bid as (b & s & i & E & R & C). exists b, s. split; [exact E|].
  destruct (reduce_order_refines b s _ _ true (mkA i 11 5) 2 R) as (b' & s' & E' & _).
  - by left.
  - exact C.
  - exists b', s'. exact E'.
Defined.

Lemma replace_order_refines_witness :
  exists b s, on_add_order (new_book 9) small_mem 11 Buy 5 100 = Some (b, s)
    /\ exists b' s', on_order_replace b s 11 12 9 101 = Some (b', s').
Proof.
  destruct one_bid as (b & s & i & E & R & C). exists b, s. split; [exact E|].
  destruct (replace_order_refines b s _ _ true (mkA i 11 5) 100 12 9 101 R) as (b' & s' & E' & _).
  - by left.
  - exact C.
  - vm_compute in E. injection E as <- <-. destruct C as (n & L & o & _ & _ & Ho & _).
    pose proof (br_known _ _ _ _ R (mkA i 11 5) ltac:(by left)) as (_ & _ & Hg).
    pose proof (law_find _ _ 11 (br_map _ _ _ _ R) ltac:(done)) as Hf. simpl in Hg. rewrite Hg in Hf.
    vm_compute in Hf. injection Hf as <-. vm_compute. reflexivity.
  - done.
  - by rewrite lookup_insert_ne.
  - intros r m Em. vm_compute in E. injection E as <- <-. vm_compute in Em. injection Em as <- <-.
    apply (room_small _ 3 12 1 2); try lia; try done; intros Hx; by apply Hx.
  - right. reflexivity.
  - exists b', s'. exact E'.
Defined.

Lemma unknown_reference_ignored_witness : on_order_delete (new_book 9) small_mem 77 = Some (new_book 9, small_mem).
Proof.
  exact (proj1 (unknown_reference_ignored (new_book 9) small_mem ∅ 77 0 0 0 0
    (br_map _ _ _ _ empty_book_rep) ltac:(done) eq_refl)).
Defined.

Lemma bbo_is_best_witness :
  exists b s bbo, on_add_order (new_book 9) small_mem 11 Buy 5 100 = Some (b, s)
    /\ get_bbo b = Some bbo /\ bid_price bbo = 100 /\ bid_qty bbo = 5.
Proof.
  destruct one_bid as (b & s & i & E & R & _). exists b, s.
  destruct (bbo_is_best b s _ _ R) as (bbo & Eb & _ & _ & _ & Hb & _). exists bbo.
  destruct (Hb 100 [mkA i 11 5] [] eq_refl) as (H1 & H2 & _).
  split; [exact E|]. split; [exact Eb|]. split; [exact H1|exact H2].
Defined.
