(* ===== verification/Routing.v ===== *)
(** * Symbol directory and shard router

    [SymbolDirectory] ([include/routing/symbol_directory.hpp],
    [src/routing/symbol_directory.cpp]) and [ShardRouter]
    ([include/routing/shard_router.hpp], [src/routing/shard_router.cpp]).  The
    eight shard queues are any queue with the [Fifo] laws.  The abstract
    specification is one independent bounded queue per shard ([ShardView]);
    the router refines the eight of them side by side. *)

From S2P Require Import Prelude Types Spsc ItchParser.

(** ** Symbol directory *)

Record SymbolInfo := mkSymbol {
  ticker : bytes;
  sym_locate : Z;
  shard : Z;
  market_category_ : Z;
  round_lot_size_ : Z;
  financial_status_ : Z;
  is_active : bool
}.

Definition SymbolInfo0 : SymbolInfo := mkSymbol (replicate 9 0) 0 0 0 100 0 false.

Record SymbolDirectory := mkDirectory { symbols_ : list SymbolInfo; symbol_count : Z }.

Definition new_directory : SymbolDirectory :=
  mkDirectory (replicate (Z.to_nat MAX_LOCATE) SymbolInfo0) 0.

Definition invalid_locate (loc : Z) : bool := (loc =? 0) || (loc >=? MAX_LOCATE).

Definition shard_for_locate (loc : Z) : Z := u8 (loc mod NUM_SHARDS).

(** [None]: an access outside [symbols_] or [stock8]. *)
Definition register_symbol (d : SymbolDirectory) (loc : Z) (stock8 : bytes)
    (lot_size market_cat fin_status : Z) : option SymbolDirectory :=
  if invalid_locate loc then Some d
  else
    _ ← symbols_ d !! Z.to_nat loc;
    t ← rd_bytes 8 stock8;
    let s := mkSymbol (t ++ [0]) loc (shard_for_locate loc) market_cat lot_size fin_status true in
    Some (mkDirectory (<[Z.to_nat loc := s]> (symbols_ d)) (symbol_count d +64 1)).

(** [Some None] is [nullptr]. *)
Definition lookup_symbol (d : SymbolDirectory) (loc : Z) : option (option SymbolInfo) :=
  if invalid_locate loc then Some None
  else s ← symbols_ d !! Z.to_nat loc; Some (if is_active s then Some s else None).

Definition deactivate (s : SymbolInfo) : SymbolInfo :=
  mkSymbol (ticker s) (sym_locate s) (shard s) (market_category_ s) (round_lot_size_ s)
    (financial_status_ s) false.

Definition directory_reset (d : SymbolDirectory) : SymbolDirectory :=
  mkDirectory (deactivate <$> symbols_ d) 0.

(** ** Router *)

Inductive RouteResult := Ok | QueueFull.

#[export] Instance RouteResult_eq_dec : EqDecision RouteResult.
Proof. solve_decision. Defined.

Definition is_admin_message (t : MessageType) : bool :=
  match t with
  | SystemEvent | StockDirectory | StockTradingAction | RegSHO | MWCBDecline | MWCBStatus
  | OperationalHalt => true
  | _ => false
  end.

(** [shard_queue_drops] is a member of [FeedStats] that only the router
    writes.  The directory reference is used for [shard_for_locate] alone,
    which reads no state. *)
Record ShardRouter (Q : Type) := mkRouter {
  pressure_threshold_ : Z;
  queues_ : list Q;
  shard_queue_drops : list Z
}.

Arguments mkRouter {Q}.
Arguments pressure_threshold_ {Q}.
Arguments queues_ {Q}.
Arguments shard_queue_drops {Q}.

(** The constructor; [q0] is a fresh queue, the counters of [FeedStats] start
    at zero. *)
Definition new_router {Q} (q0 : Q) (pressure_threshold : Z) : ShardRouter Q :=
  mkRouter pressure_threshold (replicate (Z.to_nat NUM_SHARDS) q0)
    (replicate (Z.to_nat NUM_SHARDS) 0).

Definition shard_ids : list nat := seq 0 (Z.to_nat NUM_SHARDS).

Section Router.
Context {Q : Type} `{FifoOps Q ItchMsg}.

(** [queues_[s]->try_push(msg)], counting a refusal for shard [s]; [None]
    outside the arrays. *)
Definition push_shard (r : ShardRouter Q) (s : nat) (msg : ItchMsg)
    : option (bool * ShardRouter Q) :=
  q ← queues_ r !! s;
  n ← shard_queue_drops r !! s;
  let '(ok, q') := try_push q msg in
  let qs := <[s := q']> (queues_ r) in
  Some (ok, mkRouter (pressure_threshold_ r) qs
              (if ok then shard_queue_drops r else <[s := n +64 1]> (shard_queue_drops r))).

(** The loop of [broadcast] over the remaining shards. *)
Fixpoint broadcast_loop (r : ShardRouter Q) (msg : ItchMsg) (todo : list nat) (result : RouteResult)
    : option (RouteResult * ShardRouter Q) :=
  match todo with
  | [] => Some (result, r)
  | s :: todo' =>
      '(ok, r') ← push_shard r s msg;
      broadcast_loop r' msg todo' (if ok : bool then result else QueueFull)
  end.

Definition broadcast (r : ShardRouter Q) (msg : ItchMsg) : option (RouteResult * ShardRouter Q) :=
  broadcast_loop r msg shard_ids Ok.

Definition route (r : ShardRouter Q) (msg : ItchMsg) : option (RouteResult * ShardRouter Q) :=
  if is_admin_message (type msg) then broadcast r msg
  else
    '(ok, r') ← push_shard r (Z.to_nat (shard_for_locate (locate msg))) msg;
    Some (if ok : bool then Ok else QueueFull, r').

(** [queue(s).try_pop], the consumer's side. *)
Definition pop_shard (r : ShardRouter Q) (s : nat) : option (option ItchMsg * ShardRouter Q) :=
  q ← queues_ r !! s;
  let '(x, q') := try_pop q in
  Some (x, mkRouter (pressure_threshold_ r) (<[s := q']> (queues_ r)) (shard_queue_drops r)).

Definition queue_depth (r : ShardRouter Q) (s : nat) : option Z := size_approx <$> queues_ r !! s.

(** [size_approx() >= high_watermark] of the queue. *)
Definition router_pressure_high (r : ShardRouter Q) (s : nat) : option bool :=
  (fun q => size_approx q >=? pressure_threshold_ r) <$> queues_ r !! s.

(** ** Specification: one bounded queue per shard *)

Record ShardView := mkView { waiting : list ItchMsg; popped : list ItchMsg; drops : Z }.

Inductive RouterOp := ORoute (m : ItchMsg) | OBroadcast (m : ItchMsg) | OPop (s : nat).

(** The shards a message is addressed to. *)
Definition targets (m : ItchMsg) (s : nat) : bool :=
  is_admin_message (type m) || (Z.of_nat s =? locate m mod NUM_SHARDS).

Definition view_push (cap : nat) (v : ShardView) (m : ItchMsg) : ShardView :=
  if decide (length (waiting v) < cap)%nat
  then mkView (waiting v ++ [m]) (popped v) (drops v)
  else mkView (waiting v) (popped v) (drops v +64 1).

Definition view_step (cap s : nat) (v : ShardView) (o : RouterOp) : ShardView :=
  match o with
  | ORoute m => if targets m s then view_push cap v m else v
  | OBroadcast m => view_push cap v m
  | OPop s' =>
      if decide (s' = s) then
        match waiting v with
        | [] => v
        | m :: l => mkView l (popped v ++ [m]) (drops v)
        end
      else v
  end.

(** The implementation side of a run: the router and what was popped so far
    from each shard. *)
Definition router_step (st : ShardRouter Q * list (list ItchMsg)) (o : RouterOp)
    : option (ShardRouter Q * list (list ItchMsg)) :=
  let '(r, out) := st in
  match o with
  | ORoute m => '(_, r') ← route r m; Some (r', out)
  | OBroadcast m => '(_, r') ← broadcast r m; Some (r', out)
  | OPop s =>
      '(x, r') ← pop_shard r s;
      Some (r', match x with Some m => alter (fun l => l ++ [m]) s out | None => out end)
  end.

Fixpoint router_run (st : ShardRouter Q * list (list ItchMsg)) (os : list RouterOp)
    : option (ShardRouter Q * list (list ItchMsg)) :=
  match os with
  | [] => Some st
  | o :: os' => st' ← router_step st o; router_run st' os'
  end.

Record router_ok (cap : nat) (r : ShardRouter Q) : Prop := {
  rok_queues : length (queues_ r) = Z.to_nat NUM_SHARDS;
  rok_drops : length (shard_queue_drops r) = Z.to_nat NUM_SHARDS;
  rok_fifo : Forall (fun q => fifo_ok q /\ fifo_cap q = cap) (queues_ r)
}.

(** What shard [s] holds. *)
Definition shows (st : ShardRouter Q * list (list ItchMsg)) (s : nat) (v : ShardView) : Prop :=
  (items <$> queues_ (fst st) !! s) = Some (waiting v)
  /\ snd st !! s = Some (popped v)
  /\ shard_queue_drops (fst st) !! s = Some (drops v).

Definition op_ok (o : RouterOp) : Prop :=
  match o with
  | ORoute m => in_range 16 (locate m)
  | OBroadcast _ => True
  | OPop s => (s < Z.to_nat NUM_SHARDS)%nat
  end.

(** ** Lemmas *)

Context {QF : Fifo Q ItchMsg}.

Lemma router_ok_set cap r s q ds :
  router_ok cap r -> fifo_ok q -> fifo_cap q = cap -> length ds = length (shard_queue_drops r) ->
  router_ok cap (mkRouter (pressure_threshold_ r) (<[s := q]> (queues_ r)) ds).
Proof.
  intros R Hq Hc Hd. split; simpl.
  - rewrite length_insert. apply (rok_queues _ _ R).
  - rewrite Hd. apply (rok_drops _ _ R).
  - by apply Forall_insert; [apply (rok_fifo _ _ R)|].
Qed.

Lemma router_queue cap r s :
  router_ok cap r -> (s < Z.to_nat NUM_SHARDS)%nat ->
  exists q n, queues_ r !! s = Some q /\ shard_queue_drops r !! s = Some n
    /\ fifo_ok q /\ fifo_cap q = cap.
Proof.
  intros R Hs. destruct (lookup_lt_is_Some_2 (queues_ r) s) as [q Hq]; [by rewrite (rok_queues _ _ R)|].
  destruct (lookup_lt_is_Some_2 (shard_queue_drops r) s) as [n Hn]; [by rewrite (rok_drops _ _ R)|].
  exists q, n. pose proof (Forall_lookup_1 _ _ _ _ (rok_fifo _ _ R) Hq) as [? ?]. done.
Qed.

Definition has_room (cap : nat) (r : ShardRouter Q) (s : nat) : Prop :=
  exists q, queues_ r !! s = Some q /\ (length (items q) < cap)%nat.

(** A push touches the queue and the counter of its shard only. *)
Lemma push_shard_spec cap r s m :
  router_ok cap r -> (s < Z.to_nat NUM_SHARDS)%nat ->
  exists ok r', push_shard r s m = Some (ok, r') /\ router_ok cap r'
    /\ (ok = true <-> has_room cap r s)
    /\ (forall s', s' <> s -> queues_ r' !! s' = queues_ r !! s')
    /\ forall out s' v, shows (r, out) s' v ->
         shows (r', out) s' (if decide (s' = s) then view_push cap v m else v).
Proof.
  intros R Hs. destruct (router_queue cap r s R Hs) as (q & n & Hq & Hn & Hok & Hc).
  unfold push_shard. rewrite Hq. simpl. rewrite Hn. simpl.
  destruct (push_keeps q m Hok) as [Hok' Hc']. destruct (try_push q m) as [ok q'] eqn:E.
  simpl in Hok', Hc'. assert (Hl := lookup_lt_Some _ _ _ Hq). assert (Hl' := lookup_lt_Some _ _ _ Hn).
  exists ok. eexists. split; [done|].
  assert (Hpush : (ok = true /\ (length (items q) < cap)%nat /\ items q' = items q ++ [m])
    \/ (ok = false /\ (cap <= length (items q))%nat /\ items q' = items q)).
  { destruct (decide (length (items q) < cap)%nat) as [Hr|Hr].
    - destruct (push_ok q m Hok) as [Ho Hi]; [lia|]. rewrite E in *. by left.
    - destruct (push_full q m Hok) as [Ho Hi]; [lia|]. rewrite E in *. right. split_and!; [done|lia|done]. }
  split_and!.
  - apply router_ok_set; [done|done|lia|]. destruct ok; [done|by rewrite length_insert].
  - unfold has_room. rewrite Hq. destruct Hpush as [(-> & Hr & _)|(-> & Hr & _)].
    + split; eauto.
    + split; [done|]. intros (? & [= <-] & ?). lia.
  - intros s' Hne. simpl. by rewrite list_lookup_insert_ne.
  - intros out s' v (Hi & Hp & Hd). simpl in *. unfold shows. simpl. case_decide as Es; subst.
    + rewrite Hq in Hi. rewrite Hn in Hd. injection Hi as Hi. injection Hd as Hd.
      rewrite list_lookup_insert_eq by done. unfold view_push. rewrite <- Hi.
      destruct Hpush as [(-> & Hr & Hi')|(-> & Hr & Hi')]; simpl.
      * rewrite decide_True by lia. simpl. rewrite Hi', Hn, Hd. done.
      * rewrite decide_False by lia. simpl. by rewrite Hi', list_lookup_insert_eq, Hd by done.
    + rewrite list_lookup_insert_ne by done. split; [done|]. split; [done|].
      destruct ok; [done|]. by rewrite list_lookup_insert_ne.
Qed.

Lemma broadcast_loop_spec cap m todo :
  NoDup todo -> Forall (fun s => s < Z.to_nat NUM_SHARDS)%nat todo ->
  forall r res, router_ok cap r ->
  exists res' r', broadcast_loop r m todo res = Some (res', r') /\ router_ok cap r'
    /\ (res' = Ok <-> res = Ok /\ Forall (has_room cap r) todo)
    /\ forall out s v, shows (r, out) s v ->
         shows (r', out) s (if decide (s ∈ todo) then view_push cap v m else v).
Proof.
  intros Hnd Hlt. induction Hnd as [|s todo Hs Hnd IH]; intros r res R.
  { exists res, r. split_and!; [done|done| |].
    - split; [intros ->; split; [done|constructor]|by intros []].
    - intros out s v. by rewrite decide_False by apply not_elem_of_nil. }
  inversion_clear Hlt as [|?? Hlt1 Hlt2]. cbn [broadcast_loop].
  destruct (push_shard_spec cap r s m R Hlt1) as (ok & r1 & E & R1 & Hroom & Hkeep & Hshow).
  rewrite E. cbn [mbind option_bind].
  destruct (IH Hlt2 r1 (if ok : bool then res else QueueFull) R1) as (res' & r' & -> & R' & Hres & Hshow').
  exists res', r'. split_and!; [done|done| |].
  - rewrite Hres, Forall_cons, <- Hroom.
    assert (Hrest : Forall (has_room cap r1) todo <-> Forall (has_room cap r) todo).
    { rewrite !Forall_forall. unfold has_room.
      split; intros F x Hx; specialize (F x Hx); rewrite Hkeep in * by congruence; done. }
    rewrite Hrest. destruct ok; naive_solver.
  - intros out s' v Hv. specialize (Hshow' out s' _ (Hshow out s' v Hv)).
    destruct (decide (s' = s)) as [->|Hne].
    + rewrite decide_False in Hshow' by done. rewrite decide_True by left. done.
    + rewrite (decide_ext (s' ∈ s :: todo) (s' ∈ todo)); [done|].
      rewrite elem_of_cons. naive_solver.
Qed.

Lemma shard_ids_spec s : s ∈ shard_ids <-> (s < Z.to_nat NUM_SHARDS)%nat.
Proof. unfold shard_ids. rewrite elem_of_seq. lia. Qed.

Lemma shard_ids_lt : Forall (fun s => s < Z.to_nat NUM_SHARDS)%nat shard_ids.
Proof. apply Forall_forall. intros s. apply shard_ids_spec. Qed.

Lemma shows_lt cap r out s v :
  router_ok cap r -> shows (r, out) s v -> (s < Z.to_nat NUM_SHARDS)%nat.
Proof.
  intros R (Hi & _). rewrite <- (rok_queues _ _ R). simpl in Hi.
  destruct (queues_ r !! s) eqn:E; [|done]. by eapply lookup_lt_Some.
Qed.

Lemma broadcast_spec cap r m :
  router_ok cap r ->
  exists res r', broadcast r m = Some (res, r') /\ router_ok cap r'
    /\ (res = Ok <-> forall s, (s < Z.to_nat NUM_SHARDS)%nat -> has_room cap r s)
    /\ forall out s v, shows (r, out) s v -> shows (r', out) s (view_push cap v m).
Proof.
  intros R.
  destruct (broadcast_loop_spec cap m shard_ids (NoDup_seq _ _) shard_ids_lt r Ok R)
    as (res & r' & E & R' & Hres & Hshow).
  exists res, r'. split_and!; [done|done| |].
  - rewrite Hres, Forall_forall. setoid_rewrite shard_ids_spec. naive_solver.
  - intros out s v Hv. specialize (Hshow out s v Hv). rewrite decide_True in Hshow; [done|].
    by apply shard_ids_spec, (shows_lt cap r out s v).
Qed.

Lemma shard_for_locate_spec loc :
  in_range 16 loc -> shard_for_locate loc = loc mod NUM_SHARDS /\ 0 <= loc mod NUM_SHARDS < NUM_SHARDS.
Proof. intros. unfold shard_for_locate, NUM_SHARDS. range_lia. Qed.

Lemma route_spec cap r m :
  router_ok cap r -> in_range 16 (locate m) ->
  exists res r', route r m = Some (res, r') /\ router_ok cap r'
    /\ (res = Ok <-> forall s, (s < Z.to_nat NUM_SHARDS)%nat -> targets m s = true -> has_room cap r s)
    /\ forall out s v, shows (r, out) s v ->
         shows (r', out) s (if targets m s then view_push cap v m else v).
Proof.
  intros R Hm. unfold route, targets. destruct (is_admin_message (type m)); simpl.
  { destruct (broadcast_spec cap r m R) as (res & r' & E & R' & Hres & Hs).
    exists res, r'. split_and!; try done. rewrite Hres. naive_solver. }
  destruct (shard_for_locate_spec _ Hm) as [-> Hr]. set (k := locate m mod NUM_SHARDS) in *.
  destruct (push_shard_spec cap r (Z.to_nat k) m R) as (ok & r' & -> & R' & Hok & _ & Hs); [lia|].
  simpl. eexists _, r'. split_and!; [done|done| |].
  - transitivity (ok = true); [by destruct ok|]. rewrite Hok. split.
    + intros Hroom s _ E. apply Z.eqb_eq in E. by replace s with (Z.to_nat k) by lia.
    + intros Hall. apply Hall; [lia|]. apply Z.eqb_eq. lia.
  - intros out s v Hv. specialize (Hs out s v Hv). destruct (Z.eqb_spec (Z.of_nat s) k).
    + by rewrite decide_True in Hs by lia.
    + by rewrite decide_False in Hs by lia.
Qed.

Lemma pop_spec cap r out s :
  router_ok cap r -> length out = Z.to_nat NUM_SHARDS -> (s < Z.to_nat NUM_SHARDS)%nat ->
  exists r' out', router_step (r, out) (OPop s) = Some (r', out') /\ router_ok cap r'
    /\ length out' = length out
    /\ forall s' v, shows (r, out) s' v -> shows (r', out') s' (view_step cap s' v (OPop s)).
Proof.
  intros R Hout Hs. destruct (router_queue cap r s R Hs) as (q & n & Hq & Hn & Hok & Hc).
  simpl. unfold pop_shard. rewrite Hq. simpl. destruct (pop_keeps q Hok) as [Hok' Hc'].
  assert (Hl := lookup_lt_Some _ _ _ Hq).
  destruct (try_pop q) as [x q'] eqn:E. simpl in *.
  eexists _, _. split; [done|]. split; [apply router_ok_set; [done|done|lia|done]|].
  split; [destruct x; [apply length_alter|done]|].
  intros s' v (Hi & Hp & Hd). simpl in *. unfold shows. simpl.
  destruct (decide (s = s')) as [<-|Hne].
  2: { rewrite list_lookup_insert_ne by done. split_and!; [done| |done].
       destruct x; [|done]. by rewrite list_lookup_alter_ne. }
  rewrite list_lookup_insert_eq by done. rewrite Hq in Hi. injection Hi as Hi.
  destruct (waiting v) as [|m l] eqn:Ew.
  - destruct (pop_empty q Hok Hi) as [Hx Hi']. rewrite E in *. simpl in *. subst x.
    rewrite Ew. simpl. by rewrite Hi'.
  - destruct (pop_head q m l Hok Hi) as [Hx Hi']. rewrite E in *. simpl in *. subst x.
    simpl. by rewrite Hi', list_lookup_alter_eq, Hp.
Qed.

Lemma router_step_spec cap r out o :
  router_ok cap r -> length out = Z.to_nat NUM_SHARDS -> op_ok o ->
  exists r' out', router_step (r, out) o = Some (r', out') /\ router_ok cap r'
    /\ length out' = length out
    /\ forall s v, shows (r, out) s v -> shows (r', out') s (view_step cap s v o).
Proof.
  intros R Hout Ho. destruct o as [m|m|s]; [| |exact (pop_spec cap r out s R Hout Ho)].
  - destruct (route_spec cap r m R Ho) as (res & r' & E & R' & _ & Hs).
    cbn [router_step]. rewrite E. exists r', out. split_and!; [done|done|done|exact (Hs out)].
  - destruct (broadcast_spec cap r m R) as (res & r' & E & R' & _ & Hs).
    cbn [router_step]. rewrite E. exists r', out. split_and!; [done|done|done|exact (Hs out)].
Qed.

Lemma new_router_ok q0 thr : fifo_ok q0 -> router_ok (fifo_cap q0) (new_router q0 thr).
Proof. intros. split; simpl; [done|done|]. repeat constructor; done. Qed.

Lemma new_router_shows q0 thr s :
  (s < Z.to_nat NUM_SHARDS)%nat ->
  shows (new_router q0 thr, replicate (Z.to_nat NUM_SHARDS) []) s (mkView (items q0) [] 0).
Proof.
  intros Hs. unfold shows, new_router.
  cbn [fst snd queues_ shard_queue_drops waiting popped drops].
  by rewrite !lookup_replicate_2.
Qed.

(** ** Properties *)

(** C13: the router implements eight independent bounded queues.  For any
    interleaving of routed messages, broadcasts and pops, nothing is accessed
    out of bounds and every shard ends up exactly as a queue of its own that
    was offered only the messages addressed to it, in order: administrative
    messages and broadcasts to every shard, any other message to shard
    [locate % 8]; a message is lost only at a shard whose queue was full when
    it came, and is then counted there. *)
Theorem router_refines_shard_queues cap os :
  Forall op_ok os -> forall r out, router_ok cap r -> length out = Z.to_nat NUM_SHARDS ->
  exists r' out', router_run (r, out) os = Some (r', out') /\ router_ok cap r'
    /\ forall s v, shows (r, out) s v -> shows (r', out') s (foldl (view_step cap s) v os).
Proof.
  intros Hos. induction Hos as [|o os Ho _ IH]; intros r out R Hout; cbn [router_run];
    [by exists r, out|].
  destruct (router_step_spec cap r out o R Hout Ho) as (r1 & out1 & -> & R1 & Hl & Hs1).
  cbn [mbind option_bind].
  destruct (IH r1 out1 R1) as (r' & out' & -> & R' & Hs'); [lia|].
  exists r', out'. split_and!; [done|done|]. intros s v Hv. by apply Hs', Hs1.
Qed.

(** The verdict of [route] is exact: it says [Ok] if and only if every
    queue the message is addressed to had room, and in both cases the other
    shards see nothing. *)
Theorem route_verdict cap r m :
  router_ok cap r -> in_range 16 (locate m) ->
  exists res r', route r m = Some (res, r')
    /\ (res = Ok <-> forall s, (s < Z.to_nat NUM_SHARDS)%nat -> targets m s = true -> has_room cap r s)
    /\ forall out s v, shows (r, out) s v -> targets m s = false -> shows (r', out) s v.
Proof.
  intros R Hm. destruct (route_spec cap r m R Hm) as (res & r' & E & _ & Hres & Hs).
  exists res, r'. split_and!; [done|done|]. intros out s v Hv Ht.
  specialize (Hs out s v Hv). by rewrite Ht in Hs.
Qed.

End Router.

Arguments ShardView : clear implicits.

(** ** The directory *)

Definition directory_ok (d : SymbolDirectory) : Prop :=
  length (symbols_ d) = Z.to_nat MAX_LOCATE.

Lemma invalid_locate_false loc : invalid_locate loc = false -> 0 <= loc -> 0 < loc < MAX_LOCATE.
Proof.
  unfold invalid_locate. intros [H1 H2]%orb_false_iff ?. apply Z.eqb_neq in H1.
  rewrite Z.geb_leb in H2. apply Z.leb_gt in H2. lia.
Qed.

Lemma invalid_locate_valid loc : 0 < loc < MAX_LOCATE -> invalid_locate loc = false.
Proof.
  intros. unfold invalid_locate. apply orb_false_iff. split; [apply Z.eqb_neq; lia|].
  rewrite Z.geb_leb. apply Z.leb_gt. lia.
Qed.

Lemma lookup_symbol_eq d loc :
  directory_ok d -> 0 < loc < MAX_LOCATE ->
  exists s, symbols_ d !! Z.to_nat loc = Some s
    /\ lookup_symbol d loc = Some (if is_active s then Some s else None).
Proof.
  intros Hd Hl. destruct (lookup_lt_is_Some_2 (symbols_ d) (Z.to_nat loc)) as [s Hs].
  { rewrite Hd. unfold MAX_LOCATE in *. lia. }
  exists s. split; [done|]. unfold lookup_symbol. by rewrite invalid_locate_valid, Hs by done.
Qed.

(** The directory is a map from locate codes.  Registering a symbol makes
    it the answer for its own code, with the shard the router will use, and
    changes the answer for no other code; code 0 is rejected; after a reset
    every code is unknown. *)
Theorem register_lookup d loc stock8 lot cat fin :
  directory_ok d -> in_range 16 loc -> (8 <= length stock8)%nat ->
  exists d', register_symbol d loc stock8 lot cat fin = Some d' /\ directory_ok d'
    /\ (loc <> 0 -> lookup_symbol d' loc =
          Some (Some (mkSymbol (take 8 stock8 ++ [0]) loc (loc mod NUM_SHARDS) cat lot fin true)))
    /\ (loc = 0 -> d' = d)
    /\ (forall l, 0 <= l -> l <> loc -> lookup_symbol d' l = lookup_symbol d l)
    /\ (forall l, in_range 16 l -> lookup_symbol (directory_reset d') l = Some None).
Proof.
  intros Hd Hl H8. unfold directory_ok in Hd.
  assert (Hreset : forall d1, length (symbols_ d1) = Z.to_nat MAX_LOCATE ->
    forall l, in_range 16 l -> lookup_symbol (directory_reset d1) l = Some None).
  { intros d1 Hd1 l Hr. destruct (decide (l = 0)) as [->|]; [done|].
    assert (Hrange : 0 < l < MAX_LOCATE) by (unfold MAX_LOCATE; range_lia).
    destruct (lookup_symbol_eq (directory_reset d1) l) as (s & Hs & ->); [|done|].
    - unfold directory_ok. simpl. by rewrite length_fmap.
    - simpl in Hs. apply list_lookup_fmap_Some in Hs as (? & -> & _). done. }
  unfold register_symbol. destruct (invalid_locate loc) eqn:E.
  { exists d. split_and!; try done; [|by apply Hreset]. intros Hne. exfalso.
    rewrite invalid_locate_valid in E; [done|]. unfold MAX_LOCATE. range_lia. }
  apply invalid_locate_false in E; [|range_lia].
  destruct (lookup_lt_is_Some_2 (symbols_ d) (Z.to_nat loc)) as [s0 Hs0].
  { rewrite Hd. unfold MAX_LOCATE in *. lia. }
  assert (Hlt := lookup_lt_Some _ _ _ Hs0).
  rewrite Hs0. unfold rd_bytes. simpl. rewrite decide_True by done. simpl.
  eexists. split; [done|]. split; [unfold directory_ok; simpl; by rewrite length_insert|].
  split_and!; [|lia| |apply Hreset; simpl; by rewrite length_insert]; unfold lookup_symbol; simpl.
  - intros _. rewrite invalid_locate_valid, list_lookup_insert_eq by done. simpl.
    by rewrite (proj1 (shard_for_locate_spec loc Hl)).
  - intros l Hpos Hne. destruct (invalid_locate l) eqn:E'; [done|].
    by rewrite list_lookup_insert_ne by lia.
Qed.

(** ** Witnesses *)

Definition sample_msg (t : MessageType) (loc : Z) : ItchMsg := mkMsg t loc 0 0 no_payload.

Definition small_router : ShardRouter (Seq.SpscQueue ItchMsg) :=
  new_router (Seq.init (Z.to_nat (2 ^ 1)) ItchMsg0) 2.

Lemma small_router_ok : router_ok 2 small_router.
Proof.
  change 2%nat with (fifo_cap (Seq.init (Z.to_nat (2 ^ 1)) ItchMsg0)).
  apply new_router_ok. by apply init_fifo_ok.
Qed.

(** Shard 3 takes the directory message and its own two orders, of which the
    second finds its queue full; shard 4 only the directory message. *)
Lemma router_refines_shard_queues_witness :
  exists r' out',
    router_run (small_router, replicate 8 [])
      [ORoute (sample_msg StockDirectory 3); ORoute (sample_msg AddOrder 11);
       ORoute (sample_msg OrderDelete 3); OPop 3] = Some (r', out')
    /\ shows (r', out') 3 (mkView [sample_msg AddOrder 11] [sample_msg StockDirectory 3] 1)
    /\ shows (r', out') 4 (mkView [sample_msg StockDirectory 3] [] 0).
Proof.
  destruct (router_refines_shard_queues 2
    [ORoute (sample_msg StockDirectory 3); ORoute (sample_msg AddOrder 11);
     ORoute (sample_msg OrderDelete 3); OPop 3]) with (r := small_router) (out := replicate 8 ([] : list ItchMsg))
    as (r' & out' & E & _ & Hs).
  - repeat constructor; unfold op_ok; simpl; unfold in_range; lia.
  - exact small_router_ok.
  - reflexivity.
  - exists r', out'. split; [exact E|].
    split; [apply (Hs 3%nat (mkView [] [] 0))|apply (Hs 4%nat (mkView [] [] 0))];
      split_and!; reflexivity.
Defined.

Lemma route_verdict_witness :
  exists res r', route small_router (sample_msg AddOrder 11) = Some (res, r') /\ res = Ok.
Proof.
  destruct (route_verdict 2 small_router (sample_msg AddOrder 11)) as (res & r' & E & Hres & _).
  - exact small_router_ok.
  - concrete.
  - exists res, r'. split; [exact E|]. apply Hres. intros s Hs _.
    exists (Seq.init (Z.to_nat (2 ^ 1)) ItchMsg0). split; [by apply lookup_replicate_2|].
    vm_compute. lia.
Defined.

Lemma register_lookup_witness :
  exists d', register_symbol new_directory 11 (replicate 8 65) 100 81 78 = Some d'
    /\ lookup_symbol d' 11 = Some (Some (mkSymbol (replicate 8 65 ++ [0]) 11 3 81 100 78 true))
    /\ lookup_symbol d' 12 = Some None.
Proof.
  destruct (register_lookup new_directory 11 (replicate 8 65) 100 81 78) as (d' & E & _ & H1 & _ & H2 & _).
  - unfold directory_ok, new_directory. cbn [symbols_]. by rewrite length_replicate.
  - concrete.
  - simpl. lia.
  - exists d'. split; [exact E|]. split; [by rewrite H1|]. rewrite H2 by lia.
    unfold lookup_symbol, new_directory. cbn [symbols_].
    rewrite lookup_replicate_2 by (unfold MAX_LOCATE; lia). reflexivity.
Defined.
