(* ===== verification/SeqLock.v ===== *)
(** * Sequence lock and BBO publisher

    [SeqLock<T>] of [include/concurrency/seqlock.hpp] and [BboPublisher] of
    [include/orderbook/bbo_publisher.hpp] and
    [src/orderbook/bbo_publisher.cpp].  The concurrent model splits [store]
    and [load] at every access to the sequence number and at every word of the
    data, and interleaves any number of writers with a reader in a
    sequentially consistent memory; readers write nothing, so one of them
    stands for all.  The whole-call versions used by the publisher are related
    to it by [solo_store]. *)

From S2P Require Import Prelude Types OrderMap Level2Book.

(** ** The lock *)

Record SeqLock (T : Type) := mkSeqLock { seq_ : Z; data_ : T }.
Arguments mkSeqLock {T}.
Arguments seq_ {T}.
Arguments data_ {T}.

(** [store] without interference. *)
Definition store_lock {T} (l : SeqLock T) (value : T) : SeqLock T :=
  let s := seq_ l in mkSeqLock (s +32 2) value.

(** [load] while nobody writes: the result, or [None] when the lock is held,
    in which case the loop spins. *)
Definition load_lock {T} (l : SeqLock T) : option T :=
  if seq_ l mod 2 =? 1 then None else Some (data_ l).

(** ** Interleaved execution *)

(** A writer between its accesses: the value, the result of the [fetch_add]
    and the words already written. *)
Inductive writer_pc := WIdle | WWrite (value : list Z) (seq : Z) (i : nat).

(** A reader: about to load [seq1], copying words, returned. *)
Inductive reader_pc := RSpin | RRead (seq1 : Z) (value : list Z) | RDone (value : list Z).

(** The last three fields are ghosts: the value of the last complete store, the
    number of stores begun so far, and that number when the reader loaded
    [seq1]. *)
Record lock_state := mkLockState {
  lock : SeqLock (list Z);
  writers : list writer_pc;
  reader : reader_pc;
  current : list Z;
  begun : Z;
  rstart : Z
}.

Definition set_writer (s : lock_state) (i : nat) (w : writer_pc) (l : SeqLock (list Z))
    (cur : list Z) (n : Z) : lock_state :=
  mkLockState l (<[i := w]> (writers s)) (reader s) cur n (rstart s).
Definition set_reader (s : lock_state) (r : reader_pc) (n : Z) : lock_state :=
  mkLockState (lock s) (writers s) r (current s) (begun s) n.

Inductive lock_step : lock_state -> lock_state -> Prop :=
  | store_begin s i v :
      writers s !! i = Some WIdle -> length v = length (data_ (lock s)) ->
      lock_step s (set_writer s i (WWrite v (seq_ (lock s)) 0)
                     (mkSeqLock (seq_ (lock s) +32 1) (data_ (lock s))) (current s) (begun s + 1))
  | store_word s i v q k x :
      writers s !! i = Some (WWrite v q k) -> v !! k = Some x ->
      lock_step s (set_writer s i (WWrite v q (S k))
                     (mkSeqLock (seq_ (lock s)) (<[k := x]> (data_ (lock s)))) (current s) (begun s))
  | store_end s i v q :
      writers s !! i = Some (WWrite v q (length v)) ->
      lock_step s (set_writer s i WIdle (mkSeqLock (q +32 2) (data_ (lock s))) v (begun s))
  | load_spin s :
      reader s = RSpin -> seq_ (lock s) mod 2 = 1 ->
      lock_step s (set_reader s RSpin (rstart s))
  | load_seq1 s :
      reader s = RSpin -> seq_ (lock s) mod 2 <> 1 ->
      lock_step s (set_reader s (RRead (seq_ (lock s)) []) (begun s))
  | load_word s q v x :
      reader s = RRead q v -> data_ (lock s) !! length v = Some x ->
      lock_step s (set_reader s (RRead q (v ++ [x])) (rstart s))
  | load_retry s q v :
      reader s = RRead q v -> length v = length (data_ (lock s)) -> seq_ (lock s) <> q ->
      lock_step s (set_reader s RSpin (rstart s))
  | load_return s q v :
      reader s = RRead q v -> length v = length (data_ (lock s)) -> seq_ (lock s) = q ->
      lock_step s (set_reader s (RDone v) (rstart s)).

(** A fresh lock with [n] potential writers. *)
Definition init_lock (n : nat) (v : list Z) : lock_state :=
  mkLockState (mkSeqLock 0 v) (replicate n WIdle) RSpin v 0 0.

(** ** Invariant for a single writer *)

Record lock_inv (s : lock_state) : Prop := {
  li_begun : 0 <= rstart s <= begun s;
  li_len : length (current s) = length (data_ (lock s));
  li_writer : match writers s with
    | [WIdle] => seq_ (lock s) = u32 (2 * begun s) /\ data_ (lock s) = current s
    | [WWrite v q k] => seq_ (lock s) = u32 (2 * begun s - 1) /\ q = u32 (2 * begun s - 2)
        /\ 1 <= begun s /\ length v = length (data_ (lock s)) /\ (k <= length v)%nat
        /\ data_ (lock s) = take k v ++ drop k (current s)
        /\ (forall q v, reader s = RRead q v -> rstart s < begun s)
    | _ => False
    end;
  li_reader : match reader s with
    | RRead q v => q = u32 (2 * rstart s) /\ (length v <= length (data_ (lock s)))%nat
        /\ (rstart s = begun s -> v = take (length v) (current s))
    | _ => True
    end
}.

Lemma odd_u32 n : u32 (2 * n - 1) mod 2 = 1.
Proof. range_lia. Qed.

Lemma even_u32 n : u32 (2 * n) mod 2 = 0.
Proof. range_lia. Qed.

Lemma inv_init_lock v : lock_inv (init_lock 1 v).
Proof. split; simpl; try done; lia. Qed.

Lemma single_writer s i w :
  lock_inv s -> writers s !! i = Some w -> i = 0%nat /\ writers s = [w].
Proof.
  intros I Hi. pose proof (li_writer _ I) as Hw.
  destruct (writers s) as [|w0 [|??]]; [done| |destruct w0; done].
  destruct i; [by injection Hi as ->|done].
Qed.

Lemma insert_take_drop (v cur : list Z) k x :
  v !! k = Some x -> length cur = length v ->
  <[k := x]> (take k v ++ drop k cur) = take (S k) v ++ drop (S k) cur.
Proof.
  intros Hx Hl. pose proof (lookup_lt_Some _ _ _ Hx).
  rewrite insert_app_r_alt by (rewrite length_take; lia). rewrite length_take.
  replace (k - k `min` length v)%nat with 0%nat by lia.
  rewrite (take_S_r _ _ _ Hx), <- app_assoc. f_equal.
  destruct (lookup_lt_is_Some_2 cur k) as [y Hy]; [lia|].
  by rewrite (drop_S _ _ _ Hy).
Qed.

Lemma store_begin_inv s i v : lock_inv s -> writers s !! i = Some WIdle -> length v = length (data_ (lock s)) ->
  lock_inv (set_writer s i (WWrite v (seq_ (lock s)) 0) (mkSeqLock (seq_ (lock s) +32 1) (data_ (lock s))) (current s) (begun s + 1)).
Proof.
  intros I Hi Hv. destruct (single_writer _ _ _ I Hi) as [-> Ew]. destruct I as [Hb Hlen Hw Hr]. rewrite Ew in Hw.
  destruct Hw as [Hq Hd]. split; simpl; rewrite ?Ew; simpl; [lia|done| |].
  - rewrite Hq, wrap_add_l, Hd. split_and!; [f_equal; lia|f_equal; lia|lia|congruence|lia|done|]. intros. lia.
  - destruct (reader s) as [| |]; try done. destruct Hr as (-> & ? & ?). split_and!; [done|done|lia].
Qed.

Lemma store_word_inv s i v q k x : lock_inv s -> writers s !! i = Some (WWrite v q k) -> v !! k = Some x ->
  lock_inv (set_writer s i (WWrite v q (S k)) (mkSeqLock (seq_ (lock s)) (<[k := x]> (data_ (lock s)))) (current s) (begun s)).
Proof.
  intros I Hi Hx. destruct (single_writer _ _ _ I Hi) as [-> Ew]. destruct I as [Hb Hlen Hw Hr]. rewrite Ew in Hw.
  destruct Hw as (Hq & -> & H1 & Hv & Hk & Hd & Hact). pose proof (lookup_lt_Some _ _ _ Hx).
  split; simpl; rewrite ?Ew, ?length_insert; simpl; try done. split_and!; try done.
  rewrite Hd. apply insert_take_drop; [done|lia].
Qed.

Lemma store_end_inv s i v q : lock_inv s -> writers s !! i = Some (WWrite v q (length v)) ->
  lock_inv (set_writer s i WIdle (mkSeqLock (q +32 2) (data_ (lock s))) v (begun s)).
Proof.
  intros I Hi. destruct (single_writer _ _ _ I Hi) as [-> Ew]. destruct I as [Hb Hlen Hw Hr]. rewrite Ew in Hw.
  destruct Hw as (Hq & -> & H1 & Hv & Hk & Hd & Hact). split; simpl; rewrite ?Ew; simpl; [lia|done| |].
  - split; [rewrite wrap_add_l; f_equal; lia|]. rewrite Hd, firstn_all, drop_ge, app_nil_r by lia. done.
  - destruct (reader s) as [|q' v'|]; try done. destruct Hr as (-> & ? & ?).
    specialize (Hact _ _ eq_refl). split_and!; [done|done|lia].
Qed.

(** A reader that does not hold a sequence number any more. *)
Lemma read_over_inv s r n : lock_inv s -> n = rstart s -> (forall q v, r <> RRead q v) -> lock_inv (set_reader s r n).
Proof.
  intros [Hb Hlen Hw Hr] -> Hn. split; simpl; [done|done| |by destruct r as [|q v|]; [|destruct (Hn q v)|]].
  destruct (writers s) as [|[] []]; try done. destruct Hw as (? & ? & ? & ? & ? & ? & ?). split_and!; try done.
  intros q v E. by destruct (Hn q v).
Qed.

Lemma load_seq1_inv s : lock_inv s -> seq_ (lock s) mod 2 <> 1 -> lock_inv (set_reader s (RRead (seq_ (lock s)) []) (begun s)).
Proof.
  intros [Hb Hlen Hw Hr] Ho.
  assert (Hidle : writers s = [WIdle] /\ seq_ (lock s) = u32 (2 * begun s) /\ data_ (lock s) = current s).
  { destruct (writers s) as [|[|v q k] []]; try done. destruct Hw as (Hq & _). by rewrite Hq, odd_u32 in Ho. }
  destruct Hidle as (Ew & Hq & Hd). split; simpl; rewrite ?Ew; [lia|done|done|]. split_and!; [done|lia|done].
Qed.

Lemma load_word_inv s q v x : lock_inv s -> reader s = RRead q v -> data_ (lock s) !! length v = Some x ->
  lock_inv (set_reader s (RRead q (v ++ [x])) (rstart s)).
Proof.
  intros [Hb Hlen Hw Hr] E Hx. rewrite E in Hr. destruct Hr as (-> & Hvl & Hpre). pose proof (lookup_lt_Some _ _ _ Hx).
  split; simpl; [done|done| |].
  - destruct (writers s) as [|[] []]; try done. destruct Hw as (? & ? & ? & ? & ? & ? & Hact).
    split_and!; try done. intros. by eapply Hact.
  - rewrite length_app. simpl. split_and!; [done|lia|]. intros Heq. specialize (Hpre Heq).
    destruct (writers s) as [|[|w q k] []]; try done.
    + destruct Hw as [_ Hd]. rewrite Hd in Hx. rewrite Nat.add_1_r, (take_S_r _ _ _ Hx). by rewrite <- Hpre.
    + destruct Hw as (_ & _ & _ & _ & _ & _ & Hact). specialize (Hact _ _ E). lia.
Qed.

Lemma lock_inv_step s s' : lock_inv s -> lock_step s s' -> lock_inv s'.
Proof.
  intros I. destruct 1; [by apply store_begin_inv|by apply store_word_inv|by apply store_end_inv|by apply read_over_inv
    |by apply load_seq1_inv|by apply load_word_inv|by apply read_over_inv|by apply read_over_inv].
Qed.

Lemma lock_inv_steps s s' : steps lock_step s s' -> lock_inv s -> lock_inv s'.
Proof. induction 1; intros; [done|]. apply IHsteps. by eapply lock_inv_step. Qed.

(** Equal sequence numbers mean that no store began in between, as long as
    the 32-bit counter did not go all the way round. *)
Lemma no_store_between s q v :
  lock_inv s -> reader s = RRead q v -> seq_ (lock s) = q -> begun s - rstart s < 2 ^ 31 ->
  rstart s = begun s /\ writers s = [WIdle] /\ data_ (lock s) = current s.
Proof.
  intros I E Hq Hfew. pose proof (li_begun _ I). pose proof (li_reader _ I) as Hr. rewrite E in Hr.
  destruct Hr as (Hq' & _ & _). pose proof (li_writer _ I) as Hw.
  destruct (writers s) as [|[|w q' k] []]; try done.
  - destruct Hw as (Hs & Hd). split_and!; [range_lia|done|done].
  - destruct Hw as (Hs & _ & _ & _ & _ & _ & Hact). specialize (Hact _ _ E). exfalso. range_lia.
Qed.

Lemma data_length s s' : steps lock_step s s' -> length (data_ (lock s')) = length (data_ (lock s)).
Proof.
  induction 1 as [|s s1 s2 St _ IH]; [done|]. rewrite IH. destruct St; cbn; by rewrite ?length_insert.
Qed.

(** *** The reader alone *)

(** Steps of the reader while the writer pauses. *)
Inductive quiet_steps : nat -> lock_state -> lock_state -> Prop :=
  | quiet_refl s : quiet_steps 0 s s
  | quiet_cons n s s1 s2 : lock_step s s1 -> lock s1 = lock s -> writers s1 = writers s ->
      quiet_steps n s1 s2 -> quiet_steps (S n) s s2.

(** Accesses left: the words of this pass and, if the pass will fail, those of
    another one. *)
Definition reads_left (s : lock_state) : nat :=
  let words := length (data_ (lock s)) in
  match reader s with
  | RSpin => words + 2
  | RRead q v => words - length v + 1 + (if decide (q = seq_ (lock s)) then 0 else words + 2)
  | RDone _ => 0
  end.

Definition idle (s : lock_state) : Prop := lock_inv s /\ writers s = [WIdle].

Lemma idle_even s : idle s -> seq_ (lock s) mod 2 = 0.
Proof. intros [I Hw]. pose proof (li_writer _ I) as H. rewrite Hw in H. destruct H as [-> _]. apply even_u32. Qed.

Lemma quiet_step_decreases s s' : idle s -> lock_step s s' -> lock s' = lock s -> writers s' = writers s ->
  idle s' /\ (reads_left s' < reads_left s)%nat.
Proof.
  intros Hi St Hl Hw. pose proof (idle_even s Hi) as Hev. destruct Hi as [I Hwr].
  split; [split; [by eapply lock_inv_step|congruence]|]. pose proof (li_reader _ I) as Hr.
  unfold reads_left. rewrite Hl. inversion St as [? i v Ei Ev|? i v q k x Ei Ex|? i v q Ei|? E Ho|? E Ho|? q v x E Ex|? q v E El En
    |? q v E El Ee]; subst s'; subst; cbn [set_reader set_writer reader lock writers] in *.
  1-3: (destruct (single_writer _ _ _ I Ei) as [-> Ew]; rewrite Ew in Hwr; try discriminate Hwr).
  - rewrite Ew in Hw. discriminate Hw.
  - lia.
  - rewrite E, decide_True by done. cbn. lia.
  - rewrite E in *. pose proof (lookup_lt_Some _ _ _ Ex). rewrite length_app. cbn. lia.
  - rewrite E, decide_False by done. lia.
  - rewrite E. lia.
Qed.

Lemma reader_progress s : idle s -> (forall v, reader s <> RDone v) ->
  exists s', lock_step s s' /\ lock s' = lock s /\ writers s' = writers s.
Proof.
  intros Hi Hnd. pose proof (idle_even s Hi) as Hev. pose proof (li_reader _ (proj1 Hi)) as Hr.
  destruct (reader s) as [|q v|v] eqn:E; [| |by destruct (Hnd v)].
  - eexists. split; [apply load_seq1; [done|lia]|done].
  - destruct Hr as (_ & Hle & _). destruct (data_ (lock s) !! length v) as [x|] eqn:Ex.
    { eexists. split; [by eapply load_word|done]. }
    apply lookup_ge_None in Ex. destruct (decide (seq_ (lock s) = q)).
    + eexists. split; [by apply (load_return s q v); [|lia|]|done].
    + eexists. split; [by apply (load_retry s q v); [|lia|]|done].
Qed.

Lemma quiet_steps_bound n s s' : quiet_steps n s s' -> idle s ->
  idle s' /\ (n + reads_left s' <= reads_left s)%nat /\ lock s' = lock s.
Proof.
  induction 1 as [s|n s s1 s2 St El Ew _ IH]; intros Hi; [done|].
  destruct (quiet_step_decreases s s1 Hi St El Ew) as [Hi1 Hd]. destruct (IH Hi1) as (? & ? & ?).
  split; [done|]. split; [lia|congruence].
Qed.

Lemma reads_left_le s : (reads_left s <= 2 * length (data_ (lock s)) + 3)%nat.
Proof. unfold reads_left. destruct (reader s); try case_decide; lia. Qed.

(** ** Whole calls as runs of the steps *)

Lemma store_words s v q k cur n :
  writers s = [WWrite v q k] -> data_ (lock s) = take k v ++ drop k cur -> length cur = length v ->
  (n + k = length v)%nat ->
  exists s', steps lock_step s s' /\ writers s' = [WWrite v q (length v)] /\ data_ (lock s') = v
    /\ seq_ (lock s') = seq_ (lock s) /\ reader s' = reader s.
Proof.
  revert s k. induction n as [|n IH]; intros s k Hw Hd Hc Hn.
  { exists s. simpl in Hn. subst k. split_and!; try done; [constructor|].
    by rewrite Hd, firstn_all, drop_ge, app_nil_r by lia. }
  destruct (lookup_lt_is_Some_2 v k) as [x Hx]; [lia|].
  destruct (IH (set_writer s 0 (WWrite v q (S k))
      (mkSeqLock (seq_ (lock s)) (<[k := x]> (data_ (lock s)))) (current s) (begun s)) (S k))
    as (s' & Hs & H1 & H2 & H3 & H4); simpl.
  - by rewrite Hw.
  - rewrite Hd. by apply insert_take_drop.
  - done.
  - lia.
  - exists s'. split_and!; try done. econstructor; [|exact Hs]. eapply store_word; [by rewrite Hw|done].
Qed.

(** A store that runs alone is [store_lock]. *)
Lemma solo_store s v :
  writers s = [WIdle] -> length v = length (data_ (lock s)) ->
  exists s', steps lock_step s s' /\ writers s' = [WIdle] /\ lock s' = store_lock (lock s) v
    /\ reader s' = reader s.
Proof.
  intros Hw Hl.
  destruct (store_words (set_writer s 0 (WWrite v (seq_ (lock s)) 0)
      (mkSeqLock (seq_ (lock s) +32 1) (data_ (lock s))) (current s) (begun s + 1))
      v (seq_ (lock s)) 0 (data_ (lock s)) (length v)) as (s' & Hs & H1 & H2 & H3 & H4); simpl;
    [by rewrite Hw|done|done|lia|].
  eexists. split_and!.
  - econstructor; [apply (store_begin s 0 v); [by rewrite Hw|done]|].
    eapply steps_trans; [exact Hs|]. econstructor; [|constructor].
    eapply (store_end s' 0). by rewrite H1.
  - simpl. by rewrite H1.
  - simpl. unfold store_lock. by rewrite H2.
  - simpl. by rewrite H4.
Qed.

Lemma load_words s q v n :
  reader s = RRead q v -> v = take (length v) (data_ (lock s)) ->
  (n + length v = length (data_ (lock s)))%nat ->
  exists s', steps lock_step s s' /\ reader s' = RRead q (data_ (lock s)) /\ lock s' = lock s.
Proof.
  revert s v. induction n as [|n IH]; intros s v Hr Hv Hn.
  { exists s. rewrite firstn_all2 in Hv by lia. rewrite <- Hv. split_and!; [constructor|done|done]. }
  destruct (lookup_lt_is_Some_2 (data_ (lock s)) (length v)) as [x Hx]; [lia|].
  destruct (IH (set_reader s (RRead q (v ++ [x])) (rstart s)) (v ++ [x])) as (s' & Hs & H1 & H2);
    simpl.
  - done.
  - rewrite length_app, Nat.add_1_r, (take_S_r _ _ _ Hx). by rewrite <- Hv.
  - rewrite length_app. simpl. lia.
  - exists s'. split_and!; try done. econstructor; [by eapply load_word|exact Hs].
Qed.

(** A load that runs alone while no store is in progress is [load_lock]. *)
Lemma solo_load s v :
  reader s = RSpin -> load_lock (lock s) = Some v ->
  exists s', steps lock_step s s' /\ reader s' = RDone v /\ lock s' = lock s.
Proof.
  intros Hr. unfold load_lock. destruct (Z.eqb_spec (seq_ (lock s) mod 2) 1) as [|Ho]; [done|].
  intros [= <-].
  destruct (load_words (set_reader s (RRead (seq_ (lock s)) []) (begun s)) (seq_ (lock s)) []
    (length (data_ (lock s)))) as (s' & Hs & H1 & H2); [done|done|simpl; lia|].
  eexists. split_and!.
  - econstructor; [by apply load_seq1|]. eapply steps_trans; [exact Hs|].
    econstructor; [|constructor]. apply (load_return s' _ _ H1); by rewrite H2.
  - done.
  - done.
Qed.

(** ** The publisher *)

Record BboPublisher := mkPublisher { slots_ : list (SeqLock BboSnapshot); pub_capacity_ : Z }.

Definition BboSnapshot0 : BboSnapshot := mkBbo 0 0 0 0 0 0.

Definition new_publisher (max_symbols : Z) : BboPublisher :=
  mkPublisher (replicate (Z.to_nat max_symbols) (mkSeqLock 0 BboSnapshot0)) max_symbols.

(** [None] outside the slots, which the test against [capacity_] excludes. *)
Definition publish_bbo (p : BboPublisher) (loc : Z) (bbo : BboSnapshot) : option BboPublisher :=
  if loc >=? pub_capacity_ p then Some p
  else
    l ← slots_ p !! Z.to_nat loc;
    Some (mkPublisher (<[Z.to_nat loc := store_lock l bbo]> (slots_ p)) (pub_capacity_ p)).

Definition read_bbo (p : BboPublisher) (loc : Z) : option BboSnapshot :=
  if loc >=? pub_capacity_ p then Some BboSnapshot0
  else l ← slots_ p !! Z.to_nat loc; load_lock l.

Definition publisher_reset (p : BboPublisher) : BboPublisher :=
  mkPublisher ((fun l => store_lock l BboSnapshot0) <$> slots_ p) (pub_capacity_ p).

(** Every slot exists and none is held. *)
Definition publisher_ok (p : BboPublisher) : Prop :=
  Z.of_nat (length (slots_ p)) = pub_capacity_ p
  /\ Forall (fun l => seq_ l mod 2 = 0) (slots_ p).

Lemma store_lock_even {T} (l : SeqLock T) v : seq_ l mod 2 = 0 -> seq_ (store_lock l v) mod 2 = 0.
Proof. unfold store_lock. simpl. range_lia. Qed.

Lemma load_even {T} (l : SeqLock T) : seq_ l mod 2 = 0 -> load_lock l = Some (data_ l).
Proof. intros E. unfold load_lock. by rewrite E. Qed.

Lemma new_publisher_ok n : 0 <= n -> publisher_ok (new_publisher n).
Proof.
  intros. unfold publisher_ok, new_publisher. simpl. rewrite length_replicate. split; [lia|].
  by apply Forall_replicate.
Qed.

Lemma publisher_reset_ok p : publisher_ok p -> publisher_ok (publisher_reset p).
Proof.
  intros [Hl Hf]. split; simpl; [by rewrite length_fmap|]. apply Forall_fmap.
  eapply Forall_impl; [exact Hf|]. intros l. apply store_lock_even.
Qed.

Lemma publish_bbo_spec p loc bbo :
  publisher_ok p -> 0 <= loc ->
  exists p', publish_bbo p loc bbo = Some p' /\ publisher_ok p'
    /\ (loc < pub_capacity_ p -> read_bbo p' loc = Some bbo)
    /\ forall l, 0 <= l -> l <> loc -> read_bbo p' l = read_bbo p l.
Proof.
  intros [Hlen Hf] Hp. unfold publish_bbo, read_bbo. rewrite Z.geb_leb.
  destruct (Z.leb_spec (pub_capacity_ p) loc) as [|Hlt]; [exists p; split_and!; try done; lia|].
  destruct (lookup_lt_is_Some_2 (slots_ p) (Z.to_nat loc)) as [sl Hs]; [lia|].
  pose proof (Forall_lookup_1 _ _ _ _ Hf Hs) as He. rewrite Hs. simpl. eexists.
  split; [done|]. split; [split; simpl|split; simpl].
  - by rewrite length_insert.
  - by apply Forall_insert; [|apply store_lock_even].
  - intros _. rewrite Z.geb_leb, (proj2 (Z.leb_gt _ _)) by done.
    rewrite list_lookup_insert_eq by lia. simpl. rewrite load_even; [done|by apply store_lock_even].
  - intros l ??. by rewrite list_lookup_insert_ne by lia.
Qed.

(** ** Properties *)

(** C36: a load ends.  Accesses take effect one after the other in one memory,
    as in all of this file.  Whatever a single writer and the reader did before,
    from any moment at which the writer pauses between two stores (not within
    one, when the reader would wait for its end) the reader makes at most twice
    as many accesses as there are words, plus three, and it stops only by
    returning: until then it always has a step to make. *)
Theorem seqlock_load_terminates v s n s' :
  steps lock_step (init_lock 1 v) s -> writers s = [WIdle] -> quiet_steps n s s' ->
  (n <= 2 * length v + 3)%nat
  /\ ((exists w, reader s' = RDone w)
      \/ exists s'', lock_step s' s'' /\ lock s'' = lock s' /\ writers s'' = writers s').
Proof.
  intros Hr Hw Hq. pose proof (lock_inv_steps _ _ Hr (inv_init_lock v)) as I.
  destruct (quiet_steps_bound n s s' Hq (conj I Hw)) as (Hi & Hb & _). split.
  - pose proof (reads_left_le s). rewrite (data_length _ _ Hr) in *. cbn in *. lia.
  - destruct (reader s') as [| |w] eqn:E; [right|right|by left; exists w]; apply reader_progress; try done; congruence.
Qed.

(** C15: a load is never torn in sequentially consistent memory.  In every
    interleaving of the accesses of one writer with those of a reader in one
    memory - a stronger one than the language's, in which [SeqLockWeak] shows
    that a load can be torn - when [load] returns a value it is, word for word,
    the value of the last complete [store] at that moment, unless 2^31 stores
    began since the reader took its first sequence number (the 32-bit counter
    would then have gone round). *)
Theorem seqlock_load_consistent v0 s s' q v r :
  steps lock_step (init_lock 1 v0) s -> reader s = RRead q v ->
  lock_step s s' -> reader s' = RDone r -> begun s - rstart s < 2 ^ 31 ->
  r = current s' /\ writers s' = [WIdle].
Proof.
  intros Hs Hr St Hd Hfew. pose proof (lock_inv_steps _ _ Hs (inv_init_lock v0)) as I.
  inversion St; subst; simpl in Hd; try congruence.
  match goal with E : reader s = RRead (seq_ _) _ |- _ => rewrite Hr in E; injection E as -> <- end.
  injection Hd as <-. simpl. destruct (no_store_between s _ v I Hr eq_refl Hfew) as (Heq & Hw & Hda).
  split; [|done]. pose proof (li_reader _ I) as Hi. rewrite Hr in Hi.
  destruct Hi as (_ & _ & Hpre). rewrite (Hpre Heq), firstn_all2; [done|]. rewrite <- Hda. lia.
Qed.

(** What is stored is what is read.  From any state of the lock in which
    no store is in progress, a whole store followed by a whole load, running
    without interference, both finish, and the load returns the value
    stored. *)
Theorem seqlock_store_then_load v0 s v :
  steps lock_step (init_lock 1 v0) s -> writers s = [WIdle] -> reader s = RSpin ->
  length v = length (data_ (lock s)) ->
  exists s', steps lock_step s s' /\ reader s' = RDone v /\ lock s' = store_lock (lock s) v.
Proof.
  intros Hs Hw Hr Hl. pose proof (lock_inv_steps _ _ Hs (inv_init_lock v0)) as I.
  pose proof (li_writer _ I) as Hi. rewrite Hw in Hi. destruct Hi as [Hq _].
  destruct (solo_store s v Hw Hl) as (s1 & Hs1 & _ & Hlock & Hr1).
  destruct (solo_load s1 v) as (s2 & Hs2 & Hr2 & Hlock2).
  - congruence.
  - rewrite Hlock. apply load_even, store_lock_even. rewrite Hq. apply even_u32.
  - exists s2. split_and!; [by eapply steps_trans|done|congruence].
Qed.

(** Steps of executions in which only the values [vs] are ever stored. *)
Definition stores_only (vs : list (list Z)) (s s' : lock_state) : Prop :=
  lock_step s s' /\ forall i v q k, writers s' !! i = Some (WWrite v q k) -> v ∈ vs.

(** One step of such an execution. *)
Ltac allowed tac :=
  eapply steps_cons;
    [split; [tac; reflexivity|];
     intros [|[|i]] v q k E; simpl in E; simplify_eq; rewrite !elem_of_cons; tauto|].

(** The lock needs its single writer.  With two writers - as when
    [BboPublisher::reset] runs in the parser thread while a shard worker
    publishes - two overlapping [fetch_add]s make the sequence number even
    while both are writing, and a load returns a value that was never
    stored. *)
Theorem seqlock_two_writers_torn :
  exists s, steps (stores_only [[1; 1]; [2; 2]]) (init_lock 2 [0; 0]) s /\ reader s = RDone [1; 0].
Proof.
  eexists. split.
  - allowed ltac:(apply (store_begin _ 0 [1; 1])). allowed ltac:(apply (store_begin _ 1 [2; 2])).
    allowed ltac:(eapply (store_word _ 0)). allowed ltac:(apply load_seq1; [|done]).
    allowed ltac:(eapply load_word). allowed ltac:(eapply load_word).
    allowed ltac:(eapply load_return).
    apply steps_refl.
  - reflexivity.
Qed.

(** Publication is per symbol.  A published quote is what the next read of
    the same locate code returns, other codes are unaffected, and after a
    reset every code reads as the empty quote. *)
Theorem publish_then_read p loc bbo :
  publisher_ok p -> 0 <= loc < pub_capacity_ p ->
  exists p', publish_bbo p loc bbo = Some p' /\ publisher_ok p'
    /\ read_bbo p' loc = Some bbo
    /\ (forall l, 0 <= l -> l <> loc -> read_bbo p' l = read_bbo p l)
    /\ forall l, 0 <= l -> read_bbo (publisher_reset p') l = Some BboSnapshot0.
Proof.
  intros Hp Hl. destruct (publish_bbo_spec p loc bbo Hp) as (p' & E & Hp' & H1 & H2); [lia|].
  exists p'. split_and!; [done|done|apply H1; lia|done|].
  intros l Hl'. unfold read_bbo. simpl. rewrite Z.geb_leb.
  destruct (Z.leb_spec (pub_capacity_ p') l); [done|].
  destruct Hp' as [Hlen Hf]. destruct (lookup_lt_is_Some_2 (slots_ p') (Z.to_nat l)) as [sl Hs]; [lia|].
  rewrite list_lookup_fmap, Hs. simpl.
  rewrite load_even; [done|]. by apply store_lock_even, (Forall_lookup_1 _ _ _ _ Hf Hs).
Qed.

(** ** Witnesses *)

(** A run to the point where the second sequence number is about to be
    compared. *)
Lemma seqlock_load_terminates_witness : exists s',
  quiet_steps 1 (init_lock 1 [5]) s'
  /\ (1 <= 2 * length [5] + 3)%nat
  /\ ((exists w, reader s' = RDone w)
      \/ exists s'', lock_step s' s'' /\ lock s'' = lock s' /\ writers s'' = writers s').
Proof.
  assert (Hq : exists s', quiet_steps 1 (init_lock 1 [5]) s').
  { eexists. eapply quiet_cons; [apply load_seq1; [reflexivity|discriminate]|reflexivity|reflexivity|apply quiet_refl]. }
  destruct Hq as (s' & Hq). exists s'. split; [exact Hq|].
  exact (seqlock_load_terminates [5] _ 1 s' (steps_refl _ _) eq_refl Hq).
Defined.

Lemma seqlock_load_consistent_witness :
  exists s s', steps lock_step (init_lock 1 [5]) s /\ lock_step s s' /\ reader s' = RDone [7]
    /\ [7] = current s' /\ writers s' = [WIdle].
Proof.
  eexists _, _. assert (Hs : steps lock_step (init_lock 1 [5])
    (mkLockState (mkSeqLock 2 [7]) [WIdle] (RRead 2 [7]) [7] 1 1)).
  { eapply steps_cons; [apply (store_begin _ 0 [7]); reflexivity|].
    eapply steps_cons; [eapply (store_word _ 0); reflexivity|].
    eapply steps_cons; [apply (store_end _ 0 [7] 0); reflexivity|].
    eapply steps_cons; [apply load_seq1; [reflexivity|done]|].
    eapply steps_cons; [eapply load_word; reflexivity|].
    apply steps_refl. }
  assert (St : lock_step (mkLockState (mkSeqLock 2 [7]) [WIdle] (RRead 2 [7]) [7] 1 1)
    (mkLockState (mkSeqLock 2 [7]) [WIdle] (RDone [7]) [7] 1 1)).
  { exact (load_return (mkLockState (mkSeqLock 2 [7]) [WIdle] (RRead 2 [7]) [7] 1 1) 2 [7]
             eq_refl eq_refl eq_refl). }
  split; [exact Hs|]. split; [exact St|]. split; [reflexivity|].
  apply (seqlock_load_consistent [5] _ _ 2 [7] [7] Hs eq_refl St eq_refl). simpl. lia.
Defined.

Lemma seqlock_store_then_load_witness :
  exists s', steps lock_step (init_lock 1 [5; 6]) s' /\ reader s' = RDone [8; 9].
Proof.
  destruct (seqlock_store_then_load [5; 6] (init_lock 1 [5; 6]) [8; 9]) as (s' & H1 & H2 & _).
  - apply steps_refl.
  - reflexivity.
  - reflexivity.
  - reflexivity.
  - exists s'. split; [exact H1|exact H2].
Defined.

Lemma publish_then_read_witness :
  exists p', publish_bbo (new_publisher 4) 2 (mkBbo 2 100 5 101 6 9) = Some p'
    /\ read_bbo p' 2 = Some (mkBbo 2 100 5 101 6 9).
Proof.
  destruct (publish_then_read (new_publisher 4) 2 (mkBbo 2 100 5 101 6 9)) as (p' & H1 & _ & H2 & _).
  - apply new_publisher_ok. lia.
  - simpl. lia.
  - exists p'. split; [exact H1|exact H2].
Defined.
