(* ===== verification/SeqLockWeak.v ===== *)
(** * SeqLock in release/acquire memory

    [SeqLock::store] and [SeqLock::load] of [include/concurrency/seqlock.hpp]
    in the memory model of the language, where [SeqLock] interleaves their
    accesses in one memory.  A variable is the sequence of the values written
    to it, each with a view: how much of the sequence number and of each word
    of the data the reader of the value has to know.  A load returns any value
    that is not older than what its thread knows.  The [fetch_add] and the last
    store of the writer are releases and attach the writer's view; the words of
    the data are written by plain stores, which attach only the view of the
    last release fence.  The reader's first load acquires; the views of the
    words it copies take effect at its acquire fence.  Plain accesses to the
    data are taken as accesses word by word without ordering, which is what
    their machine code gives; the language leaves their race undefined.

    [fenced] adds a release fence after the [fetch_add], which the source does
    not have: the definitions at [fenced = false] are the code. *)

From S2P Require Import Prelude Types SeqLock.

(** ** Views and state *)

Record LockView := mkLockView { v_seq : nat; v_word : nat -> nat }.

Definition no_view : LockView := mkLockView 0 (fun _ => 0%nat).

Definition join_view (a b : LockView) : LockView :=
  mkLockView (v_seq a `max` v_seq b) (fun i => v_word a i `max` v_word b i)%nat.

Definition know_seq (v : LockView) (t : nat) : LockView := mkLockView t (v_word v).
Definition know_word (v : LockView) (i t : nat) : LockView :=
  mkLockView (v_seq v) (fun j => if decide (j = i) then t else v_word v j).

(** [rel]: the view at the last release fence.  [pending]: the views of the
    values read without acquiring them.  Ghosts: [rtime], the index of [seq1]
    in the history, and [sent], the initial value and those of the stores
    begun. *)
Record WeakLock := mkWeakLock {
  seq_hist : list (Z * LockView);
  word_hist : list (list (Z * LockView));
  wview : LockView;
  rel : LockView;
  wpc : writer_pc;
  rview : LockView;
  pending : LockView;
  rpc : reader_pc;
  rtime : nat;
  sent : list (list Z)
}.

(** A load names the index, in the history, of the value it returns. *)
Inductive LockEvent :=
  | StoreCall (value : list Z) | StoreWord | StoreLast
  | LoadSeq1 (t : nat) | LoadWord (t : nat) | LoadSeq2 (t : nat) | LoadAgain.

Definition set_write (s : WeakLock) (sh : list (Z * LockView)) (wh : list (list (Z * LockView))) (v r : LockView)
    (pc : writer_pc) (vs : list (list Z)) : WeakLock :=
  mkWeakLock sh wh v r pc (rview s) (pending s) (rpc s) (rtime s) vs.

Definition set_read (s : WeakLock) (v p : LockView) (pc : reader_pc) (t : nat) : WeakLock :=
  mkWeakLock (seq_hist s) (word_hist s) (wview s) (rel s) (wpc s) v p pc t (sent s).

Section Lock.
Context (fenced : bool).

(** The writer's own loads return the last value: a read-modify-write does,
    and there is no other writer. *)
Definition write_step (s : WeakLock) (e : LockEvent) : option WeakLock :=
  match e, wpc s with
  | StoreCall value, WIdle =>
      if decide (length value = length (word_hist s)) then
        q ← last (seq_hist s);
        let v := know_seq (wview s) (length (seq_hist s)) in
        Some (set_write s (seq_hist s ++ [(q.1 +32 1, v)]) (word_hist s) v (if fenced then v else rel s)
                (WWrite value q.1 0) (sent s ++ [value]))
      else None
  | StoreWord, WWrite value q i =>
      x ← value !! i; h ← word_hist s !! i;
      Some (set_write s (seq_hist s) (<[i := h ++ [(x, know_word (rel s) i (length h))]]> (word_hist s))
              (know_word (wview s) i (length h)) (rel s) (WWrite value q (S i)) (sent s))
  | StoreLast, WWrite value q i =>
      if decide (i = length value) then
        let v := know_seq (wview s) (length (seq_hist s)) in
        Some (set_write s (seq_hist s ++ [(q +32 2, v)]) (word_hist s) v (rel s) WIdle (sent s))
      else None
  | _, _ => None
  end.

Definition read_step (s : WeakLock) (e : LockEvent) : option WeakLock :=
  match e, rpc s with
  | LoadSeq1 t, RSpin =>
      m ← seq_hist s !! t;
      if decide (v_seq (rview s) <= t)%nat then
        Some (set_read s (know_seq (join_view (rview s) m.2) t) (pending s)
                (if m.1 mod 2 =? 1 then RSpin else RRead m.1 []) t)
      else None
  | LoadWord t, RRead q value =>
      h ← word_hist s !! length value; m ← h !! t;
      if decide (v_word (rview s) (length value) <= t)%nat then
        Some (set_read s (know_word (rview s) (length value) t) (join_view (pending s) m.2) (RRead q (value ++ [m.1])) (rtime s))
      else None
  | LoadSeq2 t, RRead q value =>
      m ← seq_hist s !! t;
      let v := join_view (rview s) (pending s) in
      if decide (length value = length (word_hist s)) then
        if decide (v_seq v <= t)%nat then
          Some (set_read s (know_seq v t) (join_view (pending s) m.2) (if q =? m.1 then RDone value else RSpin) (rtime s))
        else None
      else None
  | LoadAgain, RDone _ => Some (set_read s (rview s) (pending s) RSpin (rtime s))
  | _, _ => None
  end.

Definition lock_event (s : WeakLock) (e : LockEvent) : option WeakLock :=
  match e with StoreCall _ | StoreWord | StoreLast => write_step s e | _ => read_step s e end.

Fixpoint lock_run (s : WeakLock) (es : list LockEvent) : option WeakLock :=
  match es with [] => Some s | e :: es' => s' ← lock_event s e; lock_run s' es' end.

Definition init_weak (v0 : list Z) : WeakLock :=
  mkWeakLock [(0, no_view)] ((fun x => [(x, no_view)]) <$> v0) no_view no_view WIdle no_view no_view RSpin 0 [v0].

(** ** Invariant *)

(** Word [i] of the value copied is that of store [j], which is not older than
    store [k]. *)
Definition copied (s : WeakLock) (k i : nat) (x : Z) (j : nat) : Prop :=
  (k <= j)%nat /\ exists value, sent s !! j = Some value /\ value !! i = Some x.

Definition begun_stores (s : WeakLock) : nat := length (sent s) - 1.

(** The writer has written the words below [i] of its last store. *)
Definition written (s : WeakLock) (i : nat) : Prop :=
  forall j h, word_hist s !! j = Some h -> length h = if decide (j < i)%nat then S (begun_stores s) else begun_stores s.

Definition writer_ok (s : WeakLock) : Prop :=
  match wpc s with
  | WIdle => length (seq_hist s) = S (2 * begun_stores s) /\ written s (length (word_hist s))
  | WWrite value q i => length (seq_hist s) = (2 * begun_stores s)%nat /\ (1 <= begun_stores s)%nat
      /\ q = u32 (Z.of_nat (2 * begun_stores s) - 2) /\ length value = length (word_hist s) /\ (i <= length value)%nat
      /\ sent s !! begun_stores s = Some value /\ written s i
      /\ (fenced = true -> S (v_seq (rel s)) = length (seq_hist s))
  end.

Definition reader_ok (s : WeakLock) : Prop :=
  match rpc s with
  | RSpin => True
  | RRead q value => q = u32 (Z.of_nat (rtime s)) /\ (rtime s = 2 * (rtime s / 2))%nat /\ (rtime s < length (seq_hist s))%nat
      /\ (forall i, (i < length (word_hist s))%nat -> (rtime s / 2 <= v_word (rview s) i)%nat)
      /\ (length value <= length (word_hist s))%nat
      /\ forall i x, value !! i = Some x -> exists j, copied s (rtime s / 2) i x j /\ (fenced = true -> 2 * j <= S (v_seq (pending s)))%nat
  | RDone value => length value = length (word_hist s) /\ (rtime s = 2 * (rtime s / 2))%nat /\ (rtime s < length (seq_hist s))%nat
      /\ forall i x, value !! i = Some x -> exists j, copied s (rtime s / 2) i x j
           /\ (fenced = true -> Z.of_nat (length (seq_hist s)) <= 2 ^ 32 -> j = (rtime s / 2)%nat)
  end.

Record lock_ok (s : WeakLock) : Prop := {
  lk_sent : (0 < length (sent s))%nat /\ Forall (fun value => length value = length (word_hist s)) (sent s);
  lk_seq t m : seq_hist s !! t = Some m -> m.1 = u32 (Z.of_nat t)
      /\ forall i, (i < length (word_hist s))%nat -> (t / 2 <= v_word m.2 i)%nat;
  lk_word i h t m : word_hist s !! i = Some h -> h !! t = Some m ->
      copied s t i m.1 t /\ (fenced = true -> 2 * t <= S (v_seq m.2))%nat;
  lk_view i h : word_hist s !! i = Some h -> S (v_word (wview s) i) = length h;
  lk_writer : writer_ok s;
  lk_reader : reader_ok s
}.

Lemma init_weak_ok v0 : lock_ok (init_weak v0).
Proof.
  split; cbn; try done.
  - split; [lia|]. apply Forall_singleton. by rewrite length_fmap.
  - intros [|t] m Hm; [|done]. injection Hm as <-. split; [done|]. intros; cbn; lia.
  - intros i h t m Hh Hm. apply list_lookup_fmap_Some in Hh as (x & -> & Hx). destruct t; [|done]. injection Hm as <-.
    split; [|cbn; lia]. split; [done|]. by exists v0.
  - intros i h Hh. apply list_lookup_fmap_Some in Hh as (x & -> & Hx). done.
  - split; [done|]. intros j h Hh. cbn in *. pose proof (lookup_lt_Some _ _ _ Hh).
    apply list_lookup_fmap_Some in Hh as (x & -> & Hx). rewrite decide_True; done.
Qed.

Lemma half_le t n : (t < 2 * S n)%nat -> (t / 2 <= n)%nat.
Proof. intros Ht. apply Nat.lt_succ_r, Nat.Div0.div_lt_upper_bound. done. Qed.

(** When a release store announces number [t], the writer has written every
    word of store [t / 2]. *)
Lemma written_view s n i t : lock_ok s -> written s (length (word_hist s)) -> begun_stores s = n ->
  (t < 2 * S n)%nat -> (i < length (word_hist s))%nat -> (t / 2 <= v_word (wview s) i)%nat.
Proof.
  intros L Hw Hn Ht Hi. destruct (lookup_lt_is_Some_2 _ _ Hi) as [h Hh]. pose proof (lk_view s L i h Hh) as Hv.
  rewrite (Hw _ _ Hh), decide_True in Hv by done. pose proof (half_le t n Ht). lia.
Qed.

(** What the reader has and the messages mean stays true when the writer
    adds to the histories. *)
Lemma copied_mono s s' k i x j : sent s `prefix_of` sent s' -> copied s k i x j -> copied s' k i x j.
Proof. intros Hp (Hk & v & Hv & Hx). split; [done|]. exists v. split; [by eapply prefix_lookup_Some|done]. Qed.

Lemma reader_mono s s' : rview s' = rview s -> pending s' = pending s -> rpc s' = rpc s -> rtime s' = rtime s ->
  length (word_hist s') = length (word_hist s) -> (length (seq_hist s) <= length (seq_hist s'))%nat ->
  sent s `prefix_of` sent s' -> reader_ok s -> reader_ok s'.
Proof.
  intros Ev Ep Er Et Ew Hl Hs. unfold reader_ok. rewrite Ev, Ep, Er, Et, Ew. destruct (rpc s) as [|q value|value]; [done| |].
  - intros (Hq & He & Hlt & Hv & Hlen & Hc). repeat split; try done; [lia|]. intros i x Hx.
    destruct (Hc i x Hx) as (j & Hj & Hf). exists j. split; [by eapply copied_mono|done].
  - intros (Hlen & He & Hk & Hc). split; [done|]. split; [done|]. split; [lia|]. intros i x Hx.
    destruct (Hc i x Hx) as (j & Hj & Hf). exists j. split; [by eapply copied_mono|]. intros F B. apply Hf; [done|lia].
Qed.

(** A release store with the next number. *)
Lemma seq_snoc s v x : lock_ok s -> x = u32 (Z.of_nat (length (seq_hist s))) ->
  (forall i, (i < length (word_hist s))%nat -> (length (seq_hist s) / 2 <= v_word v i)%nat) ->
  forall t m, (seq_hist s ++ [(x, v)]) !! t = Some m -> m.1 = u32 (Z.of_nat t)
    /\ forall i, (i < length (word_hist s))%nat -> (t / 2 <= v_word m.2 i)%nat.
Proof.
  intros L Hx Hv t m Hm. apply lookup_snoc_Some in Hm as [[_ Hm]|[-> <-]]; [by apply (lk_seq s L)|done].
Qed.

Lemma store_call_ok s value s' : lock_ok s -> write_step s (StoreCall value) = Some s' -> lock_ok s'.
Proof.
  intros L E. cbn [write_step] in E. destruct (wpc s) eqn:Hp; [|discriminate]. case_decide as Hlen; [|discriminate].
  apply bind_Some in E as (q & Hq & E). injection E as <-. pose proof (lk_writer s L) as Hw. unfold writer_ok in Hw. rewrite Hp in Hw.
  destruct Hw as [Hl Hwr]. destruct (lk_sent s L) as [Hpos Hall]. rewrite last_lookup, Hl in Hq. cbn [pred] in Hq.
  pose proof (proj1 (lk_seq s L _ _ Hq)) as Hqv. rewrite Hqv. set (n := begun_stores s) in *.
  assert (Hn : length (sent s) = S n) by (unfold n, begun_stores; lia).
  split; cbn [seq_hist word_hist sent wview set_write].
  - rewrite length_app. split; [lia|]. apply Forall_app. split; [done|by apply Forall_singleton].
  - apply (seq_snoc s); [done|rewrite Hl; unfold u32; range_lia|]. intros i Hi. cbn [v_word know_seq].
    apply (written_view s n); try done. lia.
  - intros i h t m Hh Hm. destruct (lk_word s L i h t m Hh Hm) as [Hc Hf]. split; [|done].
    eapply copied_mono; [|exact Hc]. by exists [value].
  - intros i h Hh. apply (lk_view s L i h Hh).
  - unfold writer_ok, begun_stores, written. cbn. rewrite !length_app. cbn. rewrite Hl, Hn. repeat split; try lia.
    + unfold u32. f_equal. lia.
    + replace (S n + 1 - 1)%nat with (length (sent s)) by lia. by rewrite list_lookup_middle.
    + intros j h Hh. rewrite (Hwr _ _ Hh), decide_True by (by eapply lookup_lt_Some). fold n. case_decide; lia.
    + intros ->. cbn. lia.
  - apply (reader_mono s); try done; cbn; [rewrite length_app; lia|by exists [value]|apply L].
Qed.

Lemma store_word_ok s s' : lock_ok s -> write_step s StoreWord = Some s' -> lock_ok s'.
Proof.
  intros L E. cbn [write_step] in E. destruct (wpc s) as [|value q i] eqn:Hp; [discriminate|].
  apply bind_Some in E as (x & Hx & E). apply bind_Some in E as (h & Hh & E). injection E as <-.
  pose proof (lk_writer s L) as Hw. unfold writer_ok in Hw. rewrite Hp in Hw.
  destruct Hw as (Hl & Hb & Hq & Hlen & Hi & Hs & Hwr & Hf). pose proof (lookup_lt_Some _ _ _ Hx) as Hix.
  pose proof (lookup_lt_Some _ _ _ Hh) as Hih. set (n := begun_stores s) in *.
  pose proof (Hwr _ _ Hh) as Hhl. rewrite decide_False in Hhl by lia.
  split; cbn [seq_hist word_hist sent wview set_write]; rewrite ?length_insert; try apply L.
  - intros j h' t m Hh' Hm. destruct (decide (j = i)) as [->|Hne].
    + rewrite list_lookup_insert_eq in Hh' by done. injection Hh' as <-.
      apply lookup_snoc_Some in Hm as [[_ Hm]|[-> <-]]; [by apply (lk_word s L i h)|].
      split; [|cbn; intros F; specialize (Hf F); lia]. split; [done|]. exists value. cbn. by rewrite Hhl.
    + rewrite list_lookup_insert_ne in Hh' by done. by apply (lk_word s L j h').
  - intros j h' Hh'. cbn. destruct (decide (j = i)) as [->|Hne].
    + rewrite list_lookup_insert_eq in Hh' by done. injection Hh' as <-. rewrite length_app. cbn. lia.
    + rewrite list_lookup_insert_ne in Hh' by done. apply (lk_view s L j h' Hh').
  - unfold writer_ok. cbn [wpc set_write]. change (begun_stores (set_write _ _ _ _ _ _ (sent s))) with n.
    cbn [seq_hist word_hist sent rel set_write]. rewrite length_insert. repeat split; try done. intros j h' Hh'.
    cbn [word_hist set_write] in Hh'. change (begun_stores (set_write _ _ _ _ _ _ (sent s))) with n. destruct (decide (j = i)) as [->|Hne].
    + rewrite list_lookup_insert_eq in Hh' by done. injection Hh' as <-. rewrite length_app, decide_True by lia. cbn. lia.
    + rewrite list_lookup_insert_ne in Hh' by done. rewrite (Hwr _ _ Hh'). repeat case_decide; try done; lia.
  - apply (reader_mono s); try done; cbn; [by rewrite length_insert|apply L].
Qed.

Lemma store_last_ok s s' : lock_ok s -> write_step s StoreLast = Some s' -> lock_ok s'.
Proof.
  intros L E. cbn [write_step] in E. destruct (wpc s) as [|value q i] eqn:Hp; [discriminate|]. case_decide as Hlast; [|discriminate].
  injection E as <-. pose proof (lk_writer s L) as Hw. unfold writer_ok in Hw. rewrite Hp in Hw.
  destruct Hw as (Hl & Hb & Hq & Hlen & Hi & Hs & Hwr & Hf). subst i. rewrite Hlen in Hwr. set (n := begun_stores s) in *.
  split; cbn [seq_hist word_hist sent wview set_write]; try apply L.
  - apply (seq_snoc s); [done|rewrite Hl, Hq; unfold u32; range_lia|]. intros j Hj. cbn [v_word know_seq].
    apply (written_view s n); try done. lia.
  - unfold writer_ok. cbn [wpc set_write]. change (begun_stores (set_write _ _ _ _ _ _ (sent s))) with n.
    cbn [seq_hist word_hist set_write]. rewrite length_app. cbn. split; [lia|exact Hwr].
  - apply (reader_mono s); try done; cbn; [rewrite length_app; lia|apply L].
Qed.

(** The reader changes nothing but its own part. *)
Lemma set_read_ok s v p pc t : lock_ok s -> reader_ok (set_read s v p pc t) -> lock_ok (set_read s v p pc t).
Proof. intros L Hr. split; try apply L. exact Hr. Qed.

Lemma even_half t : u32 (Z.of_nat t) mod 2 <> 1 -> (t = 2 * (t / 2))%nat.
Proof.
  intros He. pose proof (Nat.div_mod_eq t 2) as E. pose proof (Nat.mod_upper_bound t 2 ltac:(lia)) as Hm.
  destruct (t mod 2)%nat as [|r]; [lia|]. destruct He.
  replace (Z.of_nat t) with (2 * (Z.of_nat (t / 2) + 1) - 1) by lia. apply odd_u32.
Qed.

Lemma load_seq1_ok s t s' : lock_ok s -> read_step s (LoadSeq1 t) = Some s' -> lock_ok s'.
Proof.
  intros L E. cbn [read_step] in E. destruct (rpc s) eqn:Hp; try discriminate. apply bind_Some in E as (m & Hm & E).
  case_decide; [|discriminate]. injection E as <-. destruct (lk_seq s L t m Hm) as [Hq Hv].
  apply set_read_ok; [done|]. unfold reader_ok. cbn [rpc set_read]. destruct (Z.eqb_spec (m.1 mod 2) 1) as [|Ho]; [done|].
  cbn -[Nat.div Nat.mul]. rewrite Hq in Ho. pose proof (even_half t Ho) as He. repeat split; try done; [by eapply lookup_lt_Some| |lia].
  intros i Hi. specialize (Hv i Hi). lia.
Qed.

Lemma load_word_ok s t s' : lock_ok s -> read_step s (LoadWord t) = Some s' -> lock_ok s'.
Proof.
  intros L E. cbn [read_step] in E. destruct (rpc s) as [|q value|] eqn:Hp; try discriminate.
  apply bind_Some in E as (h & Hh & E). apply bind_Some in E as (m & Hm & E). case_decide as Ht; [|discriminate]. injection E as <-.
  pose proof (lk_reader s L) as Hr. unfold reader_ok in Hr. rewrite Hp in Hr. destruct Hr as (Hq & He & Hlt & Hv & Hlen & Hc).
  destruct (lk_word s L _ h t m Hh Hm) as [(_ & w & Hw & Hx) Hf]. pose proof (lookup_lt_Some _ _ _ Hh) as Hi.
  pose proof (Hv _ Hi) as Hvi. apply set_read_ok; [done|]. unfold reader_ok. cbn [rpc set_read rtime seq_hist word_hist rview pending].
  repeat split; try done.
  - intros i Hii. cbn [v_word know_word]. case_decide; [subst; lia|by apply Hv].
  - rewrite length_app. cbn. lia.
  - intros i x Hix. apply lookup_snoc_Some in Hix as [[_ Hix]|[-> <-]].
    + destruct (Hc i x Hix) as (j & Hj & Hjf). exists j. split; [done|]. intros F. specialize (Hjf F). cbn. lia.
    + exists t. split; [split; [lia|by exists w]|]. intros F. specialize (Hf F). cbn. lia.
Qed.

Lemma load_seq2_ok s t s' : lock_ok s -> read_step s (LoadSeq2 t) = Some s' -> lock_ok s'.
Proof.
  intros L E. cbn [read_step] in E. destruct (rpc s) as [|q value|] eqn:Hp; try discriminate.
  apply bind_Some in E as (m & Hm & E). case_decide as Hlen; [|discriminate]. case_decide as Ht; [|discriminate]. injection E as <-.
  pose proof (lk_reader s L) as Hr. unfold reader_ok in Hr. rewrite Hp in Hr. destruct Hr as (Hq & He & Hlt & Hv & _ & Hc).
  destruct (lk_seq s L t m Hm) as [Hq2 _]. pose proof (lookup_lt_Some _ _ _ Hm) as Htl.
  apply set_read_ok; [done|]. unfold reader_ok. cbn [rpc set_read]. destruct (Z.eqb_spec q m.1) as [Heq|]; [|done].
  cbn [word_hist seq_hist set_read rtime]. split; [done|]. split; [done|]. split; [done|]. intros i x Hx.
  destruct (Hc i x Hx) as (j & Hj & Hf). exists j. split; [done|]. intros F B. specialize (Hf F). destruct Hj as [Hk _].
  rewrite Hq, Hq2 in Heq. rewrite !wrap_small in Heq by range_lia. cbn in Ht. lia.
Qed.

Lemma lock_event_ok s e s' : lock_ok s -> lock_event s e = Some s' -> lock_ok s'.
Proof.
  destruct e; cbn [lock_event]; eauto using store_call_ok, store_word_ok, store_last_ok, load_seq1_ok, load_word_ok, load_seq2_ok.
  intros L E. cbn [read_step] in E. destruct (rpc s); try discriminate. injection E as <-. by apply set_read_ok.
Qed.

Lemma lock_run_ok es s s' : lock_ok s -> lock_run s es = Some s' -> lock_ok s'.
Proof.
  revert s. induction es as [|e es IH]; intros s L E; cbn [lock_run] in E; [by injection E as <-|].
  apply bind_Some in E as (s1 & E1 & E). eauto using lock_event_ok.
Qed.

Lemma lock_event_sent s e s' : lock_event s e = Some s' -> sent s `prefix_of` sent s'.
Proof.
  destruct e; cbn [lock_event write_step read_step]; destruct (wpc s), (rpc s); try discriminate; intros E;
    repeat match type of E with
           | context [decide _] => case_decide; try discriminate
           | mbind _ _ = _ => apply bind_Some in E as (? & ? & E)
           end; try discriminate; injection E as <-; first [done | by eexists].
Qed.

Lemma lock_run_sent es s s' : lock_run s es = Some s' -> sent s `prefix_of` sent s'.
Proof.
  revert s. induction es as [|e es IH]; intros s E; cbn [lock_run] in E; [by injection E as <-|].
  apply bind_Some in E as (s1 & E1 & E). etrans; [by eapply lock_event_sent|by apply IH].
Qed.

(** A load returns nothing older than what its thread knew when it began: its
    first access comes after that. *)
Definition fresh (known : nat) (s : WeakLock) : Prop :=
  (known <= v_seq (rview s))%nat /\ (rpc s = RSpin \/ known <= rtime s)%nat.

Lemma lock_event_fresh known s e s' : fresh known s -> lock_event s e = Some s' -> fresh known s'.
Proof.
  intros [Hv Hr] E. destruct e; cbn [lock_event write_step read_step] in E;
    repeat match type of E with
           | match wpc ?x with _ => _ end = _ => destruct (wpc x); try discriminate
           | match rpc ?x with _ => _ end = _ => destruct (rpc x) eqn:?; try discriminate
           | context [decide _] => case_decide; try discriminate
           | mbind _ _ = _ => apply bind_Some in E as (? & ? & E)
           end; first [discriminate E | injection E as <-]; split; cbn in *; try lia; try done; try (by left); try (right; lia).
  all: destruct Hr as [|Hr]; [congruence|by right].
Qed.

Lemma lock_run_fresh known es s s' : fresh known s -> lock_run s es = Some s' -> fresh known s'.
Proof.
  revert s. induction es as [|e es IH]; intros s F E; cbn [lock_run] in E; [by injection E as <-|].
  apply bind_Some in E as (s1 & E1 & E). eauto using lock_event_fresh.
Qed.

(** The value of store [k], word for word. *)
Lemma copied_all s k value : lock_ok s -> length value = length (word_hist s) -> (2 * k < length (seq_hist s))%nat ->
  (forall i x, value !! i = Some x -> copied s k i x k) -> sent s !! k = Some value.
Proof.
  intros L Hlen Hk Hc. destruct (lk_sent s L) as [Hpos Hall].
  assert (Hks : (k < length (sent s))%nat).
  { pose proof (lk_writer s L) as Hw. unfold writer_ok, begun_stores in Hw. destruct (wpc s); lia. }
  destruct (lookup_lt_is_Some_2 _ _ Hks) as [v Hv]. rewrite Hv. f_equal. symmetry.
  pose proof (Forall_lookup_1 _ _ _ _ Hall Hv) as Hl. cbn in Hl. apply list_eq_same_length with (n := length value); try congruence.
  intros i x y _ Hx Hy. destruct (Hc i x Hx) as (_ & w & Hw & Hwx). congruence.
Qed.

End Lock.

Lemma lock_run_app fenced es1 : forall s es2, lock_run fenced s (es1 ++ es2) = s' ← lock_run fenced s es1; lock_run fenced s' es2.
Proof. induction es1 as [|e es1 IH]; intros s es2; [done|]. cbn. destruct (lock_event fenced s e); [apply IH|done]. Qed.

(** C16: what [SeqLock::load] returns in the memory model of the language when
    one thread stores.  Store [k] is complete when the sequence number with
    index [2 k] of its history has been written; [v_seq (rview s1)] is the
    last index the reading thread knows of when it calls [load].  There is a
    store [k], not older than any the reader then knew to be complete, such
    that every word of the result is that word of store [k] or of a later one
    begun by now: in the code ([fenced = false]) a load is never stale, though
    it may be torn; and if no store was begun after store [k] it is the value of
    store [k] as a whole.  Were there a release fence after the [fetch_add]
    ([fenced = true]) it would always be, as long as the 32-bit sequence number
    has not come round. *)
Theorem seqlock_weak_load (fenced : bool) (v0 : list Z) (before es : list LockEvent) (s1 s : WeakLock) (value : list Z) :
  lock_run fenced (init_weak v0) before = Some s1 -> rpc s1 = RSpin -> lock_run fenced s1 es = Some s -> rpc s = RDone value ->
  exists k, (v_seq (rview s1) <= 2 * k < length (seq_hist s))%nat /\ length value = length v0
    /\ (forall i x, value !! i = Some x -> exists j, copied s k i x j)
    /\ (length (sent s) = S k -> sent s !! k = Some value)
    /\ (fenced = true -> Z.of_nat (length (seq_hist s)) <= 2 ^ 32 -> sent s !! k = Some value).
Proof.
  intros E1 Hspin E2 Hd.
  assert (E : lock_run fenced (init_weak v0) (before ++ es) = Some s) by (rewrite lock_run_app, E1; exact E2).
  pose proof (lock_run_ok fenced _ _ s (init_weak_ok fenced v0) E) as L.
  pose proof (lk_reader _ s L) as Hr. unfold reader_ok in Hr. rewrite Hd in Hr. destruct Hr as (Hlen & He & Hk & Hc).
  assert (Hf : fresh (v_seq (rview s1)) s) by (eapply lock_run_fresh; [|exact E2]; split; [done|by left]).
  destruct Hf as [_ [Hf|Hf]]; [congruence|]. set (k := (rtime s / 2)%nat) in *. exists k. split; [lia|]. split; [|split_and!].
  - pose proof (lock_run_sent fenced _ _ s E) as Hs. apply (prefix_lookup_Some _ _ 0 v0) in Hs; [|done].
    pose proof (Forall_lookup_1 _ _ _ _ (proj2 (lk_sent _ s L)) Hs) as Hl. cbn in Hl. congruence.
  - intros i x Hx. destruct (Hc i x Hx) as (j & Hj & _). by exists j.
  - intros Hlast. apply (copied_all fenced s k value L Hlen ltac:(lia)). intros i x Hx. destruct (Hc i x Hx) as (j & Hj & _).
    assert (j = k) as ->; [|done]. destruct Hj as (Hle & v & Hv & _). apply lookup_lt_Some in Hv. lia.
  - intros F B. apply (copied_all fenced s k value L Hlen ltac:(lia)). intros i x Hx. destruct (Hc i x Hx) as (j & Hj & Hjf).
    by rewrite (Hjf F B) in Hj.
Qed.

(** C17: without that fence, which the source does not have, a load can return a
    value that was never stored: the words of a store may reach the reader
    before the odd sequence number that announces them, whatever the order of
    the two in [store], and both of its loads then see the old, even number.
    An interleaving of the same accesses in one memory does not show it. *)
Theorem seqlock_weak_torn : exists (es : list LockEvent) (s : WeakLock) (value : list Z),
  lock_run false (init_weak [0; 0]) es = Some s /\ rpc s = RDone value /\ ~ (value ∈ sent s)
  /\ length (seq_hist s) = 2%nat /\ lock_run true (init_weak [0; 0]) es = None.
Proof.
  exists [StoreCall [1; 1]; StoreWord; LoadSeq1 0; LoadWord 1; LoadWord 0; LoadSeq2 0].
  eexists. exists [1; 0]. split; [reflexivity|]. repeat split; try reflexivity. cbn.
  rewrite not_elem_of_cons. split; [discriminate|]. by rewrite list_elem_of_singleton.
Qed.

(** A load of the lock as it is.  The reader knows store 1 to be complete,
    reads a word of store 2, sees its odd number and tries again. *)
Definition known_first : list LockEvent :=
  [StoreCall [5; 6]; StoreWord; StoreWord; StoreLast; LoadSeq1 2; LoadWord 1; LoadWord 1; LoadSeq2 2; LoadAgain].
Definition retried : list LockEvent :=
  [StoreCall [7; 8]; StoreWord; LoadSeq1 2; LoadWord 2; LoadWord 1; LoadSeq2 3; StoreWord; StoreLast;
   LoadSeq1 4; LoadWord 2; LoadWord 2; LoadSeq2 4].

Lemma seqlock_weak_load_witness : exists s1 s, lock_run false (init_weak [0; 0]) known_first = Some s1
  /\ v_seq (rview s1) = 2%nat /\ lock_run false s1 retried = Some s /\ rpc s = RDone [7; 8]
  /\ exists k, (v_seq (rview s1) <= 2 * k < length (seq_hist s))%nat
    /\ (forall i x, [7; 8] !! i = Some x -> exists j, copied s k i x j).
Proof.
  assert (E1 : (fun s => (rpc s, v_seq (rview s))) <$> lock_run false (init_weak [0; 0]) known_first = Some (RSpin, 2%nat))
    by (vm_compute; reflexivity).
  apply fmap_Some in E1 as (s1 & E1 & H1). injection H1 as Hs1 Hv1.
  assert (E : rpc <$> lock_run false (init_weak [0; 0]) (known_first ++ retried) = Some (RDone [7; 8])) by (vm_compute; reflexivity).
  rewrite lock_run_app, E1 in E. apply fmap_Some in E as (s & E & Er). cbn [mbind option_bind] in E.
  exists s1, s. split; [exact E1|]. split; [symmetry; exact Hv1|]. split; [exact E|]. split; [symmetry; exact Er|].
  destruct (seqlock_weak_load false [0; 0] known_first retried s1 s [7; 8] E1 (eq_sym Hs1) E (eq_sym Er)) as (k & Hk & _ & Hc & _).
  exists k. split; [exact Hk|exact Hc].
Defined.
