(* ===== verification/Session.v ===== *)
(** * Session manager

    [SessionManager] of [include/session/session_manager.hpp] and
    [src/session/session_manager.cpp].  The components a session change resets
    - sequence tracker, symbol directory, BBO publisher, shard router - are
    shared by reference in the source; here they are one record
    ([Subsystems]) that the operations take and return.  The registered EOD
    callbacks are code outside the manager: they are values of a parameter
    type [CB], and an operation returns the calls it makes, in order. *)

From S2P Require Import Prelude Types Spsc Sequence ItchParser Routing OrderMap Level2Book SeqLock.

Inductive SessionState := SessionUnknown | PreOpen | Open | Closed.

#[export] Instance SessionState_eq_dec : EqDecision SessionState.
Proof. solve_decision. Defined.

Definition MAX_EOD_CALLBACKS : Z := NUM_SHARDS.
Definition MAX_WATCHED_TICKERS : Z := 256.

(** The callback and ticker arrays with their counts are lists; an empty
    [std::function] is [None]. *)
Record SessionManager (CB : Type) := mkSession {
  session_ : bytes;
  state_ : SessionState;
  eod_archive_enabled_ : bool;
  eod_callbacks_ : list (option CB);
  watched_bits_ : list Z;
  watched_tickers_ : list bytes
}.

Arguments mkSession {CB}.
Arguments session_ {CB}.
Arguments state_ {CB}.
Arguments eod_archive_enabled_ {CB}.
Arguments eod_callbacks_ {CB}.
Arguments watched_bits_ {CB}.
Arguments watched_tickers_ {CB}.

Record Subsystems (Q : Type) := mkSubsystems {
  seq_tracker_ : SequenceTracker;
  sym_dir_ : SymbolDirectory;
  bbo_pub_ : BboPublisher;
  router_ : ShardRouter Q
}.

Arguments mkSubsystems {Q}.
Arguments seq_tracker_ {Q}.
Arguments sym_dir_ {Q}.
Arguments bbo_pub_ {Q}.
Arguments router_ {Q}.

Definition AUTO_DETECT : bytes := [65; 85; 84; 79; 95; 68; 69; 84; 69; 67; 84].

(** A C string is its bytes without the terminator; [strncpy] pads with
    zeros. *)
Definition initial_name (initial_session : option bytes) : bytes :=
  match initial_session with
  | Some s => if decide (take 11 s = AUTO_DETECT) then [] else take 10 s
  | None => []
  end.

Definition new_session_manager {CB} (initial_session : option bytes) (enabled : bool)
    : SessionManager CB :=
  let name := initial_name initial_session in
  mkSession (name ++ replicate (11 - length name) 0) SessionUnknown enabled []
    (replicate (Z.to_nat (MAX_LOCATE / 64)) 0) [].

Definition event_code_to_state (code : Z) : SessionState :=
  if code =? 83 then PreOpen            (* 'S' *)
  else if code =? 79 then Open          (* 'O' *)
  else if code =? 67 then Open          (* 'C' *)
  else if code =? 81 then Closed        (* 'Q' *)
  else if code =? 77 then Closed        (* 'M' *)
  else if code =? 69 then Closed        (* 'E' *)
  else SessionUnknown.

Section Manager.
Context {CB Q : Type} `{FifoOps Q ItchMsg}.

Definition set_session (m : SessionManager CB) (name : bytes) (st : SessionState)
    : SessionManager CB :=
  mkSession name st (eod_archive_enabled_ m) (eod_callbacks_ m) (watched_bits_ m)
    (watched_tickers_ m).

Definition register_eod_callback (m : SessionManager CB) (cb : option CB) : SessionManager CB :=
  if Z.of_nat (length (eod_callbacks_ m)) <? MAX_EOD_CALLBACKS
  then mkSession (session_ m) (state_ m) (eod_archive_enabled_ m) (eod_callbacks_ m ++ [cb])
         (watched_bits_ m) (watched_tickers_ m)
  else m.

(** [None]: an index outside [watched_bits_]. *)
Definition add_watched_symbol (m : SessionManager CB) (loc : Z) : option (SessionManager CB) :=
  if loc <? MAX_LOCATE then
    let i := Z.to_nat (Z.shiftr loc 6) in
    w ← watched_bits_ m !! i;
    let w' := Z.lor w (Z.shiftl 1 (Z.land loc 63)) in
    Some (mkSession (session_ m) (state_ m) (eod_archive_enabled_ m) (eod_callbacks_ m)
            (<[i := w']> (watched_bits_ m)) (watched_tickers_ m))
  else Some m.

Definition add_watched_ticker (m : SessionManager CB) (ticker8 : bytes) : option (SessionManager CB) :=
  if Z.of_nat (length (watched_tickers_ m)) >=? MAX_WATCHED_TICKERS then Some m
  else
    t ← rd_bytes 8 ticker8;
    Some (mkSession (session_ m) (state_ m) (eod_archive_enabled_ m) (eod_callbacks_ m)
            (watched_bits_ m) (watched_tickers_ m ++ [t])).

(** The loop over the registered tickers stops at the first match. *)
Fixpoint resolve_loop (m : SessionManager CB) (loc : Z) (t : bytes) (tickers : list bytes)
    : option (SessionManager CB) :=
  match tickers with
  | [] => Some m
  | w :: tickers' =>
      if decide (w = t) then add_watched_symbol m loc else resolve_loop m loc t tickers'
  end.

Definition try_resolve_watched (m : SessionManager CB) (loc : Z) (ticker8 : bytes)
    : option (SessionManager CB) :=
  if Z.of_nat (length (watched_tickers_ m)) =? 0 then Some m
  else t ← rd_bytes 8 ticker8; resolve_loop m loc t (watched_tickers_ m).

Definition is_warmup_symbol (m : SessionManager CB) (loc : Z) : option bool :=
  if negb (eod_archive_enabled_ m) || (loc >=? MAX_LOCATE) then Some false
  else
    w ← watched_bits_ m !! Z.to_nat (Z.shiftr loc 6);
    Some (negb (Z.land (Z.shiftr w (Z.land loc 63)) 1 =? 0)).

Definition is_open (m : SessionManager CB) : bool := bool_decide (state_ m = Open).

(** The calls made to the registered callbacks, each with the session name. *)
Definition on_eod_archival (m : SessionManager CB) : list (CB * bytes) :=
  (fun cb => (cb, session_ m)) <$> omap (fun cb => cb) (eod_callbacks_ m).

Definition reset_msg : ItchMsg := mkMsg InternalSessionReset 0 0 0 no_payload.

Definition reset_session (m : SessionManager CB) (e : Subsystems Q) (new_session_10 : bytes)
    : option (SessionManager CB * Subsystems Q) :=
  name ← rd_bytes 10 new_session_10;
  '(_, r) ← broadcast (router_ e) reset_msg;
  Some (set_session m (name ++ [0]) SessionUnknown,
        mkSubsystems (Sequence.reset 0 (seq_tracker_ e)) (directory_reset (sym_dir_ e))
          (publisher_reset (bbo_pub_ e)) r).

(** [memcmp(session_, raw, 10) != 0 && (session_[0] != 0 || raw[0] != 0)]. *)
Definition session_changed (m : SessionManager CB) (raw_session_10 : bytes) : option bool :=
  old ← rd_bytes 10 (session_ m);
  new ← rd_bytes 10 raw_session_10;
  o0 ← session_ m !! 0%nat;
  n0 ← raw_session_10 !! 0%nat;
  Some (bool_decide (old <> new) && (negb (o0 =? 0) || negb (n0 =? 0))).

(** The second half of [on_system_event], after the session check: the
    manager and the callbacks invoked. *)
Definition apply_event (m : SessionManager CB) (code : Z)
    : SessionManager CB * list (CB * bytes) :=
  let new_state := event_code_to_state code in
  if decide (new_state = SessionUnknown) then (m, [])
  else
    let calls := if bool_decide (new_state = Closed) && eod_archive_enabled_ m
                 then on_eod_archival m else [] in
    (set_session m (session_ m) new_state, calls).

(** A null [raw_session_10] is [None]; a message that is not a system event
    has no event code to read. *)
Definition on_system_event (m : SessionManager CB) (e : Subsystems Q) (msg : ItchMsg)
    (raw_session_10 : option bytes) : option (SessionManager CB * Subsystems Q * list (CB * bytes)) :=
  '(m1, e1) ←
    (match raw_session_10 with
     | Some raw =>
         changed ← session_changed m raw;
         if changed : bool then reset_session m e raw else Some (m, e)
     | None => Some (m, e)
     end);
  match body msg with
  | system_event code =>
      let '(m2, calls) := apply_event m1 code in Some (m2, e1, calls)
  | _ => None
  end.

(** ** Invariant *)

Record session_ok (m : SessionManager CB) : Prop := {
  so_name : exists n, session_ m = n ++ [0] /\ length n = 10%nat;
  so_bits : length (watched_bits_ m) = Z.to_nat (MAX_LOCATE / 64);
  so_tickers : Forall (fun t => length t = 8%nat) (watched_tickers_ m);
  so_few : Z.of_nat (length (watched_tickers_ m)) <= MAX_WATCHED_TICKERS
    /\ Z.of_nat (length (eod_callbacks_ m)) <= MAX_EOD_CALLBACKS
}.

(** ** Lemmas *)

Lemma new_session_ok initial enabled : session_ok (@new_session_manager CB initial enabled).
Proof.
  split; cbn [new_session_manager session_ watched_bits_ watched_tickers_ eod_callbacks_];
    [|by rewrite length_replicate|constructor|].
  2: unfold MAX_WATCHED_TICKERS, MAX_EOD_CALLBACKS, NUM_SHARDS; simpl; lia.
  set (name := initial_name initial).
  assert (Hn : (length name <= 10)%nat).
  { subst name. unfold initial_name. destruct initial; [|simpl; lia]. case_decide; [simpl; lia|]. rewrite length_take. lia. }
  exists (name ++ replicate (10 - length name) 0).
  rewrite length_app, length_replicate. split; [|lia].
  replace (11 - length name)%nat with (S (10 - length name)) by lia.
  by rewrite replicate_S_end, app_assoc.
Qed.

Lemma bit_read w k : 0 <= k -> negb (Z.land (Z.shiftr w k) 1 =? 0) = Z.testbit w k.
Proof.
  intros Hk. change 1 with (Z.ones 1). rewrite Z.land_ones by lia. change (2 ^ 1) with 2.
  rewrite <- Z.bit0_mod, Z.shiftr_spec, Z.add_0_l by lia. by destruct (Z.testbit w k).
Qed.

Lemma land63 loc : Z.land loc 63 = loc mod 64.
Proof. change 63 with (Z.ones 6). by rewrite Z.land_ones by lia. Qed.

Lemma shiftr6 loc : Z.shiftr loc 6 = loc / 64.
Proof. by rewrite Z.shiftr_div_pow2 by lia. Qed.

Lemma watched_word (m : SessionManager CB) loc :
  session_ok m -> in_range 16 loc -> exists w, watched_bits_ m !! Z.to_nat (loc / 64) = Some w.
Proof.
  intros I Hl. apply lookup_lt_is_Some_2. rewrite (so_bits _ I). unfold MAX_LOCATE. range_lia.
Qed.

Lemma is_warmup_eq (m : SessionManager CB) loc w :
  in_range 16 loc -> watched_bits_ m !! Z.to_nat (loc / 64) = Some w ->
  is_warmup_symbol m loc = Some (eod_archive_enabled_ m && Z.testbit w (loc mod 64)).
Proof.
  intros Hl Hw. unfold is_warmup_symbol. rewrite Z.geb_leb, (proj2 (Z.leb_gt _ _)), orb_false_r
    by (unfold MAX_LOCATE; range_lia).
  destruct (eod_archive_enabled_ m); simpl; [|done].
  rewrite shiftr6, Hw, land63. simpl. by rewrite bit_read by (apply Z.mod_pos_bound; lia).
Qed.

(** Watching a symbol sets its bit and no other. *)
Lemma add_watched_symbol_spec (m : SessionManager CB) loc :
  session_ok m -> in_range 16 loc ->
  exists m', add_watched_symbol m loc = Some m' /\ session_ok m'
    /\ set_session m' (session_ m) (state_ m) = m'
    /\ eod_archive_enabled_ m' = eod_archive_enabled_ m
    /\ watched_tickers_ m' = watched_tickers_ m
    /\ forall l, in_range 16 l ->
         is_warmup_symbol m' l =
           if decide (l = loc) then Some (eod_archive_enabled_ m) else is_warmup_symbol m l.
Proof.
  intros I Hl. destruct (watched_word m loc I Hl) as [w Hw]. pose proof (lookup_lt_Some _ _ _ Hw).
  unfold add_watched_symbol. rewrite (proj2 (Z.ltb_lt _ _)) by (unfold MAX_LOCATE; range_lia).
  rewrite shiftr6, Hw, land63. simpl. eexists. split; [done|]. destruct I as [I1 I2 I3 I4].
  split; [split; simpl; [done|by rewrite length_insert|done|done]|].
  split_and!; [done..|]. intros l Hr.
  destruct (decide (l / 64 = loc / 64)) as [Eq|Ne].
  - rewrite (is_warmup_eq m l w), (is_warmup_eq _ l (Z.lor w (Z.shiftl 1 (loc mod 64))));
      [|done|simpl; rewrite Eq; by apply list_lookup_insert_eq|done|by rewrite Eq].
    simpl. rewrite Z.lor_spec, Z.shiftl_1_l, Z.pow2_bits_eqb by (apply Z.mod_pos_bound; lia).
    case_decide as E.
    + subst. by rewrite Z.eqb_refl, orb_true_r, andb_true_r.
    + rewrite (proj2 (Z.eqb_neq _ _)), orb_false_r; [done|]. intros E'. apply E. range_lia.
  - rewrite decide_False by congruence.
    unfold is_warmup_symbol. simpl. rewrite shiftr6, list_lookup_insert_ne by range_lia. done.
Qed.

Lemma resolve_loop_spec (m : SessionManager CB) loc t tickers :
  resolve_loop m loc t tickers = if decide (t ∈ tickers) then add_watched_symbol m loc else Some m.
Proof.
  induction tickers as [|w tickers IH]; cbn [resolve_loop].
  { by rewrite decide_False by apply not_elem_of_nil. }
  destruct (decide (w = t)) as [E|E].
  - rewrite decide_True; [done|]. subst. by left.
  - rewrite IH. apply decide_ext. rewrite elem_of_cons. naive_solver.
Qed.

Lemma session_bytes (m : SessionManager CB) :
  session_ok m -> rd_bytes 10 (session_ m) = Some (take 10 (session_ m))
    /\ exists c, session_ m !! 0%nat = Some c.
Proof.
  intros I. destruct (so_name _ I) as (n & -> & Hn). split.
  - apply rd_bytes_Some. rewrite length_app. lia.
  - apply lookup_lt_is_Some_2. rewrite length_app. lia.
Qed.

Lemma session_changed_total (m : SessionManager CB) raw :
  session_ok m -> length raw = 10%nat -> exists c, session_changed m raw = Some c
    /\ (c = true -> raw <> take 10 (session_ m)).
Proof.
  intros I Hr. unfold session_changed. destruct (session_bytes m I) as [-> [c ->]]. simpl.
  rewrite rd_bytes_Some by lia. simpl. destruct (lookup_lt_is_Some_2 raw 0) as [n0 ->]; [lia|].
  simpl. eexists. split; [done|]. rewrite (firstn_all2 raw) by lia.
  intros [E _]%andb_true_iff. apply bool_decide_eq_true in E. congruence.
Qed.

(** While the packets carry the session's own name nothing is reset. *)
Lemma session_changed_same (m : SessionManager CB) raw :
  session_ok m -> raw = take 10 (session_ m) -> session_changed m raw = Some false.
Proof.
  intros I ->. unfold session_changed. destruct (session_bytes m I) as [-> [c Hc]].
  destruct (so_name _ I) as (n & E & Hn). rewrite Hc. simpl.
  assert (Ht : take 10 (session_ m) = n) by (rewrite E; apply take_app_length'; lia).
  rewrite Ht, rd_bytes_Some, firstn_all2 by lia. simpl.
  destruct (lookup_lt_is_Some_2 n 0) as [n0 ->]; [lia|]. simpl.
  by rewrite bool_decide_eq_false_2 by tauto.
Qed.

(** Resolving a ticker changes the watch list only. *)
Lemma try_resolve_frame (m : SessionManager CB) loc ticker8 :
  session_ok m -> in_range 16 loc -> (8 <= length ticker8)%nat ->
  exists m', try_resolve_watched m loc ticker8 = Some m' /\ session_ok m'
    /\ session_ m' = session_ m /\ state_ m' = state_ m.
Proof.
  intros I Hl H8. unfold try_resolve_watched. rewrite rd_bytes_Some by done. simpl.
  destruct (_ =? 0); [by exists m|]. rewrite resolve_loop_spec. case_decide; [|by exists m].
  destruct (add_watched_symbol_spec m loc I Hl) as (m' & -> & I' & E & _). exists m'.
  split_and!; try done; by rewrite <- E.
Qed.

Context {QF : Fifo Q ItchMsg}.

(** What a session change does to the other components. *)
Record was_reset (cap : nat) (e e' : Subsystems Q) : Prop := {
  wr_tracker : seq_tracker_ e' = tracker_init 0;
  wr_dir : sym_dir_ e' = directory_reset (sym_dir_ e);
  wr_bbo : bbo_pub_ e' = publisher_reset (bbo_pub_ e);
  wr_router : router_ok cap (router_ e');
  wr_queues : forall out s v, shows (router_ e, out) s v ->
    shows (router_ e', out) s (view_push cap v reset_msg)
}.

Lemma reset_session_spec cap (m : SessionManager CB) (e : Subsystems Q) raw :
  session_ok m -> router_ok cap (router_ e) -> length raw = 10%nat ->
  exists e', reset_session m e raw = Some (set_session m (raw ++ [0]) SessionUnknown, e')
    /\ session_ok (set_session m (raw ++ [0]) SessionUnknown) /\ was_reset cap e e'.
Proof.
  intros I R Hr. unfold reset_session. rewrite rd_bytes_Some, firstn_all2 by lia. simpl.
  destruct (broadcast_spec cap (router_ e) reset_msg R) as (res & r' & -> & R' & _ & Hs). simpl.
  eexists. split; [done|]. split; [|by split].
  destruct I as [? ? ? ?]. split; simpl; try done. by exists raw.
Qed.

Lemma set_session_ok (m : SessionManager CB) st : session_ok m -> session_ok (set_session m (session_ m) st).
Proof. intros [? ? ? ?]. by split. Qed.

(** The calls of the callbacks on a closing event. *)
Definition eod_calls (m : SessionManager CB) (code : Z) (name : bytes) : list (CB * bytes) :=
  if bool_decide (event_code_to_state code = Closed) && eod_archive_enabled_ m
  then (fun cb => (cb, name)) <$> omap (fun cb => cb) (eod_callbacks_ m) else [].

Lemma apply_event_spec (m : SessionManager CB) code :
  apply_event m code =
    (set_session m (session_ m)
       (if decide (event_code_to_state code = SessionUnknown) then state_ m
        else event_code_to_state code),
     eod_calls m code (session_ m)).
Proof.
  unfold apply_event, eod_calls. case_decide as E.
  - rewrite E. by destruct m.
  - done.
Qed.

(** ** Properties *)

(** A system event, on every branch.  The call never fails.  With an
    unchanged session name it touches nothing but the state; when the name in
    the packet header differs, the name is replaced and tracker, directory and
    quotes are reset and the reset sentinel is offered to every shard queue.
    In both cases the state is then the one the event code stands for (an
    unknown code leaves it as it is), and exactly a code for the closed state
    calls the registered callbacks, in order and with the name of the session,
    if archiving is enabled. *)
Theorem on_system_event_spec cap (m : SessionManager CB) (e : Subsystems Q) msg raw code :
  session_ok m -> router_ok cap (router_ e) -> length raw = 10%nat ->
  body msg = system_event code ->
  exists changed m' e', session_changed m raw = Some changed
    /\ on_system_event m e msg (Some raw) = Some (m', e', eod_calls m code (session_ m'))
    /\ session_ok m'
    /\ session_ m' = (if changed then raw ++ [0] else session_ m)
    /\ state_ m' = (if decide (event_code_to_state code = SessionUnknown)
                    then if changed then SessionUnknown else state_ m
                    else event_code_to_state code)
    /\ (if changed then was_reset cap e e' else e' = e).
Proof.
  intros I R Hr Hb. destruct (session_changed_total m raw I Hr) as (c & Hc & _).
  unfold on_system_event. rewrite Hc, Hb. simpl. destruct c.
  - destruct (reset_session_spec cap m e raw I R Hr) as (e' & -> & I' & W). simpl.
    rewrite apply_event_spec. set (m1 := set_session m (raw ++ [0]) SessionUnknown) in *.
    exists true. eexists (set_session m1 (session_ m1) _), e'. split; [done|]. split; [reflexivity|].
    split; [by apply set_session_ok|]. split_and!; [reflexivity|reflexivity|exact W].
  - simpl. rewrite apply_event_spec. exists false. eexists (set_session m (session_ m) _), e.
    split; [done|]. split; [reflexivity|].
    split; [by apply set_session_ok|split_and!; reflexivity].
Qed.

(** The watch list.  A directory message for a registered ticker makes its
    locate code, and no other code, eligible for pre-open activation (if
    archiving is enabled); a message for any other ticker changes nothing. *)
Theorem resolve_watched_exact (m : SessionManager CB) loc ticker8 :
  session_ok m -> in_range 16 loc -> (8 <= length ticker8)%nat ->
  exists m', try_resolve_watched m loc ticker8 = Some m' /\ session_ok m'
    /\ state_ m' = state_ m
    /\ forall l, in_range 16 l ->
         is_warmup_symbol m' l =
           if decide (l = loc /\ take 8 ticker8 ∈ watched_tickers_ m)
           then Some (eod_archive_enabled_ m) else is_warmup_symbol m l.
Proof.
  intros I Hl H8. unfold try_resolve_watched. rewrite rd_bytes_Some by done. simpl.
  assert (Hno : take 8 ticker8 ∉ watched_tickers_ m ->
    exists m', Some m = Some m' /\ session_ok m' /\ state_ m' = state_ m
      /\ forall l, in_range 16 l -> is_warmup_symbol m' l =
           if decide (l = loc /\ take 8 ticker8 ∈ watched_tickers_ m)
           then Some (eod_archive_enabled_ m) else is_warmup_symbol m l).
  { intros Hn. exists m. split_and!; try done. intros l _. by rewrite decide_False by tauto. }
  destruct (Z.eqb_spec (Z.of_nat (length (watched_tickers_ m))) 0) as [E|E].
  { apply Hno. destruct (watched_tickers_ m); [apply not_elem_of_nil|done]. }
  rewrite resolve_loop_spec. case_decide as Ht; [|by apply Hno].
  destruct (add_watched_symbol_spec m loc I Hl) as (m' & -> & I' & E1 & _ & _ & Hw).
  exists m'. split_and!; [done|done|by rewrite <- E1|]. intros l Hr. rewrite (Hw l Hr).
  destruct (decide (l = loc)) as [->|]; [by rewrite decide_True|by rewrite decide_False by tauto].
Qed.

End Manager.

(** ** Witnesses *)

Definition sample_env : Subsystems (Seq.SpscQueue ItchMsg) :=
  mkSubsystems (tracker_init 7) new_directory (new_publisher 16) small_router.

Definition sample_session : bytes := replicate 10 84.

Definition auto_manager : SessionManager nat := new_session_manager (Some AUTO_DETECT) true.

Definition event_msg (code : Z) : ItchMsg := mkMsg SystemEvent 0 0 0 (system_event code).

(** An 'E' event under a registered callback, in the packet that reveals the
    session name: the reset comes first, then the callback. *)
Lemma on_system_event_spec_witness :
  exists m' e',
    on_system_event (register_eod_callback auto_manager (Some 4%nat)) sample_env (event_msg 69)
      (Some sample_session) = Some (m', e', [(4%nat, sample_session ++ [0])])
    /\ state_ m' = Closed /\ seq_tracker_ e' = tracker_init 0.
Proof.
  destruct (on_system_event_spec 2 (register_eod_callback auto_manager (Some 4%nat)) sample_env
    (event_msg 69) sample_session 69) as (changed & m' & e' & Hc & He & _ & Hn & Hst & Hreset).
  - destruct (@new_session_ok nat (Some AUTO_DETECT) true) as [H1 H2 H3 H4].
    split; [exact H1|exact H2|exact H3|]. vm_compute. split; discriminate.
  - exact small_router_ok.
  - reflexivity.
  - reflexivity.
  - assert (E : session_changed (register_eod_callback auto_manager (Some 4%nat)) sample_session
      = Some true) by reflexivity.
    rewrite E in Hc. injection Hc as <-. exists m', e'. rewrite He, Hn, Hst.
    split; [reflexivity|]. split; [reflexivity|]. exact (wr_tracker _ _ _ Hreset).
Defined.

Definition watching : SessionManager nat :=
  default auto_manager (add_watched_ticker auto_manager (replicate 8 65)).

Lemma resolve_watched_exact_witness :
  exists m', try_resolve_watched watching 130 (replicate 8 65) = Some m'
    /\ is_warmup_symbol m' 130 = Some true /\ is_warmup_symbol m' 131 = Some false.
Proof.
  destruct (resolve_watched_exact watching 130 (replicate 8 65)) as (m' & E & _ & _ & H).
  - destruct (@new_session_ok nat (Some AUTO_DETECT) true) as [H1 H2 H3 H4].
    split; [exact H1|exact H2|repeat constructor|]. vm_compute. split; discriminate.
  - concrete.
  - simpl. lia.
  - exists m'. split; [exact E|]. rewrite !H by concrete. split; vm_compute; reflexivity.
Defined.
