(* ===== verification/Worker.v ===== *)
(** * Order book pool and shard worker

    [OrderBookPool] ([include/orderbook/order_book_pool.hpp],
    [src/orderbook/order_book_pool.cpp]) and [ShardWorker]
    ([include/workers/shard_worker.hpp], [src/workers/shard_worker.cpp]).  The
    worker's state is its slab of books, the activation flags, the pool, map
    and counters its books share ([ShardMem]) and its histogram; the publisher
    and the session manager are shared with other threads and are passed in.
    The clock is an argument.  [None] is an access outside an array. *)

From S2P Require Import Prelude Types Spsc ItchParser Histogram OrderMap OrderPool Level2Book.
From S2P Require Import BookLevels SeqLock Session.

Definition BOOKS_PER_SHARD : Z := MAX_LOCATE / NUM_SHARDS.

(** [loc = slab_index * NUM_SHARDS + shard_id], and its inverse. *)
Definition slab_locate (shard i : Z) : Z := u16 (i * NUM_SHARDS + shard).
Definition slab_index (loc : Z) : nat := Z.to_nat (loc / NUM_SHARDS).

Definition slab_indices : list nat := seq 0 (Z.to_nat BOOKS_PER_SHARD).
Arguments BOOKS_PER_SHARD : simpl never.
Arguments slab_indices : simpl never.

Lemma slab_indices_lookup i : (i < Z.to_nat BOOKS_PER_SHARD)%nat -> slab_indices !! i = Some i.
Proof. intros. unfold slab_indices. by rewrite lookup_seq_lt. Qed.

Lemma elem_of_slab_indices i : i ∈ slab_indices <-> (i < Z.to_nat BOOKS_PER_SHARD)%nat.
Proof. unfold slab_indices. rewrite elem_of_seq. lia. Qed.

Lemma length_slab_indices : length slab_indices = Z.to_nat BOOKS_PER_SHARD.
Proof. apply length_seq. Qed.

(** Unification must not enumerate the 8192 indices. *)
#[local] Opaque slab_indices.

(** The loop of the pool's constructor. *)
Definition new_slab (shard : Z) : list Level2Book :=
  (fun i => new_book (slab_locate shard (Z.of_nat i))) <$> slab_indices.

Record ShardWorker (M : Type) := mkWorker {
  shard_id_ : Z;
  slab_ : list Level2Book;
  book_active_ : list bool;
  wmem : ShardMem M;
  book_lat_ : LatencyHistogram
}.

Arguments mkWorker {M}.
Arguments shard_id_ {M}.
Arguments slab_ {M}.
Arguments book_active_ {M}.
Arguments wmem {M}.
Arguments book_lat_ {M}.

Definition new_worker {M} (shard : Z) (s : ShardMem M) (h : LatencyHistogram) : ShardWorker M :=
  mkWorker shard (new_slab shard) (replicate (Z.to_nat BOOKS_PER_SHARD) false) s h.

(** The latency is recorded when the packet carries a receive time that is not
    in the future. *)
Definition record_latency (h : LatencyHistogram) (recv after : Z) : option LatencyHistogram :=
  if (recv >? 0) && (after >=? recv) then record h (after -64 recv) else Some h.

Section Worker.
Context {M CB : Type} `{MapOps M}.
Abbreviation worker := (ShardWorker M).

(** [book_pool_.book(loc)]. *)
Definition book (w : worker) (loc : Z) : option Level2Book := slab_ w !! slab_index loc.

Definition set_book (w : worker) (i : nat) (b : Level2Book) : worker :=
  mkWorker (shard_id_ w) (<[i := b]> (slab_ w)) (book_active_ w) (wmem w) (book_lat_ w).
Definition set_active (w : worker) (i : nat) (a : bool) : worker :=
  mkWorker (shard_id_ w) (slab_ w) (<[i := a]> (book_active_ w)) (wmem w) (book_lat_ w).
Definition set_mem (w : worker) (s : ShardMem M) : worker :=
  mkWorker (shard_id_ w) (slab_ w) (book_active_ w) s (book_lat_ w).

Definition activate_book (w : worker) (loc : Z) : option worker :=
  a ← book_active_ w !! slab_index loc;
  if a : bool then Some w
  else
    b ← book w loc;
    Some (set_book (set_active w (slab_index loc) true) (slab_index loc) (set_ctrs b)).

(** One iteration of the loop of [clear_all_books]. *)
Definition clear_one (w : worker) (i : nat) : option worker :=
  a ← book_active_ w !! i;
  if a : bool then
    let loc := slab_locate (shard_id_ w) (Z.of_nat i) in
    b ← book w loc;
    Some (set_active (set_book w (slab_index loc) (clear b)) i false)
  else Some w.

Fixpoint clear_loop (w : worker) (todo : list nat) : option worker :=
  match todo with
  | [] => Some w
  | i :: todo' => w' ← clear_one w i; clear_loop w' todo'
  end.

Definition clear_all_books (w : worker) : option worker := clear_loop w slab_indices.

(** The switch over the order messages: [Some None] for a type it does not
    list.  The union member read is the one the type selects. *)
Definition book_switch (b : Level2Book) (s : ShardMem M) (msg : ItchMsg)
    : option (option (Level2Book * ShardMem M)) :=
  match type msg, body msg with
  | AddOrder, add_order ref sd p shares _ _
  | AddOrderMPID, add_order ref sd p shares _ _ => Some <$> on_add_order b s ref sd shares p
  | OrderExecuted, order_executed ref shares _ => Some <$> on_order_executed b s ref shares
  | OrderExecutedPrice, order_executed_price ref shares _ _ _ =>
      Some <$> on_order_executed_price b s ref shares
  | OrderCancel, order_cancel ref shares => Some <$> on_order_cancel b s ref shares
  | OrderDelete, order_delete ref => Some <$> on_order_delete b s ref
  | OrderReplace, order_replace orig_ref new_ref shares p =>
      Some <$> on_order_replace b s orig_ref new_ref shares p
  | AddOrder, _ | AddOrderMPID, _ | OrderExecuted, _ | OrderExecutedPrice, _ | OrderCancel, _
  | OrderDelete, _ | OrderReplace, _ => None
  | _, _ => Some None
  end.

Definition with_ts (q : BboSnapshot) (ts : Z) : BboSnapshot :=
  mkBbo (bbo_locate q) (bid_price q) (bid_qty q) (ask_price q) (ask_qty q) ts.

(** From the switch to the end of [dispatch]; [after] is the second clock
    reading. *)
Definition apply_order (w : worker) (pub : BboPublisher) (msg : ItchMsg) (after : Z)
    : option (worker * BboPublisher) :=
  b ← book w (locate msg);
  r ← book_switch b (wmem w) msg;
  match r with
  | None => Some (w, pub)
  | Some (b', s') =>
      bbo ← get_bbo b';
      pub' ← publish_bbo pub (locate msg) (with_ts bbo (timestamp msg));
      h ← record_latency (book_lat_ w) (recv_timestamp msg) after;
      Some (mkWorker (shard_id_ w) (<[slab_index (locate msg) := b']> (slab_ w)) (book_active_ w)
              s' h, pub')
  end.

Definition is_add (t : MessageType) : bool :=
  match t with AddOrder | AddOrderMPID => true | _ => false end.

(** The order messages: the session gate, late activation, then the book. *)
Definition dispatch_order (w : worker) (pub : BboPublisher) (sm : SessionManager CB)
    (msg : ItchMsg) (after : Z) : option (worker * BboPublisher) :=
  if negb (is_open sm) then Some (w, pub)
  else
    a ← book_active_ w !! slab_index (locate msg);
    if a : bool then apply_order w pub msg after
    else if is_add (type msg) then
      w1 ← activate_book w (locate msg); apply_order w1 pub msg after
    else Some (w, pub).

Definition dispatch (w : worker) (pub : BboPublisher) (sm : SessionManager CB) (msg : ItchMsg)
    (after : Z) : option (worker * BboPublisher) :=
  match type msg with
  | InternalSessionReset =>
      w1 ← clear_all_books w;
      let s := wmem w1 in
      Some (set_mem w1 (set_map (set_pool s (pool_reset (pool s))) (map_reset (order_map_ s))), pub)
  | StockDirectory =>
      if decide (state_ sm = Open) then
        w1 ← activate_book w (locate msg); Some (w1, pub)
      else if decide (state_ sm = PreOpen) then
        warm ← is_warmup_symbol sm (locate msg);
        if warm : bool then w1 ← activate_book w (locate msg); Some (w1, pub) else Some (w, pub)
      else Some (w, pub)
  | StockTradingAction =>
      a ← book_active_ w !! slab_index (locate msg);
      if a : bool then
        b ← book w (locate msg);
        match body msg with
        | trading_action _ trading_state _ =>
            Some (set_book w (slab_index (locate msg)) (on_trading_action b trading_state), pub)
        | _ => None
        end
      else Some (w, pub)
  | _ => dispatch_order w pub sm msg after
  end.

(** ** Invariant

    The slab holds the shard's books in order of their locate codes, every
    book is sorted, and one that is not active is as [clear] leaves it. *)
Record worker_ok (w : worker) : Prop := {
  wo_shard : 0 <= shard_id_ w < NUM_SHARDS;
  wo_slab : locate_ <$> slab_ w = (fun i => slab_locate (shard_id_ w) (Z.of_nat i)) <$> slab_indices;
  wo_active : length (book_active_ w) = Z.to_nat BOOKS_PER_SHARD;
  wo_books : Forall book_ok (slab_ w);
  wo_idle : forall i b, book_active_ w !! i = Some false -> slab_ w !! i = Some b -> clear b = b
}.

(** ** A handler keeps the locate code of its book *)

Ltac keeps :=
  repeat
    match goal with
    | E : mbind _ _ = Some _ |- _ => apply bind_Some in E as (? & ? & E)
    | E : Some _ = Some _ |- _ => injection E as ?; subst
    | x : _ * _ |- _ => destruct x
    | E : (if ?c then _ else _) = Some _ |- _ => destruct c
    | E : (match ?o with Some _ => _ | None => _ end) = Some _ |- _ => destruct o
    end.

Lemma set_side_locate b buy ls c : locate_ (set_side b buy ls c) = locate_ b.
Proof. by destruct buy. Qed.

Lemma level_for_locate b (s : ShardMem M) buy p b' s' i :
  level_for b s buy p = Some (b', s', i) -> locate_ b' = locate_ b.
Proof. intros E. unfold level_for in E. keeps; [apply set_side_locate|done]. Qed.

Lemma place_order_locate b (s : ShardMem M) buy li pi ref p q sd b' s' :
  place_order b s buy li pi ref p q sd = Some (b', s') -> locate_ b' = locate_ b.
Proof. intros E. unfold place_order in E. keeps. apply set_side_locate. Qed.

Lemma detach_locate b p buy idx b' p' :
  detach b p buy idx = Some (b', p') -> locate_ b' = locate_ b.
Proof. intros E. unfold detach in E. keeps; apply set_side_locate. Qed.

Lemma book_step_locate b (s : ShardMem M) m b' s' :
  book_step b s m = Some (b', s') -> locate_ b' = locate_ b.
Proof.
  assert (Hadd : forall b1 (s1 s2 : ShardMem M) buy p b2 i, level_for b1 s1 buy p = Some (b2, s2, i) ->
    forall pi ref q sd b3 s3, place_order b2 s2 buy i pi ref p q sd = Some (b3, s3) -> locate_ b3 = locate_ b1).
  { intros ??????? E ?????? E'. by rewrite (place_order_locate _ _ _ _ _ _ _ _ _ _ _ E'), (level_for_locate _ _ _ _ _ _ _ E). }
  intros E. destruct m; simpl in E.
  - unfold on_add_order in E. keeps; eauto using level_for_locate.
  - unfold reduce_qty in E. keeps; rewrite ?set_side_locate; try done.
    etransitivity; [by eapply detach_locate|apply set_side_locate].
  - unfold on_order_delete in E. keeps; eauto using detach_locate.
  - unfold on_order_replace, replace_inplace, replace_full in E. keeps; rewrite ?set_side_locate; try done;
      (etransitivity; [|by eapply detach_locate]); eauto using level_for_locate.
  - by injection E as <- _.
  - by injection E as <- _.
Qed.

Lemma book_switch_step b (s : ShardMem M) msg b' s' :
  book_switch b s msg = Some (Some (b', s')) -> exists m, book_step b s m = Some (b', s').
Proof.
  intros E. unfold book_switch in E. destruct (type msg); try discriminate; destruct (body msg);
    try discriminate; apply fmap_Some in E as ([??] & E & [= <- <-]).
  - by eexists (MAdd _ _ _ _).
  - by eexists (MAdd _ _ _ _).
  - by eexists (MReduce _ _).
  - by eexists (MReduce _ _).
  - by eexists (MReduce _ _).
  - by eexists (MDelete _).
  - by eexists (MReplace _ _ _ _).
Qed.

Lemma get_bbo_total b : book_ok b -> exists q, get_bbo b = Some q /\ bbo_locate q = locate_ b.
Proof.
  intros [Hb Ha]. unfold get_bbo.
  assert (Hside : forall buy ls c, side_ok buy ls c -> exists v,
    (if 0 <? c then l ← ls !! 0%nat; Some (level_price l, total_qty l) else Some (0, 0)) = Some v).
  { intros buy ls c [Hl _ _]. destruct (0 <? c); [|eauto].
    destruct (lookup_lt_is_Some_2 ls 0) as [l ->]; [unfold MAX_PRICE_LEVELS in Hl; lia|].
    simpl. eauto. }
  destruct (Hside _ _ _ Hb) as [vb ->]. destruct (Hside _ _ _ Ha) as [va ->]. simpl. eauto.
Qed.

(** ** The slab *)

Lemma slab_index_lt loc : in_range 16 loc -> (slab_index loc < Z.to_nat BOOKS_PER_SHARD)%nat.
Proof.
  intros. unfold slab_index, BOOKS_PER_SHARD, MAX_LOCATE, NUM_SHARDS. change (65536 / 8) with 8192.
  range_lia.
Qed.

Lemma slab_index_locate shard i :
  0 <= shard < NUM_SHARDS -> (i < Z.to_nat BOOKS_PER_SHARD)%nat ->
  slab_index (slab_locate shard (Z.of_nat i)) = i.
Proof.
  unfold slab_index, slab_locate, BOOKS_PER_SHARD, MAX_LOCATE, NUM_SHARDS.
  change (65536 / 8) with 8192. intros. range_lia.
Qed.

Lemma slab_locate_index shard loc :
  0 <= shard < NUM_SHARDS -> in_range 16 loc ->
  slab_locate shard (Z.of_nat (slab_index loc)) = loc / NUM_SHARDS * NUM_SHARDS + shard.
Proof. unfold slab_index, slab_locate, NUM_SHARDS. intros. range_lia. Qed.

Lemma worker_slot (w : worker) i :
  worker_ok w -> (i < Z.to_nat BOOKS_PER_SHARD)%nat ->
  exists b a, slab_ w !! i = Some b /\ book_active_ w !! i = Some a /\ book_ok b
    /\ locate_ b = slab_locate (shard_id_ w) (Z.of_nat i).
Proof.
  intros W Hi. destruct (lookup_lt_is_Some_2 (book_active_ w) i) as [a Ha]; [by rewrite (wo_active _ W)|].
  assert (Hl : (locate_ <$> slab_ w) !! i = Some (slab_locate (shard_id_ w) (Z.of_nat i))).
  { rewrite (wo_slab _ W), list_lookup_fmap. by rewrite slab_indices_lookup. }
  apply list_lookup_fmap_Some in Hl as (b & Eb & Hb). exists b, a.
  pose proof (Forall_lookup_1 _ _ _ _ (wo_books _ W) Hb). done.
Qed.

Lemma set_book_ok (w : worker) i b b' s h :
  worker_ok w -> slab_ w !! i = Some b -> locate_ b' = locate_ b -> book_ok b' ->
  (book_active_ w !! i = Some false -> clear b' = b') ->
  worker_ok (mkWorker (shard_id_ w) (<[i := b']> (slab_ w)) (book_active_ w) s h).
Proof.
  intros [W1 W2 W3 W4 W5] Hb Hloc Hok Hidle. split; simpl.
  - done.
  - rewrite list_fmap_insert, Hloc, list_insert_id; [exact W2|]. by rewrite list_lookup_fmap, Hb.
  - done.
  - by apply Forall_insert.
  - intros j c Ha Hj. destruct (decide (j = i)) as [->|].
    + rewrite list_lookup_insert_eq in Hj by (by eapply lookup_lt_Some). injection Hj as <-. auto.
    + rewrite list_lookup_insert_ne in Hj by done. eauto.
Qed.

Lemma set_active_ok (w : worker) i : worker_ok w -> worker_ok (set_active w i true).
Proof.
  intros [W1 W2 W3 W4 W5]. split; simpl; try done; [by rewrite length_insert|].
  intros j c Ha. apply list_lookup_insert_Some in Ha as [(-> & ? & _)|[? Ha]]; [done|eauto].
Qed.

Lemma clear_book_ok b : book_ok (clear b) /\ locate_ (clear b) = locate_ b /\ clear (clear b) = clear b.
Proof. split_and!; [split; apply blank_side_ok|done|done]. Qed.

(** Activation makes the flag of the slot true and touches nothing else but
    the counters of its book. *)
Lemma activate_book_spec (w : worker) loc :
  worker_ok w -> in_range 16 loc ->
  exists w', activate_book w loc = Some w' /\ worker_ok w'
    /\ book_active_ w' !! slab_index loc = Some true
    /\ shard_id_ w' = shard_id_ w /\ wmem w' = wmem w /\ book_lat_ w' = book_lat_ w
    /\ (forall i, i <> slab_index loc -> slab_ w' !! i = slab_ w !! i)
    /\ forall b, book w loc = Some b -> exists b', book w' loc = Some b'
         /\ (b' = b \/ b' = set_ctrs b).
Proof.
  intros W Hl. pose proof (slab_index_lt loc Hl) as Hi.
  destruct (worker_slot w _ W Hi) as (b & a & Hb & Ha & Hok & Hloc).
  unfold activate_book, book. rewrite Ha. simpl. destruct a.
  { exists w. split_and!; try done. intros b' Hb'. exists b'. auto. }
  rewrite Hb. simpl. pose proof (lookup_lt_Some _ _ _ Hb). pose proof (lookup_lt_Some _ _ _ Ha).
  eexists. split; [done|]. split.
  { apply (set_book_ok (set_active w (slab_index loc) true) _ b); simpl; try done.
    - by apply set_active_ok.
    - intros Hf. rewrite list_lookup_insert_eq in Hf by done. done. }
  simpl. split_and!; try done.
  - by rewrite list_lookup_insert_eq.
  - intros i Hne. by rewrite list_lookup_insert_ne.
  - intros b' [= <-]. rewrite list_lookup_insert_eq by done. eauto.
Qed.

(** ** Clearing the shard *)

Lemma clear_one_spec (w : worker) i :
  worker_ok w -> (i < Z.to_nat BOOKS_PER_SHARD)%nat ->
  exists w', clear_one w i = Some w' /\ worker_ok w' /\ wmem w' = wmem w
    /\ shard_id_ w' = shard_id_ w /\ book_lat_ w' = book_lat_ w
    /\ book_active_ w' !! i = Some false
    /\ forall j, j <> i -> book_active_ w' !! j = book_active_ w !! j.
Proof.
  intros W Hi. destruct (worker_slot w i W Hi) as (b & a & Hb & Ha & Hok & Hloc).
  unfold clear_one, book. rewrite Ha. simpl. destruct a; [|by exists w].
  rewrite (slab_index_locate _ _ (wo_shard _ W) Hi), Hb. simpl.
  destruct (clear_book_ok b) as (K1 & K2 & K3).
  pose proof (lookup_lt_Some _ _ _ Hb). pose proof (lookup_lt_Some _ _ _ Ha).
  eexists. split; [done|]. split_and!; try done; simpl.
  - destruct W as [W1 W2 W3 W4 W5]. split; simpl.
    + done.
    + rewrite list_fmap_insert, K2, list_insert_id; [exact W2|]. by rewrite list_lookup_fmap, Hb.
    + by rewrite length_insert.
    + by apply Forall_insert.
    + intros j c Hj Hc. destruct (decide (j = i)) as [->|].
      * rewrite list_lookup_insert_eq in Hc by done. by injection Hc as <-.
      * rewrite list_lookup_insert_ne in Hj by done. rewrite list_lookup_insert_ne in Hc by done. eauto.
  - by rewrite list_lookup_insert_eq.
  - intros j Hne. by rewrite list_lookup_insert_ne.
Qed.

Lemma clear_loop_spec todo : Forall (fun i => i < Z.to_nat BOOKS_PER_SHARD)%nat todo ->
  forall w : worker, worker_ok w ->
  exists w', clear_loop w todo = Some w' /\ worker_ok w' /\ wmem w' = wmem w
    /\ shard_id_ w' = shard_id_ w /\ book_lat_ w' = book_lat_ w
    /\ forall j, j ∈ todo \/ book_active_ w !! j = Some false -> book_active_ w' !! j = Some false.
Proof.
  induction 1 as [|i todo Hi _ IH]; intros w W; cbn [clear_loop].
  { exists w. split_and!; try done. intros j [Hj|]; [by apply not_elem_of_nil in Hj|done]. }
  destruct (clear_one_spec w i W Hi) as (w1 & -> & W1 & E1 & E2 & E3 & H1 & H2).
  cbn [mbind option_bind]. destruct (IH w1 W1) as (w' & -> & W' & E1' & E2' & E3' & H').
  exists w'. split_and!; try done; try congruence. intros j Hj. apply H'.
  destruct (decide (j = i)) as [->|Hne]; [by right|]. rewrite (H2 j Hne).
  rewrite elem_of_cons in Hj. naive_solver.
Qed.

Lemma clear_all_books_spec (w : worker) :
  worker_ok w ->
  exists w', clear_all_books w = Some w' /\ worker_ok w' /\ wmem w' = wmem w
    /\ shard_id_ w' = shard_id_ w /\ book_lat_ w' = book_lat_ w
    /\ (forall j, (j < Z.to_nat BOOKS_PER_SHARD)%nat -> book_active_ w' !! j = Some false)
    /\ Forall (fun b => clear b = b) (slab_ w').
Proof.
  intros W. destruct (clear_loop_spec slab_indices) with (w := w)
    as (w' & E & W' & E1 & E2 & E3 & Hj); [|done|].
  { apply Forall_forall. intros i. apply elem_of_slab_indices. }
  assert (Hall : forall j, (j < Z.to_nat BOOKS_PER_SHARD)%nat -> book_active_ w' !! j = Some false).
  { intros j Hlt. apply Hj. left. by apply elem_of_slab_indices. }
  exists w'. split_and!; try done. apply Forall_lookup_2. intros j b Hb.
  eapply (wo_idle _ W'); [|exact Hb]. apply Hall.
  apply lookup_lt_Some in Hb. rewrite <- (length_fmap locate_), (wo_slab _ W'), length_fmap in Hb.
  by rewrite length_slab_indices in Hb.
Qed.

(** ** Dispatch *)

Lemma apply_order_ok (w : worker) pub msg after w' pub' :
  worker_ok w -> book_active_ w !! slab_index (locate msg) = Some true ->
  apply_order w pub msg after = Some (w', pub') -> worker_ok w' /\ shard_id_ w' = shard_id_ w.
Proof.
  intros W Ha E. unfold apply_order in E. apply bind_Some in E as (b & Hb & E).
  apply bind_Some in E as ([[b' s']|] & Hs & E); [|by injection E as <- _].
  apply bind_Some in E as (q & _ & E). apply bind_Some in E as (p & _ & E).
  apply bind_Some in E as (h & _ & E). injection E as <- _.
  apply book_switch_step in Hs as [m Hs]. split; [|done].
  eapply set_book_ok; [done|exact Hb|by eapply book_step_locate| |congruence].
  eapply book_step_ok; [|exact Hs]. exact (Forall_lookup_1 _ _ _ _ (wo_books _ W) Hb).
Qed.

Lemma dispatch_order_ok (w : worker) pub (sm : SessionManager CB) msg after w' pub' :
  worker_ok w -> in_range 16 (locate msg) ->
  dispatch_order w pub sm msg after = Some (w', pub') -> worker_ok w' /\ shard_id_ w' = shard_id_ w.
Proof.
  intros W Hl E. unfold dispatch_order in E. destruct (is_open sm); [|by injection E as <- _].
  simpl in E. apply bind_Some in E as ([] & Ha & E); [by eapply apply_order_ok|].
  destruct (is_add (type msg)); [|by injection E as <- _].
  destruct (activate_book_spec w (locate msg) W Hl) as (w1 & E1 & W1 & Ha1 & Hid & _).
  rewrite E1 in E. simpl in E. destruct (apply_order_ok _ _ _ _ _ _ W1 Ha1 E). by rewrite <- Hid.
Qed.

(** The other message types never fail. *)
Lemma activation_ok (w : worker) pub loc :
  worker_ok w -> in_range 16 loc ->
  exists w', (w1 ← activate_book w loc; Some (w1, pub)) = Some (w', pub : BboPublisher)
    /\ worker_ok w' /\ shard_id_ w' = shard_id_ w.
Proof.
  intros W Hl. destruct (activate_book_spec w loc W Hl) as (w1 & -> & W1 & _ & ? & _). by exists w1.
Qed.

Lemma trading_action_ok (w : worker) loc b code :
  worker_ok w -> book w loc = Some b -> book_active_ w !! slab_index loc = Some true ->
  worker_ok (set_book w (slab_index loc) (on_trading_action b code)).
Proof.
  intros W Hb Ha. eapply set_book_ok; [done|exact Hb|done| |congruence].
  exact (Forall_lookup_1 _ _ _ _ (wo_books _ W) Hb).
Qed.

Lemma reset_dispatch (w : worker) pub (sm : SessionManager CB) msg after :
  worker_ok w -> type msg = InternalSessionReset ->
  exists w', dispatch w pub sm msg after = Some (w', pub) /\ worker_ok w'
    /\ shard_id_ w' = shard_id_ w
    /\ (forall j, (j < Z.to_nat BOOKS_PER_SHARD)%nat -> book_active_ w' !! j = Some false)
    /\ Forall (fun b => clear b = b) (slab_ w')
    /\ pool (wmem w') = pool_reset (pool (wmem w))
    /\ order_map_ (wmem w') = map_reset (order_map_ (wmem w)).
Proof.
  intros W Ht. unfold dispatch. rewrite Ht.
  destruct (clear_all_books_spec w W) as (w1 & -> & W1 & E1 & E2 & _ & H1 & H2).
  cbn [mbind option_bind]. eexists. split; [done|].
  split; [by destruct W1|]. split_and!; [done|done|done| |]; simpl; by rewrite E1.
Qed.

Lemma dispatch_ok (w : worker) pub (sm : SessionManager CB) msg after w' pub' :
  worker_ok w -> in_range 16 (locate msg) ->
  dispatch w pub sm msg after = Some (w', pub') -> worker_ok w' /\ shard_id_ w' = shard_id_ w.
Proof.
  intros W Hl E. pose proof (activation_ok w pub (locate msg) W Hl) as (w1 & Ea & W1 & Hid).
  destruct (type msg) eqn:Ht; unfold dispatch in E; rewrite Ht in E;
    try (by eapply dispatch_order_ok).
  - repeat case_decide; rewrite ?Ea in E; try (by injection E as <- _).
    apply bind_Some in E as ([] & _ & E); by injection E as <- _.
  - apply bind_Some in E as ([] & Ha & E); [|by injection E as <- _].
    apply bind_Some in E as (b & Hb & E). destruct (body msg); try discriminate.
    injection E as <- _. split; [by apply trading_action_ok|done].
  - destruct (reset_dispatch w pub sm msg after W Ht) as (w2 & E2 & W2 & Hid2 & _).
    unfold dispatch in E2. rewrite Ht in E2. rewrite E2 in E. by injection E as <- _.
Qed.

(** A run of the worker: each message with the session state and the clock at
    its time. *)
Fixpoint worker_run (w : worker) (pub : BboPublisher) (ms : list (SessionManager CB * ItchMsg * Z))
    : option (worker * BboPublisher) :=
  match ms with
  | [] => Some (w, pub)
  | (sm, msg, after) :: ms' => '(w', pub') ← dispatch w pub sm msg after; worker_run w' pub' ms'
  end.

Lemma new_worker_ok shard (s : ShardMem M) h :
  0 <= shard < NUM_SHARDS -> worker_ok (new_worker shard s h).
Proof.
  intros Hs. unfold new_worker. split; cbn [shard_id_ slab_ book_active_].
  - done.
  - unfold new_slab. rewrite <- list_fmap_compose. done.
  - by rewrite length_replicate.
  - unfold new_slab. apply Forall_fmap, Forall_forall. intros i _. apply new_book_ok.
  - intros i b _ Hb. unfold new_slab in Hb. apply list_lookup_fmap_Some in Hb as (? & -> & _). done.
Qed.

(** ** Properties *)

(** C18: every book of a shard stays well formed.  Starting from fresh books,
    after any sequence of dispatched messages - orders, activations, halts and
    session resets in any order and under any session states - the slab still
    holds the shard's books at the indices their locate codes map to, every
    book has strictly sorted sides of at most 256 levels, and every book
    that is not active is empty. *)
Theorem worker_invariant shard (s : ShardMem M) h pub ms w' pub' :
  0 <= shard < NUM_SHARDS ->
  Forall (fun m => in_range 16 (locate (snd (fst m)))) ms ->
  worker_run (new_worker shard s h) pub ms = Some (w', pub') ->
  worker_ok w' /\ shard_id_ w' = shard.
Proof.
  intros Hs Hms. pose proof (new_worker_ok shard s h Hs) as W.
  change shard with (shard_id_ (new_worker shard s h)) at 2.
  generalize (new_worker shard s h) as w, pub, W. clear - Hms.
  induction Hms as [|[[sm msg] after] ms Hm _ IH]; intros w pub W E; cbn [worker_run] in E.
  { by injection E as <- _. }
  apply bind_Some in E as ([w1 pub1] & E1 & E). destruct (dispatch_ok _ _ _ _ _ _ _ W Hm E1) as [W1 <-].
  by eapply IH.
Qed.

(** C14: the effect of an order message for a symbol of the shard.  In an open
    session it is applied to the book whose locate code it carries and to no
    other, and the quote published for that code is the book's best bid and
    offer after the change, stamped with the message's time; all other quotes
    stay. *)
Theorem order_message_effect (w : worker) pub (sm : SessionManager CB) msg after b b' s' h :
  worker_ok w -> publisher_ok pub -> is_open sm = true ->
  in_range 16 (locate msg) -> locate msg < pub_capacity_ pub ->
  locate msg mod NUM_SHARDS = shard_id_ w ->
  book_active_ w !! slab_index (locate msg) = Some true ->
  book w (locate msg) = Some b -> book_switch b (wmem w) msg = Some (Some (b', s')) ->
  record_latency (book_lat_ w) (recv_timestamp msg) after = Some h ->
  exists w' pub' bbo, dispatch w pub sm msg after = Some (w', pub')
    /\ locate_ b = locate msg /\ book w' (locate msg) = Some b' /\ wmem w' = s'
    /\ (forall l, in_range 16 l -> l mod NUM_SHARDS = shard_id_ w -> l <> locate msg ->
          book w' l = book w l)
    /\ get_bbo b' = Some bbo /\ bbo_locate bbo = locate msg
    /\ read_bbo pub' (locate msg) = Some (with_ts bbo (timestamp msg))
    /\ (forall l, 0 <= l -> l <> locate msg -> read_bbo pub' l = read_bbo pub l).
Proof.
  intros W P Ho Hl Hcap Hmod Ha Hb Hsw Hh.
  destruct (worker_slot w _ W (slab_index_lt _ Hl)) as (b0 & _ & Hb0 & _ & Hok & Hloc).
  unfold book in Hb. rewrite Hb0 in Hb. injection Hb as ->.
  rewrite (slab_locate_index _ _ (wo_shard _ W) Hl) in Hloc.
  assert (Hloc' : locate_ b = locate msg).
  { rewrite Hloc. pose proof (Z.div_mod (locate msg) NUM_SHARDS). unfold NUM_SHARDS in *. lia. }
  destruct (book_switch_step _ _ _ _ _ Hsw) as [m Hm].
  destruct (get_bbo_total b') as (bbo & Hbbo & Hbl); [by eapply book_step_ok|].
  destruct (publish_bbo_spec pub (locate msg) (with_ts bbo (timestamp msg)) P)
    as (pub' & Hp & _ & Hr & Hr'); [unfold in_range in Hl; lia|].
  assert (Hap : apply_order w pub msg after = Some (mkWorker (shard_id_ w)
    (<[slab_index (locate msg) := b']> (slab_ w)) (book_active_ w) s' h, pub')).
  { unfold apply_order, book. rewrite Hb0. simpl. rewrite Hsw. simpl. rewrite Hbbo. simpl.
    rewrite Hp. simpl. by rewrite Hh. }
  assert (Hd : dispatch w pub sm msg after = apply_order w pub msg after).
  { unfold dispatch, dispatch_order. rewrite Ho, Ha. simpl.
    unfold book_switch in Hsw. destruct (type msg); done. }
  rewrite Hd, Hap. eexists _, pub', bbo. split; [done|]. split; [done|].
  split; [|split; [done|split; [|split; [done|split; [|split; [auto|done]]]]]].
  - unfold book. simpl. apply list_lookup_insert_eq. by eapply lookup_lt_Some.
  - intros l Hlr Hlm Hne. unfold book. simpl. apply list_lookup_insert_ne. unfold slab_index. intros E.
    apply Hne. unfold NUM_SHARDS in *. range_lia.
  - rewrite Hbl, (book_step_locate _ _ _ _ _ Hm). done.
Qed.

(** Outside an open session nothing reaches the books.  While the session
    is closed or unknown every message except a trading action and the reset
    sentinel is discarded, and before the open only the directory messages of
    watched symbols have an effect. *)
Theorem closed_session_discards (w : worker) pub (sm : SessionManager CB) msg after :
  state_ sm <> Open -> type msg <> InternalSessionReset -> type msg <> StockTradingAction ->
  (type msg = StockDirectory -> state_ sm = PreOpen -> is_warmup_symbol sm (locate msg) = Some false) ->
  dispatch w pub sm msg after = Some (w, pub).
Proof.
  intros Hst H1 H2 H3. unfold dispatch, dispatch_order, is_open.
  rewrite bool_decide_eq_false_2 by done. destruct (type msg); try done.
  rewrite decide_False by done. case_decide; [|done]. by rewrite H3.
Qed.

Context {ML : MapLaws M}.

(** The session reset empties the shard.  The reset sentinel is always
    handled; afterwards no book is active, every book of the slab is in its
    initial state, the order map holds no reference and the pool has all its
    orders free again. *)
Theorem session_reset_empties_shard (w : worker) pub (sm : SessionManager CB) msg after g :
  worker_ok w -> type msg = InternalSessionReset -> map_rep (order_map_ (wmem w)) g ->
  exists w', dispatch w pub sm msg after = Some (w', pub) /\ worker_ok w'
    /\ (forall j, (j < Z.to_nat BOOKS_PER_SHARD)%nat -> book_active_ w' !! j = Some false)
    /\ Forall (fun b => b = mkBook (locate_ b) Halted blank_levels blank_levels 0 0
                              (drop_ctr_ b) (inplace_ctr_ b)) (slab_ w')
    /\ map_rep (order_map_ (wmem w')) ∅ /\ pool (wmem w') = pool_reset (pool (wmem w)).
Proof.
  intros W Ht Hg. destruct (reset_dispatch w pub sm msg after W Ht) as (w' & E & W' & _ & H1 & H2 & H3 & H4).
  exists w'. split_and!; try done.
  - eapply Forall_impl; [exact H2|]. intros b Hb. symmetry. exact Hb.
  - rewrite H4. by eapply law_reset.
Qed.

(** Administrative messages act on the wrong symbols.  The router sends
    directory and trading-action messages to all eight shards and the worker
    does not check the shard of the locate code: in every shard other than its
    own, a directory message for [loc] followed by a trading action for [loc]
    activates the book of another symbol, with locate code
    [loc / 8 * 8 + shard], and overwrites its trading status. *)
Theorem trading_action_hits_other_symbol (w : worker) pub (sm : SessionManager CB) loc st0 a0 c0 l0 f0
    st1 code reason ts1 ts2 r1 r2 after :
  worker_ok w -> in_range 16 loc -> state_ sm = Open -> loc mod NUM_SHARDS <> shard_id_ w ->
  exists w1 w2 b,
    dispatch w pub sm (mkMsg StockDirectory loc ts1 r1 (stock_directory st0 a0 c0 l0 f0)) after
      = Some (w1, pub)
    /\ dispatch w1 pub sm (mkMsg StockTradingAction loc ts2 r2 (trading_action st1 code reason)) after
      = Some (w2, pub)
    /\ book w2 loc = Some b
    /\ locate_ b = loc / NUM_SHARDS * NUM_SHARDS + shard_id_ w /\ locate_ b <> loc
    /\ book_active_ w2 !! slab_index (locate_ b) = Some true
    /\ status_ b = TradingStatus_of_byte code.
Proof.
  intros W Hl Hst Hne. unfold dispatch. cbn [type locate body]. rewrite decide_True by done.
  destruct (activate_book_spec w loc W Hl) as (w1 & -> & W1 & Ha & Hid & _).
  cbn [mbind option_bind].
  destruct (worker_slot w1 _ W1 (slab_index_lt loc Hl)) as (b & _ & Hb & _ & _ & Hloc).
  rewrite (slab_locate_index _ _ (wo_shard _ W1) Hl), Hid in Hloc. pose proof (wo_shard _ W) as Hsh.
  exists w1. rewrite Ha. cbn [mbind option_bind]. unfold book at 1. rewrite Hb. cbn [mbind option_bind].
  eexists _, (on_trading_action b code). split; [done|]. split; [done|].
  split; [unfold book; simpl; apply list_lookup_insert_eq; by eapply lookup_lt_Some|].
  cbn [on_trading_action locate_ status_ set_book book_active_]. rewrite Hloc.
  unfold NUM_SHARDS in *. split_and!; [done|range_lia| |done].
  replace (slab_index (loc / 8 * 8 + shard_id_ w)) with (slab_index loc); [done|].
  unfold slab_index, NUM_SHARDS. f_equal. range_lia.
Qed.

End Worker.

(** ** Witnesses *)

Definition open_session : SessionManager nat := set_session auto_manager (session_ auto_manager) Open.

Definition fresh_worker : ShardWorker OrderMap := new_worker 3 small_mem hist_reset.

(** Shard 3 after the directory message of locate code 11. *)
Definition active_worker : ShardWorker OrderMap :=
  set_book (set_active fresh_worker 1 true) 1 (set_ctrs (new_book 11)).

Lemma fresh_worker_ok : worker_ok fresh_worker.
Proof. apply new_worker_ok. unfold NUM_SHARDS. lia. Qed.

Lemma fresh_slot : slab_ fresh_worker !! 1%nat = Some (new_book 11)
  /\ book_active_ fresh_worker !! 1%nat = Some false.
Proof.
  assert (H : (1 < Z.to_nat BOOKS_PER_SHARD)%nat) by (vm_compute; lia).
  unfold fresh_worker, new_worker, new_slab. cbn [slab_ book_active_]. split.
  - rewrite list_lookup_fmap, slab_indices_lookup by exact H. reflexivity.
  - by apply lookup_replicate_2.
Qed.

Lemma activate_fresh : activate_book fresh_worker 11 = Some active_worker.
Proof.
  destruct fresh_slot as [Hs Ha]. unfold activate_book, book. change (slab_index 11) with 1%nat.
  rewrite Ha. cbn [mbind option_bind]. rewrite Hs. reflexivity.
Qed.

Lemma active_worker_ok : worker_ok active_worker.
Proof.
  destruct (activate_book_spec fresh_worker 11 fresh_worker_ok) as (w & E & W & _); [concrete|].
  rewrite activate_fresh in E. by injection E as <-.
Qed.

Definition directory_msg : ItchMsg :=
  mkMsg StockDirectory 11 0 0 (stock_directory (replicate 8 65) 81 100 78 80).

Lemma worker_invariant_witness :
  worker_run fresh_worker (new_publisher 16) [(open_session, directory_msg, 0)]
    = Some (active_worker, new_publisher 16)
  /\ worker_ok active_worker /\ shard_id_ active_worker = 3.
Proof.
  assert (E : worker_run fresh_worker (new_publisher 16) [(open_session, directory_msg, 0)]
    = Some (active_worker, new_publisher 16)).
  { cbn [worker_run]. unfold dispatch. cbn [type directory_msg locate].
    rewrite decide_True by reflexivity. rewrite activate_fresh. reflexivity. }
  split; [exact E|]. apply (worker_invariant 3 small_mem hist_reset (new_publisher 16)
    [(open_session, directory_msg, 0)] active_worker (new_publisher 16)).
  - unfold NUM_SHARDS. lia.
  - repeat constructor; simpl; unfold in_range; lia.
  - exact E.
Defined.

Definition order_msg : ItchMsg :=
  mkMsg AddOrder 11 77 0 (add_order 5 Buy 10000 3 (replicate 8 65) (replicate 4 0)).

Definition order_result : option (option (Level2Book * ShardMem OrderMap)) :=
  Eval vm_compute in book_switch (set_ctrs (new_book 11)) small_mem order_msg.

Lemma order_result_eq : book_switch (set_ctrs (new_book 11)) small_mem order_msg = order_result.
Proof. vm_compute. reflexivity. Qed.

Lemma active_slot : book active_worker 11 = Some (set_ctrs (new_book 11))
  /\ book_active_ active_worker !! 1%nat = Some true.
Proof.
  destruct fresh_slot as [Hs Ha]. apply lookup_lt_Some in Hs, Ha.
  unfold book. change (slab_index 11) with 1%nat. unfold active_worker, set_book, set_active.
  cbn [slab_ book_active_]. split; by apply list_lookup_insert_eq.
Qed.

Lemma order_message_effect_witness :
  exists w' pub', dispatch active_worker (new_publisher 16) open_session order_msg 0 = Some (w', pub')
    /\ read_bbo pub' 11 = Some (mkBbo 11 10000 3 0 0 77).
Proof.
  destruct order_result as [[[b' s']|]|] eqn:Er; [|discriminate Er..].
  destruct active_slot as [Hb Ha].
  destruct (order_message_effect active_worker (new_publisher 16) open_session order_msg 0
    (set_ctrs (new_book 11)) b' s' hist_reset) as (w' & pub' & bbo & H1 & _ & _ & _ & _ & Hq & _ & H2 & _).
  - exact active_worker_ok.
  - apply new_publisher_ok. lia.
  - reflexivity.
  - concrete.
  - cbn. lia.
  - reflexivity.
  - exact Ha.
  - exact Hb.
  - rewrite <- Er. exact order_result_eq.
  - reflexivity.
  - exists w', pub'. split; [exact H1|]. change 11 with (locate order_msg). rewrite H2.
    injection Er as <- <-. vm_compute in Hq. injection Hq as <-. reflexivity.
Defined.

Lemma closed_session_discards_witness :
  dispatch active_worker (new_publisher 16) auto_manager order_msg 0
    = Some (active_worker, new_publisher 16).
Proof. apply closed_session_discards; try discriminate. Defined.

Lemma session_reset_empties_shard_witness :
  exists w', dispatch active_worker (new_publisher 16) auto_manager reset_msg 0 = Some (w', new_publisher 16)
    /\ book_active_ w' !! 1%nat = Some false /\ map_rep (order_map_ (wmem w')) ∅.
Proof.
  destruct (session_reset_empties_shard active_worker (new_publisher 16) auto_manager reset_msg 0 ∅)
    as (w' & E & _ & H1 & _ & H2 & _).
  - exact active_worker_ok.
  - reflexivity.
  - exists 3. exact (new_map_stores 3 ltac:(lia)).
  - exists w'. split; [exact E|]. split; [apply H1; vm_compute; lia|exact H2].
Defined.

Lemma trading_action_hits_other_symbol_witness :
  exists w1 w2 b,
    dispatch fresh_worker (new_publisher 16) open_session
      (mkMsg StockDirectory 12 0 0 (stock_directory [] 0 0 0 0)) 0 = Some (w1, new_publisher 16)
    /\ dispatch w1 (new_publisher 16) open_session
      (mkMsg StockTradingAction 12 0 0 (trading_action [] 72 [])) 0 = Some (w2, new_publisher 16)
    /\ book w2 12 = Some b /\ locate_ b = 11 /\ status_ b = Halted.
Proof.
  destruct (trading_action_hits_other_symbol fresh_worker (new_publisher 16) open_session 12
    [] 0 0 0 0 [] 72 [] 0 0 0 0 0) as (w1 & w2 & b & H1 & H2 & H3 & H4 & _ & _ & H5).
  - exact fresh_worker_ok.
  - concrete.
  - reflexivity.
  - discriminate.
  - exists w1, w2, b. split; [exact H1|]. split; [exact H2|]. split; [exact H3|].
    split; [exact H4|exact H5].
Defined.
