(* ===== verification/ParserThread.v ===== *)
(** * Parser thread

    [ParserThread] of [include/workers/parser_thread.hpp] and
    [src/workers/parser_thread.cpp]: one packet slot is decoded, its sequence
    number tracked, and its messages handed to the session manager and the
    router, through the definitions of the other files; also the part of
    [PersistentSequence] the thread calls ([enqueue]).  The clock readings are
    arguments: [now] for the tracker and [clock i] for message [i] of the
    packet. *)

From S2P Require Import Prelude Types Mold ItchParser Sequence Spsc PacketRing Histogram.
From S2P Require Import Routing OrderMap Level2Book SeqLock Session Worker.

(** [PersistentSequence::SeqRecord], without its padding. *)
Record SeqRecord := mkSeqRecord { rec_seq : Z; rec_session : bytes }.

(** The thread's view of the system: the components it calls by reference and
    the counters of [FeedStats] it writes. *)
Record ParserThread (CB Q P : Type) := mkParser {
  env_ : Subsystems Q;
  session_mgr_ : SessionManager CB;
  gap_detector_ : GapDetector;
  persist_seq_ : P;
  parse_lat_ : LatencyHistogram;
  sequence_gaps : Z;
  sequence_dups : Z;
  messages_parsed : Z;
  msg_type_count : list Z
}.

Arguments mkParser {CB Q P}.
Arguments env_ {CB Q P}.
Arguments session_mgr_ {CB Q P}.
Arguments gap_detector_ {CB Q P}.
Arguments persist_seq_ {CB Q P}.
Arguments parse_lat_ {CB Q P}.
Arguments sequence_gaps {CB Q P}.
Arguments sequence_dups {CB Q P}.
Arguments messages_parsed {CB Q P}.
Arguments msg_type_count {CB Q P}.

Section Parser.
Context {CB Q P R QM : Type}.
Context `{FifoOps Q ItchMsg, FifoOps P SeqRecord, FifoOps QM MergedSlot}.
Abbreviation thread := (ParserThread CB Q P).

(** [PersistentSequence::enqueue]: a full queue drops the record. *)
Definition enqueue (q : P) (seq : Z) (session_10 : bytes) : P :=
  snd (try_push q (mkSeqRecord seq session_10)).

Definition set_tracker (e : Subsystems Q) (t : SequenceTracker) : Subsystems Q :=
  mkSubsystems t (sym_dir_ e) (bbo_pub_ e) (router_ e).

Definition set_router (e : Subsystems Q) (r : ShardRouter Q) : Subsystems Q :=
  mkSubsystems (seq_tracker_ e) (sym_dir_ e) (bbo_pub_ e) r.

(** Step 2 of [process_slot]. *)
Definition track_sequence (t : thread) (now seq : Z) (session_10 : bytes) : thread :=
  let '(in_order, tr) := try_advance now (seq_tracker_ (env_ t)) seq in
  let e := set_tracker (env_ t) tr in
  if in_order : bool then
    mkParser e (session_mgr_ t) (mark_recovered seq (gap_detector_ t))
      (enqueue (persist_seq_ t) seq session_10) (parse_lat_ t)
      (sequence_gaps t) (sequence_dups t) (messages_parsed t) (msg_type_count t)
  else if gap_count tr >? 0 then
    mkParser e (session_mgr_ t) (on_gap (last_gap tr) (gap_detector_ t)) (persist_seq_ t)
      (parse_lat_ t) (sequence_gaps t +64 1) (sequence_dups t) (messages_parsed t)
      (msg_type_count t)
  else
    mkParser e (session_mgr_ t) (gap_detector_ t) (persist_seq_ t) (parse_lat_ t)
      (sequence_gaps t) (sequence_dups t +64 1) (messages_parsed t) (msg_type_count t).

(** [SessionManager::on_system_event] for a system event. *)
Definition forward_event (m : SessionManager CB) (e : Subsystems Q) (msg : ItchMsg) (raw : bytes)
    : option (SessionManager CB * Subsystems Q * list (CB * bytes)) :=
  if decide (type msg = SystemEvent) then on_system_event m e msg (Some raw) else Some (m, e, []).

(** [try_resolve_watched] for a directory message. *)
Definition resolve_directory (m : SessionManager CB) (msg : ItchMsg) : option (SessionManager CB) :=
  if decide (type msg = StockDirectory) then
    match body msg with
    | stock_directory stock _ _ _ _ => try_resolve_watched m (locate msg) stock
    | _ => None
    end
  else Some m.

(** Step 4 for one message: the thread and the callbacks invoked. *)
Definition route_message (t : thread) (raw : bytes) (recv_ts parse_ts : Z) (msg : ItchMsg)
    : option (thread * list (CB * bytes)) :=
  lat ← record_latency (parse_lat_ t) recv_ts parse_ts;
  '(m1, e1, calls) ← forward_event (session_mgr_ t) (env_ t) msg raw;
  m2 ← resolve_directory m1 msg;
  '(_, r) ← route (router_ e1) msg;
  let type_idx := Z.to_nat (u8 (MessageType_to_byte (type msg))) in
  n ← msg_type_count t !! type_idx;
  Some (mkParser (set_router e1 r) m2 (gap_detector_ t) (persist_seq_ t) lat (sequence_gaps t)
          (sequence_dups t) (messages_parsed t +64 1) (<[type_idx := n +64 1]> (msg_type_count t)),
        calls).

Fixpoint route_all (t : thread) (raw : bytes) (recv_ts : Z) (clock : nat -> Z) (i : nat)
    (msgs : list ItchMsg) : option (thread * list (CB * bytes)) :=
  match msgs with
  | [] => Some (t, [])
  | msg :: msgs' =>
      '(t1, calls) ← route_message t raw recv_ts (clock i) msg;
      '(t2, calls') ← route_all t1 raw recv_ts clock (S i) msgs';
      Some (t2, calls ++ calls')
  end.

Definition process_slot (t : thread) (now : Z) (clock : nat -> Z) (s : PacketSlot)
    : option (thread * list (CB * bytes)) :=
  mold ← mold_parse (data s) (length_ s);
  if negb (valid mold) then Some (t, [])
  else if is_heartbeat (header mold) then Some (t, [])
  else
    let t1 := track_sequence t now (get_sequence (header mold)) (session (header mold)) in
    msgs ← parse (recv_ts s) mold MAX_MSGS_PER_PACKET;
    route_all t1 (session (header mold)) (recv_ts s) clock 0 msgs.

(** Slots processed one after the other, each with its clock reading. *)
Fixpoint process_slots (t : thread) (clock : nat -> Z) (l : list (Z * PacketSlot))
    : option (thread) :=
  match l with
  | [] => Some t
  | (now, s) :: l' => '(t', _) ← process_slot t now clock s; process_slots t' clock l'
  end.

(** The slot a token of the merged queue stands for. *)
Definition resolve (primary secondary : ZeroCopyRing R) (ms : MergedSlot) : option PacketSlot :=
  match source ms with
  | Primary => slot primary (slot_idx ms)
  | Secondary => slot secondary (slot_idx ms)
  | Recovery => recovery_slot primary (slot_idx ms)
  end.

(** One iteration of [run].  Every hundredth packet the thread may yield,
    which changes no state. *)
Definition parser_iter (t : thread) (mq : QM) (packet_count : Z) (primary secondary : ZeroCopyRing R)
    (now : Z) (clock : nat -> Z) : option (thread * QM * Z * list (CB * bytes)) :=
  let '(x, mq') := try_pop mq in
  match x with
  | None => Some (t, mq', packet_count, [])
  | Some ms =>
      s ← resolve primary secondary ms;
      '(t', calls) ← process_slot t now clock s;
      let n := packet_count +32 1 in
      Some (t', mq', (if n >=? 100 then 0 else n), calls)
  end.

(** ** Invariant *)

Record parser_ok (cap : nat) (t : thread) : Prop := {
  po_router : router_ok cap (router_ (env_ t));
  po_session : session_ok (session_mgr_ t);
  po_counts : length (msg_type_count t) = 256%nat;
  po_hist : length (buckets_ (parse_lat_ t)) = Z.to_nat TOTAL_BUCKETS
}.

(** ** Lemmas *)

(** The latency of a packet that carries a receive time fits the histogram. *)
Definition timely (recv ts : Z) : Prop := recv <= 0 \/ ts < recv \/ ts - recv < 2 ^ 23.

Lemma record_latency_total h recv ts :
  length (buckets_ h) = Z.to_nat TOTAL_BUCKETS -> timely recv ts ->
  exists h', record_latency h recv ts = Some h' /\ length (buckets_ h') = length (buckets_ h).
Proof.
  intros Hl Ht. unfold record_latency. rewrite Z.gtb_ltb, Z.geb_leb.
  destruct (Z.ltb_spec 0 recv); simpl; [|eauto]. destruct (Z.leb_spec recv ts); [|eauto].
  rewrite wrap_small by (unfold timely in *; range_lia).
  destruct (bucket_in_range (ts - recv)) as [? Hb]; [unfold timely in *; lia|].
  unfold record. destruct (lookup_lt_is_Some_2 (buckets_ h) (Z.to_nat (bucket_for (ts - recv))))
    as [x ->]; [lia|]. simpl. eexists. split; [done|]. cbn [buckets_]. by rewrite length_insert.
Qed.

(** What a message does to the session state. *)
Definition next_state (st : SessionState) (msg : ItchMsg) : SessionState :=
  match type msg, body msg with
  | SystemEvent, system_event code =>
      if decide (event_code_to_state code = SessionUnknown) then st else event_code_to_state code
  | _, _ => st
  end.

Lemma forward_event_same (m : SessionManager CB) (e : Subsystems Q) msg raw :
  session_ok m -> raw = take 10 (session_ m) -> member_of (type msg) (body msg) = true ->
  exists m' calls, forward_event m e msg raw = Some (m', e, calls) /\ session_ok m'
    /\ session_ m' = session_ m /\ state_ m' = next_state (state_ m) msg.
Proof.
  intros I Hraw Hm. unfold forward_event, next_state. case_decide as Et.
  2: { exists m, []. split_and!; try done. by destruct (type msg). }
  rewrite Et in *. destruct (body msg) eqn:Eb; try discriminate Hm.
  unfold on_system_event. rewrite (session_changed_same m raw I Hraw), Eb. simpl.
  rewrite apply_event_spec. eexists _, _. split; [done|]. split; [by apply set_session_ok|done].
Qed.

Lemma resolve_directory_ok (m : SessionManager CB) msg :
  session_ok m -> msg_ok msg -> member_of (type msg) (body msg) = true ->
  exists m', resolve_directory m msg = Some m' /\ session_ok m'
    /\ session_ m' = session_ m /\ state_ m' = state_ m.
Proof.
  intros I (Hl & _ & Hb) Hm. unfold resolve_directory. case_decide as Et; [|by exists m].
  rewrite Et in Hm. destruct (body msg); try discriminate Hm.
  apply try_resolve_frame; [done|done|]. destruct Hb as [[_ ->] _]. lia.
Qed.

Context {QF : Fifo Q ItchMsg}.

(** Routing leaves the sequence bookkeeping alone. *)
Record same_tracking (t t' : thread) : Prop := {
  st_tracker : seq_tracker_ (env_ t') = seq_tracker_ (env_ t);
  st_gap : gap_detector_ t' = gap_detector_ t;
  st_persist : persist_seq_ t' = persist_seq_ t;
  st_gaps : sequence_gaps t' = sequence_gaps t;
  st_dups : sequence_dups t' = sequence_dups t;
  st_name : session_ (session_mgr_ t') = session_ (session_mgr_ t)
}.

Definition view_messages (cap s : nat) (v : ShardView) (ms : list ItchMsg) : ShardView :=
  foldl (view_push cap) v (filter (fun m => targets m s = true) ms).

Lemma route_message_spec cap (t : thread) raw recv ts msg :
  parser_ok cap t -> raw = take 10 (session_ (session_mgr_ t)) -> timely recv ts ->
  msg_ok msg -> member_of (type msg) (body msg) = true ->
  exists t' calls, route_message t raw recv ts msg = Some (t', calls) /\ parser_ok cap t'
    /\ same_tracking t t'
    /\ messages_parsed t' = messages_parsed t +64 1
    /\ state_ (session_mgr_ t') = next_state (state_ (session_mgr_ t)) msg
    /\ forall out s v, shows (router_ (env_ t), out) s v ->
         shows (router_ (env_ t'), out) s (view_messages cap s v [msg]).
Proof.
  intros [P1 P2 P3 P4] Hraw Ht Hok Hm. unfold route_message.
  destruct (record_latency_total _ recv ts P4 Ht) as (h & -> & Hh). simpl.
  destruct (forward_event_same _ (env_ t) _ raw P2 Hraw Hm) as (m1 & calls & -> & I1 & N1 & S1). simpl.
  destruct (resolve_directory_ok m1 msg I1 Hok Hm) as (m2 & -> & I2 & N2 & S2). simpl.
  destruct (route_spec cap (router_ (env_ t)) msg P1) as (res & r & -> & R' & _ & Hs);
    [apply Hok|]. simpl.
  set (k := Z.to_nat (u8 (MessageType_to_byte (type msg)))).
  assert (Hk : (k < 256)%nat) by (subst k; pose proof (wrap_range 8 (MessageType_to_byte (type msg))); range_lia).
  destruct (lookup_lt_is_Some_2 (msg_type_count t) k) as [n ->]; [lia|]. simpl.
  eexists _, calls. split; [done|]. split; [split; simpl; [done|done|by rewrite length_insert|lia]|].
  split; [split; simpl; congruence|]. simpl. split; [done|]. split; [congruence|].
  intros out s v Hv. specialize (Hs out s v Hv). unfold view_messages. rewrite filter_cons.
  destruct (targets msg s); [by rewrite decide_True|by rewrite decide_False].
Qed.

Lemma same_tracking_trans (t1 t2 t3 : thread) :
  same_tracking t1 t2 -> same_tracking t2 t3 -> same_tracking t1 t3.
Proof. intros [] []. split; congruence. Qed.

Lemma route_all_spec cap raw recv clock msgs :
  Forall (fun m => msg_ok m /\ member_of (type m) (body m) = true) msgs ->
  (forall i, timely recv (clock i)) ->
  forall (t : thread) i, parser_ok cap t -> raw = take 10 (session_ (session_mgr_ t)) ->
  exists t' calls, route_all t raw recv clock i msgs = Some (t', calls) /\ parser_ok cap t'
    /\ same_tracking t t'
    /\ messages_parsed t' = foldl (fun n _ => n +64 1) (messages_parsed t) msgs
    /\ state_ (session_mgr_ t') = foldl next_state (state_ (session_mgr_ t)) msgs
    /\ forall out s v, shows (router_ (env_ t), out) s v ->
         shows (router_ (env_ t'), out) s (view_messages cap s v msgs).
Proof.
  intros Hms Hc. induction Hms as [|m msgs [Hok Hm] _ IH]; intros t i Po Hraw; cbn [route_all].
  { by exists t, []. }
  destruct (route_message_spec cap t raw recv (clock i) m Po Hraw (Hc i) Hok Hm)
    as (t1 & c1 & -> & Po1 & F1 & N1 & S1 & V1). cbn [mbind option_bind].
  destruct (IH t1 (S i) Po1) as (t' & c2 & -> & Po' & F' & N' & S' & V').
  { by rewrite (st_name _ _ F1). }
  cbn [mbind option_bind]. eexists _, _. split; [done|]. split; [done|].
  split; [by eapply same_tracking_trans|]. cbn [foldl]. split; [congruence|]. split; [congruence|].
  intros out s v Hv. specialize (V' out s _ (V1 out s v Hv)). revert V'.
  unfold view_messages. rewrite !filter_cons, filter_nil. by case_decide.
Qed.

(** A system event that carries the first session name resets the tracker. *)
Lemma new_session_message cap (t : thread) raw c raw' recv ts msg code :
  parser_ok cap t -> session_ (session_mgr_ t) = replicate 11 0 ->
  raw = c :: raw' -> c <> 0 -> length raw = 10%nat ->
  timely recv ts -> msg_ok msg -> type msg = SystemEvent -> body msg = system_event code ->
  exists t' calls, route_message t raw recv ts msg = Some (t', calls)
    /\ seq_tracker_ (env_ t') = tracker_init 0 /\ sequence_gaps t' = sequence_gaps t.
Proof.
  intros [P1 P2 P3 P4] Hname Hraw Hc Hl Hts Hok Ht Hb. unfold route_message.
  destruct (record_latency_total _ recv ts P4 Hts) as (h & -> & Hh). simpl.
  unfold forward_event, resolve_directory, on_system_event. rewrite Ht, Hb.
  destruct (decide (SystemEvent = SystemEvent)); [|done].
  destruct (decide (SystemEvent = StockDirectory)); [done|].
  assert (Hch : session_changed (session_mgr_ t) raw = Some true).
  { unfold session_changed. rewrite Hname. cbn [replicate]. rewrite !rd_bytes_Some by (simpl; lia).
    rewrite Hraw. simpl. rewrite (proj2 (Z.eqb_neq _ _)) by done.
    rewrite bool_decide_eq_true_2 by congruence. done. }
  destruct (reset_session_spec cap (session_mgr_ t) (env_ t) raw P2 P1 Hl) as (e' & Hreset & _ & W).
  rewrite Hch. cbn [mbind option_bind]. rewrite Hreset. cbn [mbind option_bind].
  rewrite apply_event_spec. cbn [mbind option_bind].
  destruct (route_spec cap (router_ e') msg (wr_router _ _ _ W)) as (res & r & -> & _); [apply Hok|].
  cbn [mbind option_bind].
  destruct (lookup_lt_is_Some_2 (msg_type_count t) (Z.to_nat (u8 (MessageType_to_byte SystemEvent))))
    as [k ->]; [rewrite P3; vm_compute; lia|].
  cbn [mbind option_bind]. eexists _, _. split; [done|]. split; [exact (wr_tracker _ _ _ W)|done].
Qed.

(** ** Packets in slots *)

(** The slot holds a packet of [ms], followed by whatever the buffer held. *)
Record holds_packet (s : PacketSlot) (sess : bytes) (seq : Z) (ms : list ItchMsg) : Prop := {
  hp_sess : bytes_ok sess /\ length sess = 10%nat;
  hp_seq : in_range 64 seq;
  hp_count : Z.of_nat (length ms) <= MAX_MSGS_PER_PACKET;
  hp_msgs : Forall msg_ok ms /\ Forall (fun m => recv_timestamp m = recv_ts s) ms;
  hp_bytes : exists tracking bs rest, encode_blocks tracking ms = Some bs /\ bytes_ok rest
    /\ data s = mold_packet sess seq (Z.of_nat (length ms)) (bs ++ rest)
    /\ length_ s = 20 + Z.of_nat (length bs)
}.

Lemma encode_blocks_members tracking ms bs :
  encode_blocks tracking ms = Some bs -> Forall (fun m => member_of (type m) (body m) = true) ms.
Proof.
  revert bs. induction ms as [|m ms IH]; intros bs E; [constructor|]. cbn in E.
  apply bind_Some in E as ([l fs] & Em & E). apply bind_Some in E as (rest & Er & _).
  constructor; [|by eapply IH]. unfold encode_message in Em.
  destruct (wire_fields (type m) (body m)) as [[l' fs']|] eqn:Ew; [|discriminate]. clear Em.
  destruct (type m); cbn [wire_fields] in Ew; try discriminate; by destruct (body m).
Qed.

(** Decoding such a slot: header and messages. *)
Lemma decode_slot s sess seq ms :
  holds_packet s sess seq ms ->
  exists r, mold_parse (data s) (length_ s) = Some r /\ valid r = true
    /\ is_heartbeat (header r) = false /\ session (header r) = sess /\ get_sequence (header r) = seq
    /\ parse (recv_ts s) r MAX_MSGS_PER_PACKET = Some ms
    /\ Forall (fun m => msg_ok m /\ member_of (type m) (body m) = true) ms.
Proof.
  intros [[Hs1 Hs2] Hq Hn [Hok Hts] (tracking & bs & rest & He & Hr & Hd & Hl)].
  pose proof (encode_blocks_ok _ _ _ He Hok) as Hbs. unfold MAX_MSGS_PER_PACKET in Hn.
  destruct (mold_packet_header sess seq (Z.of_nat (length ms)) (bs ++ rest))
    as (h & Eh & K1 & K2 & K3); [done|done|by apply Forall_app|done|range_lia|].
  assert (Hb : is_heartbeat h = false).
  { unfold is_heartbeat. rewrite K3. apply Z.eqb_neq. unfold MOLDUDP64_HEARTBEAT. lia. }
  exists (mkParseResult true h (bs ++ rest) (Z.of_nat (length bs))).
  split; [|split_and!; try done].
  - unfold mold_parse, sizeof_MoldUDP64Header. rewrite Hl, (proj2 (Z.ltb_ge _ _)) by lia.
    rewrite Hd, Eh. cbn [mbind option_bind]. rewrite Hb, mold_packet_body by done.
    do 2 f_equal. lia.
  - unfold parse. cbn [valid messages_begin messages_length negb orb MAX_MSGS_PER_PACKET Z.leb].
    rewrite (parse_loop_blocks _ _ tracking ms bs rest 128 []); try done; [|lia].
    cbn [app length]. rewrite firstn_all2; [done|lia].
  - apply Forall_and. split; [done|by eapply encode_blocks_members].
Qed.

(** The messages of a slot, once its sequence number is tracked. *)
Lemma process_slot_eq (t : thread) now clock s sess seq ms :
  holds_packet s sess seq ms ->
  process_slot t now clock s = route_all (track_sequence t now seq sess) sess (recv_ts s) clock 0 ms.
Proof.
  intros Hp. destruct (decode_slot s sess seq ms Hp) as (r & E & V & Hb & K1 & K2 & Hm & _).
  unfold process_slot. rewrite E. cbn [mbind option_bind]. rewrite V, Hb. cbn [negb].
  rewrite Hm. cbn [mbind option_bind]. by rewrite K1, K2.
Qed.

Lemma track_sequence_ok cap (t : thread) now seq sess :
  parser_ok cap t -> parser_ok cap (track_sequence t now seq sess)
    /\ router_ (env_ (track_sequence t now seq sess)) = router_ (env_ t)
    /\ session_mgr_ (track_sequence t now seq sess) = session_mgr_ t
    /\ messages_parsed (track_sequence t now seq sess) = messages_parsed t
    /\ seq_tracker_ (env_ (track_sequence t now seq sess))
       = snd (try_advance now (seq_tracker_ (env_ t)) seq).
Proof.
  intros [P1 P2 P3 P4]. unfold track_sequence. destruct (try_advance _ _ _) as [ok tr].
  destruct ok; [|destruct (gap_count tr >? 0)]; (split; [split; done|done]).
Qed.

Lemma count_messages n (ms : list ItchMsg) :
  in_range 64 n -> foldl (fun n _ => n +64 1) n ms = n +64 Z.of_nat (length ms).
Proof.
  revert n. induction ms as [|m ms IH]; intros n Hn; simpl.
  { rewrite Z.add_0_r, wrap_small; done. }
  rewrite IH by (apply wrap_range; lia). rewrite wrap_add_l. f_equal. lia.
Qed.

(** ** Properties *)

(** Without a receive time nothing is recorded. *)
Lemma untimed recv (clock : nat -> Z) : recv = 0 -> forall i, timely recv (clock i).
Proof. intros -> i. left. lia. Qed.

(** A packet of the current session, whatever its number: it is tracked, then
    its messages are routed. *)
Lemma slot_delivered cap (t : thread) now clock s sess n ms :
  parser_ok cap t -> holds_packet s sess n ms -> sess = take 10 (session_ (session_mgr_ t)) ->
  (forall i, timely (recv_ts s) (clock i)) ->
  exists t' calls, process_slot t now clock s = Some (t', calls) /\ parser_ok cap t'
    /\ same_tracking (track_sequence t now n sess) t'
    /\ session_ (session_mgr_ t') = session_ (session_mgr_ t)
    /\ state_ (session_mgr_ t') = foldl next_state (state_ (session_mgr_ t)) ms
    /\ forall out sh v, shows (router_ (env_ t), out) sh v -> shows (router_ (env_ t'), out) sh (view_messages cap sh v ms).
Proof.
  intros Po Hp Hs Hc. rewrite (process_slot_eq t now clock s sess n ms Hp).
  destruct (decode_slot s sess n ms Hp) as (_ & _ & _ & _ & _ & _ & _ & Hms).
  destruct (track_sequence_ok cap t now n sess Po) as (Po1 & R1 & S1 & _).
  destruct (route_all_spec cap sess (recv_ts s) clock ms Hms Hc _ 0 Po1)
    as (t' & calls & E & Po' & F & _ & S' & V); [by rewrite S1|].
  exists t', calls. split_and!; try done; [by rewrite (st_name _ _ F), S1|by rewrite S', S1|].
  intros out sh v Hv. apply V. by rewrite R1.
Qed.

(** The whole effect of a packet in order. *)
Lemma in_order_delivery cap (t : thread) now clock s sess ms :
  parser_ok cap t -> tracker_ok (seq_tracker_ (env_ t)) -> in_range 64 (messages_parsed t) ->
  holds_packet s sess (seq (seq_tracker_ (env_ t)) + 1) ms ->
  sess = take 10 (session_ (session_mgr_ t)) -> (forall i, timely (recv_ts s) (clock i)) ->
  exists t' calls, process_slot t now clock s = Some (t', calls) /\ parser_ok cap t'
    /\ seq (seq_tracker_ (env_ t')) = seq (seq_tracker_ (env_ t)) + 1
    /\ gap_detector_ t' = mark_recovered (seq (seq_tracker_ (env_ t)) + 1) (gap_detector_ t)
    /\ gap_count (seq_tracker_ (env_ t')) = gap_count (seq_tracker_ (env_ t))
    /\ sequence_gaps t' = sequence_gaps t /\ sequence_dups t' = sequence_dups t
    /\ persist_seq_ t' = enqueue (persist_seq_ t) (seq (seq_tracker_ (env_ t)) + 1) sess
    /\ messages_parsed t' = messages_parsed t +64 Z.of_nat (length ms)
    /\ state_ (session_mgr_ t') = foldl next_state (state_ (session_mgr_ t)) ms
    /\ forall out sh v, shows (router_ (env_ t), out) sh v ->
         shows (router_ (env_ t'), out) sh
           (foldl (view_push cap) v (filter (fun m => targets m sh = true) ms)).
Proof.
  intros Po Htr Hmp Hp Hs Hc. rewrite (process_slot_eq t now clock s sess _ ms Hp).
  destruct (decode_slot s sess _ ms Hp) as (_ & _ & _ & _ & _ & _ & _ & Hms).
  set (n := seq (seq_tracker_ (env_ t)) + 1) in *.
  destruct (track_sequence_ok cap t now n sess Po) as (Po1 & R1 & S1 & M1 & T1).
  assert (Htrue : try_advance now (seq_tracker_ (env_ t)) n =
    (true, mkTracker n (gap_count (seq_tracker_ (env_ t))) (dup_count (seq_tracker_ (env_ t)))
       (last_gap_start (seq_tracker_ (env_ t))) (last_gap_end (seq_tracker_ (env_ t)))
       (last_gap_ts (seq_tracker_ (env_ t))))).
  { unfold try_advance. destruct Htr as [Hr _]. rewrite wrap_small by range_lia. subst n.
    by rewrite Z.eqb_refl. }
  destruct (route_all_spec cap sess (recv_ts s) clock ms Hms Hc _ 0 Po1) as
    (t' & calls & E & Po' & F & N & S' & V); [by rewrite S1|].
  exists t', calls. rewrite E. split; [done|]. split; [done|].
  rewrite (st_tracker _ _ F), (st_gap _ _ F), (st_gaps _ _ F), (st_dups _ _ F), (st_persist _ _ F), N, S', T1, S1, M1.
  split_and!; try (unfold track_sequence; rewrite Htrue; done); try (rewrite Htrue; done).
  - by apply count_messages.
  - done.
  - intros out sh v Hv. apply V. by rewrite R1.
Qed.

(** A packet of the current session leaves the session name alone. *)
Lemma slot_keeps_session cap (t : thread) now clock s sess n ms t' calls :
  parser_ok cap t -> holds_packet s sess n ms -> sess = take 10 (session_ (session_mgr_ t)) ->
  (forall i, timely (recv_ts s) (clock i)) -> process_slot t now clock s = Some (t', calls) ->
  session_ (session_mgr_ t') = session_ (session_mgr_ t).
Proof.
  intros Po Hp Hs Hc E. destruct (slot_delivered cap t now clock s sess n ms Po Hp Hs Hc) as (t1 & c1 & E1 & _ & _ & N & _).
  rewrite E in E1. by injection E1 as <- <-.
Qed.

(** A run of packets in order, each with its clock reading and its messages. *)
Lemma in_order_run cap sess clock (l : list (Z * PacketSlot * list ItchMsg)) : forall (t : thread) n,
  parser_ok cap t -> tracker_ok (seq_tracker_ (env_ t)) -> seq (seq_tracker_ (env_ t)) = n ->
  n + Z.of_nat (length l) < 2 ^ 64 - 1 -> in_range 64 (messages_parsed t) ->
  sess = take 10 (session_ (session_mgr_ t)) ->
  (forall i now s ms, l !! i = Some (now, s, ms) -> holds_packet s sess (n + Z.of_nat i + 1) ms
     /\ forall j, timely (recv_ts s) (clock j)) ->
  exists t', process_slots t clock (l.*1) = Some t'
    /\ seq (seq_tracker_ (env_ t')) = n + Z.of_nat (length l)
    /\ sequence_gaps t' = sequence_gaps t /\ sequence_dups t' = sequence_dups t
    /\ messages_parsed t' = messages_parsed t +64 Z.of_nat (length (concat (l.*2)))
    /\ forall out sh v, shows (router_ (env_ t), out) sh v ->
         shows (router_ (env_ t'), out) sh
           (foldl (view_push cap) v (filter (fun m => targets m sh = true) (concat (l.*2)))).
Proof.
  induction l as [|[[now s] ms] l IH]; intros t n Po Htr Hn Hb Hmp Hs Hl.
  { exists t. cbn. rewrite !Z.add_0_r, wrap_small by done. done. }
  destruct (Hl 0%nat now s ms eq_refl) as [Hp Hc]. rewrite Z.add_0_r, <- Hn in Hp.
  destruct (in_order_delivery cap t now clock s sess ms Po Htr Hmp Hp Hs Hc)
    as (t1 & calls & E & Po1 & T1 & _ & G1 & G & D & _ & M1 & _ & V1).
  pose proof (slot_keeps_session cap t now clock s sess _ ms t1 calls Po Hp Hs Hc E) as N1.
  cbn [length] in Hb. destruct (IH t1 (n + 1)) as (t' & E' & T' & G' & D' & M' & V'); try done.
  - destruct Htr as [? Hg]. split; rewrite ?G1; [lia|done].
  - lia.
  - lia.
  - rewrite M1. by apply wrap_range.
  - by rewrite N1.
  - intros i now' s' ms' Hi. specialize (Hl (S i) now' s' ms' Hi).
    by replace (n + 1 + Z.of_nat i + 1) with (n + Z.of_nat (S i) + 1) by lia.
  - exists t'. cbn [fmap list_fmap fst snd process_slots concat]. rewrite E. cbn [mbind option_bind].
    split; [exact E'|]. rewrite T', G', D', G, D, M', M1. split_and!; try done.
    + cbn [length]. lia.
    + rewrite length_app, wrap_add_l. f_equal. lia.
    + intros out sh v Hv. rewrite filter_app, foldl_app. by apply V', V1.
Qed.

(** From the wire to the shard queues.  A slot that holds a packet of any
    list of well-formed messages of the current session, with the next
    sequence number, is processed completely: the tracker advances to its
    number and counts neither a gap nor a duplicate, the number is offered to
    the background writer, and every shard queue is offered exactly the
    messages addressed to that shard, in the order of the packet; the session
    state follows the system events among them. *)
Theorem in_order_packet_delivered cap (t : thread) now clock s sess ms :
  parser_ok cap t -> tracker_ok (seq_tracker_ (env_ t)) -> in_range 64 (messages_parsed t) ->
  holds_packet s sess (seq (seq_tracker_ (env_ t)) + 1) ms ->
  sess = take 10 (session_ (session_mgr_ t)) -> (forall i, timely (recv_ts s) (clock i)) ->
  exists t' calls, process_slot t now clock s = Some (t', calls) /\ parser_ok cap t'
    /\ seq (seq_tracker_ (env_ t')) = seq (seq_tracker_ (env_ t)) + 1
    /\ sequence_gaps t' = sequence_gaps t /\ sequence_dups t' = sequence_dups t
    /\ persist_seq_ t' = enqueue (persist_seq_ t) (seq (seq_tracker_ (env_ t)) + 1) sess
    /\ messages_parsed t' = messages_parsed t +64 Z.of_nat (length ms)
    /\ state_ (session_mgr_ t') = foldl next_state (state_ (session_mgr_ t)) ms
    /\ forall out sh v, shows (router_ (env_ t), out) sh v ->
         shows (router_ (env_ t'), out) sh
           (foldl (view_push cap) v (filter (fun m => targets m sh = true) ms)).
Proof.
  intros Po Htr Hmp Hp Hs Hc.
  destruct (in_order_delivery cap t now clock s sess ms Po Htr Hmp Hp Hs Hc)
    as (t' & calls & E & Po' & Hseq & _ & _ & Hrest). by exists t', calls.
Qed.

(** Packets of several messages are taken for losses.  In MoldUDP64 the
    number of a packet is that of its first message, so that a packet of k
    messages numbered n + 1 is followed by one numbered n + 1 + k.  The
    tracker counts packets: after a packet of two or more messages, all of
    them delivered, the packet that follows it on the wire is reported as a
    gap covering exactly the messages just delivered. *)
Theorem message_numbers_taken_for_gap cap (t : thread) now now2 clock s sess ms :
  parser_ok cap t -> tracker_ok (seq_tracker_ (env_ t)) -> in_range 64 (messages_parsed t) ->
  let n := seq (seq_tracker_ (env_ t)) in let k := Z.of_nat (length ms) in
  holds_packet s sess (n + 1) ms -> 2 <= k -> n + 1 + k < 2 ^ 64 - 1 ->
  gap_count (seq_tracker_ (env_ t)) < 2 ^ 64 - 1 ->
  sess = take 10 (session_ (session_mgr_ t)) -> (forall i, timely (recv_ts s) (clock i)) ->
  exists t1 calls, process_slot t now clock s = Some (t1, calls)
    /\ messages_parsed t1 = messages_parsed t +64 k
    /\ let t2 := track_sequence t1 now2 (n + 1 + k) sess in
       sequence_gaps t2 = sequence_gaps t +64 1
       /\ gap (gap_detector_ t2) = mkGapRange (n + 2) (n + k) now2 false.
Proof.
  intros Po Htr Hmp n k Hp Hk Hb Hgc Hs Hc.
  destruct (in_order_delivery cap t now clock s sess ms Po Htr Hmp Hp Hs Hc)
    as (t1 & calls & E & _ & H3 & _ & G & Hg & _ & _ & Hm & _).
  exists t1, calls. split; [done|]. split; [done|]. fold n in H3. destruct Htr as [Hn Hr]. fold n in Hn.
  unfold track_sequence, try_advance. rewrite H3, G. rewrite (wrap_small 64 (n + 1 + 1)) by range_lia.
  rewrite (proj2 (Z.eqb_neq _ _)), (proj2 (Z.gtb_lt _ _)) by lia. cbn [gap_count].
  rewrite (wrap_small 64 (gap_count _ + 1)) by range_lia. rewrite (proj2 (Z.gtb_lt _ _)) by range_lia.
  cbn [gap_detector_ sequence_gaps gap on_gap last_gap start_seq end_seq detected_at_ns last_gap_start last_gap_end last_gap_ts].
  rewrite Hg. split; [done|]. f_equal; [lia|]. rewrite wrap_small by range_lia. lia.
Qed.

(** The packet that reveals the session name is forgotten.  With
    [AUTO_DETECT] the name is empty at first; the first system event resets the
    tracker after its packet was counted, so that the very next packet in
    order is reported as a gap from 1 to the number of the packet just
    processed. *)
Theorem auto_detect_false_gap cap (t : thread) now now2 clock s sess c sess' msg code :
  parser_ok cap t -> tracker_ok (seq_tracker_ (env_ t)) ->
  session_ (session_mgr_ t) = replicate 11 0 -> sess = c :: sess' -> c <> 0 ->
  let n := seq (seq_tracker_ (env_ t)) in
  n + 2 < 2 ^ 64 - 1 ->
  type msg = SystemEvent -> body msg = system_event code ->
  holds_packet s sess (n + 1) [msg] -> (forall i, timely (recv_ts s) (clock i)) ->
  exists t1 calls, process_slot t now clock s = Some (t1, calls)
    /\ seq_tracker_ (env_ t1) = tracker_init 0
    /\ let t2 := track_sequence t1 now2 (n + 2) sess in
       sequence_gaps t2 = sequence_gaps t1 +64 1
       /\ gap (gap_detector_ t2) = mkGapRange 1 (n + 1) now2 false.
Proof.
  intros Po Htr Hname Hsess Hc n Hn Ht Hb Hp Hclock.
  rewrite (process_slot_eq t now clock s sess _ [msg] Hp).
  destruct (hp_sess _ _ _ _ Hp) as [_ Hlen]. destruct (hp_msgs _ _ _ _ Hp) as [Hok _].
  apply Forall_cons in Hok as [Hok _].
  destruct (track_sequence_ok cap t now (n + 1) sess Po) as (Po1 & _ & S1 & _ & _).
  set (t0 := track_sequence t now (n + 1) sess) in *.
  destruct (new_session_message cap t0 sess c sess' (recv_ts s) (clock 0%nat) msg code Po1)
    as (t1 & calls & E & T1 & G1); try done; [by rewrite S1|].
  cbn [route_all]. rewrite E. cbn [mbind option_bind]. eexists t1, _. split; [done|]. split; [done|].
  unfold track_sequence. rewrite T1. unfold try_advance, tracker_init, last_gap.
  assert (0 <= n) by (destruct Htr; subst n; lia). clearbody n. cbn [seq gap_count].
  change (0 +64 1) with 1.
  rewrite (proj2 (Z.eqb_neq _ _)), (proj2 (Z.gtb_lt _ _)) by lia. cbn.
  split; [done|]. f_equal. rewrite wrap_small; range_lia.
Qed.

(** After the first gap every duplicate counts as a gap.  The thread asks
    the tracker for its total number of gaps instead of the outcome of the
    call: once a gap was ever seen, a duplicate packet increments
    [sequence_gaps] instead of [sequence_dups] and reports the last gap
    again, which makes it pending and not yet requested even when it has been
    recovered. *)
Theorem duplicate_reopens_last_gap (t : thread) now seq0 sess :
  tracker_ok (seq_tracker_ (env_ t)) -> 0 <= seq0 <= seq (seq_tracker_ (env_ t)) ->
  0 < gap_count (seq_tracker_ (env_ t)) ->
  let t' := track_sequence t now seq0 sess in
  let tr := seq_tracker_ (env_ t) in
  sequence_gaps t' = sequence_gaps t +64 1 /\ sequence_dups t' = sequence_dups t
  /\ Sequence.pending (gap_detector_ t') = true
  /\ gap (gap_detector_ t') = mkGapRange (last_gap_start tr) (last_gap_end tr) (last_gap_ts tr) false.
Proof.
  intros [Hr Hg] Hdup Hpos. unfold track_sequence, try_advance. rewrite wrap_small by range_lia.
  rewrite (proj2 (Z.eqb_neq _ _)), Z.gtb_ltb, (proj2 (Z.ltb_ge _ _)) by lia. cbn [gap_count].
  by rewrite (proj2 (Z.gtb_lt _ _)) by done.
Qed.

End Parser.

(** ** Witnesses *)

Definition sample_thread (name : option bytes) (tr : SequenceTracker)
    : ParserThread nat (Seq.SpscQueue ItchMsg) (Seq.SpscQueue SeqRecord) :=
  mkParser (mkSubsystems tr new_directory (new_publisher 16) small_router)
    (new_session_manager name true) (gap_detector_init 100) (Seq.init 2 (mkSeqRecord 0 []))
    hist_reset 0 0 0 (replicate 256 0).

Definition sample_slot (n : Z) (m : ItchMsg) : PacketSlot :=
  let bs := default [] (encode_blocks 0 [m]) in
  mkSlot (mold_packet sample_session n 1 bs) (20 + Z.of_nat (length bs)) 0 0 0 0.

Lemma sample_thread_ok name tr : parser_ok 2 (sample_thread name tr).
Proof.
  split; [exact small_router_ok|apply new_session_ok|reflexivity|reflexivity].
Qed.

Lemma sample_slot_holds n m bs :
  in_range 64 n -> msg_ok m -> recv_timestamp m = 0 -> encode_blocks 0 [m] = Some bs ->
  holds_packet (sample_slot n m) sample_session n [m].
Proof.
  intros Hn Hm Hr He. split.
  - split; [|reflexivity]. cbn. concrete.
  - done.
  - unfold MAX_MSGS_PER_PACKET. cbn [length]. lia.
  - split; (constructor; [done|constructor]).
  - exists 0, bs, []. unfold sample_slot. rewrite He, app_nil_r. cbn [default].
    split; [done|]. split; [constructor|]. split; reflexivity.
Qed.

Definition wire_order : ItchMsg :=
  mkMsg AddOrder 11 1000 0 (add_order 9 Buy 123400 5 (replicate 8 65) (replicate 4 0)).

Lemma wire_order_ok : msg_ok wire_order.
Proof.
  unfold msg_ok. cbn. split; [concrete|]. split; [concrete|]. unfold text. concrete.
  exists 66. concrete.
Qed.

(** A slot with a packet of two messages. *)
Definition sample_pair (n : Z) (m1 m2 : ItchMsg) : PacketSlot :=
  let bs := default [] (encode_blocks 0 [m1; m2]) in
  mkSlot (mold_packet sample_session n 2 bs) (20 + Z.of_nat (length bs)) 0 0 0 0.

Lemma in_order_packet_delivered_witness :
  exists t' calls,
    process_slot (sample_thread (Some sample_session) (tracker_init 7)) 0 (fun _ => 0)
      (sample_slot 8 wire_order) = Some (t', calls)
    /\ seq (seq_tracker_ (env_ t')) = 8
    /\ shows (router_ (env_ t'), replicate 8 []) 3 (mkView [wire_order] [] 0)
    /\ shows (router_ (env_ t'), replicate 8 []) 4 (mkView [] [] 0).
Proof.
  destruct (encode_blocks 0 [wire_order]) as [bs|] eqn:E; [|vm_compute in E; discriminate].
  destruct (in_order_packet_delivered 2 (sample_thread (Some sample_session) (tracker_init 7)) 0
    (fun _ => 0) (sample_slot 8 wire_order) sample_session [wire_order])
    as (t' & calls & H1 & _ & H2 & _ & _ & _ & _ & _ & Hs).
  - apply sample_thread_ok.
  - split; cbn; concrete.
  - cbn. concrete.
  - apply (sample_slot_holds 8 wire_order bs); [concrete|exact wire_order_ok|reflexivity|exact E].
  - reflexivity.
  - intros i. left. reflexivity.
  - exists t', calls. split; [exact H1|]. split; [exact H2|].
    split; [apply (Hs _ 3%nat (mkView [] [] 0))|apply (Hs _ 4%nat (mkView [] [] 0))];
      split_and!; reflexivity.
Defined.

Lemma message_numbers_taken_for_gap_witness :
  exists t1 calls,
    process_slot (sample_thread (Some sample_session) (tracker_init 7)) 0 (fun _ => 0)
      (sample_pair 8 wire_order wire_order) = Some (t1, calls)
    /\ gap (gap_detector_ (track_sequence t1 5 10 sample_session)) = mkGapRange 9 9 5 false.
Proof.
  destruct (encode_blocks 0 [wire_order; wire_order]) as [bs|] eqn:E; [|vm_compute in E; discriminate].
  destruct (message_numbers_taken_for_gap 2 (sample_thread (Some sample_session) (tracker_init 7)) 0 5
    (fun _ => 0) (sample_pair 8 wire_order wire_order) sample_session [wire_order; wire_order])
    as (t1 & calls & H1 & _ & _ & H2).
  - apply sample_thread_ok.
  - split; cbn; concrete.
  - cbn. concrete.
  - split.
    + split; [|reflexivity]. cbn. concrete.
    + cbn. concrete.
    + unfold MAX_MSGS_PER_PACKET. cbn [length]. lia.
    + split; (do 2 (apply Forall_cons_2; [first [exact wire_order_ok|reflexivity]|])); apply Forall_nil_2.
    + exists 0, bs, []. unfold sample_pair. rewrite E, app_nil_r. cbn [default].
      split; [done|]. split; [constructor|]. split; reflexivity.
  - cbn. lia.
  - cbn. lia.
  - cbn. lia.
  - reflexivity.
  - intros i. left. reflexivity.
  - exists t1, calls. split; [exact H1|exact H2].
Defined.

Lemma auto_detect_false_gap_witness :
  exists t1 calls,
    process_slot (sample_thread (Some AUTO_DETECT) (tracker_init 0)) 0 (fun _ => 0)
      (sample_slot 1 (event_msg 79)) = Some (t1, calls)
    /\ gap (gap_detector_ (track_sequence t1 5 2 sample_session)) = mkGapRange 1 1 5 false.
Proof.
  destruct (encode_blocks 0 [event_msg 79]) as [bs|] eqn:E; [|vm_compute in E; discriminate].
  destruct (auto_detect_false_gap 2 (sample_thread (Some AUTO_DETECT) (tracker_init 0)) 0 5 (fun _ => 0)
    (sample_slot 1 (event_msg 79)) sample_session 84 (replicate 9 84) (event_msg 79) 79)
    as (t1 & calls & H1 & _ & _ & H2).
  - apply sample_thread_ok.
  - split; cbn; concrete.
  - reflexivity.
  - reflexivity.
  - discriminate.
  - cbn. lia.
  - reflexivity.
  - reflexivity.
  - apply (sample_slot_holds 1 (event_msg 79) bs); [concrete| |reflexivity|exact E].
    unfold msg_ok. cbn. concrete.
  - intros i. left. reflexivity.
  - exists t1, calls. split; [exact H1|exact H2].
Defined.

(** A tracker that has seen the gap 4 to 6. *)
Definition gap_tracker : SequenceTracker := mkTracker 9 1 0 4 6 100.

Lemma duplicate_reopens_last_gap_witness :
  let t' := track_sequence (sample_thread None gap_tracker) 0 9 sample_session in
  sequence_gaps t' = 1 /\ sequence_dups t' = 0 /\ Sequence.pending (gap_detector_ t') = true
  /\ gap (gap_detector_ t') = mkGapRange 4 6 100 false.
Proof.
  apply (duplicate_reopens_last_gap (sample_thread None gap_tracker) 0 9 sample_session).
  - split; cbn; concrete.
  - cbn. lia.
  - cbn. lia.
Defined.
