(* ===== verification/Shards.v ===== *)
(** * From the parser to the published quotes

    The parser thread of [ParserThread] and the eight shard workers of
    [Worker] over the state they share: the shard queues of the router, the
    quote publisher and the session manager.  An event is a packet slot
    processed by the parser, or one iteration of the loop of a worker
    ([ShardWorker::run]); events interleave in any order.  The specification
    is sequential: a shard applies the messages addressed to it one after the
    other, without queue, without other shards and without the parser. *)

From S2P Require Import Prelude Types Mold ItchParser Sequence Spsc PacketRing Histogram.
From S2P Require Import Routing OrderMap Level2Book BookLevels SeqLock Session Worker ParserThread.

Inductive StageEvent :=
  | Slot (now : Z) (s : PacketSlot)
  | Work (shard : nat) (after : Z).

Section Stage.
Context {CB R P M : Type} `{FifoOps R ItchMsg} `{FifoOps P SeqRecord} `{MapOps M}.
Abbreviation thread := (ParserThread CB R P).
Abbreviation worker := (ShardWorker M).

Definition set_env (t : thread) (e : Subsystems R) : thread :=
  mkParser e (session_mgr_ t) (gap_detector_ t) (persist_seq_ t) (parse_lat_ t) (sequence_gaps t)
    (sequence_dups t) (messages_parsed t) (msg_type_count t).

(** One iteration of [ShardWorker::run] in shard [sh]. *)
Definition worker_iter (t : thread) (ws : list worker) (sh : nat) (after : Z) : option (thread * list worker) :=
  w ← ws !! sh;
  '(x, r) ← pop_shard (router_ (env_ t)) sh;
  let e := set_router (env_ t) r in
  match x with
  | None => Some (set_env t e, ws)
  | Some msg =>
      '(w', pub) ← dispatch w (bbo_pub_ e) (session_mgr_ t) msg after;
      Some (set_env t (mkSubsystems (seq_tracker_ e) (sym_dir_ e) pub r), <[sh := w']> ws)
  end.

Definition stage_step (clock : nat -> Z) (st : thread * list worker) (e : StageEvent)
    : option (thread * list worker) :=
  match e with
  | Slot now s => '(t', _) ← process_slot st.1 now clock s; Some (t', st.2)
  | Work sh after => worker_iter st.1 st.2 sh after
  end.

Fixpoint stage_run (clock : nat -> Z) (st : thread * list worker) (es : list StageEvent)
    : option (thread * list worker) :=
  match es with
  | [] => Some st
  | e :: es' => st' ← stage_step clock st e; stage_run clock st' es'
  end.

(** ** Specification *)

Definition slots_of (es : list StageEvent) : list PacketSlot :=
  omap (fun e => match e with Slot _ s => Some s | Work _ _ => None end) es.

Lemma slots_of_slot now s es : length (slots_of (Slot now s :: es)) = S (length (slots_of es)).
Proof. done. Qed.

(** What an event does to the queue of shard [sh]; a slot comes with the
    messages it holds. *)
Definition view_event (cap sh : nat) (v : ShardView) (e : StageEvent * list ItchMsg) : ShardView :=
  match e.1 with
  | Slot _ _ => foldl (view_push cap) v (filter (fun m => targets m sh = true) e.2)
  | Work sh' _ => view_step cap sh v (OPop sh')
  end.

(** A shard on its own, in an open session. *)
Definition shard_run (sm : SessionManager CB) (w : worker) (pub : BboPublisher) (ms : list ItchMsg)
    : option (worker * BboPublisher) := worker_run w pub ((fun m => (sm, m, 0)) <$> ms).

(** The slots hold the packets of a session in order, without system events
    and without receive times, as live packets are; [n] is the last number. *)
Fixpoint feed_in_order (sess : bytes) (n : Z) (es : list (StageEvent * list ItchMsg)) : Prop :=
  match es with
  | [] => True
  | (Slot _ s, ms) :: es' =>
      n + 1 < 2 ^ 64 - 1 /\ holds_packet s sess (n + 1) ms /\ recv_ts s = 0
      /\ Forall (fun m => type m <> SystemEvent) ms /\ feed_in_order sess (n + 1) es'
  | (Work sh _, ms) :: es' => (sh < Z.to_nat NUM_SHARDS)%nat /\ ms = [] /\ feed_in_order sess n es'
  end.

(** Two publishers that agree on the symbols of shard [sh]. *)
Definition agree (sh : nat) (p q : BboPublisher) : Prop :=
  pub_capacity_ p = pub_capacity_ q
  /\ forall i, Z.of_nat i mod NUM_SHARDS = Z.of_nat sh -> slots_ p !! i = slots_ q !! i.

(** Messages of the queue of shard [sh]. *)
Definition addressed (sh : nat) (m : ItchMsg) : Prop :=
  targets m sh = true /\ in_range 16 (locate m) /\ recv_timestamp m = 0.

(** ** Dispatch depends on the shard's own quotes only *)

Lemma publish_agree sh p q loc b q' : agree sh p q -> 0 <= loc -> loc mod NUM_SHARDS = Z.of_nat sh ->
  publish_bbo q loc b = Some q' ->
  exists p', publish_bbo p loc b = Some p' /\ agree sh p' q' /\ forall sh' r, sh' <> sh -> agree sh' p r -> agree sh' p' r.
Proof.
  intros [Hc Hi] Hl Hm. unfold publish_bbo. rewrite Hc. destruct (loc >=? pub_capacity_ q); [by intros [= <-]; exists p|].
  assert (Hmod : Z.of_nat (Z.to_nat loc) mod NUM_SHARDS = Z.of_nat sh) by (by rewrite Z2Nat.id).
  intros E. apply bind_Some in E as (l & El & [= <-]). rewrite Hi, El by done. eexists. split; [done|].
  assert (Hlt : (Z.to_nat loc < length (slots_ p))%nat) by (eapply lookup_lt_Some; by rewrite Hi).
  assert (Hlt' : (Z.to_nat loc < length (slots_ q))%nat) by (by eapply lookup_lt_Some).
  split; [split; [done|]|]; cbn.
  - intros i Hi'. destruct (decide (i = Z.to_nat loc)) as [->|]; [by rewrite !list_lookup_insert_eq|].
    rewrite !list_lookup_insert_ne by done. by apply Hi.
  - intros sh' r Hne [Hc' Hr]. split; [cbn; congruence|]. intros i Hi'. cbn.
    rewrite list_lookup_insert_ne by (intros <-; lia). by apply Hr.
Qed.

(** An order message that reaches the book is addressed to its shard. *)
Lemma switch_addressed b (s : ShardMem M) sh m r : book_switch b s m = Some (Some r) -> addressed sh m ->
  0 <= locate m /\ locate m mod NUM_SHARDS = Z.of_nat sh.
Proof.
  intros E (Ht & Hr & _). split; [apply Hr|]. unfold targets in Ht.
  assert (Ha : is_admin_message (type m) = false).
  { unfold book_switch in E. by destruct (type m). }
  rewrite Ha in Ht. apply Z.eqb_eq in Ht. done.
Qed.

Lemma apply_order_agree sh (w : worker) p q m after w' q' : agree sh p q -> addressed sh m ->
  apply_order w q m 0 = Some (w', q') ->
  exists p', apply_order w p m after = Some (w', p') /\ agree sh p' q'
    /\ forall sh' r, sh' <> sh -> agree sh' p r -> agree sh' p' r.
Proof.
  intros Ha Hm E. pose proof Hm as (_ & _ & Hts). unfold apply_order in *.
  apply bind_Some in E as (b & -> & E). apply bind_Some in E as (x & Ex & E). cbn [mbind option_bind].
  rewrite Ex. cbn [mbind option_bind]. destruct x as [[b' s']|]; [|injection E as <- <-; by exists p].
  apply bind_Some in E as (bbo & -> & E). apply bind_Some in E as (q1 & Eq & E).
  apply bind_Some in E as (h & Eh & [= <- <-]). cbn [mbind option_bind].
  destruct (switch_addressed b (wmem w) sh m (b', s') Ex Hm) as [Hl Hmod].
  destruct (publish_agree sh p q _ _ q1 Ha Hl Hmod Eq) as (p1 & -> & Ha1 & Hother). cbn [mbind option_bind].
  unfold record_latency in *. rewrite Hts in *. cbn in *. injection Eh as <-. by exists p1.
Qed.

Lemma dispatch_agree sh (w : worker) p q (sm sm' : SessionManager CB) m after w' q' :
  state_ sm = Open -> state_ sm' = Open -> agree sh p q -> addressed sh m ->
  dispatch w q sm m 0 = Some (w', q') ->
  exists p', dispatch w p sm' m after = Some (w', p') /\ agree sh p' q'
    /\ forall sh' r, sh' <> sh -> agree sh' p r -> agree sh' p' r.
Proof.
  intros Ho Ho' Ha Hm E.
  assert (Hsame : forall x, Some (x, q) = Some (w', q') ->
    exists p', Some (x, p) = Some (w', p') /\ agree sh p' q' /\ forall sh' r, sh' <> sh -> agree sh' p r -> agree sh' p' r)
    by (intros x [= -> <-]; by exists p).
  assert (Hord : dispatch_order w q sm m 0 = Some (w', q') ->
    exists p', dispatch_order w p sm' m after = Some (w', p') /\ agree sh p' q'
      /\ forall sh' r, sh' <> sh -> agree sh' p r -> agree sh' p' r).
  { unfold dispatch_order, is_open. rewrite !bool_decide_eq_true_2 by done. cbn [negb]. intros E'.
    apply bind_Some in E' as (a & -> & E'). cbn [mbind option_bind]. destruct a; [by eapply apply_order_agree|].
    destruct (is_add (type m)); [|by apply Hsame]. apply bind_Some in E' as (w1 & -> & E').
    cbn [mbind option_bind]. by eapply apply_order_agree. }
  unfold dispatch in *. destruct (type m); try (by apply Hord).
  - rewrite decide_True in E by done. rewrite decide_True by done. apply bind_Some in E as (w1 & -> & E). by apply Hsame.
  - apply bind_Some in E as (a & -> & E). cbn [mbind option_bind]. destruct a; [|by apply Hsame].
    apply bind_Some in E as (b & -> & E). cbn [mbind option_bind]. destruct (body m); try done. by apply Hsame.
  - apply bind_Some in E as (w1 & -> & E). by apply Hsame.
Qed.

(** ** The parser leaves quotes and session state alone *)

Lemma track_sequence_pub (t : thread) now n sess : bbo_pub_ (env_ (track_sequence t now n sess)) = bbo_pub_ (env_ t).
Proof.
  unfold track_sequence. destruct (try_advance _ _ _) as [[|] tr]; [done|]. by destruct (_ >? _).
Qed.

Lemma route_all_pub raw ts clock ms : Forall (fun m => type m <> SystemEvent) ms -> forall (t : thread) i t' calls,
  route_all t raw ts clock i ms = Some (t', calls) -> bbo_pub_ (env_ t') = bbo_pub_ (env_ t).
Proof.
  induction 1 as [|m ms Hm _ IH]; intros t i t' calls E; cbn [route_all] in E; [by injection E as <- _|].
  apply bind_Some in E as ([t1 c1] & E1 & E). apply bind_Some in E as ([t2 c2] & E2 & [= <- _]).
  rewrite (IH _ _ _ _ E2). unfold route_message, forward_event in E1. rewrite decide_False in E1 by done.
  apply bind_Some in E1 as (lat & _ & E1). cbn [mbind option_bind] in E1.
  apply bind_Some in E1 as (m2 & _ & E1). apply bind_Some in E1 as ([x r] & _ & E1).
  apply bind_Some in E1 as (k & _ & [= <- _]). done.
Qed.

Lemma next_state_id ms st : Forall (fun m => type m <> SystemEvent) ms -> foldl next_state st ms = st.
Proof.
  intros Hm. revert st. induction Hm as [|m ms Hm _ IH]; intros st; [done|]. cbn [foldl].
  rewrite IH. unfold next_state. by destruct (type m).
Qed.

(** ** Views *)

Lemma view_push_all cap ms : forall v, popped (foldl (view_push cap) v ms) = popped v
  /\ (forall Pm, Forall Pm (waiting v) -> Forall Pm ms -> Forall Pm (waiting (foldl (view_push cap) v ms))).
Proof.
  induction ms as [|m ms IH]; intros v; cbn [foldl]; [done|]. destruct (IH (view_push cap v m)) as [Hp Hw].
  unfold view_push in *. destruct (decide _); cbn in *; (split; [done|]); intros Pm Pw Pms;
    apply Forall_cons in Pms as [Pm1 Pms]; apply Hw; try done. by apply Forall_app_2; [|apply Forall_singleton].
Qed.

Lemma view_event_popped cap sh v e : exists l, popped (view_event cap sh v e) = popped v ++ l.
Proof.
  unfold view_event. destruct e.1 as [now s|sh' after].
  - exists []. rewrite app_nil_r. apply view_push_all.
  - cbn. destruct (decide _); [|exists []; by rewrite app_nil_r].
    destruct (waiting v) as [|m l]; [exists []; by rewrite app_nil_r|by exists [m]].
Qed.

Lemma view_events_popped cap sh es : forall v, exists l, popped (foldl (view_event cap sh) v es) = popped v ++ l.
Proof.
  induction es as [|e es IH]; intros v; cbn [foldl]; [exists []; by rewrite app_nil_r|].
  destruct (IH (view_event cap sh v e)) as [l ->]. destruct (view_event_popped cap sh v e) as [l' ->].
  rewrite <- app_assoc. eauto.
Qed.

Lemma shard_run_app sm (w : worker) pub a b :
  shard_run sm w pub (a ++ b) = '(w', pub') ← shard_run sm w pub a; shard_run sm w' pub' b.
Proof.
  unfold shard_run. rewrite fmap_app. revert w pub. induction a as [|m a IH]; intros w pub; [done|].
  cbn [fmap list_fmap app worker_run]. destruct (dispatch w pub sm m 0) as [[w1 p1]|]; cbn; [apply IH|done].
Qed.

(** What is popped, waiting or dropped is what was addressed. *)
Lemma view_push_account cap ms : forall v, exists lost, 0 <= lost <= Z.of_nat (length ms)
  /\ drops (foldl (view_push cap) v ms) mod 2 ^ 64 = (drops v + lost) mod 2 ^ 64
  /\ (lost = 0 -> waiting (foldl (view_push cap) v ms) = waiting v ++ ms).
Proof.
  induction ms as [|m ms IH]; intros v; cbn [foldl length].
  { exists 0. rewrite Z.add_0_r, app_nil_r. split_and!; done || lia. }
  destruct (IH (view_push cap v m)) as (lost & Hl & Hd & Hw). unfold view_push in *. destruct (decide _); cbn in *.
  - exists lost. split_and!; [lia|lia|done|]. intros E. rewrite Hw by done. by rewrite <- app_assoc.
  - exists (lost + 1). split_and!; [lia|lia| |lia]. rewrite Hd. unfold wrap. rewrite Z.add_mod_idemp_l by lia.
    f_equal. lia.
Qed.

Lemma view_event_account cap sh v e : (forall sh' after, e.1 = Work sh' after -> e.2 = []) ->
  let l := filter (fun m => targets m sh = true) e.2 in
  exists lost, 0 <= lost <= Z.of_nat (length l)
    /\ drops (view_event cap sh v e) mod 2 ^ 64 = (drops v + lost) mod 2 ^ 64
    /\ (lost = 0 -> popped (view_event cap sh v e) ++ waiting (view_event cap sh v e) = popped v ++ waiting v ++ l).
Proof.
  intros He l. subst l. unfold view_event. destruct e as [[now s|sh' after] ms]; cbn [fst snd] in *.
  - set (l := filter _ ms). destruct (view_push_account cap l v) as (lost & Hl & Hd & Hw). exists lost. split_and!; try done; try lia.
    intros E. rewrite (proj1 (view_push_all cap l v)), Hw by done. done.
  - specialize (He sh' after eq_refl). exists 0. rewrite He, Z.add_0_r. cbn.
    destruct (decide (sh' = sh)); [destruct (waiting v) as [|m w] eqn:Ew|]; cbn; rewrite ?Ew; (split; [lia|]);
      (split; [done|]); intros _; rewrite ?app_nil_r, <- ?app_assoc; done.
Qed.

Lemma view_events_account cap sh es : Forall (fun e => forall sh' after, e.1 = Work sh' after -> e.2 = []) es ->
  forall v, let l := filter (fun m => targets m sh = true) (concat (es.*2)) in
  exists lost, 0 <= lost <= Z.of_nat (length l)
    /\ drops (foldl (view_event cap sh) v es) mod 2 ^ 64 = (drops v + lost) mod 2 ^ 64
    /\ (lost = 0 -> popped (foldl (view_event cap sh) v es) ++ waiting (foldl (view_event cap sh) v es)
                    = popped v ++ waiting v ++ l).
Proof.
  induction 1 as [|e es He _ IH]; intros v; cbn [foldl fmap list_fmap concat].
  { exists 0. rewrite Z.add_0_r, filter_nil, app_nil_r. split_and!; done || lia. }
  destruct (view_event_account cap sh v e He) as (l1 & H11 & H12 & H13).
  destruct (IH (view_event cap sh v e)) as (l2 & H21 & H22 & H23).
  exists (l1 + l2). rewrite filter_app, length_app. split_and!; [lia|lia| |].
  - rewrite H22, <- Z.add_mod_idemp_l, H12, Z.add_mod_idemp_l by lia. f_equal. lia.
  - intros E. rewrite H23 by lia. rewrite app_assoc, H13 by lia. by rewrite <- !app_assoc.
Qed.

(** With room for everything, nothing is dropped. *)
Lemma view_push_room cap ms : forall v, (length (waiting v) + length ms <= cap)%nat ->
  foldl (view_push cap) v ms = mkView (waiting v ++ ms) (popped v) (drops v).
Proof.
  induction ms as [|m ms IH]; intros v Hl; cbn [foldl length] in *.
  { rewrite app_nil_r. by destruct v. }
  unfold view_push at 2. rewrite decide_True by lia. rewrite IH by (cbn; rewrite length_app; cbn; lia). cbn.
  by rewrite <- app_assoc.
Qed.

Lemma view_events_room cap sh es : Forall (fun e => forall sh' after, e.1 = Work sh' after -> e.2 = []) es ->
  forall v, let l := filter (fun m => targets m sh = true) (concat (es.*2)) in
  (length (waiting v) + length l <= cap)%nat ->
  popped (foldl (view_event cap sh) v es) ++ waiting (foldl (view_event cap sh) v es) = popped v ++ waiting v ++ l.
Proof.
  induction 1 as [|[[now s|sh' after] ms] es He _ IH]; intros v; cbn [foldl fmap list_fmap concat snd].
  { by rewrite filter_nil, app_nil_r. }
  - rewrite filter_app, length_app. intros Hl. unfold view_event at 2 4. cbn [fst snd].
    rewrite view_push_room by lia. rewrite IH by (cbn; rewrite length_app; lia). cbn. by rewrite <- !app_assoc.
  - specialize (He sh' after eq_refl). cbn [snd] in He. subst ms. cbn [app]. intros Hl.
    unfold view_event at 2 4. cbn [fst snd view_step].
    destruct (decide (sh' = sh)); [destruct (waiting v) as [|m w] eqn:Ew|]; rewrite IH; cbn [waiting popped];
      rewrite ?Ew in *; cbn [length] in *; try lia; by rewrite <- ?app_assoc.
Qed.

Context `{!Fifo R ItchMsg}.

Lemma pop_shows cap (r : ShardRouter R) out sh v :
  router_ok cap r -> length out = Z.to_nat NUM_SHARDS -> (sh < Z.to_nat NUM_SHARDS)%nat -> shows (r, out) sh v ->
  exists r' out', pop_shard r sh = Some (head (waiting v), r') /\ router_ok cap r' /\ length out' = length out
    /\ forall sh' v', shows (r, out) sh' v' -> shows (r', out') sh' (view_step cap sh' v' (OPop sh)).
Proof.
  intros Ro Hout Hsh Hv. destruct (pop_spec cap r out sh Ro Hout Hsh) as (r' & out' & E & Ro' & Hl & Hs).
  exists r', out'. split_and!; try done. cbn [router_step] in E.
  destruct (router_queue cap r sh Ro Hsh) as (q & n & Hq & _ & Hok & _). unfold pop_shard in *. rewrite Hq in *.
  destruct Hv as (Hi & _). cbn in Hi. rewrite Hq in Hi. injection Hi as Hi. cbn in E |- *.
  assert (Hx : fst (try_pop q) = head (waiting v)).
  { destruct (waiting v) as [|m l] eqn:Ew; [by apply pop_empty|by apply (pop_head q m l)]. }
  destruct (try_pop q) as [x q']. cbn in *. injection E as E _. by rewrite Hx, E.
Qed.

(** ** Invariant

    [w0] and [pub0]: the workers and the publisher at the start; [vs]: the
    views of the queues; [calm]: the counts of gaps and duplicates, which do
    not change. *)
Record stage_inv (cap : nat) (sess : bytes) (sm : SessionManager CB) (w0 : nat -> worker) (pub0 : BboPublisher)
    (calm : Z * Z) (vs : nat -> ShardView) (n : Z) (t : thread) (ws : list worker) (out : list (list ItchMsg)) : Prop := {
  si_parser : parser_ok cap t;
  si_seq : seq (seq_tracker_ (env_ t)) = n;
  si_tracker : 0 <= n /\ in_range 64 (gap_count (seq_tracker_ (env_ t))) /\ in_range 64 (messages_parsed t);
  si_calm : (sequence_gaps t, sequence_dups t) = calm;
  si_sess : sess = take 10 (session_ (session_mgr_ t));
  si_open : state_ (session_mgr_ t) = Open;
  si_out : length out = Z.to_nat NUM_SHARDS;
  si_shards : forall sh, (sh < Z.to_nat NUM_SHARDS)%nat ->
    shows (router_ (env_ t), out) sh (vs sh) /\ Forall (addressed sh) (waiting (vs sh))
    /\ exists w q, shard_run sm (w0 sh) pub0 (popped (vs sh)) = Some (w, q) /\ ws !! sh = Some w
         /\ agree sh (bbo_pub_ (env_ t)) q
}.

Lemma slot_step cap sess sm w0 pub0 calm vs n t ws out clock now s ms :
  stage_inv cap sess sm w0 pub0 calm vs n t ws out -> n + 1 < 2 ^ 64 - 1 ->
  holds_packet s sess (n + 1) ms -> recv_ts s = 0 -> Forall (fun m => type m <> SystemEvent) ms ->
  exists t', stage_step clock (t, ws) (Slot now s) = Some (t', ws)
    /\ stage_inv cap sess sm w0 pub0 calm (fun sh => view_event cap sh (vs sh) (Slot now s, ms)) (n + 1) t' ws out.
Proof.
  intros I Hn Hp Hts Hev. destruct I as [Po Hseq (Hn0 & Hgc & Hmp) Hcalm Hs Hopen Hout Hsh]. rewrite <- Hseq in Hp.
  destruct (in_order_delivery cap t now clock s sess ms Po) as (t' & calls & E & Po' & T' & _ & G' & Cg & Cd & _ & M' & St & V).
  { split; [lia|done]. } { done. } { done. } { done. } { intros i. left. lia. }
  pose proof (slot_keeps_session cap t now clock s sess _ ms t' calls Po Hp Hs ltac:(intros i; left; lia) E) as N'.
  assert (Hpub : bbo_pub_ (env_ t') = bbo_pub_ (env_ t)).
  { rewrite (process_slot_eq t now clock s sess _ ms Hp) in E. rewrite (route_all_pub _ _ _ _ Hev _ _ _ _ E).
    apply track_sequence_pub. }
  exists t'. cbn [stage_step fst snd]. rewrite E. split; [done|]. split.
  - done.
  - lia.
  - rewrite G', M'. split_and!; [lia|done|by apply wrap_range].
  - by rewrite Cg, Cd.
  - by rewrite N'.
  - by rewrite St, next_state_id.
  - done.
  - intros sh Hlt. destruct (Hsh sh Hlt) as (Sh & Fw & w & q & Er & Ew & Ag). unfold view_event. cbn [fst snd].
    destruct (view_push_all cap (filter (fun m => targets m sh = true) ms) (vs sh)) as [Hpop Hwait].
    split; [by apply V|]. split.
    + apply Hwait; [done|]. apply Forall_forall. intros m Hm. apply list_elem_of_filter in Hm as [Ht Hm].
      destruct (hp_msgs _ _ _ _ Hp) as [Hok Hrt]. rewrite Forall_forall in Hok, Hrt. specialize (Hok m Hm).
      specialize (Hrt m Hm). cbn in Hrt. split_and!; [done|apply Hok|congruence].
    + exists w, q. by rewrite Hpop, Hpub.
Qed.

Lemma work_step cap sess sm w0 pub0 calm vs n t ws out clock sh after :
  stage_inv cap sess sm w0 pub0 calm vs n t ws out -> state_ sm = Open -> (sh < Z.to_nat NUM_SHARDS)%nat ->
  is_Some (shard_run sm (w0 sh) pub0 (popped (view_event cap sh (vs sh) (Work sh after, [])))) ->
  exists t' ws' out', stage_step clock (t, ws) (Work sh after) = Some (t', ws')
    /\ stage_inv cap sess sm w0 pub0 calm (fun sh' => view_event cap sh' (vs sh') (Work sh after, [])) n t' ws' out'.
Proof.
  intros I Hsm Hlt Hrun. destruct I as [Po Hseq Htr Hcalm Hs Hopen Hout Hsh].
  destruct (Hsh sh Hlt) as (Sh & Fw & w & q & Er & Ew & Ag).
  destruct (pop_shows cap _ out sh (vs sh) (po_router _ _ Po) Hout Hlt Sh) as (r & out' & Ep & Ro & Hout' & V).
  cbn [stage_step fst snd]. unfold worker_iter. rewrite Ew, Ep. cbn [mbind option_bind]. unfold view_event in *.
  cbn [fst snd view_step] in Hrun, V |- *. rewrite decide_True in Hrun by done.
  destruct (waiting (vs sh)) as [|m l] eqn:Ewait; cbn [head].
  - eexists _, ws, out'. split; [done|]. split; try done; [|by rewrite Hout'|].
    { destruct Po. by split. }
    intros sh' Hlt'. destruct (Hsh sh' Hlt') as (Sh' & Fw' & Rest). specialize (V sh' (vs sh') Sh').
    destruct (decide (sh = sh')) as [<-|Hne]; [rewrite Ewait in V |- *|done].
    split; [done|]. split; [by rewrite Ewait|done].
  - cbn [popped] in Hrun. rewrite shard_run_app, Er in Hrun. cbn [mbind option_bind] in Hrun. destruct Hrun as [[w' q'] Hrun].
    unfold shard_run in Hrun. cbn in Hrun. apply bind_Some in Hrun as ([w1 q1] & Ed & [= <- <-]).
    apply Forall_cons in Fw as [Fm Fl].
    destruct (dispatch_agree sh w (bbo_pub_ (env_ t)) q sm (session_mgr_ t) m after w1 q1 Hsm Hopen Ag Fm Ed)
      as (p' & Edis & Ag' & Hoth). cbn [set_router bbo_pub_ seq_tracker_ sym_dir_]. rewrite Edis. cbn [mbind option_bind].
    eexists _, _, out'. split; [done|]. split; try done; [|by rewrite Hout'|].
    { destruct Po. by split. }
    intros sh' Hlt'. destruct (Hsh sh' Hlt') as (Sh' & Fw' & w2 & q2 & Er2 & Ew2 & Ag2). specialize (V sh' (vs sh') Sh').
    destruct (decide (sh = sh')) as [<-|Hne].
    + rewrite Ewait in V |- *. split; [done|]. split; [done|]. exists w1, q1. cbn [popped]. split_and!.
      * rewrite shard_run_app, Er. cbn [mbind option_bind]. unfold shard_run. cbn. by rewrite Ed.
      * apply list_lookup_insert_eq. by eapply lookup_lt_Some.
      * done.
    + split; [done|]. split; [done|]. exists w2, q2. split_and!; [done| |].
      * by rewrite list_lookup_insert_ne.
      * cbn. by apply Hoth.
Qed.

Lemma stage_run_inv cap sess sm w0 pub0 calm clock es : state_ sm = Open -> forall vs n t ws out,
  stage_inv cap sess sm w0 pub0 calm vs n t ws out -> feed_in_order sess n es ->
  (forall sh, (sh < Z.to_nat NUM_SHARDS)%nat ->
     is_Some (shard_run sm (w0 sh) pub0 (popped (foldl (view_event cap sh) (vs sh) es)))) ->
  exists t' ws' out', stage_run clock (t, ws) (es.*1) = Some (t', ws')
    /\ stage_inv cap sess sm w0 pub0 calm (fun sh => foldl (view_event cap sh) (vs sh) es)
         (n + Z.of_nat (length (slots_of (es.*1)))) t' ws' out'.
Proof.
  intros Hsm. induction es as [|[[now s|sh after] ms] es IH]; intros vs n t ws out I Hf Hrun.
  - exists t, ws, out. split; [done|]. by rewrite Z.add_0_r.
  - cbn [feed_in_order] in Hf. destruct Hf as (Hn & Hp & Hts & Hev & Hf).
    destruct (slot_step cap sess sm w0 pub0 calm vs n t ws out clock now s ms I Hn Hp Hts Hev) as (t1 & E1 & I1).
    destruct (IH _ _ _ _ _ I1 Hf Hrun) as (t' & ws' & out' & E & I').
    exists t', ws', out'. cbn [fmap list_fmap fst stage_run]. rewrite E1. split; [done|].
    rewrite slots_of_slot, Nat2Z.inj_succ. by replace (n + Z.succ (Z.of_nat (length (slots_of (es.*1)))))
      with (n + 1 + Z.of_nat (length (slots_of (es.*1)))) by lia.
  - cbn [feed_in_order] in Hf. destruct Hf as (Hsh & -> & Hf).
    destruct (work_step cap sess sm w0 pub0 calm vs n t ws out clock sh after I Hsm Hsh) as (t1 & ws1 & out1 & E1 & I1).
    { specialize (Hrun sh Hsh). cbn [foldl] in Hrun.
      destruct (view_events_popped cap sh es (view_event cap sh (vs sh) (Work sh after, []))) as [l El].
      rewrite El, shard_run_app in Hrun. destruct Hrun as [x Hx]. apply bind_Some in Hx as (y & Hy & _). by exists y. }
    destruct (IH _ _ _ _ _ I1 Hf Hrun) as (t' & ws' & out' & E & I').
    exists t', ws', out'. cbn [fmap list_fmap fst stage_run]. rewrite E1. done.
Qed.

Lemma feed_in_order_works sess es : forall n, feed_in_order sess n es ->
  Forall (fun e => forall sh after, e.1 = Work sh after -> e.2 = []) es.
Proof.
  induction es as [|[[now s|sh after] ms] es IH]; intros n Hf; cbn [feed_in_order] in Hf; constructor; naive_solver.
Qed.

Lemma agree_read sh p q loc : agree sh p q -> 0 <= loc -> loc mod NUM_SHARDS = Z.of_nat sh ->
  read_bbo p loc = read_bbo q loc.
Proof.
  intros [Hc Hi] Hl Hm. unfold read_bbo. rewrite Hc, (Hi (Z.to_nat loc)); [done|]. by rewrite Z2Nat.id.
Qed.

(** A stage at its start: the parser in an open session, empty queues. *)
Record stage_start (cap : nat) (sess : bytes) (t : thread) (ws : list worker) : Prop := {
  ss_parser : parser_ok cap t;
  ss_tracker : tracker_ok (seq_tracker_ (env_ t));
  ss_parsed : in_range 64 (messages_parsed t);
  ss_sess : sess = take 10 (session_ (session_mgr_ t));
  ss_open : state_ (session_mgr_ t) = Open;
  ss_empty : Forall (fun q => items q = []) (queues_ (router_ (env_ t)));
  ss_drops : shard_queue_drops (router_ (env_ t)) = replicate (Z.to_nat NUM_SHARDS) 0;
  ss_workers : length ws = Z.to_nat NUM_SHARDS
}.

(** At the start the queues are empty. *)
Lemma stage_start_shows cap sess (t : thread) (ws : list worker) sh :
  stage_start cap sess t ws -> (sh < Z.to_nat NUM_SHARDS)%nat ->
  shows (router_ (env_ t), replicate (Z.to_nat NUM_SHARDS) []) sh (mkView [] [] 0).
Proof.
  intros St Hlt. destruct (router_queue cap _ sh (po_router _ _ (ss_parser _ _ _ _ St)) Hlt) as (q & k & Hq & _).
  split_and!; cbn; [|by apply lookup_replicate_2|rewrite (ss_drops _ _ _ _ St); by apply lookup_replicate_2].
  rewrite Hq. cbn. by rewrite (Forall_lookup_1 _ _ _ _ (ss_empty _ _ _ _ St) Hq).
Qed.

Lemma stage_start_run cap sess (t : thread) (ws : list worker) clock es :
  stage_start cap sess t ws -> feed_in_order sess (seq (seq_tracker_ (env_ t))) es ->
  let view sh := foldl (view_event cap sh) (mkView [] [] 0) es in
  (forall sh w, ws !! sh = Some w ->
     is_Some (shard_run (session_mgr_ t) w (bbo_pub_ (env_ t)) (popped (view sh)))) ->
  exists t' ws', stage_run clock (t, ws) (es.*1) = Some (t', ws')
    /\ seq (seq_tracker_ (env_ t')) = seq (seq_tracker_ (env_ t)) + Z.of_nat (length (slots_of (es.*1)))
    /\ sequence_gaps t' = sequence_gaps t /\ sequence_dups t' = sequence_dups t
    /\ forall sh w, ws !! sh = Some w ->
         (items <$> queues_ (router_ (env_ t')) !! sh) = Some (waiting (view sh))
         /\ exists w' pub', shard_run (session_mgr_ t) w (bbo_pub_ (env_ t)) (popped (view sh)) = Some (w', pub')
           /\ ws' !! sh = Some w'
           /\ forall loc, 0 <= loc -> loc mod NUM_SHARDS = Z.of_nat sh ->
                read_bbo (bbo_pub_ (env_ t')) loc = read_bbo pub' loc.
Proof.
  intros St Hf view Hrun. pose proof (fun sh => stage_start_shows cap sess t ws sh St) as Hshows.
  destruct St as [Po Htr Hmp Hs Hopen Hempty Hdrops Hws].
  destruct ws as [|wd ws0] eqn:Ews; [unfold NUM_SHARDS in Hws; cbn in Hws; lia|]. rewrite <- Ews in *. clear Ews.
  set (w0 := fun sh => default wd (ws !! sh)). set (out := replicate (Z.to_nat NUM_SHARDS) ([] : list ItchMsg)).
  assert (Hlook : forall sh, (sh < Z.to_nat NUM_SHARDS)%nat -> ws !! sh = Some (w0 sh)).
  { intros sh Hlt. destruct (lookup_lt_is_Some_2 ws sh) as [w Hw]; [lia|]. unfold w0. by rewrite Hw. }
  assert (I : stage_inv cap sess (session_mgr_ t) w0 (bbo_pub_ (env_ t))
    (sequence_gaps t, sequence_dups t) (fun _ => mkView [] [] 0) (seq (seq_tracker_ (env_ t))) t ws out).
  { destruct Htr as [? ?]. split; try done; [split_and!; try done; lia|].
    intros sh Hlt. split; [|split; [done|]].
    - by apply Hshows.
    - exists (w0 sh), (bbo_pub_ (env_ t)). split_and!; [done|by apply Hlook|done]. }
  destruct (stage_run_inv cap sess _ w0 _ _ clock es Hopen _ _ _ _ _ I Hf) as (t' & ws' & out' & E & I').
  { intros sh Hlt. by apply Hrun, Hlook. }
  pose proof (si_calm _ _ _ _ _ _ _ _ _ _ _ I') as [= Cg Cd]. exists t', ws'. split_and!; [done|apply I'|done..|].
  intros sh w Hw. pose proof (lookup_lt_Some _ _ _ Hw) as Hlt. rewrite Hws in Hlt.
  assert (w0 sh = w) as Ew0 by (unfold w0; by rewrite Hw).
  destruct (si_shards _ _ _ _ _ _ _ _ _ _ _ I' sh Hlt) as (Sh & _ & w' & q & Er & Ew & Ag). rewrite Ew0 in Er.
  split; [apply Sh|]. exists w', q. split_and!; [done|done|]. intros loc Hl Hm. by eapply agree_read.
Qed.

(** C12: the books follow the feed.  While the packets of an open session arrive
    in order, parser and workers may interleave in any way: the run does not
    fault unless a shard on its own would, and afterwards the worker of every
    shard is exactly what the messages it has popped, applied one after the
    other to its initial state, make of it; what anyone reads as the quote of
    one of its symbols is what that sequential run published.  As long as no
    message was dropped, the popped messages and those that wait are the
    messages of the feed addressed to the shard, in order. *)
Theorem books_follow_feed cap sess (t : thread) (ws : list worker) clock es :
  stage_start cap sess t ws -> feed_in_order sess (seq (seq_tracker_ (env_ t))) es ->
  Z.of_nat (length (concat (es.*2))) < 2 ^ 64 ->
  let view sh := foldl (view_event cap sh) (mkView [] [] 0) es in
  (forall sh w, ws !! sh = Some w ->
     is_Some (shard_run (session_mgr_ t) w (bbo_pub_ (env_ t)) (popped (view sh)))) ->
  exists t' ws', stage_run clock (t, ws) (es.*1) = Some (t', ws')
    /\ forall sh w, ws !! sh = Some w ->
         exists w' pub', shard_run (session_mgr_ t) w (bbo_pub_ (env_ t)) (popped (view sh)) = Some (w', pub')
           /\ ws' !! sh = Some w'
           /\ (forall loc, 0 <= loc -> loc mod NUM_SHARDS = Z.of_nat sh ->
                 read_bbo (bbo_pub_ (env_ t')) loc = read_bbo pub' loc)
           /\ (drops (view sh) = 0 ->
                 popped (view sh) ++ waiting (view sh) = filter (fun m => targets m sh = true) (concat (es.*2))).
Proof.
  intros St Hf Htot view Hrun. destruct (stage_start_run cap sess t ws clock es St Hf Hrun) as (t' & ws' & E & _ & _ & _ & Hall).
  exists t', ws'. split; [done|]. intros sh w Hw. destruct (Hall sh w Hw) as (_ & w' & q & Er & Ew & Ag).
  exists w', q. split_and!; [done..|].
  intros Hd. destruct (view_events_account cap sh es (feed_in_order_works sess es _ Hf) (mkView [] [] 0))
    as (lost & Hl & Hmod & Hacc). unfold view in *. rewrite Hd in Hmod. cbn [drops] in Hmod.
  rewrite Hacc; [done|]. pose proof (length_filter (fun m => targets m sh = true) (concat (es.*2))) as Hle.
  rewrite (Z.mod_small (0 + lost)) in Hmod by lia. rewrite Z.mod_0_l in Hmod by lia. lia.
Qed.

(** The end of the session overtakes the orders before it.  The parser changes
    the session state when it decodes the event, the workers look at the
    state when they get to a message: an order that was received while the
    session was open, and still waits in its queue when the closing event is
    parsed, is thrown away. *)
Theorem close_overtakes_orders cap sess (t : thread) (ws : list worker) clock now s ev sh after w m l v out :
  parser_ok cap t -> tracker_ok (seq_tracker_ (env_ t)) -> in_range 64 (messages_parsed t) ->
  sess = take 10 (session_ (session_mgr_ t)) ->
  holds_packet s sess (seq (seq_tracker_ (env_ t)) + 1) [ev] -> recv_ts s = 0 ->
  next_state (state_ (session_mgr_ t)) ev <> Open ->
  (sh < Z.to_nat NUM_SHARDS)%nat -> length out = Z.to_nat NUM_SHARDS ->
  shows (router_ (env_ t), out) sh v -> waiting v = m :: l -> ws !! sh = Some w ->
  type m ∉ [InternalSessionReset; StockTradingAction; StockDirectory] ->
  exists t', stage_run clock (t, ws) [Slot now s; Work sh after] = Some (t', ws)
    /\ (exists out' v', shows (router_ (env_ t'), out') sh v' /\ popped v' = popped v ++ [m]).
Proof.
  intros Po Htr Hmp Hs Hp Hts Hclose Hlt Hout Hv Hw Hws Hty.
  destruct (in_order_delivery cap t now clock s sess [ev] Po Htr Hmp Hp Hs) as (t1 & calls & E & Po1 & Rest).
  { intros i. left. lia. }
  destruct Rest as (_ & _ & _ & _ & _ & _ & _ & St & V).
  specialize (V out sh v Hv). set (v1 := foldl _ v _) in V.
  assert (Hv1 : exists l', waiting v1 = m :: l' /\ popped v1 = popped v).
  { unfold v1. destruct (view_push_all cap (filter (fun m0 => targets m0 sh = true) [ev]) v) as [Hpop _]. rewrite Hpop.
    cbn [filter list_filter]. destruct (decide _); cbn; [|rewrite Hw; eauto].
    unfold view_push. destruct (decide _); cbn; rewrite Hw; cbn; eauto. }
  destruct Hv1 as (l' & Hw1 & Hp1). clearbody v1.
  destruct (pop_shows cap _ out sh v1 (po_router _ _ Po1) Hout Hlt V) as (r & out' & Ep & _ & _ & V').
  specialize (V' sh v1 V). rewrite Hw1 in Ep. cbn [stage_run stage_step fst snd]. rewrite E. cbn [mbind option_bind].
  cbn [stage_step fst snd]. unfold worker_iter. rewrite Hws, Ep. cbn [mbind option_bind head].
  rewrite closed_session_discards.
  - cbn [mbind option_bind]. rewrite list_insert_id by done. eexists. split; [done|]. cbn [env_ set_env router_].
    eexists out', _. split; [exact V'|]. cbn [view_step]. rewrite decide_True, Hw1 by done. cbn. by rewrite Hp1.
  - rewrite St. exact Hclose.
  - intros Et. apply Hty. rewrite Et. by repeat constructor.
  - intros Et. apply Hty. rewrite Et. by repeat constructor.
  - intros Et. exfalso. apply Hty. rewrite Et. by repeat constructor.
Qed.

End Stage.

(** *** Witness *)

Definition open_thread : ParserThread nat (Seq.SpscQueue ItchMsg) (Seq.SpscQueue SeqRecord) :=
  let t := sample_thread (Some sample_session) (tracker_init 7) in
  mkParser (env_ t) (set_session (session_mgr_ t) (session_ (session_mgr_ t)) Open) (gap_detector_ t) (persist_seq_ t)
    (parse_lat_ t) (sequence_gaps t) (sequence_dups t) (messages_parsed t) (msg_type_count t).

Lemma open_thread_ok : parser_ok 2 open_thread.
Proof.
  destruct (sample_thread_ok (Some sample_session) (tracker_init 7)) as [Ro So Co Ho].
  split; [exact Ro| |exact Co|exact Ho]. destruct So as [Sn Sb St Sf]. split; [exact Sn|exact Sb|exact St|exact Sf].
Qed.

Definition fresh_workers : list (ShardWorker OrderMap) :=
  (fun i => new_worker (Z.of_nat i) small_mem hist_reset) <$> shard_ids.

Definition one_order_events : list (StageEvent * list ItchMsg) :=
  [(Slot 0 (sample_slot 8 wire_order), [wire_order]); (Work 3 0, [])].

Definition wire_result : option (option (Level2Book * ShardMem OrderMap)) :=
  Eval vm_compute in book_switch (set_ctrs (new_book 11)) small_mem wire_order.

Lemma wire_result_eq : book_switch (set_ctrs (new_book 11)) small_mem wire_order = wire_result.
Proof. vm_compute. reflexivity. Qed.

Definition wire_quote : BboSnapshot := mkBbo 11 123400 5 0 0 1000.

Lemma wire_order_publishes (sm : SessionManager nat) pub pub' : state_ sm = Open ->
  publish_bbo pub 11 wire_quote = Some pub' -> exists w, shard_run sm fresh_worker pub [wire_order] = Some (w, pub').
Proof.
  intros Ho Hpub. destruct fresh_slot as [_ Ha]. destruct active_slot as [Hb _].
  unfold shard_run. cbn [fmap list_fmap worker_run].
  unfold dispatch, dispatch_order, is_open. change (type wire_order) with AddOrder. cbv iota.
  rewrite bool_decide_eq_true_2 by done. cbn [negb]. change (slab_index (locate wire_order)) with 1%nat.
  rewrite Ha. cbn [mbind option_bind is_add]. change (locate wire_order) with 11. rewrite activate_fresh.
  cbn [mbind option_bind]. unfold apply_order. change (locate wire_order) with 11. rewrite Hb.
  cbn [mbind option_bind]. change (wmem active_worker) with small_mem. rewrite wire_result_eq.
  unfold wire_result. cbn [mbind option_bind]. match goal with |- context [get_bbo ?b] =>
    change (get_bbo b) with (Some (mkBbo 11 123400 5 0 0 0)) end. cbn [mbind option_bind].
  change (with_ts (mkBbo 11 123400 5 0 0 0) (timestamp wire_order)) with wire_quote. rewrite Hpub. cbn [mbind option_bind].
  eexists. reflexivity.
Qed.

Lemma wire_order_applies (sm : SessionManager nat) : state_ sm = Open ->
  exists w pub, shard_run sm fresh_worker (new_publisher 16) [wire_order] = Some (w, pub)
    /\ read_bbo pub 11 = Some wire_quote.
Proof.
  intros Ho. destruct (publish_bbo (new_publisher 16) 11 wire_quote) as [pub|] eqn:E; [|discriminate].
  destruct (wire_order_publishes sm _ pub Ho E) as [w Ew]. exists w, pub. split; [done|].
  injection E as <-. reflexivity.
Qed.

Lemma books_follow_feed_witness :
  exists t' ws', stage_run (fun _ => 0) (open_thread, fresh_workers) (one_order_events.*1) = Some (t', ws')
    /\ read_bbo (bbo_pub_ (env_ t')) 11 = Some (mkBbo 11 123400 5 0 0 1000).
Proof.
  destruct (encode_blocks 0 [wire_order]) as [bs|] eqn:Eb; [|vm_compute in Eb; discriminate].
  destruct (wire_order_applies (session_mgr_ open_thread) eq_refl) as (w3 & pub3 & E3 & R3).
  assert (H3 : fresh_workers !! 3%nat = Some fresh_worker) by reflexivity.
  assert (Hpop : forall sh, (sh < 8)%nat -> popped (foldl (view_event 2 sh) (mkView [] [] 0) one_order_events)
    = if decide (sh = 3%nat) then [wire_order] else []).
  { intros sh Hsh. do 8 (destruct sh as [|sh]; [reflexivity|]). lia. }
  destruct (books_follow_feed 2 sample_session open_thread fresh_workers (fun _ => 0) one_order_events)
    as (t' & ws' & E & Hall).
  - split; [exact open_thread_ok|split; cbn; concrete|cbn; concrete|reflexivity|reflexivity|repeat constructor
      |reflexivity|reflexivity].
  - split; [cbn; lia|]. split; [|split; [reflexivity|split; [repeat constructor; discriminate|]]].
    + apply (sample_slot_holds 8 wire_order bs); [concrete|exact wire_order_ok|reflexivity|exact Eb].
    + split; [unfold NUM_SHARDS; lia|]. split; [reflexivity|exact I].
  - cbn. lia.
  - intros sh w Hw. pose proof (lookup_lt_Some _ _ _ Hw) as Hl. rewrite Hpop by exact Hl.
    destruct (decide (sh = 3%nat)) as [->|_]; [|eexists; reflexivity].
    rewrite H3 in Hw. injection Hw as <-. exists (w3, pub3). exact E3.
  - exists t', ws'. split; [exact E|]. destruct (Hall 3%nat fresh_worker H3) as (w' & p' & E' & _ & Hr & _).
    rewrite Hpop in E' by lia. rewrite (Hr 11 ltac:(lia) eq_refl).
    change (bbo_pub_ (env_ open_thread)) with (new_publisher 16) in E'.
    assert (Heq : Some (w3, pub3) = Some (w', p')) by (rewrite <- E3; exact E'). injection Heq as <- <-. exact R3.
Defined.
