(* ===== verification/SessionChange.v ===== *)
(** * A change of session with the workers running

    [SessionManager::reset_session] runs in the parser thread: it resets the
    tracker, the directory and the quotes at once and tells the workers with a
    sentinel message in each shard queue.  Orders of the old session may still
    wait in front of it.  When the new session is not open yet, they are
    discarded and the sentinel clears every shard ([session_change_clears]).
    When the event that brings the new name also opens the session, they are
    applied and published after the reset ([stale_quote_survives_reset]); and
    a full queue loses the sentinel ([dropped_sentinel_keeps_books]). *)

From S2P Require Import Prelude Types Mold ItchParser Sequence Spsc PacketRing Histogram.
From S2P Require Import Routing OrderPool OrderMap Level2Book BookLevels SeqLock Session Worker ParserThread Shards.

Section Change.
Context {CB R P M : Type} `{Fifo R ItchMsg} `{FifoOps P SeqRecord} `{MapOps M}.
Abbreviation thread := (ParserThread CB R P).
Abbreviation worker := (ShardWorker M).

(** ** The packet with the new name *)

(** What the change of session leaves of the parser's components. *)
Record session_started (cap : nat) (t : thread) (sess : bytes) (code : Z) (ev : ItchMsg) (t' : thread) : Prop := {
  sc_parser : parser_ok cap t';
  sc_tracker : seq_tracker_ (env_ t') = tracker_init 0;
  sc_directory : sym_dir_ (env_ t') = directory_reset (sym_dir_ (env_ t));
  sc_quotes : bbo_pub_ (env_ t') = publisher_reset (bbo_pub_ (env_ t));
  sc_name : session_ (session_mgr_ t') = sess ++ [0];
  sc_state : state_ (session_mgr_ t') = event_code_to_state code;
  sc_queues out sh v : shows (router_ (env_ t), out) sh v ->
    shows (router_ (env_ t'), out) sh (view_push cap (view_push cap v reset_msg) ev)
}.

Lemma session_change_slot cap (t : thread) now clock s sess n ev code :
  parser_ok cap t -> holds_packet s sess n [ev] -> recv_ts s = 0 -> type ev = SystemEvent ->
  body ev = system_event code -> session_changed (session_mgr_ t) sess = Some true ->
  exists t' calls, process_slot t now clock s = Some (t', calls) /\ session_started cap t sess code ev t'.
Proof.
  intros Po Hp Hts Ht Hb Hch. rewrite (process_slot_eq t now clock s sess n [ev] Hp). cbn [route_all].
  destruct (decode_slot s sess n [ev] Hp) as (_ & _ & _ & _ & _ & _ & _ & Hms). apply Forall_cons in Hms as [[Hok _] _].
  pose proof (proj2 (hp_sess _ _ _ _ Hp)) as Hl.
  destruct (track_sequence_ok cap t now n sess Po) as ([P1 P2 P3 P4] & R1 & S1 & _).
  assert (Ep : bbo_pub_ (env_ (track_sequence t now n sess)) = bbo_pub_ (env_ t)
    /\ sym_dir_ (env_ (track_sequence t now n sess)) = sym_dir_ (env_ t)).
  { unfold track_sequence. destruct (try_advance _ _ _) as [[] tr]; [done|]. by destruct (_ >? _). }
  destruct Ep as [Eq Ed]. set (t1 := track_sequence t now n sess) in *.
  unfold route_message. destruct (record_latency_total _ (recv_ts s) (clock 0%nat) P4) as (h & -> & Hh); [left; lia|].
  cbn [mbind option_bind]. unfold forward_event, resolve_directory. rewrite Ht.
  destruct (decide (SystemEvent = SystemEvent)); [|done]. destruct (decide (SystemEvent = StockDirectory)); [done|].
  destruct (on_system_event_spec cap (session_mgr_ t1) (env_ t1) ev sess code P2 P1 Hl Hb)
    as (changed & m' & e' & Hc & -> & I' & N' & St' & W). rewrite S1, Hch in Hc. injection Hc as <-. cbn [mbind option_bind].
  destruct (route_spec cap (router_ e') ev (wr_router _ _ _ W)) as (res & r & -> & R' & _ & Hs); [apply Hok|].
  cbn [mbind option_bind].
  destruct (lookup_lt_is_Some_2 (msg_type_count t1) (Z.to_nat (u8 (MessageType_to_byte SystemEvent))))
    as [k ->]; [rewrite P3; vm_compute; lia|].
  cbn [mbind option_bind]. eexists _, _. split; [done|]. split; cbn.
  - split; cbn; [done|done|by rewrite length_insert|lia].
  - apply W.
  - by rewrite (wr_dir _ _ _ W), Ed.
  - by rewrite (wr_bbo _ _ _ W), Eq.
  - done.
  - rewrite St'. by case_decide.
  - intros out sh v Hv. rewrite <- R1 in Hv. specialize (Hs out sh _ (wr_queues _ _ _ W out sh v Hv)).
    unfold targets in Hs. by rewrite Ht in Hs.
Qed.

(** ** Workers outside an open session *)

(** A message the parser can have queued, or the sentinel. *)
Definition queued_ok (m : ItchMsg) : Prop :=
  in_range 16 (locate m) /\ (type m = StockTradingAction -> exists l c r, body m = trading_action l c r).

Lemma quiet_dispatch (w : worker) pub (sm : SessionManager CB) m after : worker_ok w -> session_ok sm ->
  state_ sm <> Open -> queued_ok m ->
  exists w', dispatch w pub sm m after = Some (w', pub) /\ dispatch w pub sm m 0 = Some (w', pub) /\ worker_ok w'
    /\ (type m <> InternalSessionReset -> wmem w' = wmem w).
Proof.
  intros W I Hst [Hl Hta].
  assert (Hsame : dispatch_order w pub sm m after = Some (w, pub) /\ dispatch_order w pub sm m 0 = Some (w, pub)).
  { unfold dispatch_order, is_open. by rewrite bool_decide_eq_false_2. }
  destruct Hsame as [Hs1 Hs2].
  destruct (type m) eqn:Ht; try (unfold dispatch; rewrite Ht; exists w; by split_and!).
  - unfold dispatch. rewrite Ht. rewrite decide_False by done. case_decide; [|by exists w].
    destruct (watched_word sm (locate m) I Hl) as [k Hk].
    rewrite (is_warmup_eq sm (locate m) k Hl Hk). cbn [mbind option_bind]. destruct (_ && _); [|by exists w].
    destruct (activate_book_spec w (locate m) W Hl) as (w1 & -> & W1 & _ & _ & E & _). by exists w1.
  - unfold dispatch. rewrite Ht. pose proof (slab_index_lt (locate m) Hl) as Hi.
    destruct (worker_slot w _ W Hi) as (b & a & Hb & Ha & _). rewrite Ha. cbn [mbind option_bind].
    destruct a; [|by exists w]. change (book w (locate m)) with (slab_ w !! slab_index (locate m)). rewrite Hb.
    cbn [mbind option_bind].
    destruct (Hta eq_refl) as (l & c & r & ->). eexists. split; [done|]. split; [done|]. split; [|done].
    by apply trading_action_ok.
  - destruct (reset_dispatch w pub sm m after W Ht) as (w' & E & W' & _). exists w'. split; [done|].
    split; [|done]. unfold dispatch in E |- *. by rewrite Ht in E |- *.
Qed.


(** A shard as the sentinel leaves it; [w] is the shard before. *)
Record shard_clean (w w' : worker) : Prop := {
  cl_inactive j : (j < Z.to_nat BOOKS_PER_SHARD)%nat -> book_active_ w' !! j = Some false;
  cl_books : Forall (fun b => clear b = b) (slab_ w');
  cl_pool : pool (wmem w') = pool_reset (pool (wmem w));
  cl_map : order_map_ (wmem w') = map_reset (order_map_ (wmem w))
}.

(** Messages that change nothing outside an open session. *)
Definition inert (m : ItchMsg) : Prop := type m ∉ [InternalSessionReset; StockTradingAction; StockDirectory].

Lemma inert_run (sm : SessionManager CB) pub l (w : worker) : state_ sm <> Open -> Forall inert l ->
  shard_run sm w pub l = Some (w, pub).
Proof.
  intros Hst. induction 1 as [|m l Hm _ IH]; [done|]. unfold shard_run in *. cbn [fmap list_fmap worker_run].
  unfold inert in Hm. rewrite !not_elem_of_cons in Hm. destruct Hm as (? & ? & ? & _).
  rewrite closed_session_discards by done. exact IH.
Qed.


(** ** Draining the queues

    The workers take messages in any order; the queue of shard [sh] held
    [ls sh] at the start, and [k sh] iterations of its worker are over. *)
Record draining (cap : nat) (sm : SessionManager CB) (pub : BboPublisher) (tr : SequenceTracker) (w0 : nat -> worker)
    (ls : nat -> list ItchMsg) (k : nat -> nat) (t : thread) (ws : list worker) (out : list (list ItchMsg)) : Prop := {
  dr_router : router_ok cap (router_ (env_ t));
  dr_session : session_mgr_ t = sm;
  dr_quotes : bbo_pub_ (env_ t) = pub;
  dr_tracker : seq_tracker_ (env_ t) = tr;
  dr_out : length out = Z.to_nat NUM_SHARDS;
  dr_shards sh : (sh < Z.to_nat NUM_SHARDS)%nat -> exists v w,
    shows (router_ (env_ t), out) sh v /\ waiting v = drop (k sh) (ls sh)
    /\ shard_run sm (w0 sh) pub (take (k sh) (ls sh)) = Some (w, pub) /\ ws !! sh = Some w /\ worker_ok w
}.

Lemma draining_step cap sm pub tr w0 ls k t ws out clock sh after :
  session_ok sm -> state_ sm <> Open -> (forall sh, Forall queued_ok (ls sh)) -> (sh < Z.to_nat NUM_SHARDS)%nat ->
  draining cap sm pub tr w0 ls k t ws out ->
  exists t' ws' out', stage_step clock (t, ws) (Work sh after) = Some (t', ws')
    /\ draining cap sm pub tr w0 ls (fun sh' => if decide (sh = sh') then S (k sh') else k sh') t' ws' out'.
Proof.
  intros I Hst Hq Hlt [Ro Hsm Hpub Htr Hout Hsh].
  destruct (Hsh sh Hlt) as (v & w & Hv & Hw & Er & Ew & W).
  destruct (pop_shows cap _ out sh v Ro Hout Hlt Hv) as (r & out' & Ep & Ro' & Hout' & V).
  cbn [stage_step fst snd]. unfold worker_iter. rewrite Ew, Ep. cbn [mbind option_bind]. rewrite Hw.
  assert (Hothers : forall sh', (sh' < Z.to_nat NUM_SHARDS)%nat -> sh' <> sh -> exists v' w',
    shows (r, out') sh' v' /\ waiting v' = drop (k sh') (ls sh')
    /\ shard_run sm (w0 sh') pub (take (k sh') (ls sh')) = Some (w', pub) /\ ws !! sh' = Some w' /\ worker_ok w').
  { intros sh' Hlt' Hne. destruct (Hsh sh' Hlt') as (v' & w' & Hv' & Rest). specialize (V sh' v' Hv').
    cbn [view_step] in V. rewrite decide_False in V by congruence. by exists v', w'. }
  specialize (V sh v Hv). cbn [view_step] in V. rewrite decide_True, Hw in V by done.
  destruct (drop (k sh) (ls sh)) as [|m l] eqn:Ed; cbn [head].
  - eexists _, ws, out'. split; [done|]. split; cbn; try done; [congruence|]. intros sh' Hlt'.
    destruct (decide (sh = sh')) as [<-|Hne]; [|by apply Hothers]. pose proof (f_equal length Ed) as Hl.
    rewrite length_drop in Hl. cbn in Hl. exists v, w. split_and!; try done.
    + by rewrite drop_ge by lia.
    + rewrite firstn_all2 in Er |- * by lia. done.
  - assert (Hm : ls sh !! k sh = Some m) by (rewrite <- (Nat.add_0_r (k sh)), <- lookup_drop; by rewrite Ed).
    destruct (quiet_dispatch w pub sm m after W I Hst (Forall_lookup_1 _ _ _ _ (Hq sh) Hm)) as (w' & E1 & E0 & W' & _).
    cbn [set_router bbo_pub_]. rewrite Hsm, Hpub, E1. cbn [mbind option_bind].
    eexists _, _, out'. split; [done|]. split; cbn; try done; [congruence|]. intros sh' Hlt'.
    destruct (decide (sh = sh')) as [<-|Hne].
    + exists (mkView l (popped v ++ [m]) (drops v)), w'. split_and!; try done.
      * cbn. rewrite <- Nat.add_1_r, <- drop_drop, Ed. done.
      * rewrite (take_S_r _ _ m) by done. rewrite shard_run_app, Er. cbn [mbind option_bind]. unfold shard_run. cbn.
        by rewrite E0.
      * apply list_lookup_insert_eq. by eapply lookup_lt_Some.
    + destruct (Hothers sh' Hlt' ltac:(congruence)) as (v' & w2 & Rest). exists v', w2.
      rewrite list_lookup_insert_ne by done. done.
Qed.

(** Iterations of a shard's worker. *)
Definition rounds_of (sh : nat) (works : list (nat * Z)) : nat := length (filter (fun x => x.1 = sh) works).

Lemma draining_run cap sm pub tr w0 ls clock works :
  session_ok sm -> state_ sm <> Open -> (forall sh, Forall queued_ok (ls sh)) ->
  Forall (fun x => (x.1 < Z.to_nat NUM_SHARDS)%nat) works -> forall k t ws out,
  draining cap sm pub tr w0 ls k t ws out ->
  exists t' ws' out', stage_run clock (t, ws) ((fun x => Work x.1 x.2) <$> works) = Some (t', ws')
    /\ draining cap sm pub tr w0 ls (fun sh => (k sh + rounds_of sh works)%nat) t' ws' out'.
Proof.
  intros I Hst Hq Hw. induction Hw as [|[sh a] works Hlt _ IH]; intros k t ws out D.
  { exists t, ws, out. split; [done|]. destruct D as [? ? ? ? ? Hsh]. split; try done.
    intros sh Hlt. change (rounds_of sh []) with 0%nat. rewrite Nat.add_0_r. by apply Hsh. }
  destruct (draining_step cap sm pub tr w0 ls k t ws out clock sh a I Hst Hq Hlt D) as (t1 & ws1 & out1 & E1 & D1).
  destruct (IH _ _ _ _ D1) as (t' & ws' & out' & E & D'). exists t', ws', out'.
  cbn [fmap list_fmap stage_run fst snd]. rewrite E1. split; [exact E|]. destruct D' as [? ? ? ? ? Hsh]. split; try done.
  intros sh' Hlt'. specialize (Hsh sh' Hlt').
  assert ((k sh' + rounds_of sh' ((sh, a) :: works))%nat
    = ((if decide (sh = sh') then S (k sh') else k sh') + rounds_of sh' works)%nat) as ->; [|exact Hsh].
  unfold rounds_of. rewrite filter_cons. cbn [fst]. case_decide; cbn [length]; lia.
Qed.

(** The queue of a shard after the change. *)
Definition after_change (cap : nat) (ev : ItchMsg) (v : ShardView) : list ItchMsg :=
  waiting (view_push cap (view_push cap v reset_msg) ev).


Lemma after_change_full cap ev v : length (waiting v) = cap -> after_change cap ev v = waiting v.
Proof.
  intros Hfull. unfold after_change, view_push at 2. rewrite decide_False by lia. unfold view_push. cbn [waiting].
  by rewrite decide_False by lia.
Qed.

(** The packet with the new name, then the workers in any order. *)
Lemma change_drains cap (t : thread) (ws : list worker) clock now s sess n ev code works vs out w0 :
  parser_ok cap t -> holds_packet s sess n [ev] -> recv_ts s = 0 -> type ev = SystemEvent ->
  body ev = system_event code -> session_changed (session_mgr_ t) sess = Some true ->
  event_code_to_state code <> Open -> length out = Z.to_nat NUM_SHARDS ->
  (forall sh, (sh < Z.to_nat NUM_SHARDS)%nat -> shows (router_ (env_ t), out) sh (vs sh)
     /\ ws !! sh = Some (w0 sh) /\ worker_ok (w0 sh)) ->
  (forall sh, Forall queued_ok (waiting (vs sh))) ->
  Forall (fun x => (x.1 < Z.to_nat NUM_SHARDS)%nat) works ->
  exists t' ws' sm out', stage_run clock (t, ws) (Slot now s :: ((fun x => Work x.1 x.2) <$> works)) = Some (t', ws')
    /\ session_ok sm /\ session_ sm = sess ++ [0] /\ state_ sm <> Open
    /\ draining cap sm (publisher_reset (bbo_pub_ (env_ t))) (tracker_init 0) w0 (fun sh => after_change cap ev (vs sh))
         (fun sh => rounds_of sh works) t' ws' out'.
Proof.
  intros Po Hp Hts Ht Hb Hch Hno Hout Hsh Hq Hworks.
  destruct (session_change_slot cap t now clock s sess n ev code Po Hp Hts Ht Hb Hch) as (t1 & calls & E1 & [Po1 T1 _ Q1 N1 St1 V1]).
  cbn [stage_run stage_step fst snd]. rewrite E1. cbn [mbind option_bind].
  assert (Hqueued : forall sh, Forall queued_ok (after_change cap ev (vs sh))).
  { destruct (decode_slot s sess n [ev] Hp) as (_ & _ & _ & _ & _ & _ & _ & Hms). apply Forall_cons in Hms as [[Hok _] _].
    assert (Hev : queued_ok ev) by (split; [apply Hok|by rewrite Ht]).
    assert (Hr : queued_ok reset_msg) by (split; [cbn; range_lia|done]).
    intros sh. destruct (view_push_all cap [reset_msg; ev] (vs sh)) as [_ Hall].
    apply Hall; [apply Hq|]. apply Forall_cons_2; [done|]. apply Forall_cons_2; [done|apply Forall_nil_2]. }
  destruct (draining_run cap (session_mgr_ t1) (publisher_reset (bbo_pub_ (env_ t))) (tracker_init 0) w0
    (fun sh => after_change cap ev (vs sh)) clock works)
    with (k := fun _ : nat => 0%nat) (t := t1) (ws := ws) (out := out) as (t' & ws' & out' & E & D); try done.
  { apply Po1. } { by rewrite St1. }
  { split; try done; [apply Po1|]. intros sh Hlt. destruct (Hsh sh Hlt) as (Hv & Hw & W).
    eexists _, (w0 sh). split; [by apply V1|]. done. }
  exists t', ws', (session_mgr_ t1), out'. rewrite N1, St1. split_and!; try done. apply Po1.
Qed.

(** ** Properties *)


(** A quote of the old session appears in the new one.  An order of the old
    session waits in its queue when the event that opens the new session is
    decoded: the quotes are reset and the session is open, so the worker
    applies the old order and publishes its quote; the sentinel behind it then
    clears the books but not the quotes.  What anyone reads for the symbol in
    the new session is the quote the old order makes, while the shard has no
    active book. *)
Theorem stale_quote_survives_reset cap (t : thread) (ws : list worker) clock now s sess n ev code sh a a' m v w w1 pub1
    (sm : SessionManager CB) out :
  parser_ok cap t -> holds_packet s sess n [ev] -> recv_ts s = 0 -> type ev = SystemEvent ->
  body ev = system_event code -> session_changed (session_mgr_ t) sess = Some true ->
  event_code_to_state code = Open -> length out = Z.to_nat NUM_SHARDS -> (sh < Z.to_nat NUM_SHARDS)%nat ->
  shows (router_ (env_ t), out) sh v -> waiting v = [m] -> (1 < cap)%nat -> addressed sh m ->
  ws !! sh = Some w -> worker_ok w -> state_ sm = Open ->
  shard_run sm w (publisher_reset (bbo_pub_ (env_ t))) [m] = Some (w1, pub1) ->
  exists t' ws' w', stage_run clock (t, ws) [Slot now s; Work sh a; Work sh a'] = Some (t', ws')
    /\ session_ (session_mgr_ t') = sess ++ [0] /\ ws' !! sh = Some w' /\ shard_clean w1 w'
    /\ forall loc, 0 <= loc -> loc mod NUM_SHARDS = Z.of_nat sh ->
         read_bbo (bbo_pub_ (env_ t')) loc = read_bbo pub1 loc.
Proof.
  intros Po Hp Hts Ht Hb Hch Hopen Hout Hlt Hv Hw Hcap Hm Hws W Hsm Hrun.
  destruct (session_change_slot cap t now clock s sess n ev code Po Hp Hts Ht Hb Hch) as (t1 & calls & E1 & [Po1 _ _ Q1 N1 St1 V1]).
  specialize (V1 out sh v Hv). set (v1 := view_push _ _ _) in V1.
  assert (Hv1 : exists l, waiting v1 = m :: reset_msg :: l).
  { unfold v1, view_push at 2. rewrite Hw. rewrite decide_True by (cbn; lia). unfold view_push. cbn [waiting app].
    case_decide; cbn; eauto. }
  destruct Hv1 as (l & Hv1). clearbody v1. assert (Hrm : type reset_msg = InternalSessionReset) by done.
  revert Hrm Hv1. generalize reset_msg. intros rm Hrm Hv1. unfold shard_run in Hrun. cbn [fmap list_fmap worker_run] in Hrun.
  apply bind_Some in Hrun as ([w1' pub1'] & Ed & [= <- <-]).
  destruct (pop_shows cap _ out sh v1 (po_router _ _ Po1) Hout Hlt V1) as (r2 & out2 & Ep & Ro2 & Hout2 & V2).
  specialize (V2 sh v1 V1). cbn [view_step] in V2. rewrite decide_True, Hv1 in V2 by done. rewrite Hv1 in Ep.
  destruct (dispatch_agree sh w (bbo_pub_ (env_ t1)) (publisher_reset (bbo_pub_ (env_ t))) sm (session_mgr_ t1) m a w1' pub1' Hsm)
    as (p2 & Edis & Ag & _); [by rewrite St1|by rewrite Q1|done|exact Ed|].
  set (t2 := set_env t1 (mkSubsystems (seq_tracker_ (env_ t1)) (sym_dir_ (env_ t1)) p2 r2)).
  assert (E2 : stage_step clock (t1, ws) (Work sh a) = Some (t2, <[sh := w1']> ws)).
  { cbn [stage_step fst snd]. unfold worker_iter. rewrite Hws, Ep. cbn [mbind option_bind head set_router bbo_pub_].
    by rewrite Edis. }
  destruct (pop_shows cap r2 out2 sh _ Ro2 ltac:(congruence) Hlt V2) as (r3 & out3 & Ep3 & _). cbn [waiting head] in Ep3.
  assert (W1 : worker_ok w1') by (eapply dispatch_ok; [exact W|apply Hm|exact Ed]).
  destruct (reset_dispatch w1' p2 (session_mgr_ t1) rm a' W1 Hrm) as (w' & Ew' & _ & _ & C1 & C2 & C3 & C4).
  assert (E3 : exists t3, stage_step clock (t2, <[sh := w1']> ws) (Work sh a') = Some (t3, <[sh := w']> (<[sh := w1']> ws))
    /\ session_mgr_ t3 = session_mgr_ t1 /\ bbo_pub_ (env_ t3) = p2).
  { cbn [stage_step fst snd]. unfold worker_iter. rewrite list_lookup_insert_eq by (by eapply lookup_lt_Some).
    cbn [mbind option_bind t2 set_env env_ router_]. rewrite Ep3. cbn [mbind option_bind set_router bbo_pub_].
    change (session_mgr_ t2) with (session_mgr_ t1). rewrite Ew'. cbn [mbind option_bind]. eexists. split; [done|]. done. }
  destruct E3 as (t3 & E3 & S3 & B3). exists t3, (<[sh := w']> (<[sh := w1']> ws)), w'.
  split_and!.
  - cbn [stage_run]. change (stage_step clock (t, ws) (Slot now s)) with ('(t', _) ← process_slot t now clock s; Some (t', ws)).
    rewrite E1. cbn [mbind option_bind]. rewrite E2. cbn [mbind option_bind]. by rewrite E3.
  - by rewrite S3.
  - apply list_lookup_insert_eq. rewrite length_insert. by eapply lookup_lt_Some.
  - by split.
  - rewrite B3. intros loc Hl0 Hmod. by eapply agree_read.
Qed.

(** A full queue loses the sentinel.  The shard then goes through its queue
    and keeps every book, order and active flag of the old session. *)
Theorem dropped_sentinel_keeps_books cap (t : thread) (ws : list worker) clock now s sess n ev code works vs out w0 sh :
  parser_ok cap t -> holds_packet s sess n [ev] -> recv_ts s = 0 -> type ev = SystemEvent ->
  body ev = system_event code -> session_changed (session_mgr_ t) sess = Some true ->
  event_code_to_state code <> Open -> length out = Z.to_nat NUM_SHARDS ->
  (forall sh, (sh < Z.to_nat NUM_SHARDS)%nat -> shows (router_ (env_ t), out) sh (vs sh)
     /\ ws !! sh = Some (w0 sh) /\ worker_ok (w0 sh)) ->
  (forall sh, Forall queued_ok (waiting (vs sh))) ->
  Forall (fun x => (x.1 < Z.to_nat NUM_SHARDS)%nat) works ->
  (sh < Z.to_nat NUM_SHARDS)%nat -> length (waiting (vs sh)) = cap -> Forall inert (waiting (vs sh)) ->
  exists t' ws', stage_run clock (t, ws) (Slot now s :: ((fun x => Work x.1 x.2) <$> works)) = Some (t', ws')
    /\ session_ (session_mgr_ t') = sess ++ [0] /\ ws' !! sh = Some (w0 sh).
Proof.
  intros Po Hp Hts Ht Hb Hch Hno Hout Hsh Hq Hworks Hlt Hfull Hin.
  destruct (change_drains cap t ws clock now s sess n ev code works vs out w0)
    as (t' & ws' & sm & out' & E & I & N & Hst & [_ Hsm _ _ _ Hd]); try done.
  exists t', ws'. split; [exact E|]. rewrite Hsm. split; [done|].
  destruct (Hd sh Hlt) as (v & w' & _ & _ & Er & Ew & _).
  rewrite (after_change_full cap ev (vs sh) Hfull), inert_run in Er; [by injection Er as <-|done|by apply Forall_take].
Qed.

End Change.

(** ** Witnesses *)

(** An order of session ["OLD"] waits for shard 3. *)
Definition busy_router : ShardRouter (Seq.SpscQueue ItchMsg) :=
  default small_router (snd <$> route small_router wire_order).

Definition old_thread : ParserThread nat (Seq.SpscQueue ItchMsg) (Seq.SpscQueue SeqRecord) :=
  let t := sample_thread (Some [79; 76; 68]) (tracker_init 7) in
  mkParser (set_router (env_ t) busy_router) (set_session (session_mgr_ t) (session_ (session_mgr_ t)) Open)
    (gap_detector_ t) (persist_seq_ t) (parse_lat_ t) 0 0 0 (msg_type_count t).

Definition busy_view (sh : nat) : ShardView := mkView (if decide (sh = 3%nat) then [wire_order] else []) [] 0.

Lemma busy_shows : router_ok 2 busy_router
  /\ forall sh, (sh < Z.to_nat NUM_SHARDS)%nat -> shows (busy_router, replicate 8 []) sh (busy_view sh).
Proof.
  destruct (route_spec 2 small_router wire_order small_router_ok) as (res & r & E & Ro & _ & Hs); [apply wire_order_ok|].
  assert (Eb : busy_router = r) by (unfold busy_router; rewrite E; reflexivity). rewrite Eb. split; [exact Ro|].
  intros sh Hlt. specialize (Hs (replicate 8 []) sh (mkView [] [] 0)).
  do 8 (destruct sh as [|sh]; [apply Hs; split_and!; reflexivity|]). vm_compute in Hlt. lia.
Qed.

Lemma old_thread_ok : parser_ok 2 old_thread.
Proof.
  destruct (sample_thread_ok (Some [79; 76; 68]) (tracker_init 7)) as [_ So Co Ho].
  split; [exact (proj1 busy_shows)| |exact Co|exact Ho]. destruct So as [Sn Sb St Sf]. split; [exact Sn|exact Sb|exact St|exact Sf].
Qed.



Lemma event_holds n code : in_range 64 n -> in_range 8 code -> holds_packet (sample_slot n (event_msg code)) sample_session n [event_msg code].
Proof.
  intros Hn Hc. destruct (encode_blocks 0 [event_msg code]) as [bs|] eqn:E.
  - apply (sample_slot_holds n (event_msg code) bs); done.
  - cbn in E. discriminate.
Qed.


Lemma stale_quote_survives_reset_witness :
  exists t' ws' w', stage_run (fun _ => 0) (old_thread, fresh_workers)
      [Slot 0 (sample_slot 8 (event_msg 79)); Work 3 0; Work 3 0] = Some (t', ws')
    /\ session_ (session_mgr_ t') = sample_session ++ [0] /\ ws' !! 3%nat = Some w'
    /\ book_active_ w' !! 1%nat = Some false
    /\ read_bbo (bbo_pub_ (env_ t')) 11 = Some wire_quote.
Proof.
  destruct (publish_bbo (publisher_reset (new_publisher 16)) 11 wire_quote) as [pub2|] eqn:Ep; [|discriminate Ep].
  destruct (wire_order_publishes (session_mgr_ open_thread) _ pub2 eq_refl Ep) as [w2 E2].
  destruct (stale_quote_survives_reset 2 old_thread fresh_workers (fun _ => 0) 0 (sample_slot 8 (event_msg 79)) sample_session 8
    (event_msg 79) 79 3 0 0 wire_order (busy_view 3) fresh_worker w2 pub2 (session_mgr_ open_thread) (replicate 8 []))
    as (t' & ws' & w' & E & N & Hw & C & Hr).
  - exact old_thread_ok.
  - apply event_holds; concrete.
  - reflexivity.
  - reflexivity.
  - reflexivity.
  - reflexivity.
  - reflexivity.
  - reflexivity.
  - vm_compute. lia.
  - apply busy_shows. vm_compute. lia.
  - reflexivity.
  - lia.
  - split; [reflexivity|]. split; [concrete|reflexivity].
  - reflexivity.
  - exact fresh_worker_ok.
  - reflexivity.
  - exact E2.
  - exists t', ws', w'. split; [exact E|]. split; [exact N|]. split; [exact Hw|]. split.
    + apply C. vm_compute. lia.
    + rewrite (Hr 11 ltac:(lia) eq_refl). injection Ep as <-. reflexivity.
Defined.
