(* ===== verification/Pipeline.v ===== *)
(** * The transport pipeline

    The composition of [receive_iter] (one receiver thread per feed),
    [inject_recovered_packet] (the recovery thread), [merge_iter] (the merger)
    and the taking of a slot by the parser thread, over the state
    [FeedHandler] owns: two rings and the merged queue.  Events of the threads
    interleave in any order.  The abstract counterpart [Flow] has no slots and
    no indices: each source has a list of datagrams that wait for the merger,
    numbered in the order of arrival, and the merged list holds datagrams.
    The merger takes an index off a ring before the parser has read the slot;
    [unlapped] says that the receiver has not come round to that slot again.
    The code does not check it, and [stalled_parser_reads_other_packet] shows
    what happens without it. *)

From S2P Require Import Prelude Types Mold Spsc PacketRing FeedMerger.
Import Dedup.

#[export] Instance FeedSource_eq_dec : EqDecision FeedSource.
Proof. solve_decision. Defined.

(** ** State and steps *)

Section Transport.
Context {Q M : Type} `{FifoOps Q Z} `{FifoOps M MergedSlot}.

(** The primary ring is that of [receiver_], the secondary one that of
    [secondary_receiver_]; the rings inside [feed_merger_] are set from them
    before each of its steps, as they are the same objects. *)
Record Transport := mkTransport {
  receiver_ : ReceiverThread Q;
  secondary_receiver_ : ReceiverThread Q;
  feed_merger_ : FeedMerger Q M
}.

(** What a thread does next: a receiver takes a datagram from its socket, the
    recovery thread injects one, the merger makes one iteration, the parser
    thread takes one token. *)
Inductive Event :=
  | Receive (src : FeedSource) (pkt : bytes) (ts : Z)
  | Merge (now now' : Z)
  | Take.

Definition set_ring (t : ReceiverThread Q) (r : ZeroCopyRing Q) : ReceiverThread Q :=
  mkReceiver r (write_slot_ t) (pkts_received_ t) (pkts_dropped_ t).

Definition receive_step (p : Transport) (src : FeedSource) (pkt : bytes) (ts : Z) : option Transport :=
  match src with
  | Primary =>
      t ← receive_iter (receiver_ p) (Some (pkt, ts));
      Some (mkTransport t (secondary_receiver_ p) (feed_merger_ p))
  | Secondary =>
      t ← receive_iter (secondary_receiver_ p) (Some (pkt, ts));
      Some (mkTransport (receiver_ p) t (feed_merger_ p))
  | Recovery =>
      '(_, r) ← inject_recovered_packet (ring_ (receiver_ p)) pkt ts;
      Some (mkTransport (set_ring (receiver_ p) r) (secondary_receiver_ p) (feed_merger_ p))
  end.

Definition merge_step (fuel : nat) (p : Transport) (now now' : Z) : option Transport :=
  m ← merge_iter fuel now now'
        (set_rings (feed_merger_ p) (ring_ (receiver_ p)) (Some (ring_ (secondary_receiver_ p))));
  r2 ← secondary_ring_ m;
  Some (mkTransport (set_ring (receiver_ p) (primary_ring_ m)) (set_ring (secondary_receiver_ p) r2) m).

(** The slot of a token, as [ParserThread::resolve] finds it. *)
Definition token_slot (p : Transport) (ms : MergedSlot) : option PacketSlot :=
  match source ms with
  | Primary => slot (ring_ (receiver_ p)) (slot_idx ms)
  | Secondary => slot (ring_ (secondary_receiver_ p)) (slot_idx ms)
  | Recovery => recovery_slot (ring_ (receiver_ p)) (slot_idx ms)
  end.

Definition take_step (p : Transport) : option (Transport * list PacketSlot) :=
  let '(x, q) := try_pop (merged_queue_ (feed_merger_ p)) in
  let p' := mkTransport (receiver_ p) (secondary_receiver_ p)
              (set_merged (feed_merger_ p) q (stats_ (feed_merger_ p))) in
  match x with
  | None => Some (p', [])
  | Some ms => s ← token_slot p ms; Some (p', [s])
  end.

(** One event, with the slots handed to [process_slot]. *)
Definition transport_step (fuel : nat) (p : Transport) (e : Event)
    : option (Transport * list PacketSlot) :=
  match e with
  | Receive src pkt ts => p' ← receive_step p src pkt ts; Some (p', [])
  | Merge now now' => p' ← merge_step fuel p now now'; Some (p', [])
  | Take => take_step p
  end.

Fixpoint transport_run (fuel : nat) (p : Transport) (es : list Event)
    : option (Transport * list PacketSlot) :=
  match es with
  | [] => Some (p, [])
  | e :: es' =>
      '(p1, ss1) ← transport_step fuel p e;
      '(p2, ss2) ← transport_run fuel p1 es';
      Some (p2, ss1 ++ ss2)
  end.

End Transport.

Arguments Transport : clear implicits.

Lemma transport_run_app {Q M} `{FifoOps Q Z} `{FifoOps M MergedSlot} fuel es1 es2 : forall (p : Transport Q M) p1 ss1,
  transport_run fuel p es1 = Some (p1, ss1) ->
  transport_run fuel p (es1 ++ es2) = '(p2, ss2) ← transport_run fuel p1 es2; Some (p2, ss1 ++ ss2).
Proof.
  induction es1 as [|e es1 IH]; intros p p1 ss1 E; cbn [transport_run app] in *.
  { injection E as <- <-. by destruct (transport_run fuel p es2) as [[]|]. }
  apply bind_Some in E as ([p' s'] & -> & E). apply bind_Some in E as ([p'' s''] & E & [= <- <-]).
  cbn [mbind option_bind]. rewrite (IH p' p'' s'' E). destruct (transport_run fuel p'' es2) as [[]|]; cbn; [|done].
  by rewrite app_assoc.
Qed.

(** ** Specification *)

(** A datagram with its source and its number in the order of arrival. *)
Record Parcel := mkParcel { p_src : FeedSource; p_no : Z; p_data : bytes }.

Record Flow := mkFlow {
  arrived : FeedSource -> Z;
  waiting_at : FeedSource -> list (Z * bytes);
  window : DedupWindow;
  seen : list Z;
  merged : list Parcel;
  given : list Parcel;
  lost : list Parcel
}.

Definition upd {A} (f : FeedSource -> A) (src : FeedSource) (a : A) (src' : FeedSource) : A :=
  if decide (src' = src) then a else f src'.

Definition seq_of (d : bytes) : Z :=
  if Z.of_nat (length d) <? 20 then 0 else be_val (take 8 (drop 10 d)).

(** A data packet, subject to deduplication: numbered and not a heartbeat. *)
Definition numbered (d : bytes) : bool :=
  negb (seq_of d =? 0) && negb (be_val (take 2 (drop 18 d)) =? MOLDUDP64_HEARTBEAT).

(** Both fields of a packet as the venue sends it. *)
Lemma mold_packet_numbered sess n c blocks : length sess = 10%nat -> 0 < n -> in_range 64 n -> in_range 16 c ->
  c <> MOLDUDP64_HEARTBEAT ->
  seq_of (mold_packet sess n c blocks) = n /\ numbered (mold_packet sess n c blocks) = true.
Proof.
  intros Hs Hn Hr Hc Hh. assert (E : seq_of (mold_packet sess n c blocks) = n).
  { unfold seq_of. rewrite mold_packet_length, (proj2 (Z.ltb_ge _ _)) by lia. unfold mold_packet.
    rewrite drop_app_length' by done. rewrite take_app_length' by (by rewrite be_enc_length).
    rewrite be_val_enc. apply Z.mod_small. range_lia. }
  split; [done|]. unfold numbered. rewrite E, (proj2 (Z.eqb_neq _ _)) by lia. cbn [negb andb]. unfold mold_packet.
  rewrite app_assoc, drop_app_length' by (by rewrite length_app, be_enc_length, Hs).
  rewrite take_app_length' by (by rewrite be_enc_length). rewrite be_val_enc, Z.mod_small by range_lia.
  by apply negb_true_iff, Z.eqb_neq.
Qed.

(** A parcel offered to the merged queue of capacity [cap]. *)
Definition offer (cap : nat) (x : Parcel) (f : Flow) : Flow :=
  if decide (length (merged f) < cap)%nat
  then mkFlow (arrived f) (waiting_at f) (window f) (seen f) (merged f ++ [x]) (given f) (lost f)
  else mkFlow (arrived f) (waiting_at f) (window f) (seen f) (merged f) (given f) (lost f ++ [x]).

Definition set_waiting (f : Flow) (src : FeedSource) (l : list (Z * bytes)) : Flow :=
  mkFlow (arrived f) (upd (waiting_at f) src l) (window f) (seen f) (merged f) (given f) (lost f).

Definition mark_seen (f : Flow) (w : DedupWindow) (l : list Z) : Flow :=
  mkFlow (arrived f) (waiting_at f) w l (merged f) (given f) (lost f).

(** A live datagram off its lane: a numbered one goes on only if it is new. *)
Definition flow_handle (fuel cap : nat) (f1 : Flow) (x : Parcel) : option Flow :=
  if numbered (p_data x) then
    '(fresh, w) ← check_and_mark fuel (window f1) (seq_of (p_data x));
    Some (if fresh : bool then offer cap x (mark_seen f1 w (seq_of (p_data x) :: seen f1))
          else mark_seen f1 w (seen f1))
  else Some (offer cap x f1).

Definition flow_live (fuel cap : nat) (f : Flow) (src : FeedSource) : option Flow :=
  match waiting_at f src with
  | [] => Some f
  | (a, d) :: l => flow_handle fuel cap (set_waiting f src l) (mkParcel src a d)
  end.

Definition flow_step (fuel cap : nat) (f : Flow) (e : Event) : option Flow :=
  match e with
  | Receive src pkt _ =>
      Some (mkFlow (upd (arrived f) src (arrived f src + 1))
              (upd (waiting_at f) src (waiting_at f src ++ [(arrived f src, pkt)]))
              (window f) (seen f) (merged f) (given f) (lost f))
  | Merge _ _ =>
      match waiting_at f Recovery with
      | (a, d) :: l => Some (offer cap (mkParcel Recovery a d) (set_waiting f Recovery l))
      | [] => f1 ← flow_live fuel cap f Primary; flow_live fuel cap f1 Secondary
      end
  | Take =>
      Some match merged f with
           | [] => f
           | x :: l => mkFlow (arrived f) (waiting_at f) (window f) (seen f) l (given f ++ [x]) (lost f)
           end
  end.

Fixpoint flow_run (fuel cap : nat) (f : Flow) (es : list Event) : option Flow :=
  match es with
  | [] => Some f
  | e :: es' => f' ← flow_step fuel cap f e; flow_run fuel cap f' es'
  end.

Definition flow0 : Flow := mkFlow (fun _ => 0) (fun _ => []) Dedup.reset [] [] [] [].

(** The parcels of a source between the merger and the parser. *)
Definition flying (f : Flow) (src : FeedSource) : list (Z * bytes) :=
  (fun x => (p_no x, p_data x)) <$> filter (fun x => p_src x = src) (merged f).

(** Slots of a source's ring. *)
Definition depth (src : FeedSource) : Z :=
  match src with Recovery => RECOVERY_RING_DEPTH | _ => PACKET_RING_DEPTH end.

(** The slot about to be written holds no datagram still on its way. *)
Definition unlapped (f : Flow) (src : FeedSource) : Prop :=
  forall a d, (a, d) ∈ waiting_at f src ++ flying f src -> arrived f src - depth src < a.

(** Events the refinement is about: datagrams that fit a slot and a window
    position, received into a slot that is free. *)
Definition admissible (fuel : nat) (f : Flow) (e : Event) : Prop :=
  match e with
  | Receive src pkt _ =>
      (0 < length pkt <= Z.to_nat MAX_UDP_PAYLOAD)%nat /\ bytes_ok pkt /\ unlapped f src
      /\ seq_of pkt < 2 ^ 64 - 64 /\ seq_of pkt / 64 < Z.of_nat fuel
  | _ => True
  end.

Fixpoint admissible_run (fuel cap : nat) (f : Flow) (es : list Event) : Prop :=
  match es with
  | [] => True
  | e :: es' => admissible fuel f e
      /\ forall f', flow_step fuel cap f e = Some f' -> admissible_run fuel cap f' es'
  end.

(** The cases of a live datagram. *)
Inductive live_case (fuel cap : nat) (f : Flow) (src : FeedSource) : Flow -> Prop :=
  | live_none : waiting_at f src = [] -> live_case fuel cap f src f
  | live_plain a d l : waiting_at f src = (a, d) :: l -> numbered d = false ->
      live_case fuel cap f src (offer cap (mkParcel src a d) (set_waiting f src l))
  | live_fresh a d l w : waiting_at f src = (a, d) :: l -> numbered d = true ->
      check_and_mark fuel (window f) (seq_of d) = Some (true, w) ->
      live_case fuel cap f src
        (offer cap (mkParcel src a d) (mark_seen (set_waiting f src l) w (seq_of d :: seen f)))
  | live_old a d l w : waiting_at f src = (a, d) :: l -> numbered d = true ->
      check_and_mark fuel (window f) (seq_of d) = Some (false, w) ->
      live_case fuel cap f src (mark_seen (set_waiting f src l) w (seen f)).

Lemma flow_live_inv fuel cap f src f' : flow_live fuel cap f src = Some f' -> live_case fuel cap f src f'.
Proof.
  unfold flow_live, flow_handle. destruct (waiting_at f src) as [|[a d] l] eqn:Hw; [intros [= <-]; by constructor|].
  cbn [p_data]. destruct (numbered d) eqn:Hn; [|intros [= <-]; by econstructor].
  cbn [set_waiting window]. intros E. apply bind_Some in E as ([v w] & Hc & [= <-]). destruct v; by econstructor.
Qed.

(** Offering changes the merged list or the lost one only. *)
Lemma offer_frame cap x f : let f' := offer cap x f in
  arrived f' = arrived f /\ waiting_at f' = waiting_at f /\ window f' = window f /\ seen f' = seen f
  /\ given f' = given f /\ merged f' ++ lost f' ≡ₚ x :: merged f ++ lost f.
Proof.
  unfold offer. case_decide; cbn; split_and!; try done.
  - rewrite <- app_assoc. symmetry. apply Permutation_middle.
  - rewrite app_assoc. symmetry. apply Permutation_cons_append.
Qed.

(** ** Lanes: one source's slots, index queue and parcels *)

(** A slot that holds a datagram. *)
Definition contains (s : PacketSlot) (d : bytes) : Prop :=
  datagram s = d /\ length_ s = Z.of_nat (length d).

(** Slots of the live rings keep the receive time 0 they were mapped with. *)
Definition slot_ok (src : FeedSource) (s : PacketSlot) : Prop :=
  length (data s) = Z.to_nat MAX_UDP_PAYLOAD /\ bytes_ok (data s) /\ (src <> Recovery -> recv_ts s = 0).

Lemma depth_pos src : 0 < depth src.
Proof. by destruct src. Qed.

Section Lane.
Context {Q : Type} `{Fifo Q Z}.

Record lane (src : FeedSource) (ss : list PacketSlot) (q : Q) (n : Z) (wait fly : list (Z * bytes))
    : Prop := {
  ln_fifo : fifo_ok q /\ fifo_cap q = Z.to_nat (depth src);
  ln_len : length ss = Z.to_nat (depth src);
  ln_slots : Forall (slot_ok src) ss;
  ln_items : items q = (fun x => x.1 mod depth src) <$> wait;
  ln_wait i x : wait !! i = Some x -> x.1 = n - Z.of_nat (length wait) + Z.of_nat i;
  ln_held a d : (a, d) ∈ wait ++ fly -> n - depth src <= a < n
    /\ exists s, ss !! Z.to_nat (a mod depth src) = Some s /\ contains s d
}.

Lemma lane_slot src ss q n wait fly i : lane src ss q n wait fly ->
  exists s, ss !! Z.to_nat (i mod depth src) = Some s /\ slot_ok src s.
Proof.
  intros L. pose proof (depth_pos src). pose proof (Z.mod_pos_bound i (depth src)).
  destruct (lookup_lt_is_Some_2 ss (Z.to_nat (i mod depth src))) as [s Hs]; [rewrite (ln_len _ _ _ _ _ _ L); lia|].
  exists s. split; [done|]. exact (Forall_lookup_1 _ _ _ _ (ln_slots _ _ _ _ _ _ L) Hs).
Qed.

(** Parcels that are no longer on their way may be forgotten. *)
Lemma lane_fly src ss q n wait fly fly' : lane src ss q n wait fly ->
  (forall x, x ∈ fly' -> x ∈ wait ++ fly) -> lane src ss q n wait fly'.
Proof.
  intros L Hsub. split; try apply L. intros a d Hx. apply L.
  apply elem_of_app in Hx as [?|?]; [apply elem_of_app; by left|by apply Hsub].
Qed.

Lemma lane_pop_empty src ss q n fly : lane src ss q n [] fly ->
  fst (try_pop q) = None /\ lane src ss (snd (try_pop q)) n [] fly.
Proof.
  intros L. destruct (ln_fifo _ _ _ _ _ _ L) as [Hok Hc]. pose proof (ln_items _ _ _ _ _ _ L) as Hi. simpl in Hi.
  destruct (pop_empty q Hok Hi) as [? Hi']. destruct (pop_keeps q Hok) as [? Hc'].
  split; [done|]. split; try apply L; [by rewrite Hc'|done].
Qed.

Lemma lane_pop src ss q n a d wait fly : lane src ss q n ((a, d) :: wait) fly ->
  fst (try_pop q) = Some (a mod depth src) /\ lane src ss (snd (try_pop q)) n wait (fly ++ [(a, d)]).
Proof.
  intros L. destruct (ln_fifo _ _ _ _ _ _ L) as [Hok Hc]. pose proof (ln_items _ _ _ _ _ _ L) as Hi. simpl in Hi.
  destruct (pop_head q _ _ Hok Hi) as [? Hi']. destruct (pop_keeps q Hok) as [? Hc'].
  split; [done|]. split; try apply L; [by rewrite Hc'|done| |].
  - intros i x Hx. rewrite (ln_wait _ _ _ _ _ _ L (S i) x Hx). simpl. lia.
  - intros b e Hx. apply L. revert Hx. rewrite !elem_of_app, !elem_of_cons, elem_of_nil. tauto.
Qed.

(** An unlapped lane has room, and filling the next slot disturbs nothing. *)
Lemma lane_push src ss q n wait fly s d : lane src ss q n wait fly ->
  (forall a e, (a, e) ∈ wait ++ fly -> n - depth src < a) -> slot_ok src s -> contains s d ->
  fst (try_push q (n mod depth src)) = true
  /\ lane src (<[Z.to_nat (n mod depth src) := s]> ss) (snd (try_push q (n mod depth src))) (n + 1)
       (wait ++ [(n, d)]) fly.
Proof.
  intros L Hfree Hs Hd. destruct (ln_fifo _ _ _ _ _ _ L) as [Hok Hc]. pose proof (depth_pos src) as HD.
  pose proof (ln_items _ _ _ _ _ _ L) as Hi. pose proof (Z.mod_pos_bound n (depth src) HD) as Hm.
  assert (Hroom : Z.of_nat (length wait) < depth src).
  { destruct wait as [|[a0 d0] wait']; [simpl; lia|].
    pose proof (ln_wait _ _ _ _ _ _ L 0 _ eq_refl) as H0'. simpl in H0'.
    specialize (Hfree a0 d0 ltac:(left)). simpl. lia. }
  destruct (push_ok q (n mod depth src) Hok) as [Hp Hi']; [rewrite Hi, length_fmap; lia|].
  destruct (push_keeps q (n mod depth src) Hok) as [? Hc']. split; [done|]. split.
  - by rewrite Hc'.
  - by rewrite length_insert, (ln_len _ _ _ _ _ _ L).
  - by apply Forall_insert; [apply L|].
  - by rewrite Hi', Hi, fmap_app.
  - intros i x Hx. rewrite length_app. simpl. apply lookup_app_Some in Hx as [Hx|[Hge Hx]].
    + rewrite (ln_wait _ _ _ _ _ _ L i x Hx). lia.
    + apply list_lookup_singleton_Some in Hx as [Hx <-]. simpl. lia.
  - intros a e Hx. destruct (decide (a = n)) as [->|Hne].
    + split; [lia|]. exists s. rewrite list_lookup_insert_eq by (rewrite (ln_len _ _ _ _ _ _ L); lia).
      split; [done|]. assert (e = d) as ->; [|done]. revert Hx.
      rewrite !elem_of_app, list_elem_of_singleton. intros [[Hx|[= ->]]|Hx]; [|done|];
        (destruct (ln_held _ _ _ _ _ _ L n e) as [? _]; [apply elem_of_app; auto|lia]).
    + assert (Hx' : (a, e) ∈ wait ++ fly).
      { revert Hx. rewrite !elem_of_app, list_elem_of_singleton. intros [[?|[= ? ?]]|?]; auto; done. }
      destruct (ln_held _ _ _ _ _ _ L a e Hx') as (Hr & s0 & Hs0 & ?). specialize (Hfree a e Hx').
      split; [lia|]. exists s0. split; [|done]. rewrite list_lookup_insert_ne; [done|].
      pose proof (Z.mod_pos_bound a (depth src) HD). intros E. apply Z2Nat.inj in E; [|lia|lia].
      assert ((n - a) mod depth src = 0) as E0 by (rewrite Zminus_mod, E, Z.sub_diag; apply Z.mod_0_l; lia).
      rewrite Z.mod_small in E0 by lia. lia.
Qed.

End Lane.

(** ** The simulation relation *)

Lemma upd_eq {A} (f : FeedSource -> A) src a : upd f src a src = a.
Proof. unfold upd. by rewrite decide_True. Qed.

Lemma upd_ne {A} (f : FeedSource -> A) src a src' : src' <> src -> upd f src a src' = f src'.
Proof. intros. unfold upd. by rewrite decide_False. Qed.

(** The header fields the merger peeks at are those of the datagram. *)
Lemma peek_slot src s d : slot_ok src s -> contains s d ->
  peek_sequence s = Some (seq_of d)
  /\ (seq_of d <> 0 -> peek_msg_count s = Some (be_val (take 2 (drop 18 d)))).
Proof.
  intros (Hl & Hb & _) [Hd Hn]. unfold peek_sequence, peek_msg_count, seq_of. rewrite Hn.
  destruct (Z.ltb_spec (Z.of_nat (length d)) 20) as [|Hge]; [done|].
  assert (Hpre : forall k n, (k + n <= 20)%nat ->
    rd_bytes n (drop k (data s)) = Some (take n (drop k d)) /\ bytes_ok (take n (drop k d))
    /\ length (take n (drop k d)) = n).
  { intros k n Hkn. assert (Hlen : (length d <= length (data s))%nat).
    { rewrite <- Hd. unfold datagram. rewrite length_take. lia. }
    assert (E : take n (drop k d) = take n (drop k (data s))).
    { rewrite <- Hd. unfold datagram. rewrite skipn_firstn_comm, take_take. f_equal. lia. }
    rewrite rd_bytes_Some by (rewrite length_drop; lia). rewrite E.
    split; [done|]. split; [by apply Forall_take, Forall_drop|]. rewrite length_take, length_drop. lia. }
  destruct (Hpre 10%nat 8%nat ltac:(lia)) as (-> & ? & ?). destruct (Hpre 18%nat 2%nat ltac:(lia)) as (-> & ? & ?).
  simpl. rewrite !bswap_le_val by done. done.
Qed.

Section Simulation.
Context {Q M : Type} `{Fifo Q Z} `{Fifo M MergedSlot}.
Abbreviation ring := (ZeroCopyRing Q).
Abbreviation transport := (Transport Q M).

Definition lane_slots (r1 r2 : ring) (src : FeedSource) : list PacketSlot :=
  match src with Primary => slots r1 | Secondary => slots r2 | Recovery => recovery_slots r1 end.
Definition lane_queue (r1 r2 : ring) (src : FeedSource) : Q :=
  match src with Primary => queue r1 | Secondary => queue r2 | Recovery => recovery_queue r1 end.

Definition lanes (r1 r2 : ring) (arr : FeedSource -> Z) (wait fly : FeedSource -> list (Z * bytes)) : Prop :=
  forall src, lane src (lane_slots r1 r2 src) (lane_queue r1 r2 src) (arr src) (wait src) (fly src).

(** The token of a parcel. *)
Definition token_of (x : Parcel) : MergedSlot := mkMerged (p_no x mod depth (p_src x)) (p_src x).

Definition fits (fuel : nat) (d : bytes) : Prop := seq_of d < 2 ^ 64 - 64 /\ seq_of d / 64 < Z.of_nat fuel.

(** The merger's side: rings, merged queue and window; [fly] are the parcels
    whose slots must not be touched. *)
Record carried (fuel cap : nat) (r1 r2 : ring) (mq : M) (w : DedupWindow) (f : Flow)
    (fly : FeedSource -> list (Z * bytes)) : Prop := {
  ca_lanes : lanes r1 r2 (arrived f) (waiting_at f) fly;
  ca_fits src : Forall (fun x => fits fuel x.2) (waiting_at f src);
  ca_fifo : fifo_ok mq /\ fifo_cap mq = cap;
  ca_items : items mq = token_of <$> merged f;
  ca_window : w = window f /\ rep (window f) (seen f)
}.

(** All of it, with the slot counters of the producers. *)
Record carries (fuel cap : nat) (p : transport) (f : Flow) : Prop := {
  cs_carried : carried fuel cap (ring_ (receiver_ p)) (ring_ (secondary_receiver_ p))
    (merged_queue_ (feed_merger_ p)) (dedup_ (feed_merger_ p)) f (flying f);
  cs_write1 : write_slot_ (receiver_ p) = u16 (arrived f Primary);
  cs_write2 : write_slot_ (secondary_receiver_ p) = u16 (arrived f Secondary);
  cs_write3 : recovery_write_ (ring_ (receiver_ p)) = u16 (arrived f Recovery);
  cs_enabled : secondary_enabled_ (feed_merger_ p) = true;
  cs_drops : pkts_dropped_ (receiver_ p) = 0 /\ pkts_dropped_ (secondary_receiver_ p) = 0
}.

Definition set_queue (r1 r2 : ring) (src : FeedSource) (q : Q) : ring * ring :=
  match src with
  | Primary => (mkRing (slots r1) q (recovery_slots r1) (recovery_queue r1) (recovery_write_ r1), r2)
  | Secondary => (r1, mkRing (slots r2) q (recovery_slots r2) (recovery_queue r2) (recovery_write_ r2))
  | Recovery => (mkRing (slots r1) (queue r1) (recovery_slots r1) q (recovery_write_ r1), r2)
  end.

Lemma consume_eq (r : ring) : consume r = (fst (try_pop (queue r)),
  mkRing (slots r) (snd (try_pop (queue r))) (recovery_slots r) (recovery_queue r) (recovery_write_ r)).
Proof. unfold consume. by destruct (try_pop _). Qed.

Lemma consume_recovered_eq (r : ring) : consume_recovered r = (fst (try_pop (recovery_queue r)),
  mkRing (slots r) (queue r) (recovery_slots r) (snd (try_pop (recovery_queue r))) (recovery_write_ r)).
Proof. unfold consume_recovered. by destruct (try_pop _). Qed.

Lemma lanes_pop_empty r1 r2 arr wait fly src : lanes r1 r2 arr wait fly -> wait src = [] ->
  fst (try_pop (lane_queue r1 r2 src)) = None
  /\ let '(r1', r2') := set_queue r1 r2 src (snd (try_pop (lane_queue r1 r2 src))) in lanes r1' r2' arr wait fly.
Proof.
  intros L Hw. pose proof (L src) as Ls. rewrite Hw in Ls. destruct (lane_pop_empty _ _ _ _ _ Ls) as [? Ls'].
  split; [done|]. destruct (set_queue _ _ _ _) as [r1' r2'] eqn:E. intros src'.
  destruct src, src'; injection E as <- <-; try apply L; rewrite Hw; apply Ls'.
Qed.

Lemma lanes_pop r1 r2 arr wait fly src a d l : lanes r1 r2 arr wait fly -> wait src = (a, d) :: l ->
  fst (try_pop (lane_queue r1 r2 src)) = Some (a mod depth src)
  /\ let '(r1', r2') := set_queue r1 r2 src (snd (try_pop (lane_queue r1 r2 src))) in
     lanes r1' r2' arr (upd wait src l) (upd fly src (fly src ++ [(a, d)])).
Proof.
  intros L Hw. pose proof (L src) as Ls. rewrite Hw in Ls. destruct (lane_pop _ _ _ _ _ _ _ _ Ls) as [? Ls'].
  split; [done|]. destruct (set_queue _ _ _ _) as [r1' r2'] eqn:E. intros src'.
  destruct src, src'; injection E as <- <-; rewrite ?upd_eq, ?upd_ne by done; done || apply L.
Qed.

Lemma set_queue_slots r1 r2 src q r1' r2' : set_queue r1 r2 src q = (r1', r2') ->
  (forall src', lane_slots r1' r2' src' = lane_slots r1 r2 src')
  /\ recovery_write_ r1' = recovery_write_ r1.
Proof. destruct src; intros [= <- <-]; (split; [by intros []|done]). Qed.

Lemma flying_snoc f x src l : merged f = l ++ [x] ->
  flying f src = ((fun x => (p_no x, p_data x)) <$> filter (fun x => p_src x = src) l)
    ++ (if decide (p_src x = src) then [(p_no x, p_data x)] else []).
Proof.
  intros E. unfold flying. rewrite E, filter_app, fmap_app. f_equal.
  rewrite filter_cons, filter_nil. by case_decide.
Qed.

(** Taking a datagram off its lane keeps it on its way. *)
Definition picked (f : Flow) (x : Parcel) : FeedSource -> list (Z * bytes) :=
  upd (flying f) (p_src x) (flying f (p_src x) ++ [(p_no x, p_data x)]).

(** Offering it to the merged queue. *)
Lemma carried_offer fuel cap r1 r2 mq w f x :
  carried fuel cap r1 r2 mq w f (picked f x) ->
  let f' := offer cap x f in carried fuel cap r1 r2 (snd (try_push mq (token_of x))) w f' (flying f').
Proof.
  intros C f'. destruct (ca_fifo _ _ _ _ _ _ _ _ C) as [Hok Hc].
  destruct (push_keeps mq (token_of x) Hok) as [Hok' Hc']. pose proof (ca_items _ _ _ _ _ _ _ _ C) as Hi.
  assert (Hf : arrived f' = arrived f /\ waiting_at f' = waiting_at f /\ window f' = window f /\ seen f' = seen f)
    by (unfold f', offer; by case_decide). destruct Hf as (Ha & Hw & Hwin & Hsn).
  split; rewrite ?Ha, ?Hw, ?Hwin, ?Hsn; try apply C.
  - intros src. eapply lane_fly; [apply C|]. intros y Hy. apply elem_of_app. right. unfold picked, upd.
    assert (Hsub : y ∈ flying f src \/ (p_src x = src /\ y = (p_no x, p_data x))).
    { revert Hy. unfold f', offer. case_decide; [|by left].
      rewrite (flying_snoc _ x src (merged f)) by done. rewrite elem_of_app. intros [?|Hx]; [by left|].
      case_decide as Es; [|by apply elem_of_nil in Hx]. apply list_elem_of_singleton in Hx. by right. }
    case_decide as Es; [|destruct Hsub as [|[? _]]; congruence]. subst src. rewrite elem_of_app, list_elem_of_singleton.
    tauto.
  - by rewrite Hc'.
  - unfold f', offer. rewrite <- Hc.
    assert (Hlen : length (merged f) = length (items mq)) by (rewrite Hi; by rewrite length_fmap).
    rewrite Hlen. case_decide as Hroom; cbn [merged].
    + rewrite (proj2 (push_ok mq _ Hok Hroom)), Hi, fmap_app. done.
    + rewrite (proj2 (push_full mq (token_of x) Hok ltac:(lia))). done.
Qed.

(** Forgetting it instead. *)
Lemma carried_forget fuel cap r1 r2 mq w f x :
  carried fuel cap r1 r2 mq w f (picked f x) -> carried fuel cap r1 r2 mq w f (flying f).
Proof.
  intros C. split; try apply C. intros src. eapply lane_fly; [apply C|]. intros y Hy.
  apply elem_of_app. right. unfold picked, upd. case_decide as Es; [subst src|done].
  apply elem_of_app. by left.
Qed.

(** Remembering a number in the window. *)
Lemma carried_mark fuel cap r1 r2 mq w f x w' l :
  carried fuel cap r1 r2 mq w f (picked f x) -> rep w' l ->
  carried fuel cap r1 r2 mq w' (mark_seen f w' l) (picked (mark_seen f w' l) x).
Proof. intros C R. split; try apply C. done. Qed.

(** Taking the oldest datagram of a source off its queue. *)
Lemma carried_pick fuel cap r1 r2 mq w f src a d l :
  carried fuel cap r1 r2 mq w f (flying f) -> waiting_at f src = (a, d) :: l ->
  let r := set_queue r1 r2 src (snd (try_pop (lane_queue r1 r2 src))) in
  fst (try_pop (lane_queue r1 r2 src)) = Some (a mod depth src)
  /\ carried fuel cap r.1 r.2 mq w (set_waiting f src l) (picked (set_waiting f src l) (mkParcel src a d)).
Proof.
  intros C Hw r. destruct (lanes_pop _ _ _ _ _ src a d l (ca_lanes _ _ _ _ _ _ _ _ C) Hw) as [Hp L].
  split; [done|]. fold r in L. destruct r as [r1' r2']. split; try apply C; cbn [fst snd].
  - exact L.
  - intros src'. simpl. unfold upd. case_decide as Es; [|apply C]. subst src'.
    pose proof (ca_fits _ _ _ _ _ _ _ _ C src) as F. rewrite Hw in F. by inversion F.
Qed.

(** The slot of the oldest datagram. *)
Lemma carried_slot fuel cap r1 r2 mq w f src a d l :
  carried fuel cap r1 r2 mq w f (flying f) -> waiting_at f src = (a, d) :: l ->
  exists s, lane_slots r1 r2 src !! Z.to_nat (a mod depth src) = Some s /\ slot_ok src s /\ contains s d
    /\ fits fuel d.
Proof.
  intros C Hw. pose proof (ca_lanes _ _ _ _ _ _ _ _ C src) as L.
  destruct (ln_held _ _ _ _ _ _ L a d) as (_ & s & Hs & Hd); [rewrite Hw; left|].
  exists s. split; [done|]. split; [exact (Forall_lookup_1 _ _ _ _ (ln_slots _ _ _ _ _ _ L) Hs)|]. split; [done|].
  pose proof (ca_fits _ _ _ _ _ _ _ _ C src) as F. rewrite Hw in F. by inversion F.
Qed.

Lemma seq_of_nonneg d : bytes_ok d -> 0 <= seq_of d.
Proof.
  intros Hb. unfold seq_of. destruct (_ <? _); [done|].
  by apply be_val_range, Forall_take, Forall_drop.
Qed.

Lemma contains_ok src s d : slot_ok src s -> contains s d -> bytes_ok d.
Proof. intros (_ & Hb & _) [<- _]. unfold datagram. by apply Forall_take. Qed.

(** Rings and configuration, which the merger's handlers leave alone. *)
Definition same_rings (m m' : FeedMerger Q M) : Prop :=
  primary_ring_ m' = primary_ring_ m /\ secondary_ring_ m' = secondary_ring_ m
  /\ secondary_enabled_ m' = secondary_enabled_ m.

Lemma same_rings_trans m1 m2 m3 : same_rings m1 m2 -> same_rings m2 m3 -> same_rings m1 m3.
Proof. intros (? & ? & ?) (? & ? & ?). split_and!; congruence. Qed.

Lemma forward_eq (m : FeedMerger Q M) x :
  merged_queue_ (forward m x) = snd (try_push (merged_queue_ m) x) /\ dedup_ (forward m x) = dedup_ m
  /\ same_rings m (forward m x).
Proof. unfold forward. by destruct (try_push _ _). Qed.

Lemma noted_frame now (m : FeedMerger Q M) s src : dedup_ (noted now m s src) = dedup_ m
  /\ same_rings m (noted now m s src).
Proof. by destruct src. Qed.

Lemma handle_unnumbered fuel now (m : FeedMerger Q M) idx src s seq mc :
  live_slot m idx src = Some s -> peek_sequence s = Some seq -> (seq <> 0 -> peek_msg_count s = Some mc) ->
  seq = 0 \/ mc = MOLDUDP64_HEARTBEAT ->
  handle_live_slot fuel now m idx src = Some (forward (noted now m s src) (mkMerged idx src)).
Proof.
  intros Hs Hseq Hmc Hor. unfold handle_live_slot.
  replace (match src with Primary => _ | _ => _ end) with (live_slot m idx src) by by destruct src.
  rewrite Hs. simpl. rewrite Hseq. simpl. destruct (Z.eqb_spec seq 0) as [|Hne]; [by destruct src|].
  rewrite Hmc by done. simpl. destruct Hor as [| ->]; [done|]. rewrite Z.eqb_refl. by destruct src.
Qed.

Lemma handle_live_refines fuel cap now m src s a d f1 r1 r2 :
  live_slot m (a mod depth src) src = Some s -> slot_ok src s -> contains s d -> fits fuel d ->
  carried fuel cap r1 r2 (merged_queue_ m) (dedup_ m) f1 (picked f1 (mkParcel src a d)) ->
  exists m' f', handle_live_slot fuel now m (a mod depth src) src = Some m'
    /\ flow_handle fuel cap f1 (mkParcel src a d) = Some f'
    /\ carried fuel cap r1 r2 (merged_queue_ m') (dedup_ m') f' (flying f') /\ same_rings m m'.
Proof.
  intros Hs Ok Hd Hfit C. destruct (peek_slot src s d Ok Hd) as [Hseq Hmc].
  pose proof (seq_of_nonneg d (contains_ok src s d Ok Hd)) as H0le. destruct Hfit as [Hmax Hfuel].
  destruct (noted_frame now m s src) as (Nd & Nr). pose proof (noted_merged now m s src) as Nm.
  unfold flow_handle, numbered. cbn [p_data]. set (x := mkParcel src a d) in *.
  destruct (Z.eqb_spec (seq_of d) 0) as [E0|Hn0]; [|destruct (Z.eqb_spec (be_val (take 2 (drop 18 d))) MOLDUDP64_HEARTBEAT) as [Eh|Hh]];
    cbn [negb andb].
  3: { assert (Hsq : sequenced s (seq_of d)) by (split; [done|]; split; [lia|]; eexists; split; [by apply Hmc|done]).
    rewrite (handle_sequenced fuel now m _ src s (seq_of d) Hs Hsq).
    destruct (ca_window _ _ _ _ _ _ _ _ C) as [Hw R]. rewrite Hw.
    destruct (check_and_mark_rep fuel (window f1) (seen f1) (seq_of d) R ltac:(lia) Hfuel)
      as (v & w' & -> & R' & _). cbn [mbind option_bind].
    destruct v; cbn [negb]; eexists _, _; (split; [done|]); (split; [done|]).
    - destruct (forward_eq (set_dedup (noted now m s src) w') (mkMerged (a mod depth src) src)) as (-> & -> & F).
      split; [|exact (same_rings_trans _ _ _ Nr F)]. cbn [set_dedup merged_queue_ dedup_]. rewrite Nm.
      apply (carried_offer _ _ _ _ _ _ _ x). by eapply carried_mark.
    - split; [|exact Nr]. cbn [set_merged set_dedup merged_queue_ dedup_]. rewrite Nm.
      apply (carried_forget _ _ _ _ _ _ _ x). by eapply carried_mark. }
  all: eexists _, _; (split; [eapply handle_unnumbered; eauto|]); (split; [done|]);
    destruct (forward_eq (noted now m s src) (mkMerged (a mod depth src) src)) as (-> & -> & F);
    rewrite Nm, Nd; (split; [by apply (carried_offer _ _ _ _ _ _ _ x)|]);
    exact (same_rings_trans _ _ _ Nr F).
Qed.

(** The merger with its rings in place. *)
Definition merging (fuel cap : nat) (m : FeedMerger Q M) (f : Flow) (rw : Z) : Prop :=
  exists r2, secondary_ring_ m = Some r2
    /\ carried fuel cap (primary_ring_ m) r2 (merged_queue_ m) (dedup_ m) f (flying f)
    /\ recovery_write_ (primary_ring_ m) = rw /\ secondary_enabled_ m = true.

Lemma carried_idle fuel cap r1 r2 mq w f src :
  carried fuel cap r1 r2 mq w f (flying f) -> waiting_at f src = [] ->
  let r := set_queue r1 r2 src (snd (try_pop (lane_queue r1 r2 src))) in
  fst (try_pop (lane_queue r1 r2 src)) = None /\ carried fuel cap r.1 r.2 mq w f (flying f).
Proof.
  intros C Hw r. destruct (lanes_pop_empty _ _ _ _ _ src (ca_lanes _ _ _ _ _ _ _ _ C) Hw) as [Hp L].
  split; [done|]. fold r in L. destruct r as [r1' r2']. split; try apply C. exact L.
Qed.

Lemma live_mask src a : src <> Recovery -> ring_mask (a mod depth src) = Z.to_nat (a mod depth src).
Proof.
  intros Hs. assert (depth src = 65536) as -> by by destruct src. apply ring_mask_range. range_lia.
Qed.

Lemma poll_primary_refines fuel cap now m f rw : merging fuel cap m f rw ->
  exists m' f', poll_primary fuel now m = Some m' /\ flow_live fuel cap f Primary = Some f'
    /\ merging fuel cap m' f' rw.
Proof.
  intros (r2 & E2 & C & Hrw & He). unfold poll_primary, flow_live. rewrite consume_eq.
  destruct (waiting_at f Primary) as [|[a d] l] eqn:Hw.
  - destruct (carried_idle _ _ _ _ _ _ _ _ C Hw) as [Hp C']. simpl in Hp, C'. rewrite Hp.
    eexists _, f. do 2 (split; [done|]). by exists r2.
  - destruct (carried_pick _ _ _ _ _ _ _ _ _ _ _ C Hw) as [Hp C']. simpl in Hp. rewrite Hp.
    destruct (carried_slot _ _ _ _ _ _ _ _ _ _ _ C Hw) as (s & Hs & Ok & Hd & Hf).
    set (m1 := set_rings m _ _).
    assert (Hl : live_slot m1 (a mod depth Primary) Primary = Some s).
    { unfold live_slot, slot. rewrite live_mask by done. exact Hs. }
    destruct (handle_live_refines fuel cap now m1 Primary s a d _ _ _ Hl Ok Hd Hf C')
      as (m' & f' & E & Ef & C2 & F1 & F2 & F3).
    exists m', f'. do 2 (split; [done|]). exists r2. rewrite F1, F2, F3. done.
Qed.

Lemma poll_secondary_refines fuel cap now m f rw : merging fuel cap m f rw ->
  exists m' f', poll_secondary fuel now m = Some m' /\ flow_live fuel cap f Secondary = Some f'
    /\ merging fuel cap m' f' rw.
Proof.
  intros (r2 & E2 & C & Hrw & He). unfold poll_secondary, flow_live. rewrite He, E2. cbn [mbind option_bind].
  rewrite consume_eq. destruct (waiting_at f Secondary) as [|[a d] l] eqn:Hw.
  - destruct (carried_idle _ _ _ _ _ _ _ _ C Hw) as [Hp C']. simpl in Hp, C'. rewrite Hp.
    eexists _, f. do 2 (split; [done|]). eexists. split; [done|]. done.
  - destruct (carried_pick _ _ _ _ _ _ _ _ _ _ _ C Hw) as [Hp C']. simpl in Hp. rewrite Hp.
    destruct (carried_slot _ _ _ _ _ _ _ _ _ _ _ C Hw) as (s & Hs & Ok & Hd & Hf).
    set (m1 := set_rings m _ _).
    assert (Hl : live_slot m1 (a mod depth Secondary) Secondary = Some s).
    { unfold live_slot, slot. cbn [secondary_ring_ m1 set_rings mbind option_bind slots].
      rewrite live_mask by done. exact Hs. }
    destruct (handle_live_refines fuel cap now m1 Secondary s a d _ _ _ Hl Ok Hd Hf C')
      as (m' & f' & E & Ef & C2 & F1 & F2 & F3).
    exists m', f'. do 2 (split; [done|]). eexists. rewrite F1, F2, F3. done.
Qed.

Lemma merge_iter_refines fuel cap now now' m f rw : merging fuel cap m f rw ->
  exists m' f', merge_iter fuel now now' m = Some m' /\ flow_step fuel cap f (Merge now now') = Some f'
    /\ merging fuel cap m' f' rw.
Proof.
  intros (r2 & E2 & C & Hrw & He). unfold merge_iter, flow_step. rewrite consume_recovered_eq.
  destruct (waiting_at f Recovery) as [|[a d] l] eqn:Hw.
  - destruct (carried_idle _ _ _ _ _ _ _ _ C Hw) as [Hp C']. simpl in Hp, C'. rewrite Hp.
    set (m0 := set_rings m _ _).
    destruct (poll_primary_refines fuel cap now m0 f rw) as (m1 & f1 & -> & -> & R1); [by exists r2|].
    cbn [mbind option_bind].
    destruct (poll_secondary_refines fuel cap now m1 f1 rw R1) as (m2 & f2 & -> & -> & R2).
    cbn [mbind option_bind]. destruct R2 as (r2' & G2 & C2 & Grw & Ge).
    destruct (_ >=? _); eexists _, f2; (split; [done|]); (split; [done|]); exists r2'; [|done].
    cbn [set_counter secondary_enabled_]. rewrite Ge. unfold check_failover.
    destruct (negb _); [destruct (_ && _)|destruct (_ >=? _)]; done.
  - destruct (carried_pick _ _ _ _ _ _ _ _ _ _ _ C Hw) as [Hp C']. simpl in Hp. rewrite Hp.
    set (m0 := set_rings m _ _). eexists _, _. do 2 (split; [done|]). exists r2. apply carried_offer in C'.
    destruct (forward_eq m0 (mkMerged (a mod RECOVERY_RING_DEPTH) Recovery)) as (-> & -> & -> & -> & ->). done.
Qed.

(** *** Producers *)

Lemma recv_into_ok src old pkt ts : slot_ok src old -> bytes_ok pkt ->
  (length pkt <= Z.to_nat MAX_UDP_PAYLOAD)%nat ->
  exists s, recv_into old pkt ts = Some s /\ slot_ok src s /\ contains s pkt.
Proof.
  intros (Hl & Hb & Ht) Hp Hlen. unfold recv_into. rewrite blit_Some by lia. eexists. split; [done|].
  unfold slot_ok, contains, datagram. cbn [data length_ recv_ts]. unfold MAX_UDP_PAYLOAD in *.
  rewrite wrap_small, Nat2Z.id, take_app_length by range_lia. split_and!; try done.
  - rewrite length_app, length_drop. lia.
  - apply Forall_app. split; [done|by apply Forall_drop].
Qed.

Lemma receive_lane src (t : ReceiverThread Q) n wait fly pkt ts : src <> Recovery ->
  lane src (slots (ring_ t)) (queue (ring_ t)) n wait fly -> write_slot_ t = u16 n ->
  (forall a e, (a, e) ∈ wait ++ fly -> n - depth src < a) ->
  (0 < length pkt <= Z.to_nat MAX_UDP_PAYLOAD)%nat -> bytes_ok pkt ->
  exists t', receive_iter t (Some (pkt, ts)) = Some t'
    /\ lane src (slots (ring_ t')) (queue (ring_ t')) (n + 1) (wait ++ [(n, pkt)]) fly
    /\ write_slot_ t' = u16 (n + 1) /\ pkts_dropped_ t' = pkts_dropped_ t
    /\ recovery_slots (ring_ t') = recovery_slots (ring_ t)
    /\ recovery_queue (ring_ t') = recovery_queue (ring_ t)
    /\ recovery_write_ (ring_ t') = recovery_write_ (ring_ t).
Proof.
  intros Hs L Hw Hfree Hlen Hb. assert (HD : depth src = 65536) by by destruct src.
  destruct (lane_slot _ _ _ _ _ _ n L) as (old & Hold & Ok).
  destruct (recv_into_ok src old pkt ts Ok Hb ltac:(lia)) as (s & Es & Oks & Hc).
  destruct (lane_push _ _ _ _ _ _ s pkt L Hfree Oks Hc) as [Hp L'].
  assert (Hm : ring_mask (write_slot_ t) = Z.to_nat (n mod depth src)) by by rewrite Hw, ring_mask_u16, HD.
  assert (Hn : write_slot_ t = n mod depth src) by by rewrite Hw, HD.
  unfold receive_iter, slot. rewrite Hm, Hold. cbn [mbind option_bind]. rewrite Es. cbn [mbind option_bind].
  destruct (Z.ltb_spec 0 (Z.of_nat (length pkt))); [|lia].
  unfold publish, set_slot. cbn [queue slots recovery_slots recovery_queue recovery_write_]. rewrite Hm, Hn.
  destruct (try_push (queue (ring_ t)) (n mod depth src)) as [ok q] eqn:Eq. simpl in Hp, L'. subst ok.
  eexists. split; [done|]. cbn [ring_ slots queue write_slot_ recovery_slots recovery_queue recovery_write_].
  split; [done|]. split; [|done].
  rewrite HD. change (n mod 65536) with (u16 n). by rewrite wrap_add_l.
Qed.

Lemma inject_lane (r : ring) n wait fly pkt ts :
  lane Recovery (recovery_slots r) (recovery_queue r) n wait fly -> recovery_write_ r = u16 n ->
  (forall a e, (a, e) ∈ wait ++ fly -> n - depth Recovery < a) ->
  (0 < length pkt <= Z.to_nat MAX_UDP_PAYLOAD)%nat -> bytes_ok pkt ->
  exists r', inject_recovered_packet r pkt ts = Some (true, r')
    /\ lane Recovery (recovery_slots r') (recovery_queue r') (n + 1) (wait ++ [(n, pkt)]) fly
    /\ recovery_write_ r' = u16 (n + 1) /\ slots r' = slots r /\ queue r' = queue r.
Proof.
  intros L Hw Hfree Hlen Hb. destruct (lane_slot _ _ _ _ _ _ n L) as (old & Hold & Hl0 & Hb0 & _).
  set (s := mkSlot (pkt ++ drop (length pkt) (data old)) (Z.of_nat (length pkt)) (pad0 old) (pad1 old) (align old) ts).
  assert (Oks : slot_ok Recovery s /\ contains s pkt).
  { unfold slot_ok, contains, datagram, s. cbn [data length_]. rewrite Nat2Z.id, take_app_length. split_and!; try done.
    - rewrite length_app, length_drop. lia.
    - apply Forall_app. split; [done|by apply Forall_drop]. }
  destruct (lane_push _ _ _ _ _ _ s pkt L Hfree (proj1 Oks) (proj2 Oks)) as [Hp L'].
  assert (Hm : Z.land (recovery_write_ r) (u16 (RECOVERY_RING_DEPTH - 1)) = n mod depth Recovery).
  { rewrite Hw. change (u16 (RECOVERY_RING_DEPTH - 1)) with (2 ^ 10 - 1). rewrite land_mask by lia.
    unfold wrap. change (depth Recovery) with (2 ^ 10). apply Z.mod_mod_divide. by exists 64. }
  assert (Hroom : size_approx (recovery_queue r) < RECOVERY_RING_DEPTH).
  { destruct (ln_fifo _ _ _ _ _ _ L) as [Hok Hc]. rewrite (size_exact _ Hok).
    destruct (decide (length (items (recovery_queue r)) < fifo_cap (recovery_queue r))%nat) as [|Hge].
    - rewrite Hc in *. simpl in *. unfold RECOVERY_RING_DEPTH in *. lia.
    - destruct (push_full (recovery_queue r) (n mod depth Recovery) Hok) as [Hf _]; [lia|]. congruence. }
  unfold inject_recovered_packet. rewrite Z.geb_leb, (proj2 (Z.leb_gt _ _)) by done.
  rewrite Hm, Hold. cbn [mbind option_bind]. rewrite blit_Some by lia. cbn [mbind option_bind]. fold s.
  destruct (try_push (recovery_queue r) (n mod depth Recovery)) as [ok q] eqn:Eq. simpl in Hp, L'. subst ok.
  eexists. split; [done|]. cbn [recovery_slots recovery_queue recovery_write_ slots queue].
  split; [done|]. split; [|done]. rewrite Hw. apply wrap_add_l.
Qed.

(** A datagram added to the lane of its source. *)
Definition arrive (f : Flow) (src : FeedSource) (pkt : bytes) : Flow :=
  mkFlow (upd (arrived f) src (arrived f src + 1))
    (upd (waiting_at f) src (waiting_at f src ++ [(arrived f src, pkt)]))
    (window f) (seen f) (merged f) (given f) (lost f).

Lemma carried_arrive fuel cap r1 r2 r1' r2' mq w f src pkt :
  carried fuel cap r1 r2 mq w f (flying f) -> fits fuel pkt ->
  lane src (lane_slots r1' r2' src) (lane_queue r1' r2' src) (arrived f src + 1)
    (waiting_at f src ++ [(arrived f src, pkt)]) (flying f src) ->
  (forall src', src' <> src -> lane_slots r1' r2' src' = lane_slots r1 r2 src'
     /\ lane_queue r1' r2' src' = lane_queue r1 r2 src') ->
  carried fuel cap r1' r2' mq w (arrive f src pkt) (flying (arrive f src pkt)).
Proof.
  intros C Hfit L Hsame. split; try apply C.
  - intros src'. cbn [arrive arrived waiting_at]. unfold upd. change (flying (arrive f src pkt)) with (flying f).
    case_decide as Es; [by subst src'|]. destruct (Hsame src' Es) as [-> ->]. apply C.
  - intros src'. cbn [arrive waiting_at]. unfold upd. case_decide as Es; [|apply C]. subst src'.
    apply Forall_app. split; [apply C|by constructor].
Qed.

Lemma receive_step_refines fuel cap (p : transport) f src pkt ts :
  carries fuel cap p f -> admissible fuel f (Receive src pkt ts) ->
  exists p', receive_step p src pkt ts = Some p' /\ carries fuel cap p' (arrive f src pkt).
Proof.
  intros [C W1 W2 W3 He HD] (Hlen & Hb & Hfree & Hfit). pose proof (ca_lanes _ _ _ _ _ _ _ _ C) as L.
  assert (Hother : forall src', src' <> src -> arrived (arrive f src pkt) src' = arrived f src')
    by (intros; by apply upd_ne).
  assert (Hown : arrived (arrive f src pkt) src = arrived f src + 1) by apply upd_eq.
  destruct src; unfold receive_step.
  - destruct (receive_lane Primary _ _ _ _ pkt ts ltac:(done) (L Primary) W1 Hfree Hlen Hb)
      as (t' & -> & L' & Hw' & Hd' & S1 & S2 & S3). cbn [mbind option_bind].
    eexists. split; [done|]. split; cbn; rewrite ?Hown, ?Hother, ?S3, ?Hd' by done; try done.
    eapply carried_arrive; try done. by intros [] ?.
  - destruct (receive_lane Secondary _ _ _ _ pkt ts ltac:(done) (L Secondary) W2 Hfree Hlen Hb)
      as (t' & -> & L' & Hw' & Hd' & S1 & S2 & S3). cbn [mbind option_bind].
    eexists. split; [done|]. split; cbn; rewrite ?Hown, ?Hother, ?Hd' by done; try done.
    eapply carried_arrive; try done. by intros [] ?.
  - destruct (inject_lane _ _ _ _ pkt ts (L Recovery) W3 Hfree Hlen Hb)
      as (r' & -> & L' & Hw' & S1 & S2). cbn [mbind option_bind].
    eexists. split; [done|]. split; cbn; rewrite ?Hown, ?Hother by done; try done.
    eapply carried_arrive; try done. intros [] ?; cbn; done.
Qed.

Lemma live_frame fuel cap f src f' : flow_live fuel cap f src = Some f' ->
  arrived f' = arrived f /\ given f' = given f.
Proof.
  intros E. apply flow_live_inv in E. inversion E; subst; try done;
    (match goal with |- context [offer cap ?x ?g] => destruct (offer_frame cap x g) as (? & _ & _ & _ & ? & _) end);
    done.
Qed.

Lemma merge_frame fuel cap now now' f f' : flow_step fuel cap f (Merge now now') = Some f' ->
  arrived f' = arrived f /\ given f' = given f.
Proof.
  cbn [flow_step]. destruct (waiting_at f Recovery) as [|[a d] l].
  - intros E. apply bind_Some in E as (f1 & E1 & E2). apply live_frame in E1 as [<- <-]. by apply live_frame in E2.
  - intros [= <-]. by destruct (offer_frame cap (mkParcel Recovery a d) (set_waiting f Recovery l)) as (? & _ & _ & _ & ? & _).
Qed.

Lemma merge_step_refines fuel cap (p : transport) f now now' : carries fuel cap p f ->
  exists p' f', merge_step fuel p now now' = Some p' /\ flow_step fuel cap f (Merge now now') = Some f'
    /\ arrived f' = arrived f /\ given f' = given f /\ carries fuel cap p' f'.
Proof.
  intros [C W1 W2 W3 He HD]. unfold merge_step. set (m := set_rings _ _ _).
  destruct (merge_iter_refines fuel cap now now' m f (u16 (arrived f Recovery))) as (m' & f' & -> & Ef & r2 & E2 & C' & Hrw & He').
  { by exists (ring_ (secondary_receiver_ p)). }
  cbn [mbind option_bind]. rewrite E2. cbn [mbind option_bind]. eexists _, f'. split; [done|]. split; [done|].
  destruct (merge_frame fuel cap now now' f f' Ef) as [Ha Hg].
  split_and!; try done. split; cbn; rewrite ?Ha; try done.
Qed.

Lemma take_step_refines fuel cap (p : transport) f : carries fuel cap p f ->
  exists p' ss f' new, take_step p = Some (p', ss) /\ flow_step fuel cap f Take = Some f'
    /\ carries fuel cap p' f' /\ given f' = given f ++ new
    /\ Forall2 (fun s x => contains s (p_data x) /\ slot_ok (p_src x) s) ss new.
Proof.
  intros [C W1 W2 W3 He HD]. unfold take_step. destruct (ca_fifo _ _ _ _ _ _ _ _ C) as [Hok Hc].
  pose proof (ca_items _ _ _ _ _ _ _ _ C) as Hi. destruct (pop_keeps _ Hok) as [Hok' Hc'].
  cbn [flow_step]. destruct (merged f) as [|x l] eqn:Em; cbn [fmap list_fmap] in Hi.
  - destruct (pop_empty _ Hok Hi) as [Hp Hi'].
    destruct (try_pop (merged_queue_ (feed_merger_ p))) as [y q]. cbn in *. subst y.
    eexists _, _, f, []. do 2 (split; [done|]). split; [|by rewrite app_nil_r].
    split; cbn; try done. split; try apply C; cbn; [by rewrite Hc'|]. by rewrite Hi', Em.
  - destruct (pop_head _ _ _ Hok Hi) as [Hp Hi'].
    destruct (try_pop (merged_queue_ (feed_merger_ p))) as [y q]. cbn in *. subst y.
    pose proof (ca_lanes _ _ _ _ _ _ _ _ C (p_src x)) as Lx.
    destruct (ln_held _ _ _ _ _ _ Lx (p_no x) (p_data x)) as (_ & s & Hs & Hd).
    { apply elem_of_app. right. unfold flying. rewrite Em, filter_cons_True by done. left. }
    assert (Ht : token_slot p (token_of x) = Some s).
    { unfold token_slot, token_of, slot, recovery_slot, recovery_mask. cbn [source slot_idx].
      destruct (p_src x); rewrite ?live_mask by done; [exact Hs|exact Hs|].
      change (u16 (RECOVERY_RING_DEPTH - 1)) with (2 ^ 10 - 1). rewrite land_mask by lia.
      change (depth Recovery) with (2 ^ 10) in *. rewrite Z.mod_mod by lia. exact Hs. }
    rewrite Ht. cbn [mbind option_bind]. eexists _, [s], _, [x]. do 2 (split; [done|]). split; [|split; [done|]].
    + split; cbn; try done. split; try apply C; cbn; [|by rewrite Hc'|done].
      intros src. eapply lane_fly; [apply C|]. intros z Hz. apply elem_of_app. right.
      unfold flying in *. cbn [merged] in Hz. rewrite Em, filter_cons. case_decide; [by right|done].
    + constructor; [|constructor]. split; [done|].
      exact (Forall_lookup_1 _ _ _ _ (ln_slots _ _ _ _ _ _ Lx) Hs).
Qed.

Lemma transport_step_refines fuel cap (p : transport) f e : carries fuel cap p f -> admissible fuel f e ->
  exists p' ss f' new, transport_step fuel p e = Some (p', ss) /\ flow_step fuel cap f e = Some f'
    /\ carries fuel cap p' f' /\ given f' = given f ++ new
    /\ Forall2 (fun s x => contains s (p_data x) /\ slot_ok (p_src x) s) ss new.
Proof.
  intros C Ha. destruct e as [src pkt ts|now now'|]; cbn [transport_step].
  - destruct (receive_step_refines fuel cap p f src pkt ts C Ha) as (p' & -> & C'). cbn [mbind option_bind].
    eexists _, _, _, []. do 2 (split; [done|]). split; [done|]. by rewrite app_nil_r.
  - destruct (merge_step_refines fuel cap p f now now' C) as (p' & f' & -> & Ef & _ & Hg & C').
    cbn [mbind option_bind]. exists p', [], f', []. by rewrite app_nil_r.
  - exact (take_step_refines fuel cap p f C).
Qed.

Lemma transport_run_refines fuel cap es : forall (p : transport) f, carries fuel cap p f ->
  admissible_run fuel cap f es ->
  exists p' ss f' new, transport_run fuel p es = Some (p', ss) /\ flow_run fuel cap f es = Some f'
    /\ carries fuel cap p' f' /\ given f' = given f ++ new
    /\ Forall2 (fun s x => contains s (p_data x) /\ slot_ok (p_src x) s) ss new.
Proof.
  induction es as [|e es IH]; intros p f C Ha; cbn [transport_run flow_run].
  { exists p, [], f, []. by rewrite app_nil_r. }
  destruct Ha as [Ha Hrest].
  destruct (transport_step_refines fuel cap p f e C Ha) as (p1 & ss1 & f1 & n1 & -> & Ef & C1 & G1 & F1).
  rewrite Ef. cbn [mbind option_bind].
  destruct (IH p1 f1 C1 (Hrest f1 Ef)) as (p' & ss & f' & n2 & -> & -> & C' & G2 & F2). cbn [mbind option_bind].
  exists p', (ss1 ++ ss), f', (n1 ++ n2). rewrite G2, G1, app_assoc. split_and!; try done. by apply Forall2_app.
Qed.

End Simulation.

(** ** What the specification guarantees *)

Definition received (es : list Event) : list (FeedSource * bytes) :=
  omap (fun e => match e with Receive src pkt _ => Some (src, pkt) | _ => None end) es.

(** Everything that went past the deduplication. *)
Definition outs (f : Flow) : list Parcel := given f ++ merged f ++ lost f.

Definition live_numbers (l : list Parcel) : list Z :=
  (fun x => seq_of (p_data x)) <$> filter (fun x => p_src x <> Recovery /\ numbered (p_data x) = true) l.

(** A datagram past the merger: it went on, or its number did, or its number
    was too old for the window. *)
Definition handled (f : Flow) (src : FeedSource) (d : bytes) : Prop :=
  (exists a, mkParcel src a d ∈ outs f)
  \/ (src <> Recovery /\ numbered d = true /\ justified (seen f) (seq_of d)).

Record flow_ok (fuel : nat) (f : Flow) (rcv : list (FeedSource * bytes)) : Prop := {
  fo_fits src : Forall (fun x => bytes_ok x.2 /\ fits fuel x.2 /\ (src, x.2) ∈ rcv) (waiting_at f src);
  fo_out : Forall (fun x => (p_src x, p_data x) ∈ rcv) (outs f);
  fo_seen : live_numbers (outs f) ≡ₚ seen f;
  fo_nodup : NoDup (seen f);
  fo_rep : rep (window f) (seen f);
  fo_all src d : (src, d) ∈ rcv -> d ∈ (waiting_at f src).*2 \/ handled f src d
}.

Lemma outs_offer cap x f : outs (offer cap x f) ≡ₚ x :: outs f.
Proof.
  unfold outs. destruct (offer_frame cap x f) as (_ & _ & _ & _ & -> & ->). symmetry. apply Permutation_middle.
Qed.

Lemma live_numbers_perm l l' : l ≡ₚ l' -> live_numbers l ≡ₚ live_numbers l'.
Proof. intros E. unfold live_numbers. by rewrite E. Qed.

Lemma live_numbers_cons x l : live_numbers (x :: l) =
  if decide (p_src x <> Recovery /\ numbered (p_data x) = true)
  then seq_of (p_data x) :: live_numbers l else live_numbers l.
Proof. unfold live_numbers. rewrite filter_cons. by case_decide. Qed.

Lemma handled_mono f f' src d : (forall x, x ∈ outs f -> x ∈ outs f') -> (forall z, z ∈ seen f -> z ∈ seen f') ->
  handled f src d -> handled f' src d.
Proof.
  intros Ho Hs [(a & Hx)|(? & ? & Hj)]; [left; eauto|right]. split_and!; try done.
  by eapply justified_mono.
Qed.

(** A parcel past the deduplication; [l] is what remains on its lane. *)
Lemma flow_ok_offer fuel cap f rcv src a d l w s :
  flow_ok fuel f rcv -> waiting_at f src = (a, d) :: l -> rep w s -> NoDup s ->
  (forall z, z ∈ seen f -> z ∈ s) -> live_numbers (mkParcel src a d :: outs f) ≡ₚ s ->
  flow_ok fuel (offer cap (mkParcel src a d) (mark_seen (set_waiting f src l) w s)) rcv.
Proof.
  intros F Hw R Hnd Hsub Hl. set (x := mkParcel src a d). set (g := mark_seen _ _ _).
  destruct (offer_frame cap x g) as (E1 & E2 & E3 & E4 & _). pose proof (outs_offer cap x g) as Eo.
  pose proof (fo_fits _ _ _ F src) as Fw. rewrite Hw in Fw. apply Forall_cons in Fw as [(_ & _ & Hd) Fl].
  split; rewrite ?E2, ?E3, ?E4; try done.
  - intros src'. cbn. unfold upd. case_decide as Es; [by subst src'|apply F].
  - rewrite Eo. constructor; [done|apply F].
  - by rewrite (live_numbers_perm _ _ Eo).
  - intros src' d' Hin. destruct (fo_all _ _ _ F src' d' Hin) as [Hwait|Hh].
    + cbn. unfold upd. case_decide as Es; [subst src'|by left]. rewrite Hw in Hwait.
      apply elem_of_cons in Hwait as [->|?]; [|by left]. right. left. exists a. rewrite Eo. left.
    + right. eapply handled_mono; [| |exact Hh]; [|by rewrite E4]. intros y Hy. rewrite Eo. by right.
Qed.

Lemma flow_ok_live fuel cap f rcv src f' : src <> Recovery -> flow_ok fuel f rcv ->
  flow_live fuel cap f src = Some f' -> flow_ok fuel f' rcv.
Proof.
  intros Hsrc F E. apply flow_live_inv in E. pose proof (fo_rep _ _ _ F) as R.
  destruct E as [|a d l Hw Hn|a d l w Hw Hn Hc|a d l w Hw Hn Hc]; [done| | |];
    pose proof (fo_fits _ _ _ F src) as Fw; rewrite Hw in Fw;
    apply Forall_cons in Fw as [(Hb & [Hmax Hfuel] & Hd) Fl]; cbn [snd] in *.
  - apply (flow_ok_offer fuel cap f rcv src a d l (window f) (seen f)); try done; try apply F.
    rewrite live_numbers_cons, decide_False by (cbn; intros []; congruence). apply F.
  - destruct (check_and_mark_rep fuel (window f) (seen f) (seq_of d) R) as (v & w' & E & R' & Hv & _);
      [pose proof (seq_of_nonneg d Hb); lia|done|]. rewrite Hc in E. injection E as <- <-.
    apply flow_ok_offer; try done.
    + constructor; [by apply Hv|apply F].
    + intros z Hz. by right.
    + rewrite live_numbers_cons, decide_True by done. cbn. by rewrite (fo_seen _ _ _ F).
  - destruct (check_and_mark_rep fuel (window f) (seen f) (seq_of d) R) as (v & w' & E & R' & _ & Hv);
      [pose proof (seq_of_nonneg d Hb); lia|done|]. rewrite Hc in E. injection E as <- <-.
    split; try apply F; [|done|].
    + intros src'. cbn. unfold upd. case_decide as Es; [by subst src'|apply F].
    + intros src' d' Hin. destruct (fo_all _ _ _ F src' d' Hin) as [Hwait|Hh]; [|by right].
      cbn. unfold upd. case_decide as Es; [subst src'|by left]. rewrite Hw in Hwait.
      apply elem_of_cons in Hwait as [->|?]; [|by left]. right. right. split_and!; try done.
      destruct (Hv eq_refl) as [?|[_ ?]]; [by left|by right].
Qed.

Lemma flow_ok_step fuel cap f rcv e f' : flow_ok fuel f rcv -> admissible fuel f e ->
  flow_step fuel cap f e = Some f' -> flow_ok fuel f' (rcv ++ received [e]).
Proof.
  intros F Ha E. destruct e as [src pkt ts|now now'|]; cbn [flow_step received omap list_omap] in *.
  - injection E as <-. destruct Ha as (_ & Hb & _ & Hfit). split; cbn; try apply F.
    + intros src'. unfold upd. case_decide as Es; [subst src'; apply Forall_app; split|].
      * eapply Forall_impl; [apply F|]. cbn. intros x (? & ? & ?). rewrite elem_of_app. auto.
      * constructor; [|done]. split; [done|]. split; [done|]. cbn. apply elem_of_app. right. left.
      * eapply Forall_impl; [apply F|]. cbn. intros x (? & ? & ?). rewrite elem_of_app. auto.
    + eapply Forall_impl; [apply F|]. cbn. intros x ?. apply elem_of_app. by left.
    + intros src' d Hin. unfold upd. apply elem_of_app in Hin as [Hin|Hin].
      * destruct (fo_all _ _ _ F src' d Hin) as [Hw|Hh]; [left|by right].
        case_decide as Es; [subst src'|done]. rewrite fmap_app. apply elem_of_app. by left.
      * apply list_elem_of_singleton in Hin as [= -> ->]. left. rewrite decide_True by done.
        rewrite fmap_app. apply elem_of_app. right. left.
  - rewrite app_nil_r. destruct (waiting_at f Recovery) as [|[a d] l] eqn:Hw.
    + apply bind_Some in E as (f1 & E1 & E2). eapply flow_ok_live in E1; [|done|done].
      by eapply flow_ok_live in E2.
    + injection E as <-. apply (flow_ok_offer fuel cap f rcv Recovery a d l (window f) (seen f)); try done; apply F.
  - rewrite app_nil_r. injection E as <-. destruct (merged f) as [|x l] eqn:Em; [done|].
    assert (Eo : outs (mkFlow (arrived f) (waiting_at f) (window f) (seen f) l (given f ++ [x]) (lost f)) = outs f).
    { unfold outs. cbn. by rewrite Em, <- app_assoc. }
    split; rewrite ?Eo; try apply F. intros src d Hin. unfold handled. rewrite Eo. by apply F.
Qed.

Lemma flow_run_ok fuel cap es : forall f f' rcv, flow_ok fuel f rcv -> admissible_run fuel cap f es ->
  flow_run fuel cap f es = Some f' -> flow_ok fuel f' (rcv ++ received es).
Proof.
  induction es as [|e es IH]; intros f f' rcv F Ha E; cbn [flow_run] in E.
  { injection E as <-. cbn. by rewrite app_nil_r. }
  destruct Ha as [Ha Hrest]. apply bind_Some in E as (f1 & E1 & E).
  pose proof (flow_ok_step fuel cap f rcv e f1 F Ha E1) as F1. specialize (IH f1 f' _ F1 (Hrest f1 E1) E).
  replace (rcv ++ received (e :: es)) with ((rcv ++ received [e]) ++ received es); [done|].
  rewrite <- app_assoc. f_equal. by destruct e.
Qed.

Lemma flow0_ok fuel : flow_ok fuel flow0 [].
Proof.
  split; cbn; try done; [apply NoDup_nil_2|apply rep_reset|]. intros src d Hin. by apply elem_of_nil in Hin.
Qed.

(** ** The initial state *)

Section Fresh.
Context {Q M : Type} `{Fifo Q Z} `{Fifo M MergedSlot}.

(** A newly constructed queue of a given capacity. *)
Definition empty {X A : Type} `{FifoOps X A} (x : X) (n : Z) : Prop :=
  fifo_ok x /\ fifo_cap x = Z.to_nat n /\ items x = [].

(** The rings as [FeedHandler] sets them up, memory from [mmap] being zero. *)
Definition new_receiver (q qr : Q) : ReceiverThread Q :=
  mkReceiver (mkRing (replicate (Z.to_nat PACKET_RING_DEPTH) slot0) q
                (replicate (Z.to_nat RECOVERY_RING_DEPTH) slot0) qr 0) 0 0 0.

Definition new_transport (q qr : Q) (mq : M) (timeout now : Z) : Transport Q M :=
  mkTransport (new_receiver q qr) (new_receiver q qr)
    (merge_start now (mkMerger (ring_ (new_receiver q qr)) (Some (ring_ (new_receiver q qr))) mq
       (mkMergerStats 0 0 0 0) timeout Dedup.reset 0 0 false false 0)).

Lemma slot0_ok src : slot_ok src slot0.
Proof.
  unfold slot_ok, slot0. cbn [data recv_ts]. rewrite length_replicate. split_and!; try done.
  apply Forall_replicate. range_lia.
Qed.

Lemma empty_lane src q : empty q (depth src) ->
  lane src (replicate (Z.to_nat (depth src)) slot0) q 0 [] [].
Proof.
  intros (Hok & Hc & Hi). split; try done.
  - by rewrite length_replicate.
  - apply Forall_replicate, slot0_ok.
  - intros a d Hx. by apply elem_of_nil in Hx.
Qed.

Lemma new_transport_carries fuel q qr mq timeout now cap :
  empty q PACKET_RING_DEPTH -> empty qr RECOVERY_RING_DEPTH -> empty mq cap ->
  carries fuel (Z.to_nat cap) (new_transport q qr mq timeout now) flow0.
Proof.
  intros Eq Er (Hok & Hc & Hi). split; try done. split; try done.
  - intros []; apply empty_lane; done.
  - split; [done|apply rep_reset].
Qed.

(** ** Properties *)

(** C9: exactly-once delivery over two feeds.  From the initial state, for any
    interleaving of receptions on both feeds, injections by the recovery
    thread, iterations of the merger and takes by the parser, as long as no
    slot is written while its datagram is on its way: no thread accesses
    memory out of bounds or loops; the slots handed to the parser hold, byte
    for byte, datagrams that were received; no sequence number of the live
    feeds passes the merger twice, whichever feed it came on; and every
    received datagram waits in its ring, or went on, or carries a number that
    went on or lies more than 64 below one that did. *)
Theorem two_feeds_exactly_once fuel cap (q qr : Q) (mq : M) timeout now es :
  empty q PACKET_RING_DEPTH -> empty qr RECOVERY_RING_DEPTH -> empty mq cap ->
  admissible_run fuel (Z.to_nat cap) flow0 es ->
  exists p ss f, transport_run fuel (new_transport q qr mq timeout now) es = Some (p, ss)
    /\ flow_run fuel (Z.to_nat cap) flow0 es = Some f
    /\ datagram <$> ss = p_data <$> given f
    /\ Forall (fun x => (p_src x, p_data x) ∈ received es) (outs f)
    /\ NoDup (live_numbers (outs f))
    /\ forall src d, (src, d) ∈ received es ->
         d ∈ (waiting_at f src).*2 \/ (exists a, mkParcel src a d ∈ outs f)
         \/ (src <> Recovery /\ numbered d = true /\ justified (live_numbers (outs f)) (seq_of d)).
Proof.
  intros Eq Er Em Ha. pose proof (new_transport_carries fuel q qr mq timeout now cap Eq Er Em) as C.
  destruct (transport_run_refines fuel _ es _ _ C Ha) as (p & ss & f & new & Et & Ef & _ & Hg & F2).
  pose proof (flow_run_ok fuel _ es _ _ _ (flow0_ok fuel) Ha Ef) as F. cbn [app] in F.
  exists p, ss, f. split_and!; try done.
  - rewrite Hg. cbn [flow0 given app]. clear -F2. induction F2 as [|s x ss xs [[Hd _] _] _ IH]; cbn; congruence.
  - apply F.
  - rewrite (fo_seen _ _ _ F). apply F.
  - intros src d Hin. destruct (fo_all _ _ _ F src d Hin) as [?|[?|(? & ? & Hj)]]; [by left|by right; left|].
    right; right. split_and!; try done. eapply justified_mono; [|exact Hj]. intros z. by rewrite (fo_seen _ _ _ F).
Qed.

(** *** A parser that stalls *)

(** Each datagram received on the primary feed and merged at once. *)
Definition rounds (ds : list bytes) : list Event := ds ≫= fun d => [Receive Primary d 0; Merge 0 0].

(** The flow after [n] rounds: [n] parcels in the merged queue. *)
Record stalled (f : Flow) (n : Z) : Prop := {
  sl_arrived : arrived f Primary = n;
  sl_waiting src : waiting_at f src = [];
  sl_merged : Z.of_nat (length (merged f)) = n /\ Forall (fun x => 0 <= p_no x) (merged f);
  sl_seen : rep (window f) (seen f) /\ Forall (fun z => z <= n) (seen f);
  sl_lost : lost f = [] /\ given f = []
}.

(** Consecutive data packets from number [n + 1] on. *)
Definition consecutive (fuel : nat) (n : Z) (ds : list bytes) : Prop :=
  forall i d, ds !! i = Some d -> seq_of d = n + Z.of_nat i + 1 /\ numbered d = true /\ bytes_ok d
    /\ (0 < length d <= Z.to_nat MAX_UDP_PAYLOAD)%nat /\ fits fuel d.

Lemma stalled_unlapped f n : stalled f n -> n < PACKET_RING_DEPTH -> unlapped f Primary.
Proof.
  intros S Hn a d Hx. rewrite (sl_arrived _ _ S). rewrite (sl_waiting _ _ S Primary) in Hx. cbn [app] in Hx.
  unfold flying in Hx. apply list_elem_of_fmap in Hx as (x & [= -> ->] & Hx).
  apply list_elem_of_filter in Hx as [_ Hx]. pose proof (proj2 (sl_merged _ _ S)) as F.
  rewrite Forall_forall in F. specialize (F x Hx). change (depth Primary) with PACKET_RING_DEPTH. lia.
Qed.

Lemma stalled_round fuel cap f n d : stalled f n -> 0 <= n < Z.of_nat cap -> seq_of d = n + 1 ->
  numbered d = true -> fits fuel d ->
  exists f1 f2, flow_step fuel cap f (Receive Primary d 0) = Some f1
    /\ flow_step fuel cap f1 (Merge 0 0) = Some f2 /\ stalled f2 (n + 1)
    /\ merged f2 = merged f ++ [mkParcel Primary n d].
Proof.
  intros S Hn Hseq Hnum [Hmax Hfuel]. destruct (sl_seen _ _ S) as [R Hs]. destruct (sl_merged _ _ S) as [Hl Hno].
  destruct (check_and_mark_rep fuel (window f) (seen f) (seq_of d) R ltac:(lia) Hfuel) as (v & w & Ew & R' & _ & Hv).
  assert (v = true) as ->.
  { destruct v; [done|]. rewrite Forall_forall in Hs.
    destruct (Hv eq_refl) as [Hin|[_ (y & Hin & ?)]]; specialize (Hs _ Hin); cbn in Hs; lia. }
  eexists _, _. split; [done|]. cbn [flow_step waiting_at]. rewrite (upd_ne _ Primary _ Recovery) by done.
  rewrite (sl_waiting _ _ S Recovery). unfold flow_live. cbn [waiting_at]. rewrite upd_eq, (sl_waiting _ _ S Primary).
  cbn [app]. unfold flow_handle. cbn [p_data set_waiting window seen]. rewrite Hnum.
  rewrite Ew. cbn [mbind option_bind]. unfold offer. cbn [merged mark_seen set_waiting]. rewrite decide_True by lia.
  cbn [waiting_at set_waiting mark_seen]. rewrite !upd_ne, (sl_waiting _ _ S Secondary) by done.
  rewrite (sl_arrived _ _ S). split; [done|]. split; [|done]. split; cbn.
  - apply upd_eq.
  - intros []; rewrite ?upd_eq, ?upd_ne by done; try apply S. done.
  - rewrite length_app. cbn. split; [lia|]. apply Forall_app. split; [done|]. constructor; [cbn; lia|done].
  - split; [done|]. constructor; [lia|]. eapply Forall_impl; [exact Hs|]. cbn. lia.
  - apply S.
Qed.

Lemma stalled_rounds fuel ds : forall f n, stalled f n -> 0 <= n -> n + Z.of_nat (length ds) <= MERGED_QUEUE_DEPTH ->
  consecutive fuel n ds ->
  admissible_run fuel (Z.to_nat MERGED_QUEUE_DEPTH) f (rounds ds)
  /\ exists f', flow_run fuel (Z.to_nat MERGED_QUEUE_DEPTH) f (rounds ds) = Some f'
     /\ stalled f' (n + Z.of_nat (length ds))
     /\ exists l, merged f' = merged f ++ l /\ head l = (fun d => mkParcel Primary n d) <$> head ds.
Proof.
  induction ds as [|d ds IH]; intros f n St Hn Hlen Hc.
  { split; [done|]. exists f. cbn. split; [done|]. rewrite Z.add_0_r. split; [done|]. exists []. by rewrite app_nil_r. }
  destruct (Hc 0%nat d eq_refl) as (Hseq & Hnum & Hb & Hsz & Hfit). cbn [length] in Hlen.
  destruct (stalled_round fuel (Z.to_nat MERGED_QUEUE_DEPTH) f n d St ltac:(lia) ltac:(lia) Hnum Hfit)
    as (f1 & f2 & E1 & E2 & S2 & M2).
  destruct (IH f2 (n + 1) S2) as (Ha & f' & E' & S' & l & M' & _); [lia|lia| |].
  { intros i d' Hi. destruct (Hc (S i) d' Hi) as (? & ?). split; [lia|done]. }
  split.
  - cbn [rounds mbind list_bind app admissible_run]. split.
    { split_and!; [lia|lia|done| |apply Hfit|apply Hfit]. apply (stalled_unlapped f n St).
      unfold MERGED_QUEUE_DEPTH in *. lia. }
    intros f1' E1'. rewrite E1 in E1'. injection E1' as <-. split; [done|].
    intros f2' E2'. rewrite E2 in E2'. injection E2' as <-. exact Ha.
  - exists f'. cbn [rounds mbind list_bind app flow_run]. rewrite E1. cbn [mbind option_bind]. rewrite E2. cbn [mbind option_bind].
    split; [exact E'|]. split; [cbn [length]; by replace (n + Z.of_nat (S (length ds))) with (n + 1 + Z.of_nat (length ds)) by lia|].
    exists (mkParcel Primary n d :: l). rewrite M', M2, <- app_assoc. done.
Qed.

(** Slots are recycled before they are read.  The merger takes an index
    off the ring when it queues the token, so the ring's queue no longer
    protects the slot.  When the parser stalls while 65536 consecutive packets
    are received and merged, with nothing counted as dropped anywhere, the next
    datagram is written into the slot of the first: the parser then takes a
    token for the first packet and reads the new one in its place. *)
Theorem stalled_parser_reads_other_packet fuel (q qr : Q) (mq : M) timeout now d0 ds pkt :
  empty q PACKET_RING_DEPTH -> empty qr RECOVERY_RING_DEPTH -> empty mq MERGED_QUEUE_DEPTH ->
  Z.of_nat (length (d0 :: ds)) = MERGED_QUEUE_DEPTH -> consecutive fuel 0 (d0 :: ds) ->
  (0 < length pkt <= Z.to_nat MAX_UDP_PAYLOAD)%nat -> bytes_ok pkt ->
  (exists f, flow_run fuel (Z.to_nat MERGED_QUEUE_DEPTH) flow0 (rounds (d0 :: ds)) = Some f
     /\ head (merged f) = Some (mkParcel Primary 0 d0) /\ lost f = [])
  /\ exists p s, transport_run fuel (new_transport q qr mq timeout now)
                 (rounds (d0 :: ds) ++ [Receive Primary pkt 0; Take]) = Some (p, [s])
     /\ datagram s = pkt /\ pkts_dropped_ (receiver_ p) = 0.
Proof.
  intros Eq Er Em Hlen Hc Hsz Hb. pose proof (new_transport_carries fuel q qr mq timeout now _ Eq Er Em) as C.
  assert (S0 : stalled flow0 0).
  { split; cbn; try done. split; [apply rep_reset|constructor]. }
  destruct (stalled_rounds fuel (d0 :: ds) flow0 0 S0) as (Ha & f & Ef & Sf & l & Hm & Hh); [lia|lia|done|].
  cbn [flow0 merged app] in Hm. rewrite Hlen in Sf.
  split; [exists f; rewrite Hm; split_and!; [done|done|apply Sf]|].
  destruct (transport_run_refines fuel _ _ _ _ C Ha) as (p1 & ss & f' & new & Et & Ef' & C1 & Hg & F2).
  rewrite Ef in Ef'. injection Ef' as <-. rewrite (proj2 (sl_lost _ _ Sf)) in Hg. cbn [flow0 given app] in Hg. subst new.
  apply Forall2_nil_inv_r in F2 as ->. rewrite (transport_run_app _ _ _ _ _ _ Et). cbn [app].
  destruct C1 as [C1 W1 _ _ _ [Hd1 _]]. rewrite (sl_arrived _ _ Sf) in W1.
  pose proof (ca_lanes _ _ _ _ _ _ _ _ C1 Primary) as L. rewrite (sl_arrived _ _ Sf), (sl_waiting _ _ Sf Primary) in L.
  apply (lane_fly _ _ _ _ _ _ []) in L; [|intros x Hx; by apply elem_of_nil in Hx].
  destruct (receive_lane Primary (receiver_ p1) _ _ _ pkt 0 ltac:(done) L W1) as (t & Et' & L' & _ & Hd' & _);
    [intros a e Hx; by apply elem_of_nil in Hx|done|done|].
  destruct (ln_held _ _ _ _ _ _ L' MERGED_QUEUE_DEPTH pkt) as (_ & s & Hs & Hp & _); [left|].
  cbn [transport_run transport_step receive_step]. rewrite Et'. cbn [mbind option_bind transport_run transport_step].
  unfold take_step. cbn [feed_merger_ receiver_ secondary_receiver_].
  destruct (ca_fifo _ _ _ _ _ _ _ _ C1) as [Hok _]. pose proof (ca_items _ _ _ _ _ _ _ _ C1) as Hi.
  destruct l as [|x l]; [done|]. injection Hh as ->. rewrite Hm in Hi. cbn [fmap list_fmap] in Hi.
  destruct (pop_head _ _ _ Hok Hi) as [Hpop _]. destruct (try_pop (merged_queue_ (feed_merger_ p1))) as [y q1].
  cbn [fst] in Hpop. subst y. unfold token_slot, token_of. cbn [source slot_idx p_src p_no receiver_].
  unfold slot. change (ring_mask (0 mod depth Primary)) with (Z.to_nat (MERGED_QUEUE_DEPTH mod depth Primary)).
  rewrite Hs. cbn [mbind option_bind app]. eexists _, s. split; [done|]. split; [done|]. cbn [receiver_]. congruence.
Qed.

End Fresh.

(** *** Witnesses *)

Lemma init_empty {A} k (x : A) : 0 <= k < 63 -> empty (Seq.init (Z.to_nat (2 ^ k)) x) (2 ^ k).
Proof.
  intros Hk. split; [by apply init_fifo_ok|]. split; [|done]. unfold fifo_cap. cbn [spsc_ops Seq.init Seq.buffer].
  apply length_replicate.
Qed.

Abbreviation IdxQueue := (Seq.SpscQueue Z).
Abbreviation TokenQueue := (Seq.SpscQueue MergedSlot).
Definition ring_queue : IdxQueue := Seq.init (Z.to_nat (2 ^ 16)) 0.
Definition recovery_q : IdxQueue := Seq.init (Z.to_nat (2 ^ 10)) 0.
Definition token_queue : TokenQueue := Seq.init (Z.to_nat (2 ^ 16)) token.

Lemma ring_queue_empty : empty ring_queue PACKET_RING_DEPTH.
Proof. apply (init_empty 16); lia. Qed.
Lemma recovery_q_empty : empty recovery_q RECOVERY_RING_DEPTH.
Proof. apply (init_empty 10); lia. Qed.
Lemma token_queue_empty : empty token_queue MERGED_QUEUE_DEPTH.
Proof. apply (init_empty 16); lia. Qed.

(** A header-only data packet with number [n]. *)
Definition bare_packet (n : Z) : bytes := mold_packet (replicate 10 84) n 1 [].

Lemma bare_packet_length n : length (bare_packet n) = 20%nat.
Proof. unfold bare_packet. by rewrite mold_packet_length. Qed.

Lemma bare_packet_bytes n : bytes_ok (bare_packet n).
Proof.
  unfold bare_packet. apply (mold_packet_ok (replicate 10 84) n 1 []); [|constructor].
  apply Forall_replicate. range_lia.
Qed.

Lemma bare_packet_seq n : 0 < n < 2 ^ 64 -> seq_of (bare_packet n) = n /\ numbered (bare_packet n) = true.
Proof.
  intros Hn. unfold bare_packet. apply mold_packet_numbered; [reflexivity|lia|range_lia|range_lia|discriminate].
Qed.

(** One packet on both feeds: the second copy is not handed to the parser. *)
Lemma two_feeds_exactly_once_witness :
  exists p s, transport_run 1 (new_transport ring_queue recovery_q token_queue 1000 5)
      [Receive Primary (bare_packet 7) 1; Merge 2 2; Receive Secondary (bare_packet 7) 3; Merge 4 4; Take; Take]
      = Some (p, [s]) /\ datagram s = bare_packet 7.
Proof.
  set (es := [_; _; _; _; _; _]).
  assert (Ha : admissible_run 1 (Z.to_nat MERGED_QUEUE_DEPTH) flow0 es).
  { repeat (split; [try done|intros f' E; vm_compute in E; injection E as <-]); try done;
      (split; [rewrite bare_packet_length; unfold MAX_UDP_PAYLOAD; lia|]); (split; [apply bare_packet_bytes|]);
      (split; [|done]); intros a d Hx; vm_compute in Hx; by apply elem_of_nil in Hx. }
  destruct (two_feeds_exactly_once 1 MERGED_QUEUE_DEPTH ring_queue recovery_q token_queue 1000 5 es
    ring_queue_empty recovery_q_empty token_queue_empty Ha) as (p & ss & f & Et & Ef & Hd & _).
  vm_compute in Ef. injection Ef as <-. cbn [given fmap list_fmap p_data] in Hd.
  destruct ss as [|s [|s' ss]]; [discriminate Hd| |discriminate Hd]. injection Hd as Hd.
  exists p, s. split; [exact Et|]. rewrite Hd. reflexivity.
Defined.

Definition burst : list bytes := (fun i => bare_packet (Z.of_nat i + 1)) <$> List.seq 0 (Z.to_nat MERGED_QUEUE_DEPTH).

Lemma burst_consecutive : consecutive 2000 0 burst /\ Z.of_nat (length burst) = MERGED_QUEUE_DEPTH.
Proof.
  unfold burst. rewrite length_fmap, length_seq. split; [|unfold MERGED_QUEUE_DEPTH, PACKET_RING_DEPTH; lia].
  intros i d Hi. apply list_lookup_fmap_Some in Hi as (j & -> & Hj). apply lookup_seq in Hj as [-> Hj].
  cbn [Nat.add] in *. unfold MERGED_QUEUE_DEPTH, PACKET_RING_DEPTH in Hj.
  destruct (bare_packet_seq (Z.of_nat i + 1)) as [E1 E2]; [lia|]. rewrite E1, bare_packet_length.
  split; [lia|]. split; [done|]. split; [apply bare_packet_bytes|]. unfold MAX_UDP_PAYLOAD.
  split; [lia|]. unfold fits. rewrite E1. split; [lia|]. range_lia.
Qed.

Lemma stalled_parser_reads_other_packet_witness :
  exists p s, transport_run 2000 (new_transport ring_queue recovery_q token_queue 1000 5)
      (rounds burst ++ [Receive Primary (bare_packet 9) 0; Take]) = Some (p, [s])
    /\ datagram s = bare_packet 9.
Proof.
  destruct burst_consecutive as [Hc Hl]. destruct burst as [|d0 ds] eqn:E; [discriminate Hl|].
  destruct (stalled_parser_reads_other_packet 2000 ring_queue recovery_q token_queue 1000 5 d0 ds (bare_packet 9))
    as (_ & p & s & Et & Hd & _).
  - exact ring_queue_empty.
  - exact recovery_q_empty.
  - exact token_queue_empty.
  - exact Hl.
  - exact Hc.
  - rewrite bare_packet_length. unfold MAX_UDP_PAYLOAD. lia.
  - apply bare_packet_bytes.
  - exists p, s. split; [exact Et|exact Hd].
Defined.
