(* ===== verification/EndToEnd.v ===== *)
(** * From the socket to the shard queues and the quotes

    The transport pipeline of [Pipeline] composed with the parser thread of
    [ParserThread]: every slot the parser takes off the merged queue is
    processed by [process_slot], which hands its messages to the eight shard
    queues.  The threads interleave freely; the parser is a sequential program
    over the slots it takes, so a run of the whole is a run of the transport
    followed by the processing of the slots ([system_run_split]).  With the
    shard workers of [Shards] behind the queues ([full_run]) the composition
    reaches from the datagrams to the published quotes. *)

From S2P Require Import Prelude Types Mold ItchParser Sequence Spsc PacketRing FeedMerger.
From S2P Require Import OrderMap Level2Book SeqLock Routing Session Worker ParserThread Shards Pipeline.
Import Dedup.

Section System.
Context {CB Q M R P : Type} `{FifoOps Q Z} `{FifoOps M MergedSlot} `{FifoOps R ItchMsg} `{FifoOps P SeqRecord}.
Abbreviation thread := (ParserThread CB R P).

(** One event at time [e.1]; a [Take] is an iteration of [ParserThread::run]. *)
Definition system_step (fuel : nat) (clock : nat -> Z) (st : Transport Q M * thread) (e : Z * Event)
    : option (Transport Q M * thread) :=
  '(p, ss) ← transport_step fuel st.1 e.2;
  t ← process_slots st.2 clock ((fun s => (e.1, s)) <$> ss);
  Some (p, t).

Fixpoint system_run (fuel : nat) (clock : nat -> Z) (st : Transport Q M * thread) (es : list (Z * Event))
    : option (Transport Q M * thread) :=
  match es with
  | [] => Some st
  | e :: es' => st' ← system_step fuel clock st e; system_run fuel clock st' es'
  end.

(** A [Take] does what [parser_iter] does. *)
Lemma take_is_parser_iter fuel clock (p : Transport Q M) (t : thread) now count p' t' :
  system_step fuel clock (p, t) (now, Take) = Some (p', t') ->
  exists count' calls,
    parser_iter t (merged_queue_ (feed_merger_ p)) count (ring_ (receiver_ p)) (ring_ (secondary_receiver_ p))
      now clock = Some (t', merged_queue_ (feed_merger_ p'), count', calls).
Proof.
  unfold system_step. cbn [fst snd transport_step]. intros E. apply bind_Some in E as ([p1 ss] & Et & E).
  apply bind_Some in E as (t1 & Ep & [= <- <-]). unfold take_step in Et. unfold parser_iter.
  destruct (try_pop (merged_queue_ (feed_merger_ p))) as [[ms|] q].
  - apply bind_Some in Et as (s & Es & [= <- <-]). change (resolve _ _ ms) with (token_slot p ms). rewrite Es.
    cbn [mbind option_bind fmap list_fmap process_slots] in *.
    apply bind_Some in Ep as ([t2 calls] & -> & [= <-]). by eexists _, calls.
  - injection Et as <- <-. injection Ep as <-. by eexists _, [].
Qed.

Lemma process_slots_app (t : thread) clock l1 l2 :
  process_slots t clock (l1 ++ l2) = t' ← process_slots t clock l1; process_slots t' clock l2.
Proof.
  revert t. induction l1 as [|[now s] l1 IH]; intros t; [done|]. cbn [process_slots app].
  destruct (process_slot t now clock s) as [[t1 c]|]; cbn; [apply IH|done].
Qed.

Lemma zip_same {A B} (x : A) (l : list B) : zip (replicate (length l) x) l = (fun y => (x, y)) <$> l.
Proof. induction l; cbn; congruence. Qed.

(** The transport does not depend on the parser. *)
Lemma system_run_split fuel clock es : forall (p p' : Transport Q M) (t : thread) ss,
  transport_run fuel p (es.*2) = Some (p', ss) ->
  exists nows, length nows = length ss
    /\ system_run fuel clock (p, t) es = t' ← process_slots t clock (zip nows ss); Some (p', t').
Proof.
  induction es as [|[now e] es IH]; intros p p' t ss E; cbn [fmap list_fmap snd transport_run] in E.
  { injection E as <- <-. by exists []. }
  apply bind_Some in E as ([p1 s1] & E1 & E). apply bind_Some in E as ([p2 s2] & E2 & [= <- <-]).
  set (t1 := default t (process_slots t clock ((fun s => (now, s)) <$> s1))).
  destruct (IH p1 p2 t1 s2 E2) as (nows & Hl & Hr). exists (replicate (length s1) now ++ nows).
  split; [rewrite !length_app, length_replicate; lia|]. cbn [system_run]. unfold system_step at 1. cbn [fst snd].
  rewrite E1, zip_with_app by (by rewrite length_replicate). rewrite zip_same, process_slots_app. cbn [mbind option_bind].
  unfold t1 in Hr. by destruct (process_slots t clock ((fun s => (now, s)) <$> s1)).
Qed.

End System.

(** ** One feed in order *)

(** Packets of the feed are numbered [n0 + 1], [n0 + 2], ... *)
Definition in_order (n0 : Z) (ds : list bytes) : Prop :=
  forall i d, ds !! i = Some d -> seq_of d = n0 + Z.of_nat i + 1 /\ numbered d = true.

Definition numbered_parcels (ds : list bytes) : list Parcel :=
  imap (fun i d => mkParcel Primary (Z.of_nat i) d) ds.

Definition waiting_parcels (f : Flow) : list Parcel :=
  (fun x => mkParcel Primary x.1 x.2) <$> waiting_at f Primary.

(** Everything received on the primary feed is, in order, with the parser, in
    the merged queue or in the ring, and nothing is lost. *)
Record one_feed (n0 : Z) (f : Flow) (ds : list bytes) : Prop := {
  of_order : given f ++ merged f ++ waiting_parcels f = numbered_parcels ds;
  of_arrived : arrived f Primary = Z.of_nat (length ds);
  of_other : waiting_at f Secondary = [] /\ waiting_at f Recovery = [];
  of_room : Z.of_nat (length (merged f) + length (waiting_at f Primary)) <= MERGED_QUEUE_DEPTH;
  of_seen : Forall (fun z => z <= n0 + Z.of_nat (length (given f) + length (merged f))) (seen f);
  of_lost : lost f = []
}.

Lemma order_length n0 f ds : one_feed n0 f ds ->
  (length (given f) + length (merged f) + length (waiting_at f Primary) = length ds)%nat.
Proof.
  intros O. pose proof (f_equal length (of_order _ _ _ O)) as E. unfold numbered_parcels, waiting_parcels in E.
  rewrite !length_app, length_fmap, length_imap in E. lia.
Qed.

Lemma numbered_parcels_lookup ds i x : numbered_parcels ds !! i = Some x ->
  exists d, ds !! i = Some d /\ x = mkParcel Primary (Z.of_nat i) d.
Proof.
  unfold numbered_parcels. rewrite list_lookup_imap. intros E. apply fmap_Some in E as (d & ? & ->). eauto.
Qed.

(** The oldest datagram on its way carries the number of those given. *)
Lemma oldest_flying n0 f ds : one_feed n0 f ds -> merged f ++ waiting_parcels f <> [] ->
  exists d, (Z.of_nat (length (given f)), d) ∈ waiting_at f Primary ++ flying f Primary.
Proof.
  intros O Hne. destruct (merged f ++ waiting_parcels f) as [|x l] eqn:El; [done|]. clear Hne.
  assert (Hx : numbered_parcels ds !! length (given f) = Some x).
  { rewrite <- (of_order _ _ _ O), El. by rewrite lookup_app_r, Nat.sub_diag by lia. }
  apply numbered_parcels_lookup in Hx as (d & _ & ->). exists d. apply elem_of_app.
  destruct (merged f) as [|y m] eqn:Em; cbn [app] in El.
  - left. unfold waiting_parcels in El. destruct (waiting_at f Primary) as [|[a e] w]; [done|].
    cbn in El. injection El as -> -> _. left.
  - right. injection El as -> _. unfold flying. rewrite Em, filter_cons_True by done. left.
Qed.

Lemma one_feed_receive fuel cap n0 f ds d ts f' : one_feed n0 f ds -> unlapped f Primary ->
  flow_step fuel cap f (Receive Primary d ts) = Some f' -> one_feed n0 f' (ds ++ [d]).
Proof.
  intros O Hu E. injection E as <-. pose proof (order_length n0 f ds O) as Hlen. split; cbn.
  - unfold waiting_parcels. cbn [waiting_at]. rewrite upd_eq, fmap_app, !app_assoc, <- (app_assoc (given f)).
    fold (waiting_parcels f). rewrite (of_order _ _ _ O). unfold numbered_parcels. rewrite imap_app. f_equal.
    cbn. by rewrite (of_arrived _ _ _ O), Nat.add_0_r.
  - rewrite upd_eq, (of_arrived _ _ _ O), length_app. cbn. lia.
  - rewrite !upd_ne by done. apply O.
  - rewrite upd_eq, length_app. cbn [length].
    destruct (decide (merged f ++ waiting_parcels f = [])) as [E|Hne].
    { apply app_nil in E as [-> E]. apply fmap_nil_inv in E as ->. by vm_compute. }
    destruct (oldest_flying n0 f ds O Hne) as (d' & Hin). specialize (Hu _ _ Hin).
    rewrite (of_arrived _ _ _ O) in Hu. change (depth Primary) with MERGED_QUEUE_DEPTH in Hu. lia.
  - apply O.
  - apply O.
Qed.

(** A merge passes the oldest waiting datagram on. *)
Lemma one_feed_merge fuel n0 f ds rcv now now' f' : one_feed n0 f ds -> 0 <= n0 -> in_order n0 ds ->
  flow_ok fuel f rcv -> flow_step fuel (Z.to_nat MERGED_QUEUE_DEPTH) f (Merge now now') = Some f' -> one_feed n0 f' ds.
Proof.
  intros O Hn0 Ho F E. destruct (of_other _ _ _ O) as [W2 W3]. cbn [flow_step] in E. rewrite W3 in E.
  apply bind_Some in E as (f1 & E1 & E2).
  assert (O1 : one_feed n0 f1 ds).
  2: { unfold flow_live in E2. rewrite (proj1 (of_other _ _ _ O1)) in E2. by injection E2 as <-. }
  clear E2. apply flow_live_inv in E1. inversion E1 as [|a d l Hw Hn|a d l w Hw Hn Hc|a d l w Hw Hn Hc]; [by subst| | |];
    (assert (Hx : numbered_parcels ds !! (length (given f) + length (merged f))%nat = Some (mkParcel Primary a d));
     [rewrite <- (of_order _ _ _ O); unfold waiting_parcels; rewrite Hw, lookup_app_r by lia;
      rewrite lookup_app_r by lia;
      by replace (length (given f) + length (merged f) - length (given f) - length (merged f))%nat with 0%nat by lia|]);
    apply numbered_parcels_lookup in Hx as (d' & Hd & [= Ea ->]); destruct (Ho _ _ Hd) as [Hseq Hnum];
    [congruence| |].
  - assert (Hroom : (length (merged f) < Z.to_nat MERGED_QUEUE_DEPTH)%nat).
    { pose proof (of_room _ _ _ O) as Hr. rewrite Hw in Hr. cbn [length] in Hr. lia. }
    unfold offer. cbn [merged mark_seen set_waiting]. rewrite decide_True by done. split; cbn.
    + unfold waiting_parcels. cbn [waiting_at]. rewrite upd_eq, <- (of_order _ _ _ O). unfold waiting_parcels.
      rewrite Hw. by rewrite <- app_assoc.
    + apply O.
    + rewrite !upd_ne by done. done.
    + rewrite upd_eq. pose proof (of_room _ _ _ O) as Hr. rewrite Hw in Hr. rewrite length_app. cbn [length] in *. lia.
    + rewrite length_app. cbn [length]. constructor; [lia|]. eapply Forall_impl; [apply O|]. cbn. lia.
    + apply O.
  - exfalso. pose proof (fo_fits _ _ _ F Primary) as Fw. rewrite Hw in Fw.
    apply Forall_cons in Fw as [(_ & [Hmax Hfuel] & _) _]. cbn [snd] in *. rewrite Hseq in *.
    destruct (check_and_mark_rep fuel (window f) (seen f)
      (n0 + Z.of_nat (length (given f) + length (merged f)) + 1) (fo_rep _ _ _ F) ltac:(lia) Hfuel)
      as (v & w' & E & _ & _ & Hv). rewrite Hc in E. injection E as <- <-.
    pose proof (of_seen _ _ _ O) as Hs. rewrite Forall_forall in Hs.
    destruct (Hv eq_refl) as [Hin|[_ (y & Hin & ?)]]; specialize (Hs _ Hin); cbn in Hs; lia.
Qed.

Lemma one_feed_take fuel cap n0 f ds f' : one_feed n0 f ds -> flow_step fuel cap f Take = Some f' -> one_feed n0 f' ds.
Proof.
  intros O E. injection E as <-. destruct (merged f) as [|x l] eqn:Em; [done|]. split; cbn; try apply O.
  - rewrite <- (of_order _ _ _ O), Em. unfold waiting_parcels. by rewrite <- app_assoc.
  - pose proof (of_room _ _ _ O) as Hr. rewrite Em in Hr. cbn [length] in Hr. lia.
  - eapply Forall_impl; [apply O|]. cbn. intros z. rewrite Em, length_app. cbn [length]. lia.
Qed.

Lemma one_feed_run fuel n0 es : 0 <= n0 -> forall f f' ds rcv more, one_feed n0 f ds -> flow_ok fuel f rcv ->
  received es = (fun d => (Primary, d)) <$> more -> in_order n0 (ds ++ more) ->
  admissible_run fuel (Z.to_nat MERGED_QUEUE_DEPTH) f es ->
  flow_run fuel (Z.to_nat MERGED_QUEUE_DEPTH) f es = Some f' -> one_feed n0 f' (ds ++ more).
Proof.
  intros Hn0. induction es as [|e es IH]; intros f f' ds rcv more O F Hr Ho Ha E; cbn [flow_run] in E.
  { symmetry in Hr. apply fmap_nil_inv in Hr as ->. injection E as <-. by rewrite app_nil_r. }
  destruct Ha as [Ha Hrest]. apply bind_Some in E as (f1 & E1 & E). specialize (Hrest f1 E1).
  pose proof (flow_ok_step fuel _ f rcv e f1 F Ha E1) as F1. destruct e as [src d ts|now now'|].
  - destruct more as [|d' more]; [discriminate Hr|]. cbn in Hr. injection Hr as -> -> Hr.
    rewrite cons_middle, app_assoc in *. apply (IH f1 f' (ds ++ [d']) _ more) with (2 := F1); try done.
    eapply one_feed_receive; [done|apply Ha|done].
  - apply (IH f1 f' ds _ more) with (2 := F1); try done.
    eapply one_feed_merge; try done. intros i d Hi. apply Ho. by apply lookup_app_l_Some.
  - apply (IH f1 f' ds _ more) with (2 := F1); try done. by eapply one_feed_take.
Qed.

(** A packet of [ms] on the wire. *)
Definition wire_packet (sess : bytes) (n : Z) (ms : list ItchMsg) (d : bytes) : Prop :=
  Z.of_nat (length ms) <= MAX_MSGS_PER_PACKET /\ Forall msg_ok ms /\ Forall (fun m => recv_timestamp m = 0) ms
  /\ exists tracking bs, encode_blocks tracking ms = Some bs /\ d = mold_packet sess n (Z.of_nat (length ms)) bs.

(** A message with another receive time. *)
Definition stamp (ts : Z) (m : ItchMsg) : ItchMsg := mkMsg (type m) (locate m) (timestamp m) ts (body m).

Lemma encode_blocks_stamp tracking ts ms : encode_blocks tracking (stamp ts <$> ms) = encode_blocks tracking ms.
Proof. induction ms as [|m ms IH]; [done|]. rewrite fmap_cons. cbn [encode_blocks]. by rewrite IH. Qed.

Lemma stamp_same ts ms : Forall (fun m => recv_timestamp m = ts) ms -> stamp ts <$> ms = ms.
Proof. induction 1 as [|[] ms Hm _ IH]; [done|]. rewrite fmap_cons, IH. cbn in *. by subst. Qed.

(** A slot with a packet of the wire: its messages get the receive time. *)
Lemma wire_packet_stamped src s sess n ms d : contains s d -> slot_ok src s -> wire_packet sess n ms d ->
  bytes_ok sess -> length sess = 10%nat -> in_range 64 n -> holds_packet s sess n (stamp (recv_ts s) <$> ms).
Proof.
  intros [Hd Hl] (Hlen & Hb & _) (Hc & Hm & Hts & tracking & bs & He & Ed) Hs Hs10 Hn.
  split; try done; rewrite ?length_fmap; try done.
  - split; apply Forall_fmap; [exact Hm|]. by apply Forall_true.
  - exists tracking, bs, (drop (length d) (data s)). rewrite encode_blocks_stamp. split; [done|]. split; [by apply Forall_drop|]. split.
    + rewrite <- (take_drop (length d) (data s)) at 1. unfold datagram in Hd. rewrite Hl, Nat2Z.id in Hd.
      rewrite Hd, Ed. unfold mold_packet. by rewrite <- !app_assoc.
    + rewrite Hl, Ed, mold_packet_length by done. lia.
Qed.

Lemma wire_packet_slot s sess n ms d : contains s d -> slot_ok Primary s -> wire_packet sess n ms d ->
  bytes_ok sess -> length sess = 10%nat -> in_range 64 n -> holds_packet s sess n ms /\ recv_ts s = 0.
Proof.
  intros Hd Ho Hw Hs Hs10 Hn. pose proof (proj2 (proj2 Ho) ltac:(done)) as Ht. split; [|done].
  pose proof (wire_packet_stamped Primary s sess n ms d Hd Ho Hw Hs Hs10 Hn) as Hp. rewrite Ht, stamp_same in Hp; [done|apply Hw].
Qed.

Lemma wire_packet_numbered sess n ms d : wire_packet sess n ms d -> length sess = 10%nat -> 0 < n -> in_range 64 n ->
  seq_of d = n /\ numbered d = true.
Proof.
  intros (Hc & _ & _ & tracking & bs & _ & ->) Hs Hn Hr. unfold MAX_MSGS_PER_PACKET in Hc.
  apply mold_packet_numbered; try done; [range_lia|]. unfold MOLDUDP64_HEARTBEAT. lia.
Qed.

(** The slots the parser has taken hold the packets sent, in order. *)
Lemma given_slots_hold n f ds ss sess (packets : list (list ItchMsg)) i s ms :
  one_feed n f ds -> Forall2 (fun s x => contains s (p_data x) /\ slot_ok (p_src x) s) ss (given f) ->
  (forall i d, ds !! i = Some d -> exists ms, packets !! i = Some ms /\ wire_packet sess (n + Z.of_nat i + 1) ms d) ->
  0 <= n -> n + Z.of_nat (length ds) < 2 ^ 64 - 1 -> bytes_ok sess -> length sess = 10%nat ->
  ss !! i = Some s -> packets !! i = Some ms -> holds_packet s sess (n + Z.of_nat i + 1) ms /\ recv_ts s = 0.
Proof.
  intros O F2 Hp Hn0 Hn Hsb Hs10 Hsi Hms. destruct (Forall2_lookup_l _ _ _ _ _ F2 Hsi) as (x & Hx & Hcon & Hok).
  assert (Hx' : numbered_parcels ds !! i = Some x)
    by (rewrite <- (of_order _ _ _ O); by apply lookup_app_l_Some).
  apply numbered_parcels_lookup in Hx' as (d & Hd & ->). destruct (Hp i d Hd) as (ms' & Hms' & Hw).
  rewrite Hms in Hms'. injection Hms' as <-. apply lookup_lt_Some in Hd.
  apply (wire_packet_slot s sess _ ms d); try done. range_lia.
Qed.

(** ** Properties *)

Section EndToEnd.
Context {CB Q M R P : Type} `{Fifo Q Z} `{Fifo M MergedSlot} `{Fifo R ItchMsg} `{FifoOps P SeqRecord}.

(** The slots the parser takes from a feed in order are its packets. *)
Lemma taken_slots fuel (q qr : Q) (mq : M) timeout now0 es sess n ds (packets : list (list ItchMsg)) :
  empty q PACKET_RING_DEPTH -> empty qr RECOVERY_RING_DEPTH -> empty mq MERGED_QUEUE_DEPTH ->
  bytes_ok sess -> length sess = 10%nat -> 0 <= n -> n + Z.of_nat (length ds) < 2 ^ 64 - 1 ->
  received es = (fun d => (Primary, d)) <$> ds ->
  (forall i d, ds !! i = Some d -> exists ms, packets !! i = Some ms /\ wire_packet sess (n + Z.of_nat i + 1) ms d) ->
  admissible_run fuel (Z.to_nat MERGED_QUEUE_DEPTH) flow0 es ->
  exists p ss f, transport_run fuel (new_transport q qr mq timeout now0) es = Some (p, ss)
    /\ flow_run fuel (Z.to_nat MERGED_QUEUE_DEPTH) flow0 es = Some f
    /\ length ss = length (given f)
    /\ (length (given f) + length (merged f) + length (waiting_at f Primary) = length ds)%nat
    /\ forall i s, ss !! i = Some s -> exists ms, packets !! i = Some ms
         /\ holds_packet s sess (n + Z.of_nat i + 1) ms /\ recv_ts s = 0.
Proof.
  intros Eq Er Em Hsb Hs10 Hn0 Hn Hr Hp Ha.
  pose proof (new_transport_carries fuel q qr mq timeout now0 _ Eq Er Em) as C.
  destruct (transport_run_refines fuel _ _ _ _ C Ha) as (p & ss & f & new & Et & Ef & _ & Hg & F2).
  cbn [flow0 given app] in Hg. subst new.
  assert (O0 : one_feed n flow0 []) by (split; cbn; try done).
  assert (Hord : in_order n ds).
  { intros i d Hi. destruct (Hp i d Hi) as (ms & _ & Hw). pose proof (lookup_lt_Some _ _ _ Hi).
    apply (wire_packet_numbered sess _ ms); [done|done|lia|range_lia]. }
  pose proof (one_feed_run fuel n _ Hn0 _ _ [] [] ds O0 (flow0_ok fuel) Hr Hord Ha Ef) as O. cbn [app] in O.
  pose proof (order_length n f ds O) as Hlen. pose proof (Forall2_length _ _ _ F2) as Hss.
  exists p, ss, f. split_and!; [done..|]. intros i s Hi.
  destruct (lookup_lt_is_Some_2 ds i) as [d Hd]; [apply lookup_lt_Some in Hi; lia|].
  destruct (Hp i d Hd) as (ms & Hms & _). exists ms. split; [done|].
  by apply (given_slots_hold n f ds ss sess packets i s ms).
Qed.

(** End to end, nothing lost.  The packets of a session arrive in order
    on the primary feed while receiver, merger and parser interleave in any
    way, as long as the parser is fewer than 65536 packets behind.  Then every
    packet received is processed, in the merged queue or in the ring; the
    tracker stands at the number of packets processed, with no gap and no
    duplicate counted; and every shard queue was offered exactly the messages
    of those packets that are addressed to it, in order. *)
Theorem in_order_feed_end_to_end fuel cap (q qr : Q) (mq : M) timeout now0 (t : ParserThread CB R P) clock es sess
    ds packets :
  empty q PACKET_RING_DEPTH -> empty qr RECOVERY_RING_DEPTH -> empty mq MERGED_QUEUE_DEPTH ->
  parser_ok cap t -> tracker_ok (seq_tracker_ (env_ t)) -> in_range 64 (messages_parsed t) ->
  bytes_ok sess -> length sess = 10%nat -> sess = take 10 (session_ (session_mgr_ t)) ->
  let n := seq (seq_tracker_ (env_ t)) in n + Z.of_nat (length ds) < 2 ^ 64 - 1 ->
  received (es.*2) = (fun d => (Primary, d)) <$> ds ->
  (forall i d, ds !! i = Some d -> exists ms, packets !! i = Some ms /\ wire_packet sess (n + Z.of_nat i + 1) ms d) ->
  admissible_run fuel (Z.to_nat MERGED_QUEUE_DEPTH) flow0 (es.*2) ->
  exists p t' f, system_run fuel clock (new_transport q qr mq timeout now0, t) es = Some (p, t')
    /\ flow_run fuel (Z.to_nat MERGED_QUEUE_DEPTH) flow0 (es.*2) = Some f
    /\ let k := length (given f) in
       (k + length (merged f) + length (waiting_at f Primary) = length ds)%nat
       /\ seq (seq_tracker_ (env_ t')) = n + Z.of_nat k
       /\ sequence_gaps t' = sequence_gaps t /\ sequence_dups t' = sequence_dups t
       /\ messages_parsed t' = messages_parsed t +64 Z.of_nat (length (concat (take k packets)))
       /\ forall out sh v, shows (router_ (env_ t), out) sh v ->
            shows (router_ (env_ t'), out) sh
              (foldl (view_push cap) v (filter (fun m => targets m sh = true) (concat (take k packets)))).
Proof.
  intros Eq Er Em Po Htr Hmp Hsb Hs10 Hs n Hn Hr Hp Ha.
  destruct (taken_slots fuel q qr mq timeout now0 (es.*2) sess n ds packets) as (p & ss & f & Et & Ef & Hss & Hlen & Hhold);
    try done; [apply Htr|].
  destruct (system_run_split fuel clock es _ _ t ss Et) as (nows & Hl & Hrun).
  set (k := length (given f)) in *.
  assert (Hpk : (k <= length packets)%nat).
  { destruct (decide (k = 0%nat)) as [->|]; [lia|].
    destruct (lookup_lt_is_Some_2 ds (k - 1)) as [d Hd]; [lia|].
    destruct (Hp _ _ Hd) as (ms & Hms & _). apply lookup_lt_Some in Hms. lia. }
  set (l := zip (zip nows ss) (take k packets)).
  assert (Hl1 : l.*1 = zip nows ss) by (apply fst_zip; rewrite length_zip, length_take; lia).
  assert (Hl2 : l.*2 = take k packets) by (apply snd_zip; rewrite length_zip, length_take; lia).
  assert (Hll : length l = k) by (unfold l; rewrite !length_zip, length_take; lia).
  destruct (in_order_run cap sess clock l t n Po) as (t' & E & T & G & D & Mp & V); try done.
  { rewrite Hll. lia. }
  { intros i now s ms Hi. apply lookup_zip_with_Some in Hi as (? & ? & [= <- <-] & Hi & Hms).
    apply lookup_zip_with_Some in Hi as (? & ? & [= <- <-] & _ & Hsi). apply lookup_take_Some in Hms as [Hms _].
    destruct (Hhold i s Hsi) as (ms' & Hms' & Hh & Hts). rewrite Hms in Hms'. injection Hms' as <-.
    split; [done|]. intros j. left. lia. }
  rewrite Hl1 in E. rewrite E in Hrun. rewrite Hl2, Hll in *. exists p, t', f. split_and!; done.
Qed.

End EndToEnd.

(** ** With the shard workers *)

(** An event of the transport and the parser, or an iteration of a worker. *)
Inductive FullEvent :=
  | Net (now : Z) (e : Event)
  | Shard (sh : nat) (after : Z).

Definition net_events (es : list FullEvent) : list Event :=
  omap (fun e => match e with Net _ e => Some e | Shard _ _ => None end) es.

(** What holds of every worker event. *)
Definition all_shards (Pw : nat -> Z -> Prop) (es : list FullEvent) : Prop :=
  Forall (fun e => match e with Shard sh after => Pw sh after | _ => True end) es.

Definition all_works (Pw : nat -> Z -> Prop) (es : list StageEvent) : Prop :=
  Forall (fun e => match e with Work sh after => Pw sh after | _ => True end) es.

(** Every worker event names a shard. *)
Definition known_shards : list FullEvent -> Prop := all_shards (fun sh _ => (sh < Z.to_nat NUM_SHARDS)%nat).
Definition known_works : list StageEvent -> Prop := all_works (fun sh _ => (sh < Z.to_nat NUM_SHARDS)%nat).

(** What is known of the packets, attached to the slots in order. *)
Fixpoint attach {A} (none : A) (es : list StageEvent) (packets : list A) : list (StageEvent * A) :=
  match es with
  | [] => []
  | Slot now s :: es' => (Slot now s, default none (head packets)) :: attach none es' (tail packets)
  | Work sh a :: es' => (Work sh a, none) :: attach none es' packets
  end.

Lemma attach_fst {A} (none : A) es : forall packets, (attach none es packets).*1 = es.
Proof.
  induction es as [|[now s|sh a] es IH]; intros packets; [done|..]; cbn [attach fmap list_fmap fst]; by rewrite IH.
Qed.

Lemma attach_concat {A} es : forall packets : list (list A),
  concat ((attach [] es packets).*2) = concat (take (length (slots_of es)) packets).
Proof.
  induction es as [|[now s|sh a] es IH]; intros packets; [done| |by apply IH].
  cbn [attach fmap list_fmap snd concat slots_of omap list_omap length]. rewrite IH. fold (slots_of es).
  destruct packets as [|p ps]; [cbn; by rewrite take_nil|done].
Qed.

Lemma attach_in_order sess es : known_works es -> forall packets n,
  n + Z.of_nat (length (slots_of es)) < 2 ^ 64 - 1 ->
  (forall i s, slots_of es !! i = Some s -> exists ms, packets !! i = Some ms
     /\ holds_packet s sess (n + Z.of_nat i + 1) ms /\ recv_ts s = 0 /\ Forall (fun m => type m <> SystemEvent) ms) ->
  feed_in_order sess n (attach [] es packets).
Proof.
  induction 1 as [|[now s|sh a] es He _ IH]; intros packets n Hb Hall; [done|..]; cbn [attach feed_in_order].
  - change (slots_of (Slot now s :: es)) with (s :: slots_of es) in *. cbn [length] in Hb.
    destruct (Hall 0%nat s eq_refl) as (ms & Hms & Hp & Hts & Hev). rewrite Z.add_0_r in Hp.
    destruct packets as [|p ps]; [done|]. injection Hms as ->. cbn [head default tail].
    split_and!; [lia|done|done|done|]. apply IH; [lia|]. intros i s' Hi. destruct (Hall (S i) s' Hi) as (ms' & Hms' & Hp' & Rest).
    exists ms'. split; [done|]. split; [|done]. by replace (n + 1 + Z.of_nat i + 1) with (n + Z.of_nat (S i) + 1) by lia.
  - split; [done|]. split; [done|]. by apply IH.
Qed.

Section Full.
Context {CB Q M R P N : Type} `{FifoOps Q Z} `{FifoOps M MergedSlot} `{FifoOps R ItchMsg} `{FifoOps P SeqRecord}
  `{MapOps N}.
Abbreviation state := (Transport Q M * (ParserThread CB R P * list (ShardWorker N)))%type.

Definition full_step (fuel : nat) (clock : nat -> Z) (st : state) (e : FullEvent) : option state :=
  match e with
  | Net now e =>
      '(p, ss) ← transport_step fuel st.1 e;
      st' ← stage_run clock st.2 (Slot now <$> ss);
      Some (p, st')
  | Shard sh after => st' ← stage_step clock st.2 (Work sh after); Some (st.1, st')
  end.

Fixpoint full_run (fuel : nat) (clock : nat -> Z) (st : state) (es : list FullEvent) : option state :=
  match es with
  | [] => Some st
  | e :: es' => st' ← full_step fuel clock st e; full_run fuel clock st' es'
  end.

Lemma stage_run_app clock (st : ParserThread CB R P * list (ShardWorker N)) l1 l2 :
  stage_run clock st (l1 ++ l2) = st' ← stage_run clock st l1; stage_run clock st' l2.
Proof.
  revert st. induction l1 as [|e l1 IH]; intros st; [done|]. cbn [stage_run app].
  destruct (stage_step clock st e) as [st1|]; cbn; [apply IH|done].
Qed.

(** The transport depends neither on the parser nor on the workers. *)
Lemma full_run_split Pw fuel clock es : all_shards Pw es -> forall (p p' : Transport Q M) st ss,
  transport_run fuel p (net_events es) = Some (p', ss) ->
  exists ses, slots_of ses = ss /\ all_works Pw ses
    /\ full_run fuel clock (p, st) es = st' ← stage_run clock st ses; Some (p', st').
Proof.
  induction 1 as [|e es He _ IH]; intros p p' st ss E.
  { injection E as <- <-. exists []. by split_and!; [|constructor|]. }
  destruct e as [now e|sh after]; cbn [full_run full_step fst snd].
  - change (net_events (Net now e :: es)) with (e :: net_events es) in E. cbn [transport_run] in E.
    apply bind_Some in E as ([p1 s1] & E1 & E). apply bind_Some in E as ([p2 s2] & E2 & [= <- <-]).
    rewrite E1. cbn [mbind option_bind].
    set (st1 := default st (stage_run clock st (Slot now <$> s1))).
    destruct (IH p1 p2 st1 s2 E2) as (ses & Hs & Hk & Hr). exists ((Slot now <$> s1) ++ ses). split_and!.
    + unfold slots_of. rewrite omap_app. fold (slots_of ses). rewrite Hs. f_equal. clear. induction s1; cbn; congruence.
    + apply Forall_app_2; [|done]. apply Forall_fmap, Forall_true. done.
    + rewrite stage_run_app. unfold st1 in Hr. by destruct (stage_run clock st (Slot now <$> s1)).
  - change (net_events (Shard sh after :: es)) with (net_events es) in E.
    set (st1 := default st (stage_step clock st (Work sh after))).
    destruct (IH p p' st1 ss E) as (ses & Hs & Hk & Hr). exists (Work sh after :: ses). split_and!.
    + done.
    + by constructor.
    + cbn [stage_run]. unfold st1 in Hr. by destruct (stage_step clock st (Work sh after)).
Qed.

End Full.

Section Quotes.
Context {CB Q M R P N : Type} `{Fifo Q Z} `{Fifo M MergedSlot} `{Fifo R ItchMsg} `{FifoOps P SeqRecord} `{MapOps N}.

(** The messages that go to a shard. *)
Definition to_shard (sh : nat) (msgs : list ItchMsg) : list ItchMsg := filter (fun m => targets m sh = true) msgs.

(** The shards after the parser has handed on [msgs]: each has applied a prefix
    of the messages addressed to it, in order, as it would on its own, the rest
    waits in its queue, and the quotes of its symbols are those the application
    published. *)
Definition shards_follow (t : ParserThread CB R P) (ws : list (ShardWorker N)) (t' : ParserThread CB R P)
    (ws' : list (ShardWorker N)) (msgs : list ItchMsg) : Prop :=
  forall sh w, ws !! sh = Some w -> exists applied queued w' pub',
    applied ++ queued = to_shard sh msgs
    /\ (items <$> queues_ (router_ (env_ t')) !! sh) = Some queued
    /\ shard_run (session_mgr_ t) w (bbo_pub_ (env_ t)) applied = Some (w', pub')
    /\ ws' !! sh = Some w'
    /\ forall loc, 0 <= loc -> loc mod NUM_SHARDS = Z.of_nat sh ->
         read_bbo (bbo_pub_ (env_ t')) loc = read_bbo pub' loc.

(** The queue of each shard has room for [msgs] and the shard can apply them. *)
Definition shards_can (cap : nat) (t : ParserThread CB R P) (ws : list (ShardWorker N)) (msgs : list ItchMsg) : Prop :=
  forall sh w, ws !! sh = Some w ->
    (length (to_shard sh msgs) <= cap)%nat
    /\ is_Some (shard_run (session_mgr_ t) w (bbo_pub_ (env_ t)) (to_shard sh msgs)).

(** Parser and workers over a transport that yields the packets in order. *)
Lemma slots_to_quotes fuel cap (p0 p : Transport Q M) (t : ParserThread CB R P) (ws : list (ShardWorker N)) clock es
    sess ss (packets : list (list ItchMsg)) :
  stage_start cap sess t ws -> known_shards es ->
  let n := seq (seq_tracker_ (env_ t)) in n + Z.of_nat (length ss) < 2 ^ 64 - 1 ->
  transport_run fuel p0 (net_events es) = Some (p, ss) ->
  (forall i s, ss !! i = Some s -> exists ms, packets !! i = Some ms
     /\ holds_packet s sess (n + Z.of_nat i + 1) ms /\ recv_ts s = 0) ->
  Forall (Forall (fun m => type m <> SystemEvent)) packets -> shards_can cap t ws (concat packets) ->
  exists t' ws', full_run fuel clock (p0, (t, ws)) es = Some (p, (t', ws'))
    /\ seq (seq_tracker_ (env_ t')) = n + Z.of_nat (length ss)
    /\ sequence_gaps t' = sequence_gaps t /\ sequence_dups t' = sequence_dups t
    /\ shards_follow t ws t' ws' (concat (take (length ss) packets)).
Proof.
  intros St Hk n Hn Et Hhold Hev Hrun.
  destruct (full_run_split _ fuel clock es Hk _ _ (t, ws) ss Et) as (ses & Hs & Hkw & Hfull).
  set (k := length ss) in *. set (aes := attach [] ses packets).
  assert (Hf : feed_in_order sess n aes).
  { apply attach_in_order; [done|rewrite Hs; lia|]. intros i s Hi. rewrite Hs in Hi.
    destruct (Hhold i s Hi) as (ms & Hms & Hh & Hts). exists ms. split_and!; try done. by eapply Forall_lookup_1. }
  assert (Hmsgs : concat (aes.*2) = concat (take k packets)) by (unfold aes; by rewrite attach_concat, Hs).
  assert (Hto : forall sh, to_shard sh (concat packets) = to_shard sh (concat (take k packets)) ++ to_shard sh (concat (drop k packets))).
  { intros sh. unfold to_shard. by rewrite <- filter_app, <- concat_app, take_drop. }
  assert (Hview : forall sh w, ws !! sh = Some w -> let v := foldl (view_event cap sh) (mkView [] [] 0) aes in
    popped v ++ waiting v = to_shard sh (concat (take k packets))).
  { intros sh w Hw. destruct (Hrun sh w Hw) as [Hcap _]. rewrite Hto, length_app in Hcap.
    pose proof (view_events_room cap sh aes (feed_in_order_works sess aes _ Hf) (mkView [] [] 0)) as Hroom.
    rewrite Hmsgs in Hroom. apply Hroom. cbn. unfold to_shard in Hcap. lia. }
  destruct (stage_start_run cap sess t ws clock aes St Hf) as (t' & ws' & E & Hseq & Hg & Hd & Hall).
  { intros sh w Hw. destruct (Hrun sh w Hw) as [_ [x Hx]].
    rewrite Hto, <- (Hview sh w Hw), <- app_assoc, shard_run_app in Hx.
    apply bind_Some in Hx as (y & Hy & _). by exists y. }
  unfold aes in E, Hseq. rewrite attach_fst in E, Hseq. rewrite Hs in Hseq.
  exists t', ws'. split; [by rewrite Hfull, E|]. split_and!; try done.
  intros sh w Hw. destruct (Hall sh w Hw) as (Hq & w' & pub' & Er' & Ew & Hread).
  eexists _, _, w', pub'. split; [by apply (Hview sh w)|]. done.
Qed.

(** C6: from the datagrams to the quotes.  The packets of an open session,
    without system events, arrive in order on the primary feed; receivers,
    merger, parser and the eight workers interleave in any way in which no slot
    is reused while its datagram is on its way, the parser being less than a
    ring behind, and the shard queues have room for all messages addressed to
    them.  Then no
    thread faults unless a shard would on its own; every packet is processed,
    in the merged queue or in the ring; each shard has applied a prefix of the
    messages addressed to it in the packets processed, in order, and the rest
    waits in its queue; and every quote of the shard that can be read is the
    one this sequential application published. *)
Theorem feed_to_quotes fuel cap (q qr : Q) (mq : M) timeout now0 (t : ParserThread CB R P)
    (ws : list (ShardWorker N)) clock es sess ds (packets : list (list ItchMsg)) :
  empty q PACKET_RING_DEPTH -> empty qr RECOVERY_RING_DEPTH -> empty mq MERGED_QUEUE_DEPTH ->
  stage_start cap sess t ws -> bytes_ok sess -> length sess = 10%nat -> known_shards es ->
  let n := seq (seq_tracker_ (env_ t)) in n + Z.of_nat (length ds) < 2 ^ 64 - 1 ->
  received (net_events es) = (fun d => (Primary, d)) <$> ds ->
  (forall i d, ds !! i = Some d -> exists ms, packets !! i = Some ms /\ wire_packet sess (n + Z.of_nat i + 1) ms d) ->
  Forall (Forall (fun m => type m <> SystemEvent)) packets ->
  admissible_run fuel (Z.to_nat MERGED_QUEUE_DEPTH) flow0 (net_events es) ->
  shards_can cap t ws (concat packets) ->
  exists p t' ws' f, full_run fuel clock (new_transport q qr mq timeout now0, (t, ws)) es = Some (p, (t', ws'))
    /\ flow_run fuel (Z.to_nat MERGED_QUEUE_DEPTH) flow0 (net_events es) = Some f
    /\ (length (given f) + length (merged f) + length (waiting_at f Primary) = length ds)%nat
    /\ shards_follow t ws t' ws' (concat (take (length (given f)) packets)).
Proof.
  intros Eq Er Em St Hsb Hs10 Hk n Hn Hr Hp Hev Ha Hrun.
  destruct (taken_slots fuel q qr mq timeout now0 (net_events es) sess n ds packets)
    as (p & ss & f & Et & Ef & Hss & Hlen & Hhold); try done; [apply (ss_tracker _ _ _ _ St)|].
  destruct (slots_to_quotes fuel cap (new_transport q qr mq timeout now0) p t ws clock es sess ss packets St Hk)
    as (t' & ws' & E & _ & _ & _ & Hall); try done; [lia|].
  exists p, t', ws', f. by rewrite Hss in Hall.
Qed.

End Quotes.

(** *** Witness *)

Definition one_order_packet : bytes := mold_packet sample_session 8 1 (default [] (encode_blocks 0 [wire_order])).

Lemma one_order_on_wire : wire_packet sample_session 8 [wire_order] one_order_packet.
Proof.
  split; [unfold MAX_MSGS_PER_PACKET; cbn; lia|]. split; [apply Forall_cons_2; [exact wire_order_ok|apply Forall_nil_2]|].
  split; [repeat constructor|]. unfold one_order_packet.
  destruct (encode_blocks 0 [wire_order]) as [bs|] eqn:E; [|vm_compute in E; discriminate].
  by exists 0, bs.
Qed.

Lemma one_order_bytes : bytes_ok one_order_packet.
Proof.
  unfold one_order_packet. destruct (encode_blocks 0 [wire_order]) as [bs|] eqn:E; [|vm_compute in E; discriminate].
  apply mold_packet_ok; [unfold sample_session; cbn; concrete|]. cbn [default].
  apply (encode_blocks_ok 0 _ _ E). apply Forall_cons_2; [exact wire_order_ok|apply Forall_nil_2].
Qed.

Lemma in_order_feed_end_to_end_witness :
  exists p t',
    system_run 1 (fun _ => 0)
      (new_transport ring_queue recovery_q token_queue 1000 5, sample_thread (Some sample_session) (tracker_init 7))
      [(0, Receive Primary one_order_packet 0); (0, Merge 0 0); (0, Take)] = Some (p, t')
    /\ seq (seq_tracker_ (env_ t')) = 8
    /\ shows (router_ (env_ t'), replicate 8 []) 3 (mkView [wire_order] [] 0).
Proof.
  set (es := [_; _; _]).
  assert (Ha : admissible_run 1 (Z.to_nat MERGED_QUEUE_DEPTH) flow0 (es.*2)).
  { cbn [fmap list_fmap snd es]. split; [|intros f' E; split; [done|]; intros f2 E2; split; [done|]; done].
    split; [vm_compute; lia|]. split; [exact one_order_bytes|].
    split; [intros a d Hx; vm_compute in Hx; by apply elem_of_nil in Hx|]. split; reflexivity. }
  destruct (in_order_feed_end_to_end 1 2 ring_queue recovery_q token_queue 1000 5
    (sample_thread (Some sample_session) (tracker_init 7)) (fun _ => 0) es sample_session [one_order_packet] [[wire_order]])
    as (p & t' & f & E & Ef & _ & T & _ & _ & _ & V).
  - exact ring_queue_empty.
  - exact recovery_q_empty.
  - exact token_queue_empty.
  - apply sample_thread_ok.
  - split; cbn; concrete.
  - cbn. concrete.
  - cbn. concrete.
  - reflexivity.
  - reflexivity.
  - cbn. lia.
  - reflexivity.
  - intros [|i] d Hd; [|discriminate Hd]. injection Hd as <-. exists [wire_order]. split; [reflexivity|exact one_order_on_wire].
  - exact Ha.
  - vm_compute in Ef. injection Ef as <-. exists p, t'. split; [exact E|]. split; [exact T|].
    apply (V (replicate 8 []) 3%nat (mkView [] [] 0)). split_and!; reflexivity.
Defined.

Definition full_events : list FullEvent :=
  [Net 0 (Receive Primary one_order_packet 0); Shard 3 0; Net 0 (Merge 0 0); Net 0 Take; Shard 3 0].

Lemma feed_to_quotes_witness :
  exists p t' ws',
    full_run 1 (fun _ => 0) (new_transport ring_queue recovery_q token_queue 1000 5, (open_thread, fresh_workers)) full_events
      = Some (p, (t', ws'))
    /\ exists applied queued w' pub', applied ++ queued = [wire_order]
         /\ shard_run (session_mgr_ open_thread) fresh_worker (new_publisher 16) applied = Some (w', pub')
         /\ ws' !! 3%nat = Some w' /\ read_bbo (bbo_pub_ (env_ t')) 11 = read_bbo pub' 11.
Proof.
  assert (Ha : admissible_run 1 (Z.to_nat MERGED_QUEUE_DEPTH) flow0 (net_events full_events)).
  { split; [|intros f' E; split; [done|]; intros f2 E2; split; [done|]; done].
    split; [vm_compute; lia|]. split; [exact one_order_bytes|].
    split; [intros a d Hx; vm_compute in Hx; by apply elem_of_nil in Hx|]. split; reflexivity. }
  assert (H3 : fresh_workers !! 3%nat = Some fresh_worker) by reflexivity.
  destruct (wire_order_applies (session_mgr_ open_thread) eq_refl) as (w3 & pub3 & E3 & _).
  assert (Hto : forall sh, (sh < 8)%nat -> to_shard sh (concat [[wire_order]])
    = if decide (sh = 3%nat) then [wire_order] else []).
  { intros sh Hsh. do 8 (destruct sh as [|sh]; [reflexivity|]). lia. }
  destruct (feed_to_quotes 1 2 ring_queue recovery_q token_queue 1000 5 open_thread fresh_workers (fun _ => 0)
    full_events sample_session [one_order_packet] [[wire_order]]) as (p & t' & ws' & f & E & Ef & _ & Hall).
  - exact ring_queue_empty.
  - exact recovery_q_empty.
  - exact token_queue_empty.
  - split; [exact open_thread_ok|split; clear; cbn; concrete|clear; cbn; concrete|reflexivity|reflexivity|repeat constructor
      |reflexivity|reflexivity].
  - clear. cbn. concrete.
  - reflexivity.
  - repeat constructor; unfold NUM_SHARDS; lia.
  - cbn. lia.
  - reflexivity.
  - intros [|i] d Hd; [|discriminate Hd]. injection Hd as <-. exists [wire_order]. split; [reflexivity|exact one_order_on_wire].
  - repeat constructor; discriminate.
  - exact Ha.
  - intros sh w Hw. pose proof (lookup_lt_Some _ _ _ Hw) as Hl. rewrite Hto by exact Hl.
    destruct (decide (sh = 3%nat)) as [->|_]; [|split; [cbn; lia|eexists; reflexivity]].
    rewrite H3 in Hw. injection Hw as <-. split; [cbn; lia|]. exists (w3, pub3). exact E3.
  - vm_compute in Ef. injection Ef as <-. exists p, t', ws'. split; [exact E|].
    destruct (Hall 3%nat fresh_worker H3) as (applied & queued & w' & pub' & H1 & _ & H2 & H4 & H5).
    exists applied, queued, w', pub'. split; [exact H1|]. split; [exact H2|]. split; [exact H4|].
    exact (H5 11 ltac:(lia) eq_refl).
Defined.
