(* ===== verification/TwoFeeds.v ===== *)
(** * Two feeds end to end

    The venue sends every packet on two multicast groups and either group may
    lose some.  [FeedMerger] forwards the first copy of a number and drops the
    second.  As long as the merger empties the ring of one feed before a
    packet arrives on the other ([kept_up]), the first copies leave it in the
    order of arrival, so that losses on one feed are masked by the other from
    the sockets to the quotes ([redundant_feeds_to_quotes]).  When packets
    wait on both feeds, one iteration takes the primary one first whatever the
    numbers are, and a received packet can overtake the one before it
    ([lagging_merger_reorders]). *)

From S2P Require Import Prelude Types Mold ItchParser Sequence Spsc PacketRing FeedMerger.
From S2P Require Import OrderMap Level2Book SeqLock Routing Session Worker ParserThread Shards Pipeline EndToEnd.
Import Dedup.

(** ** First copies *)

(** The datagrams that carry the next number when they arrive; [n] is the
    last number. *)
Fixpoint first_copies (n : Z) (ds : list bytes) : list bytes :=
  match ds with
  | [] => []
  | d :: ds' => if decide (seq_of d = n + 1) then d :: first_copies (n + 1) ds' else first_copies n ds'
  end.

(** Each datagram is numbered above [n0] and at most one above the highest
    number so far. *)
Fixpoint covered (n0 n : Z) (ds : list bytes) : Prop :=
  match ds with
  | [] => True
  | d :: ds' => numbered d = true /\ n0 < seq_of d <= n + 1
      /\ covered n0 (if decide (seq_of d = n + 1) then n + 1 else n) ds'
  end.

(** Every number has arrived, on either feed, before a higher one does. *)
Definition no_holes (n0 : Z) (ds : list bytes) : Prop :=
  forall j d z, ds !! j = Some d -> n0 < z < seq_of d ->
    exists i d', (i < j)%nat /\ ds !! i = Some d' /\ seq_of d' = z.

Lemma first_copies_app n l1 : forall l2,
  first_copies n (l1 ++ l2) = first_copies n l1 ++ first_copies (n + Z.of_nat (length (first_copies n l1))) l2.
Proof.
  revert n. induction l1 as [|d l1 IH]; intros n l2; cbn [first_copies app]; [by rewrite Z.add_0_r|].
  case_decide; [|apply IH]. cbn [app length]. rewrite IH. do 3 f_equal. lia.
Qed.

Lemma covered_app n0 l1 l2 : forall n, covered n0 n (l1 ++ l2) <->
  covered n0 n l1 /\ covered n0 (n + Z.of_nat (length (first_copies n l1))) l2.
Proof.
  induction l1 as [|d l1 IH]; intros n; cbn [covered first_copies app]; [rewrite Z.add_0_r; tauto|].
  rewrite IH. case_decide; [|tauto]. cbn [length].
  replace (n + Z.of_nat (S (length (first_copies (n + 1) l1)))) with (n + 1 + Z.of_nat (length (first_copies (n + 1) l1)))
    by lia. tauto.
Qed.

Lemma first_copies_lookup ds : forall n i d, first_copies n ds !! i = Some d -> seq_of d = n + Z.of_nat i + 1 /\ d ∈ ds.
Proof.
  induction ds as [|e ds IH]; intros n i d Hd; cbn [first_copies] in Hd; [done|]. case_decide.
  - destruct i as [|i]; [injection Hd as ->; split; [lia|left]|]. destruct (IH _ i d Hd). split; [lia|by right].
  - destruct (IH _ i d Hd). split; [done|by right].
Qed.

(** What has arrived is among the first copies. *)
Lemma covered_bound n0 ds d : forall n, covered n0 n ds -> d ∈ ds -> seq_of d <= n + Z.of_nat (length (first_copies n ds)).
Proof.
  induction ds as [|e ds IH]; intros n Hc Hd; [by apply elem_of_nil in Hd|]. cbn [covered first_copies] in *.
  destruct Hc as (_ & He & Hc). apply elem_of_cons in Hd as [->|Hd]; case_decide; cbn [length]; try lia;
    specialize (IH _ Hc Hd); lia.
Qed.

Lemma no_holes_covered n0 ds : forall pre n, n0 <= n -> (forall d, d ∈ pre -> seq_of d <= n) ->
  no_holes n0 (pre ++ ds) -> Forall (fun d => numbered d = true /\ n0 < seq_of d) ds -> covered n0 n ds.
Proof.
  induction ds as [|d ds IH]; intros pre n Hn Hpre Hh Hf; [done|]. apply Forall_cons in Hf as [[Hnum Hlow] Hf].
  assert (Hle : seq_of d <= n + 1).
  { destruct (Z.le_gt_cases (seq_of d) (n + 1)) as [|Hgt]; [done|].
    destruct (Hh (length pre) d (n + 1)) as (i & d' & Hi & Hd' & E); [by apply list_lookup_middle|lia|].
    rewrite lookup_app_l in Hd' by done. apply list_elem_of_lookup_2 in Hd'. specialize (Hpre _ Hd'). lia. }
  cbn [covered]. split_and!; [done..|]. apply (IH (pre ++ [d])); [case_decide; lia| | |done].
  - intros e He. apply elem_of_app in He as [He|He]; [specialize (Hpre e He); case_decide; lia|].
    apply list_elem_of_singleton in He as ->. case_decide; lia.
  - by rewrite <- app_assoc.
Qed.

(** ** The flow of two feeds *)

Definition other (src : FeedSource) : FeedSource :=
  match src with Primary => Secondary | Secondary => Primary | Recovery => Recovery end.

(** The merger keeps up: what arrives on a feed finds nothing waiting on the
    other, and room for it and what waits before it in the merged queue. *)
Definition kept_up (f : Flow) (e : Event) : Prop :=
  match e with
  | Receive src _ _ => src <> Recovery /\ waiting_at f (other src) = []
      /\ Z.of_nat (length (merged f) + length (waiting_at f src)) < MERGED_QUEUE_DEPTH
  | _ => True
  end.

Fixpoint kept_up_run (fuel cap : nat) (f : Flow) (es : list Event) : Prop :=
  match es with
  | [] => True
  | e :: es' => kept_up f e /\ forall f', flow_step fuel cap f e = Some f' -> kept_up_run fuel cap f' es'
  end.

Definition both_waiting (f : Flow) : list (Z * bytes) := waiting_at f Primary ++ waiting_at f Secondary.

(** Of what has arrived, a part is past the merger: its first copies are with
    the parser or in the merged queue; the rest waits on one feed. *)
Record two_feeds (n0 : Z) (f : Flow) (ds : list bytes) : Prop := {
  tf_passed : exists passed, passed ++ (both_waiting f).*2 = ds
    /\ p_data <$> (given f ++ merged f) = first_copies n0 passed;
  tf_one : waiting_at f Primary = [] \/ waiting_at f Secondary = [];
  tf_recovery : waiting_at f Recovery = [];
  tf_live : Forall (fun x => p_src x <> Recovery) (given f ++ merged f);
  tf_room : Z.of_nat (length (merged f) + length (both_waiting f)) <= MERGED_QUEUE_DEPTH;
  tf_seen z : z ∈ seen f <-> n0 < z <= n0 + Z.of_nat (length (given f ++ merged f));
  tf_lost : lost f = []
}.

Lemma two_feeds_start n0 : two_feeds n0 flow0 [].
Proof.
  split; try done; [by exists []|by left|]. intros z. cbn. split; [intros Hz; by apply elem_of_nil in Hz|lia].
Qed.

Lemma two_feeds_receive fuel cap n0 f ds src d ts f' : two_feeds n0 f ds -> kept_up f (Receive src d ts) ->
  flow_step fuel cap f (Receive src d ts) = Some f' -> two_feeds n0 f' (ds ++ [d]).
Proof.
  intros T (Hsrc & Ho & Hroom) E. injection E as <-. destruct (tf_passed _ _ _ T) as (passed & <- & Hd).
  set (f1 := mkFlow _ _ _ _ _ _ _).
  assert (Hb : both_waiting f1 = both_waiting f ++ [(arrived f src, d)]).
  { unfold both_waiting. destruct src; cbn in *; rewrite ?upd_eq, ?upd_ne, ?Ho by done; cbn.
    - by rewrite !app_nil_r.
    - done.
    - done. }
  split; rewrite ?Hb; try apply T.
  - exists passed. by rewrite fmap_app, app_assoc.
  - cbn. destruct src; cbn in *; rewrite ?upd_eq, ?upd_ne by done; [by right|by left|done].
  - cbn. rewrite upd_ne by congruence. apply T.
  - rewrite length_app. cbn [length f1 merged].
    assert (length (both_waiting f) = length (waiting_at f src)) as ->; [|lia].
    unfold both_waiting. rewrite length_app. destruct src; cbn in Ho; rewrite Ho; cbn; [lia|lia|done].
Qed.

(** The head of a live lane. *)
Lemma two_feeds_head n0 f ds src a d l : src <> Recovery -> two_feeds n0 f ds -> waiting_at f src = (a, d) :: l ->
  both_waiting f = (a, d) :: both_waiting (set_waiting f src l)
  /\ (waiting_at (set_waiting f src l) Primary = [] \/ waiting_at (set_waiting f src l) Secondary = []).
Proof.
  intros Hsrc T Hw. unfold both_waiting. cbn. destruct (tf_one _ _ _ T) as [E|E], src; try done; try congruence;
    rewrite ?upd_eq, ?upd_ne, ?Hw, ?E by done; cbn; rewrite ?app_nil_r; auto.
Qed.

Lemma two_feeds_live fuel n0 f ds rcv src f' : src <> Recovery -> 0 <= n0 -> two_feeds n0 f ds -> covered n0 n0 ds ->
  flow_ok fuel f rcv -> flow_live fuel (Z.to_nat MERGED_QUEUE_DEPTH) f src = Some f' -> two_feeds n0 f' ds.
Proof.
  intros Hsrc Hn0 T Hc F E. apply flow_live_inv in E.
  inversion E as [|a d l Hw Hn|a d l w Hw Hn Hm|a d l w Hw Hn Hm]; [by subst| | |];
    destruct (two_feeds_head n0 f ds src a d l Hsrc T Hw) as [Hb Hone];
    destruct (tf_passed _ _ _ T) as (passed & Hds & Hd); rewrite Hb in Hds; cbn [fmap list_fmap snd] in Hds;
    rewrite <- Hds in Hc; apply covered_app in Hc as [_ (Hnum & Hrange & _)]; rewrite <- Hd, length_fmap in Hrange;
    [congruence| |]; clear E; set (k := length (given f ++ merged f)) in *;
    pose proof (fo_fits _ _ _ F src) as Fw; rewrite Hw in Fw; apply Forall_cons in Fw as [(_ & [Hmax Hfuel] & _) _];
    cbn [snd] in *;
    destruct (check_and_mark_rep fuel (window f) (seen f) (seq_of d) (fo_rep _ _ _ F) ltac:(lia) Hfuel)
      as (v & w' & Ec & _ & Hfresh & Hold); rewrite Hm in Ec; injection Ec as <- <-.
  - assert (Hseq : seq_of d = n0 + Z.of_nat k + 1).
    { specialize (Hfresh eq_refl). rewrite (tf_seen _ _ _ T) in Hfresh. lia. }
    pose proof (tf_room _ _ _ T) as Hr. rewrite Hb in Hr. cbn [length] in Hr.
    unfold offer. cbn [merged mark_seen set_waiting]. rewrite decide_True by lia. split; cbn; try apply T; [| | | | |].
    + exists (passed ++ [d]). unfold both_waiting in *. cbn in *. rewrite <- app_assoc. split; [done|].
      rewrite app_assoc, fmap_app, Hd, first_copies_app. cbn [fmap list_fmap p_data first_copies].
      rewrite <- Hd, length_fmap. fold k. by rewrite decide_True.
    + done.
    + rewrite upd_ne by congruence. apply T.
    + rewrite app_assoc. apply Forall_app. split; [apply T|]. by repeat constructor.
    + unfold both_waiting in *. cbn in *. rewrite length_app. cbn [length]. lia.
    + intros z. rewrite elem_of_cons, (tf_seen _ _ _ T), app_assoc, (length_app (given f ++ merged f)). fold k. cbn [length]. lia.
  - assert (Hseq : seq_of d <> n0 + Z.of_nat k + 1).
    { intros Hz. destruct (Hold eq_refl) as [Hin|[_ (y & Hin & ?)]]; apply (tf_seen _ _ _ T) in Hin; fold k in Hin; lia. }
    pose proof (tf_room _ _ _ T) as Hr. rewrite Hb in Hr. cbn [length] in Hr. split; cbn; try apply T; [|done| |].
    + exists (passed ++ [d]). unfold both_waiting in *. cbn in *. rewrite <- app_assoc. split; [done|].
      rewrite Hd, first_copies_app. cbn [first_copies]. rewrite <- Hd, length_fmap. fold k.
      rewrite decide_False by done. by rewrite app_nil_r.
    + rewrite upd_ne by congruence. apply T.
    + unfold both_waiting in *. cbn in *. lia.
Qed.

Lemma two_feeds_take fuel cap n0 f ds f' : two_feeds n0 f ds -> flow_step fuel cap f Take = Some f' -> two_feeds n0 f' ds.
Proof.
  intros T E. injection E as <-. destruct (merged f) as [|x l] eqn:Em; [done|].
  assert (Eg : (given f ++ [x]) ++ l = given f ++ merged f) by (by rewrite Em, <- app_assoc).
  pose proof (tf_room _ _ _ T) as Hr. rewrite Em in Hr. cbn [length] in Hr.
  split; cbn [given merged waiting_at seen lost]; rewrite ?Eg; try apply T. unfold both_waiting in *. cbn in *. lia.
Qed.

Lemma two_feeds_run fuel n0 es : 0 <= n0 -> forall f f' ds rcv, two_feeds n0 f ds -> flow_ok fuel f rcv ->
  covered n0 n0 (ds ++ (received es).*2) -> admissible_run fuel (Z.to_nat MERGED_QUEUE_DEPTH) f es ->
  kept_up_run fuel (Z.to_nat MERGED_QUEUE_DEPTH) f es ->
  flow_run fuel (Z.to_nat MERGED_QUEUE_DEPTH) f es = Some f' -> two_feeds n0 f' (ds ++ (received es).*2).
Proof.
  intros Hn0. induction es as [|e es IH]; intros f f' ds rcv T F Hc Ha Hk E; cbn [flow_run] in E.
  { injection E as <-. by rewrite app_nil_r. }
  destruct Ha as [Ha Hrest]. destruct Hk as [Hk Hkrest]. apply bind_Some in E as (f1 & E1 & E).
  specialize (Hrest f1 E1). specialize (Hkrest f1 E1). pose proof (flow_ok_step fuel _ f rcv e f1 F Ha E1) as F1.
  destruct e as [src d ts|now now'|].
  - change ((received (Receive src d ts :: es)).*2) with (d :: (received es).*2) in *.
    rewrite cons_middle, app_assoc in *. apply (IH f1 f' (ds ++ [d])) with (2 := F1); try done.
    by eapply two_feeds_receive.
  - apply (IH f1 f' ds) with (2 := F1); try done. apply covered_app in Hc as [Hc _]. cbn [flow_step] in E1.
    rewrite (tf_recovery _ _ _ T) in E1. apply bind_Some in E1 as (f2 & E1 & E2).
    pose proof (two_feeds_live fuel n0 f ds rcv Primary f2 ltac:(done) Hn0 T Hc F E1) as T2.
    eapply flow_ok_live in E1; [|done|done]. by eapply (two_feeds_live fuel n0 f2 ds rcv Secondary).
  - apply (IH f1 f' ds) with (2 := F1); try done. by eapply two_feeds_take.
Qed.

(** ** Properties *)

(** The datagrams are copies of the packets of a session, numbered from
    [n + 1] on. *)
Definition copies_of (sess : bytes) (n : Z) (packets : list (list ItchMsg)) (ds : list bytes) : Prop :=
  forall d, d ∈ ds -> exists i ms, packets !! i = Some ms /\ wire_packet sess (n + Z.of_nat i + 1) ms d.

Lemma copies_covered sess n packets ds : copies_of sess n packets ds -> length sess = 10%nat -> 0 <= n ->
  n + Z.of_nat (length packets) < 2 ^ 64 - 1 -> no_holes n ds -> covered n n ds.
Proof.
  intros Hp Hs Hn Hb Hh. apply (no_holes_covered n ds []); [lia| |done|].
  { intros d Hd. by apply elem_of_nil in Hd. }
  apply Forall_forall. intros d Hd. destruct (Hp d Hd) as (i & ms & Hi & Hw). apply lookup_lt_Some in Hi.
  destruct (wire_packet_numbered sess _ ms d Hw) as [-> ?]; [done|lia|range_lia|]. split; [done|lia].
Qed.

(** The first copy of a number is a copy of that packet. *)
Lemma first_copy_packet sess n packets ds i d : copies_of sess n packets ds -> length sess = 10%nat -> 0 <= n ->
  n + Z.of_nat (length packets) < 2 ^ 64 - 1 -> first_copies n ds !! i = Some d ->
  exists ms, packets !! i = Some ms /\ wire_packet sess (n + Z.of_nat i + 1) ms d.
Proof.
  intros Hp Hs Hn Hb Hi. destruct (first_copies_lookup ds n i d Hi) as [Hseq Hd].
  destruct (Hp d Hd) as (j & ms & Hj & Hw). pose proof (lookup_lt_Some _ _ _ Hj).
  destruct (wire_packet_numbered sess _ ms d Hw) as [E _]; [done|lia|range_lia|].
  assert (j = i) as -> by lia. by exists ms.
Qed.

Section Redundant.
Context {CB Q M R P N : Type} `{Fifo Q Z} `{Fifo M MergedSlot} `{Fifo R ItchMsg} `{FifoOps P SeqRecord} `{MapOps N}.

(** The slots the parser takes are the packets, whichever feed they came on. *)
Lemma redundant_slots fuel (q qr : Q) (mq : M) timeout now0 es sess n (packets : list (list ItchMsg)) :
  empty q PACKET_RING_DEPTH -> empty qr RECOVERY_RING_DEPTH -> empty mq MERGED_QUEUE_DEPTH ->
  bytes_ok sess -> length sess = 10%nat -> 0 <= n -> n + Z.of_nat (length packets) < 2 ^ 64 - 1 ->
  copies_of sess n packets ((received es).*2) -> no_holes n ((received es).*2) ->
  admissible_run fuel (Z.to_nat MERGED_QUEUE_DEPTH) flow0 es ->
  kept_up_run fuel (Z.to_nat MERGED_QUEUE_DEPTH) flow0 es ->
  exists p ss f, transport_run fuel (new_transport q qr mq timeout now0) es = Some (p, ss)
    /\ flow_run fuel (Z.to_nat MERGED_QUEUE_DEPTH) flow0 es = Some f
    /\ length ss = length (given f) /\ lost f = []
    /\ (length ss <= length packets)%nat
    /\ (forall d, d ∈ (received es).*2 -> d ∈ (both_waiting f).*2
          \/ seq_of d <= n + Z.of_nat (length (given f) + length (merged f)))
    /\ forall i s, ss !! i = Some s -> exists ms, packets !! i = Some ms
         /\ holds_packet s sess (n + Z.of_nat i + 1) ms /\ recv_ts s = 0.
Proof.
  intros Eq Er Em Hsb Hs10 Hn0 Hn Hp Hh Ha Hk.
  pose proof (new_transport_carries fuel q qr mq timeout now0 _ Eq Er Em) as C.
  destruct (transport_run_refines fuel _ _ _ _ C Ha) as (p & ss & f & new & Et & Ef & _ & Hg & F2).
  cbn [flow0 given app] in Hg. subst new. pose proof (copies_covered _ _ _ _ Hp Hs10 Hn0 Hn Hh) as Hc.
  pose proof (two_feeds_run fuel n es Hn0 _ _ [] [] (two_feeds_start n) (flow0_ok fuel) Hc Ha Hk Ef) as T.
  cbn [app] in T. destruct (tf_passed _ _ _ T) as (passed & Hds & Hd). pose proof (Forall2_length _ _ _ F2) as Hss.
  assert (Hhold : forall i s, ss !! i = Some s -> exists ms, packets !! i = Some ms
     /\ holds_packet s sess (n + Z.of_nat i + 1) ms /\ recv_ts s = 0).
  { intros i s Hi. destruct (Forall2_lookup_l _ _ _ _ _ F2 Hi) as (x & Hx & Hcon & Hl & Hb & Hok).
    assert (Hx' : (given f ++ merged f) !! i = Some x) by (by apply lookup_app_l_Some).
    pose proof (Forall_lookup_1 _ _ _ _ (tf_live _ _ _ T) Hx') as Hlive. specialize (Hok Hlive).
    assert (Hfc : first_copies n passed !! i = Some (p_data x)) by (rewrite <- Hd, list_lookup_fmap; by rewrite Hx').
    destruct (first_copy_packet sess n packets passed i (p_data x)) as (ms & Hms & Hw); try done.
    { intros d Hin. apply Hp. rewrite <- Hds. apply elem_of_app. by left. }
    exists ms. split; [done|]. apply lookup_lt_Some in Hms.
    apply (wire_packet_slot s sess _ ms (p_data x)); try done. range_lia. }
  exists p, ss, f. split_and!; try done; [apply T| |].
  - destruct (decide (length ss = 0)%nat) as [->|]; [lia|].
    destruct (lookup_lt_is_Some_2 ss (length ss - 1)) as [s Hs]; [lia|].
    destruct (Hhold _ _ Hs) as (ms & Hms & _). apply lookup_lt_Some in Hms. lia.
  - intros d Hin. rewrite <- Hds in Hin. apply elem_of_app in Hin as [Hin|Hin]; [right|by left].
    rewrite <- Hds in Hc. apply covered_app in Hc as [Hc _]. pose proof (covered_bound n passed d n Hc Hin) as Hle.
    rewrite <- Hd, length_fmap, length_app in Hle. done.
Qed.

(** C7: one feed makes up for the losses of the other, from the sockets to the
    quotes.  Copies of the packets of an open session arrive on two feeds;
    each may lose packets or bring them twice, but every number has arrived on
    one of them before a higher one arrives on either.  There are no system
    events, the shard queues have room for all messages, and no slot is reused
    while its datagram is on its way.  While the merger keeps up, with parser
    and workers interleaved in any way, no packet is lost between the
    sockets and the parser, the parser counts no gap and no duplicate and its
    tracker stands at the number of packets processed, and the shards have
    applied, in order, the messages of exactly those packets, each once; a
    datagram that arrived waits for the merger or carries a number that has
    passed it. *)
Theorem redundant_feeds_to_quotes fuel cap (q qr : Q) (mq : M) timeout now0 (t : ParserThread CB R P)
    (ws : list (ShardWorker N)) clock es sess (packets : list (list ItchMsg)) :
  empty q PACKET_RING_DEPTH -> empty qr RECOVERY_RING_DEPTH -> empty mq MERGED_QUEUE_DEPTH ->
  stage_start cap sess t ws -> bytes_ok sess -> length sess = 10%nat -> known_shards es ->
  let n := seq (seq_tracker_ (env_ t)) in n + Z.of_nat (length packets) < 2 ^ 64 - 1 ->
  let ds := (received (net_events es)).*2 in copies_of sess n packets ds -> no_holes n ds ->
  Forall (Forall (fun m => type m <> SystemEvent)) packets ->
  admissible_run fuel (Z.to_nat MERGED_QUEUE_DEPTH) flow0 (net_events es) ->
  kept_up_run fuel (Z.to_nat MERGED_QUEUE_DEPTH) flow0 (net_events es) ->
  shards_can cap t ws (concat packets) ->
  exists p t' ws' f, full_run fuel clock (new_transport q qr mq timeout now0, (t, ws)) es = Some (p, (t', ws'))
    /\ flow_run fuel (Z.to_nat MERGED_QUEUE_DEPTH) flow0 (net_events es) = Some f
    /\ lost f = [] /\ seq (seq_tracker_ (env_ t')) = n + Z.of_nat (length (given f))
    /\ sequence_gaps t' = sequence_gaps t /\ sequence_dups t' = sequence_dups t
    /\ shards_follow t ws t' ws' (concat (take (length (given f)) packets))
    /\ forall d, d ∈ ds -> d ∈ (both_waiting f).*2
         \/ seq_of d <= n + Z.of_nat (length (given f) + length (merged f)).
Proof.
  intros Eq Er Em St Hsb Hs10 Hk n Hn ds Hp Hh Hev Ha Hku Hrun.
  destruct (redundant_slots fuel q qr mq timeout now0 (net_events es) sess n packets)
    as (p & ss & f & Et & Ef & Hss & Hl & Hlen & Hpast & Hhold); try done; [apply (ss_tracker _ _ _ _ St)|].
  destruct (slots_to_quotes fuel cap (new_transport q qr mq timeout now0) p t ws clock es sess ss packets St Hk)
    as (t' & ws' & E & Hseq & Hg & Hd & Hall); try done; [lia|].
  rewrite Hss in *. by exists p, t', ws', f.
Qed.

End Redundant.

(** *** When the merger lags *)

Section Lagging.
Context {CB Q M R P : Type} `{Fifo Q Z} `{Fifo M MergedSlot} `{Fifo R ItchMsg} `{FifoOps P SeqRecord}.

(** The counters after a jump over one packet and that packet. *)
Lemma overtaken_tracking (t t1 : ParserThread CB R P) now now' sess n :
  tracker_ok (seq_tracker_ (env_ t)) -> n = seq (seq_tracker_ (env_ t)) -> n + 3 < 2 ^ 64 ->
  gap_count (seq_tracker_ (env_ t)) < 2 ^ 64 - 1 ->
  same_tracking (track_sequence t now (n + 2) sess) t1 ->
  let t2 := track_sequence t1 now' (n + 1) sess in
  sequence_gaps t2 = sequence_gaps t +64 2 /\ gap (gap_detector_ t2) = mkGapRange (n + 1) (n + 1) now false.
Proof.
  intros [Hr Hg] Hn Hb Hgc F. destruct (Z.eqb_spec (n + 2) (n + 1)) as [|_]; [lia|].
  assert (E1 : try_advance now (seq_tracker_ (env_ t)) (n + 2)
    = (false, mkTracker (n + 2) (gap_count (seq_tracker_ (env_ t)) + 1) (dup_count (seq_tracker_ (env_ t))) (n + 1) (n + 1) now)).
  { unfold try_advance. rewrite <- Hn, !wrap_small by range_lia. rewrite (proj2 (Z.eqb_neq _ _)), (proj2 (Z.gtb_lt _ _)) by lia.
    by replace (n + 2 - 1) with (n + 1) by lia. }
  assert (Htr : seq_tracker_ (env_ t1) = snd (try_advance now (seq_tracker_ (env_ t)) (n + 2))).
  { rewrite (st_tracker _ _ F). unfold track_sequence. rewrite E1. cbn [snd gap_count]. by destruct (_ >? 0). }
  rewrite E1 in Htr. cbn [snd] in Htr.
  assert (Hgaps : sequence_gaps t1 = sequence_gaps t +64 1).
  { rewrite (st_gaps _ _ F). unfold track_sequence. rewrite E1. cbn [gap_count]. by rewrite (proj2 (Z.gtb_lt _ _)) by range_lia. }
  unfold track_sequence, try_advance. rewrite Htr. cbn [seq gap_count dup_count last_gap_start last_gap_end last_gap_ts].
  rewrite wrap_small by range_lia. rewrite (proj2 (Z.eqb_neq _ _)), Z.gtb_ltb, (proj2 (Z.ltb_ge _ _)) by lia. cbn [gap_count].
  rewrite (proj2 (Z.gtb_lt _ _)) by range_lia. cbn [sequence_gaps gap_detector_]. split; [|done].
  rewrite Hgaps, wrap_add_l. f_equal. lia.
Qed.

(** A new number goes on. *)
Lemma flow_live_fresh fuel cap f src a d l : rep (window f) (seen f) -> waiting_at f src = (a, d) :: l ->
  numbered d = true -> fits fuel d -> 0 <= seq_of d -> (length (merged f) < cap)%nat ->
  (forall z, z ∈ seen f -> z <> seq_of d /\ z <= seq_of d + 64) ->
  exists f', flow_live fuel cap f src = Some f' /\ waiting_at f' = upd (waiting_at f) src l
    /\ merged f' = merged f ++ [mkParcel src a d] /\ given f' = given f /\ lost f' = lost f
    /\ seen f' = seq_of d :: seen f /\ rep (window f') (seen f').
Proof.
  intros Hr Hw Hn [Hm Hf] H0' Hroom Hs. unfold flow_live, flow_handle. rewrite Hw. cbn [p_data set_waiting window seen]. rewrite Hn.
  destruct (check_and_mark_rep fuel (window f) (seen f) (seq_of d) Hr) as (v & w & -> & Rw & _ & Hv); [lia|done|].
  destruct v; cbn [mbind option_bind].
  2: { destruct (Hv eq_refl) as [Hin|[_ (y & Hin & Hy)]]; destruct (Hs _ Hin); lia. }
  unfold offer. cbn [merged mark_seen set_waiting]. rewrite decide_True by done. eexists. split; [done|]. done.
Qed.

(** The flow of two datagrams that wait on both feeds. *)
Lemma overtaking_flow fuel d1 d2 n ts1 ts2 t1 t2 : 0 <= n -> seq_of d1 = n + 1 -> seq_of d2 = n + 2 ->
  numbered d1 = true -> numbered d2 = true -> fits fuel d1 -> fits fuel d2 ->
  exists f, flow_run fuel (Z.to_nat MERGED_QUEUE_DEPTH) flow0
      [Receive Primary d2 ts2; Receive Secondary d1 ts1; Merge t1 t2; Take; Take] = Some f
    /\ given f = [mkParcel Primary 0 d2; mkParcel Secondary 0 d1].
Proof.
  intros Hn E1 E2 N1 N2 F1 F2. set (cap := Z.to_nat MERGED_QUEUE_DEPTH).
  assert (Hcap : (1 < cap)%nat) by (unfold cap, MERGED_QUEUE_DEPTH, PACKET_RING_DEPTH; lia). clearbody cap.
  set (f0 := mkFlow (upd (upd (fun _ => 0) Primary 1) Secondary 1)
    (upd (upd (fun _ => []) Primary [(0, d2)]) Secondary [(0, d1)]) Dedup.reset [] [] [] []).
  destruct (flow_live_fresh fuel cap f0 Primary 0 d2 []) as (f1 & L1 & W1 & M1 & G1 & _ & S1 & R1);
    [apply rep_reset|done|done|done|lia|cbn; lia|intros z Hz; by apply elem_of_nil in Hz|].
  destruct (flow_live_fresh fuel cap f1 Secondary 0 d1 []) as (f2 & L2 & _ & M2 & G2 & _);
    [done|by rewrite W1|done|done|lia|rewrite M1; cbn; lia| |].
  { intros z. rewrite S1. intros Hz. apply list_elem_of_singleton in Hz. lia. }
  cbn [flow_run]. change (flow_step fuel cap flow0 (Receive Primary d2 ts2)) with
    (Some (mkFlow (upd (fun _ => 0) Primary 1) (upd (fun _ => []) Primary [(0, d2)]) Dedup.reset [] [] [] [])).
  cbn [mbind option_bind]. change (flow_step fuel cap _ (Receive Secondary d1 ts1)) with (Some f0).
  cbn [mbind option_bind]. change (flow_step fuel cap f0 (Merge t1 t2)) with
    (f' ← flow_live fuel cap f0 Primary; flow_live fuel cap f' Secondary).
  rewrite L1. cbn [mbind option_bind]. rewrite L2. cbn [mbind option_bind flow_step]. rewrite M2, M1. cbn [app merged given].
  eexists. split; [done|]. cbn [given]. by rewrite G2, G1.
Qed.

(** A lagging merger puts packets in the wrong order.  The primary feed
    lost packet [n + 1], the secondary one delivered it, and packet [n + 2]
    arrived on the primary feed before the merger looked: in one iteration
    the merger forwards the primary packet first and the older one after it.
    The parser reports a gap for a packet that was received and counts a
    second one when it gets to it, and every shard is handed the messages of
    packet [n + 2] before those of packet [n + 1]. *)
Theorem lagging_merger_reorders fuel cap (q qr : Q) (mq : M) timeout now0 (t : ParserThread CB R P) clock
    sess ms1 ms2 d1 d2 ts1 ts2 r1 r2 r3 now now' :
  empty q PACKET_RING_DEPTH -> empty qr RECOVERY_RING_DEPTH -> empty mq MERGED_QUEUE_DEPTH ->
  parser_ok cap t -> tracker_ok (seq_tracker_ (env_ t)) -> gap_count (seq_tracker_ (env_ t)) < 2 ^ 64 - 1 ->
  bytes_ok sess -> length sess = 10%nat -> sess = take 10 (session_ (session_mgr_ t)) ->
  let n := seq (seq_tracker_ (env_ t)) in n + 2 < 2 ^ 64 - 64 -> (n + 2) / 64 < Z.of_nat fuel ->
  wire_packet sess (n + 1) ms1 d1 -> wire_packet sess (n + 2) ms2 d2 ->
  Forall (fun d => (0 < length d <= Z.to_nat MAX_UDP_PAYLOAD)%nat /\ bytes_ok d) [d1; d2] ->
  exists p t', system_run fuel clock (new_transport q qr mq timeout now0, t)
      [(r1, Receive Primary d2 ts2); (r2, Receive Secondary d1 ts1); (r3, Merge r1 r2); (now, Take); (now', Take)]
        = Some (p, t')
    /\ sequence_gaps t' = sequence_gaps t +64 2
    /\ (exists at_ns, gap (gap_detector_ t') = mkGapRange (n + 1) (n + 1) at_ns false)
    /\ forall out sh v, shows (router_ (env_ t), out) sh v ->
         shows (router_ (env_ t'), out) sh (view_messages cap sh v (ms2 ++ ms1)).
Proof.
  intros Eq Er Em Po Htr Hgc Hsb Hs10 Hs n Hn Hfuel W1 W2 Hd. pose proof Htr as [Hr _]. fold n in Hr.
  apply Forall_cons in Hd as [[L1 B1] Hd]. apply Forall_cons in Hd as [[L2 B2] _].
  destruct (wire_packet_numbered sess _ ms1 d1 W1) as [S1 N1]; [done|lia|range_lia|].
  destruct (wire_packet_numbered sess _ ms2 d2 W2) as [S2 N2]; [done|lia|range_lia|].
  assert (F2 : fits fuel d2) by (split; rewrite S2; lia).
  assert (F1 : fits fuel d1).
  { split; rewrite S1; [lia|]. assert ((n + 1) / 64 <= (n + 2) / 64) by (apply Z.div_le_mono; lia). lia. }
  set (es := [_; _; _; _; _]). destruct (overtaking_flow fuel d1 d2 n ts1 ts2 r1 r2) as (f & Ef & Hg); try done; [lia|].
  assert (Ha : admissible_run fuel (Z.to_nat MERGED_QUEUE_DEPTH) flow0 (es.*2)).
  { cbn [es fmap list_fmap snd admissible_run].
    assert (Hu : forall f src, waiting_at f src = [] -> merged f = [] -> unlapped f src).
    { intros f0 src Hw Hm a d Hx. unfold flying in Hx. rewrite Hw, Hm in Hx. by apply elem_of_nil in Hx. }
    split; [split_and!; [lia|lia|done|by apply Hu|apply F2|apply F2]|]. intros f1 [= <-].
    split; [split_and!; [lia|lia|done|by apply Hu|apply F1|apply F1]|]. done. }
  pose proof (new_transport_carries fuel q qr mq timeout now0 _ Eq Er Em) as C.
  destruct (transport_run_refines fuel _ _ _ _ C Ha) as (p & ss & f' & new & Et & Ef' & _ & Hg' & F).
  assert (f' = f) as -> by (cbn [es fmap list_fmap snd] in Ef'; congruence).
  cbn [flow0 given app] in Hg'. subst new. rewrite Hg in F. apply Forall2_cons_inv_r in F as (s2 & ss1 & (C2 & O2) & F & ->).
  apply Forall2_cons_inv_r in F as (s1 & ss0 & (C1 & O1) & F & ->). apply Forall2_nil_inv_r in F as ->.
  cbn [p_data p_src] in *.
  destruct (wire_packet_slot s2 sess (n + 2) ms2 d2) as [P2 T2]; try done; [range_lia|].
  destruct (wire_packet_slot s1 sess (n + 1) ms1 d1 C1) as [P1 T1]; try done; [|range_lia|].
  { destruct O1 as (? & ? & Ht). split_and!; [done..|]. intros _. by apply Ht. }
  destruct (system_run_split fuel clock es _ _ t _ Et) as (nows & Hl & Hrun).
  destruct nows as [|w2 [|w1 [|]]]; try discriminate Hl. cbn [zip zip_with process_slots] in Hrun.
  destruct (slot_delivered cap t w2 clock s2 sess (n + 2) ms2 Po P2 Hs (untimed _ clock T2)) as (ta & ca & Ea & Poa & Ta & Hsa & _ & Va).
  destruct (slot_delivered cap ta w1 clock s1 sess (n + 1) ms1 Poa P1 ltac:(by rewrite Hsa) (untimed _ clock T1)) as (tb & cb & Eb & _ & Tb & _ & _ & Vb).
  rewrite Ea in Hrun. cbn [mbind option_bind] in Hrun. rewrite Eb in Hrun. cbn [mbind option_bind] in Hrun.
  destruct (overtaken_tracking t ta w2 w1 sess n Htr eq_refl ltac:(lia) Hgc Ta) as [G1 G2].
  exists p, tb. split; [exact Hrun|]. rewrite (st_gaps _ _ Tb), (st_gap _ _ Tb). split_and!; [done|by eexists|].
  intros out sh v Hv. unfold view_messages. rewrite filter_app, foldl_app. by apply Vb, Va.
Qed.

End Lagging.

(** *** Witnesses *)

Definition wire_delete : ItchMsg := mkMsg OrderDelete 4 1001 0 (order_delete 7).
Definition one_delete_packet : bytes := mold_packet sample_session 9 1 (default [] (encode_blocks 0 [wire_delete])).

Lemma wire_delete_ok : msg_ok wire_delete.
Proof. unfold msg_ok. cbn. split; [concrete|]. split; [concrete|]. concrete. Qed.

Lemma one_delete_on_wire : wire_packet sample_session 9 [wire_delete] one_delete_packet.
Proof.
  split; [unfold MAX_MSGS_PER_PACKET; cbn; lia|]. split; [apply Forall_cons_2; [exact wire_delete_ok|apply Forall_nil_2]|].
  split; [repeat constructor|]. unfold one_delete_packet.
  destruct (encode_blocks 0 [wire_delete]) as [bs|] eqn:E; [|vm_compute in E; discriminate].
  by exists 0, bs.
Qed.

Lemma one_delete_bytes : bytes_ok one_delete_packet.
Proof.
  unfold one_delete_packet. destruct (encode_blocks 0 [wire_delete]) as [bs|] eqn:E; [|vm_compute in E; discriminate].
  apply mold_packet_ok; [unfold sample_session; cbn; concrete|]. cbn [default].
  apply (encode_blocks_ok 0 _ _ E). apply Forall_cons_2; [exact wire_delete_ok|apply Forall_nil_2].
Qed.

(** The primary feed loses the first packet. *)
Definition redundant_events : list FullEvent :=
  [Net 0 (Receive Secondary one_order_packet 0); Net 0 (Merge 0 0); Net 0 (Receive Primary one_delete_packet 0);
   Net 0 (Merge 0 0); Net 0 Take; Net 0 (Receive Secondary one_delete_packet 0); Net 0 (Merge 0 0); Net 0 Take; Shard 3 0].

Lemma redundant_admissible : admissible_run 1 (Z.to_nat MERGED_QUEUE_DEPTH) flow0 (net_events redundant_events)
  /\ kept_up_run 1 (Z.to_nat MERGED_QUEUE_DEPTH) flow0 (net_events redundant_events).
Proof.
  assert (Hu : forall f src, waiting_at f src = [] -> flying f src = [] -> unlapped f src).
  { intros f src Hw Hf a d Hx. rewrite Hw, Hf in Hx. by apply elem_of_nil in Hx. }
  set (es := net_events redundant_events). vm_compute in es. subst es.
  split.
  - repeat match goal with
    | |- admissible_run _ _ _ [] => exact I
    | |- admissible_run _ _ _ _ => split; [|intros ? E; vm_compute in E; injection E as <-]
    | |- admissible _ _ (Receive _ _ _) => split; [vm_compute; lia|]; split; [|split; [apply Hu; reflexivity|split; reflexivity]]
    | |- admissible _ _ _ => exact I
    | |- bytes_ok _ => first [exact one_order_bytes|exact one_delete_bytes]
    end.
  - repeat match goal with
    | |- kept_up_run _ _ _ [] => exact I
    | |- kept_up_run _ _ _ _ => split; [|intros ? E; vm_compute in E; injection E as <-]
    | |- kept_up _ (Receive _ _ _) => split; [discriminate|]; split; reflexivity
    | |- kept_up _ _ => exact I
    end.
Qed.

Lemma redundant_copies : copies_of sample_session 7 [[wire_order]; [wire_delete]] ((received (net_events redundant_events)).*2)
  /\ no_holes 7 ((received (net_events redundant_events)).*2).
Proof.
  change ((received (net_events redundant_events)).*2) with [one_order_packet; one_delete_packet; one_delete_packet]. split.
  - intros d Hd. apply elem_of_cons in Hd as [->|Hd]; [exists 0%nat, [wire_order]; split; [done|exact one_order_on_wire]|].
    exists 1%nat, [wire_delete]. split; [done|].
    apply elem_of_cons in Hd as [->|Hd]; [|apply list_elem_of_singleton in Hd as ->]; exact one_delete_on_wire.
  - assert (S8 : seq_of one_order_packet = 8) by (vm_compute; reflexivity).
    assert (S9 : seq_of one_delete_packet = 9) by (vm_compute; reflexivity).
    intros [|[|[|j]]] d z Hd Hz; [..|discriminate Hd]; injection Hd as <-; rewrite ?S8, ?S9 in Hz;
      [lia|exists 0%nat, one_order_packet|exists 0%nat, one_order_packet]; (split; [lia|]); (split; [reflexivity|lia]).
Qed.

Lemma redundant_shards_can : shards_can 2 open_thread fresh_workers (concat [[wire_order]; [wire_delete]]).
Proof.
  intros sh w Hw. pose proof (lookup_lt_Some _ _ _ Hw) as Hl. change (length fresh_workers) with 8%nat in Hl.
  destruct (decide (sh = 3%nat)) as [->|H3].
  { change (to_shard 3 _) with [wire_order]. injection Hw as <-. split; [cbn; lia|].
    destruct (wire_order_applies (session_mgr_ open_thread) eq_refl) as (w3 & pub3 & E3 & _). by exists (w3, pub3). }
  destruct (decide (sh = 4%nat)) as [->|H4].
  { change (to_shard 4 _) with [wire_delete]. injection Hw as <-. split; [cbn; lia|]. eexists. reflexivity. }
  assert (to_shard sh (concat [[wire_order]; [wire_delete]]) = []) as ->.
  { do 8 (destruct sh as [|sh]; [first [reflexivity|by destruct H3|by destruct H4]|]). lia. }
  split; [cbn; lia|]. by eexists.
Qed.

Lemma open_start : stage_start 2 sample_session open_thread fresh_workers.
Proof.
  split; [exact open_thread_ok|split; cbn; concrete|cbn; concrete|reflexivity|reflexivity|repeat constructor
    |reflexivity|reflexivity].
Qed.

Lemma redundant_feeds_to_quotes_witness :
  exists p t' ws',
    full_run 1 (fun _ => 0) (new_transport ring_queue recovery_q token_queue 1000 5, (open_thread, fresh_workers))
      redundant_events = Some (p, (t', ws'))
    /\ seq (seq_tracker_ (env_ t')) = 9 /\ sequence_gaps t' = 0
    /\ shards_follow open_thread fresh_workers t' ws' [wire_order; wire_delete].
Proof.
  destruct redundant_admissible as [Ha Hk]. destruct redundant_copies as [Hc Hh].
  destruct (redundant_feeds_to_quotes 1 2 ring_queue recovery_q token_queue 1000 5 open_thread fresh_workers (fun _ => 0)
    redundant_events sample_session [[wire_order]; [wire_delete]])
    as (p & t' & ws' & f & E & Ef & _ & Hseq & Hg & _ & Hall & _).
  - exact ring_queue_empty.
  - exact recovery_q_empty.
  - exact token_queue_empty.
  - exact open_start.
  - clear. cbn. concrete.
  - reflexivity.
  - repeat constructor; unfold NUM_SHARDS; lia.
  - cbn. lia.
  - exact Hc.
  - exact Hh.
  - repeat constructor; discriminate.
  - exact Ha.
  - exact Hk.
  - exact redundant_shards_can.
  - vm_compute in Ef. injection Ef as <-. exists p, t', ws'. split; [exact E|]. split; [exact Hseq|]. split; [exact Hg|exact Hall].
Defined.

Lemma lagging_merger_reorders_witness :
  exists p t', system_run 1 (fun _ => 0) (new_transport ring_queue recovery_q token_queue 1000 5, open_thread)
      [(0, Receive Primary one_delete_packet 0); (0, Receive Secondary one_order_packet 0); (0, Merge 0 0); (1, Take); (2, Take)]
        = Some (p, t')
    /\ sequence_gaps t' = 2.
Proof.
  destruct (lagging_merger_reorders 1 2 ring_queue recovery_q token_queue 1000 5 open_thread (fun _ => 0)
    sample_session [wire_order] [wire_delete] one_order_packet one_delete_packet 0 0 0 0 0 1 2)
    as (p & t' & E & Hg & _).
  - exact ring_queue_empty.
  - exact recovery_q_empty.
  - exact token_queue_empty.
  - exact open_thread_ok.
  - split; cbn; concrete.
  - cbn. lia.
  - clear. cbn. concrete.
  - reflexivity.
  - reflexivity.
  - cbn. lia.
  - reflexivity.
  - exact one_order_on_wire.
  - exact one_delete_on_wire.
  - apply Forall_cons_2; [split; [vm_compute; lia|exact one_order_bytes]|].
    apply Forall_cons_2; [split; [vm_compute; lia|exact one_delete_bytes]|apply Forall_nil_2].
  - exists p, t'. split; [exact E|exact Hg].
Defined.
