(* ===== verification/Arrivals.v ===== *)
(** * Whatever arrives, from the sockets to the quotes

    [EndToEnd] and [TwoFeeds] follow packets that reach the parser in order.
    Here nothing is assumed of the order: packets of two feeds and of the
    recovery thread, with gaps, late ones and repetitions, pass through
    receivers, merger, parser and workers in any interleaving.  The parser
    tracks every number and routes the messages of every packet it takes, so
    that the shards apply the messages in the order of the packets taken.
    Recovered packets carry a receive time, live ones do not (see
    [slot_ok]), so that the workers measure their latency; measuring changes
    the histogram of the worker and nothing else ([dispatch_timed]). *)

From S2P Require Import Prelude Types Mold ItchParser Sequence Spsc PacketRing Histogram FeedMerger.
From S2P Require Import OrderMap Level2Book SeqLock Routing Session Worker ParserThread Shards Pipeline EndToEnd TwoFeeds.

(** ** Receive times and latencies *)

Section Latency.
Context {CB N : Type} `{MapOps N}.
Abbreviation worker := (ShardWorker N).

(** A worker with another histogram. *)
Definition with_lat (w : worker) (h : LatencyHistogram) : worker :=
  mkWorker (shard_id_ w) (slab_ w) (book_active_ w) (wmem w) h.

Lemma clear_loop_lat h todo : forall w : worker,
  clear_loop (with_lat w h) todo = (fun w' => with_lat w' h) <$> clear_loop w todo.
Proof.
  induction todo as [|i todo IH]; intros w; [done|]. cbn [clear_loop]. unfold clear_one. cbn [with_lat book_active_ shard_id_].
  destruct (book_active_ w !! i) as [[|]|]; cbn [mbind option_bind]; [|apply IH|done].
  unfold book. cbn [with_lat slab_]. destruct (slab_ w !! _) as [b|]; cbn [mbind option_bind]; [|done]. rewrite <- IH. done.
Qed.

Lemma activate_book_lat (w : worker) h loc :
  activate_book (with_lat w h) loc = (fun w' => with_lat w' h) <$> activate_book w loc.
Proof.
  unfold activate_book. cbn [with_lat book_active_]. destruct (book_active_ w !! _) as [[|]|]; cbn [mbind option_bind]; [done| |done].
  unfold book. cbn [with_lat slab_]. by destruct (slab_ w !! _).
Qed.

Lemma apply_order_timed (w w' : worker) pub pub' m after h :
  apply_order w pub (stamp 0 m) after = Some (w', pub') -> length (buckets_ h) = Z.to_nat TOTAL_BUCKETS ->
  timely (recv_timestamp m) after ->
  exists h', apply_order (with_lat w h) pub m after = Some (with_lat w' h', pub') /\ length (buckets_ h') = length (buckets_ h).
Proof.
  intros E Hl Ht. unfold apply_order in *. unfold book in *. cbn [with_lat slab_ wmem] in *.
  change (locate (stamp 0 m)) with (locate m) in E. change (timestamp (stamp 0 m)) with (timestamp m) in E.
  change (book_switch ?b ?s (stamp 0 m)) with (book_switch b s m) in E.
  apply bind_Some in E as (b & -> & E). apply bind_Some in E as (r & Er & E).
  cbn [mbind option_bind]. rewrite Er. cbn [mbind option_bind]. destruct r as [[b' s']|].
  - apply bind_Some in E as (bbo & -> & E). apply bind_Some in E as (p1 & Ep & E). cbn [mbind option_bind].
    rewrite Ep. cbn [mbind option_bind]. apply bind_Some in E as (h0 & _ & [= <- <-]).
    destruct (record_latency_total h _ _ Hl Ht) as (h' & Eh & Hh). cbn [book_lat_ with_lat]. rewrite Eh. by exists h'.
  - injection E as <- <-. by exists h.
Qed.

(** Measuring changes nothing else. *)
Lemma dispatch_timed (w w' : worker) pub pub' (sm : SessionManager CB) m after h :
  dispatch w pub sm (stamp 0 m) after = Some (w', pub') -> length (buckets_ h) = Z.to_nat TOTAL_BUCKETS ->
  timely (recv_timestamp m) after ->
  exists h', dispatch (with_lat w h) pub sm m after = Some (with_lat w' h', pub') /\ length (buckets_ h') = length (buckets_ h).
Proof.
  intros E Hl Ht.
  assert (Hact : forall w1, activate_book w (locate m) = Some w1 -> activate_book (with_lat w h) (locate m) = Some (with_lat w1 h)).
  { intros w1 E1. by rewrite activate_book_lat, E1. }
  assert (Hord : dispatch_order w pub sm (stamp 0 m) after = Some (w', pub') ->
    exists h', dispatch_order (with_lat w h) pub sm m after = Some (with_lat w' h', pub') /\ length (buckets_ h') = length (buckets_ h)).
  { unfold dispatch_order. change (locate (stamp 0 m)) with (locate m). change (type (stamp 0 m)) with (type m).
    destruct (negb (is_open sm)); [intros [= <- <-]; by exists h|]. intros E'. apply bind_Some in E' as (a & Ea & E').
    cbn [with_lat book_active_]. rewrite Ea. cbn [mbind option_bind]. destruct a; [by apply apply_order_timed|].
    destruct (is_add (type m)); [|injection E' as <- <-; by exists h].
    apply bind_Some in E' as (w1 & E1 & E'). rewrite (Hact w1 E1). cbn [mbind option_bind]. by apply apply_order_timed. }
  unfold dispatch in *. change (type (stamp 0 m)) with (type m) in E. change (locate (stamp 0 m)) with (locate m) in E.
  change (body (stamp 0 m)) with (body m) in E. destruct (type m); try (by apply Hord); clear Hord.
  - case_decide; [|case_decide; [apply bind_Some in E as (warm & -> & E); cbn [mbind option_bind]; destruct warm|]];
      try (injection E as <- <-; by exists h); apply bind_Some in E as (w1 & E1 & [= <- <-]); rewrite (Hact w1 E1); by exists h.
  - apply bind_Some in E as (a & Ea & E). cbn [with_lat book_active_]. rewrite Ea. cbn [mbind option_bind].
    destruct a; [|injection E as <- <-; by exists h]. apply bind_Some in E as (b & Eb & E). unfold book in *. cbn [slab_ with_lat].
    rewrite Eb. cbn [mbind option_bind]. destruct (body m); try done. injection E as <- <-. by exists h.
  - apply bind_Some in E as (w1 & E1 & [= <- <-]). unfold clear_all_books in *. rewrite clear_loop_lat, E1. by exists h.
Qed.

(** At time 0 nothing is measured, whatever the receive time. *)
Lemma dispatch_stamp (w : worker) pub (sm : SessionManager CB) ts m : dispatch w pub sm (stamp ts m) 0 = dispatch w pub sm m 0.
Proof.
  assert (Hlat : forall h r, record_latency h r 0 = Some h).
  { intros h r. unfold record_latency. rewrite Z.gtb_ltb, Z.geb_leb. destruct (Z.ltb_spec 0 r), (Z.leb_spec r 0); done || lia. }
  assert (Ha : forall w, apply_order w pub (stamp ts m) 0 = apply_order w pub m 0).
  { intros w0. unfold apply_order. rewrite !Hlat. done. }
  unfold dispatch, dispatch_order. change (type (stamp ts m)) with (type m). change (locate (stamp ts m)) with (locate m).
  change (body (stamp ts m)) with (body m).
  assert (Ho : (a ← book_active_ w !! slab_index (locate m); if a : bool then apply_order w pub (stamp ts m) 0
      else if is_add (type m) then w1 ← activate_book w (locate m); apply_order w1 pub (stamp ts m) 0 else Some (w, pub))
    = (a ← book_active_ w !! slab_index (locate m); if a : bool then apply_order w pub m 0
      else if is_add (type m) then w1 ← activate_book w (locate m); apply_order w1 pub m 0 else Some (w, pub))).
  { destruct (book_active_ w !! _) as [[|]|]; cbn [mbind option_bind]; [apply Ha| |done]. destruct (is_add _); [|done].
    destruct (activate_book _ _); cbn; [apply Ha|done]. }
  by rewrite Ho.
Qed.

Lemma shard_run_stamp (sm : SessionManager CB) ms ms' : stamp 0 <$> ms = stamp 0 <$> ms' ->
  forall (w : worker) pub, shard_run sm w pub ms = shard_run sm w pub ms'.
Proof.
  unfold shard_run. revert ms'. induction ms as [|m ms IH]; intros [|m' ms'] E w pub; [done|discriminate|discriminate|].
  cbn [fmap list_fmap] in E. injection E as Et Eloc Ets Eb Erest. cbn [fmap list_fmap worker_run].
  assert (dispatch w pub sm m 0 = dispatch w pub sm m' 0) as ->.
  { rewrite <- (dispatch_stamp w pub sm 0 m), <- (dispatch_stamp w pub sm 0 m'). unfold stamp. congruence. }
  destruct (dispatch w pub sm m' 0) as [[w1 p1]|]; cbn [mbind option_bind]; [|done]. by apply IH.
Qed.

End Latency.

(** ** Parser and workers *)

(** An event with the number and the messages of its packet. *)
Abbreviation Arrival := (StageEvent * (Z * list ItchMsg))%type.

Definition plain (e : Arrival) : StageEvent * list ItchMsg := (e.1, e.2.2).

Section Any.
Context {CB R P N : Type} `{Fifo R ItchMsg} `{FifoOps P SeqRecord} `{MapOps N}.
Abbreviation thread := (ParserThread CB R P).
Abbreviation worker := (ShardWorker N).

(** [times]: the receive times that occur. *)
Context (times : Z -> Prop) (sess : bytes).

(** A packet of the session without system events, whatever its number; a
    worker whose clock fits the receive times. *)
Definition arrival_ok (e : Arrival) : Prop :=
  match e.1 with
  | Slot _ s => holds_packet s sess e.2.1 e.2.2 /\ times (recv_ts s) /\ Forall (fun m => type m <> SystemEvent) e.2.2
  | Work sh after => (sh < Z.to_nat NUM_SHARDS)%nat /\ e.2.2 = [] /\ forall r, times r -> timely r after
  end.

(** Tracker, detector and counters after the packets, one after the other. *)
Definition track_arrival (t : thread) (e : Arrival) : thread :=
  match e.1 with Slot now _ => track_sequence t now e.2.1 sess | Work _ _ => t end.

Lemma track_same (t0 t : thread) now n : same_tracking t0 t ->
  same_tracking (track_sequence t0 now n sess) (track_sequence t now n sess).
Proof.
  intros [T G Pe Ga Du Na]. unfold track_sequence. rewrite T, G, Pe, Ga, Du.
  destruct (try_advance _ _ _) as [[|] tr]; [by split|]. destruct (_ >? _); by split.
Qed.

Definition belongs (sh : nat) (m : ItchMsg) : Prop :=
  targets m sh = true /\ in_range 16 (locate m) /\ times (recv_timestamp m).

(** [T]: the tracking so far; [vs]: the views of the queues. *)
Record any_inv (cap : nat) (sm : SessionManager CB) (w0 : nat -> worker) (pub0 : BboPublisher) (T : thread)
    (vs : nat -> ShardView) (t : thread) (ws : list worker) (out : list (list ItchMsg)) : Prop := {
  ai_parser : parser_ok cap t;
  ai_track : same_tracking T t;
  ai_sess : sess = take 10 (session_ (session_mgr_ t));
  ai_open : state_ (session_mgr_ t) = Open;
  ai_out : length out = Z.to_nat NUM_SHARDS;
  ai_shards : forall sh, (sh < Z.to_nat NUM_SHARDS)%nat ->
    shows (router_ (env_ t), out) sh (vs sh) /\ Forall (belongs sh) (waiting (vs sh))
    /\ exists w q h, shard_run sm (w0 sh) pub0 (popped (vs sh)) = Some (w, q) /\ ws !! sh = Some (with_lat w h)
         /\ length (buckets_ h) = Z.to_nat TOTAL_BUCKETS /\ agree sh (bbo_pub_ (env_ t)) q
}.

Lemma any_slot cap sm w0 pub0 T vs t ws out clock now s n ms :
  any_inv cap sm w0 pub0 T vs t ws out -> arrival_ok (Slot now s, (n, ms)) ->
  (forall r i, times r -> timely r (clock i)) ->
  exists t', stage_step clock (t, ws) (Slot now s) = Some (t', ws)
    /\ any_inv cap sm w0 pub0 (track_sequence T now n sess) (fun sh => view_event cap sh (vs sh) (Slot now s, ms)) t' ws out.
Proof.
  intros [Po Htr Hs Hopen Hout Hsh] (Hp & Hts & Hev) Hc. cbn [fst snd] in *.
  destruct (slot_delivered cap t now clock s sess n ms Po Hp Hs) as (t' & calls & E & Po' & F & Na & St & V); [auto|].
  assert (Hpub : bbo_pub_ (env_ t') = bbo_pub_ (env_ t)).
  { rewrite (process_slot_eq t now clock s sess n ms Hp) in E. rewrite (route_all_pub _ _ _ _ Hev _ _ _ _ E).
    apply track_sequence_pub. }
  exists t'. cbn [stage_step fst snd]. rewrite E. split; [done|]. split; try done.
  - eapply same_tracking_trans; [by apply track_same|done].
  - by rewrite Na.
  - by rewrite St, next_state_id.
  - intros sh Hlt. destruct (Hsh sh Hlt) as (Sh & Fw & w & q & h & Er & Ew & Hh & Ag). unfold view_event. cbn [fst snd].
    destruct (view_push_all cap (filter (fun m => targets m sh = true) ms) (vs sh)) as [Hpop Hwait].
    split; [by apply V|]. split.
    + apply Hwait; [done|]. apply Forall_forall. intros m Hm. apply list_elem_of_filter in Hm as [Ht Hm].
      destruct (hp_msgs _ _ _ _ Hp) as [Hok Hrt]. rewrite Forall_forall in Hok, Hrt. specialize (Hok m Hm).
      specialize (Hrt m Hm). cbn in Hrt. split_and!; [done|apply Hok|by rewrite Hrt].
    + exists w, q, h. by rewrite Hpop, Hpub.
Qed.

(** A worker whose queue is empty leaves everything as it is. *)
Lemma any_idle cap sm w0 pub0 T vs t ws out clock sh after :
  any_inv cap sm w0 pub0 T vs t ws out -> (sh < Z.to_nat NUM_SHARDS)%nat -> waiting (vs sh) = [] ->
  exists t' out', stage_step clock (t, ws) (Work sh after) = Some (t', ws)
    /\ any_inv cap sm w0 pub0 T (fun sh' => view_event cap sh' (vs sh') (Work sh after, [])) t' ws out'.
Proof.
  intros [Po Htr Hs Hopen Hout Hsh] Hlt Ewait. destruct (Hsh sh Hlt) as (Sh & Fw & w & q & h & Er & Ew & Hh & Ag).
  destruct (pop_shows cap _ out sh (vs sh) (po_router _ _ Po) Hout Hlt Sh) as (r & out' & Ep & Ro & Hout' & V).
  cbn [stage_step fst snd]. unfold worker_iter. rewrite Ew, Ep, Ewait. cbn [mbind option_bind head].
  eexists _, out'. split; [done|]. unfold view_event. cbn [fst snd view_step] in V |- *. split; try done.
  - destruct Po. by split.
  - destruct Htr. by split.
  - by rewrite Hout'.
  - intros sh' Hlt'. destruct (Hsh sh' Hlt') as (Sh' & Fw' & Rest). specialize (V sh' (vs sh') Sh').
    destruct (decide (sh = sh')) as [<-|Hne]; [rewrite Ewait in V |- *|done].
    split; [done|]. split; [by rewrite Ewait|done].
Qed.

Lemma any_work cap sm w0 pub0 T vs t ws out clock sh after :
  any_inv cap sm w0 pub0 T vs t ws out -> state_ sm = Open -> arrival_ok (Work sh after, (0, [])) ->
  is_Some (shard_run sm (w0 sh) pub0 (popped (view_event cap sh (vs sh) (Work sh after, [])))) ->
  exists t' ws' out', stage_step clock (t, ws) (Work sh after) = Some (t', ws')
    /\ any_inv cap sm w0 pub0 T (fun sh' => view_event cap sh' (vs sh') (Work sh after, [])) t' ws' out'.
Proof.
  intros I Hsm (Hlt & _ & Haf) Hrun. cbn [fst] in *.
  destruct (waiting (vs sh)) as [|m l] eqn:Ewait.
  { destruct (any_idle cap sm w0 pub0 T vs t ws out clock sh after I Hlt Ewait) as (t' & out' & E & I'). eauto. }
  destruct I as [Po Htr Hs Hopen Hout Hsh]. destruct (Hsh sh Hlt) as (Sh & Fw & w & q & h & Er & Ew & Hh & Ag).
  destruct (pop_shows cap _ out sh (vs sh) (po_router _ _ Po) Hout Hlt Sh) as (r & out' & Ep & Ro & Hout' & V).
  unfold view_event in *. cbn [fst snd view_step] in Hrun, V |- *. rewrite decide_True, Ewait in Hrun by done.
  cbn [popped] in Hrun. rewrite shard_run_app, Er in Hrun. cbn [mbind option_bind] in Hrun. destruct Hrun as [[w' q'] Hrun].
  unfold shard_run in Hrun. cbn in Hrun. apply bind_Some in Hrun as ([w1 q1] & Ed & [= <- <-]).
  rewrite Ewait in Fw. apply Forall_cons in Fw as [(Fm1 & Fm2 & Fm3) Fl]. pose proof Ed as Ed0. rewrite <- (dispatch_stamp w q sm 0 m) in Ed0.
  destruct (dispatch_agree sh w (bbo_pub_ (env_ t)) q sm (session_mgr_ t) (stamp 0 m) after w1 q1 Hsm Hopen Ag)
    as (p' & Edis & Ag' & Hoth); [by split_and!|done|].
  destruct (dispatch_timed w w1 _ p' (session_mgr_ t) m after h Edis Hh (Haf _ Fm3)) as (h' & Et & Hh').
  cbn [stage_step fst snd]. unfold worker_iter. rewrite Ew, Ep, Ewait.
  cbn [mbind option_bind head set_router bbo_pub_ seq_tracker_ sym_dir_]. rewrite Et. cbn [mbind option_bind].
  eexists _, _, out'. split; [done|]. split; try done; [destruct Po; by split|destruct Htr; by split|by rewrite Hout'|].
  intros sh' Hlt'. destruct (Hsh sh' Hlt') as (Sh' & Fw' & w2 & q2 & h2 & Er2 & Ew2 & Hh2 & Ag2). specialize (V sh' (vs sh') Sh').
  destruct (decide (sh = sh')) as [<-|Hne].
  - rewrite Ewait in V |- *. split; [done|]. split; [done|]. exists w1, q1, h'. cbn [popped]. split_and!.
    + rewrite shard_run_app, Er. cbn [mbind option_bind]. unfold shard_run. cbn. by rewrite Ed.
    + apply list_lookup_insert_eq. by eapply lookup_lt_Some.
    + congruence.
    + done.
  - split; [done|]. split; [done|]. exists w2, q2, h2. split_and!; [done| |done|].
    + by rewrite list_lookup_insert_ne.
    + cbn. by apply Hoth.
Qed.

Lemma any_run cap sm w0 pub0 clock es : state_ sm = Open -> (forall r i, times r -> timely r (clock i)) ->
  Forall arrival_ok es -> forall T vs t ws out, any_inv cap sm w0 pub0 T vs t ws out ->
  (forall sh, (sh < Z.to_nat NUM_SHARDS)%nat ->
     is_Some (shard_run sm (w0 sh) pub0 (popped (foldl (view_event cap sh) (vs sh) (plain <$> es))))) ->
  exists t' ws' out', stage_run clock (t, ws) (es.*1) = Some (t', ws')
    /\ any_inv cap sm w0 pub0 (foldl track_arrival T es) (fun sh => foldl (view_event cap sh) (vs sh) (plain <$> es)) t' ws' out'.
Proof.
  intros Hsm Hc Hes. induction Hes as [|[[now s|sh after] [n ms]] es He _ IH]; intros T vs t ws out I Hrun.
  - by exists t, ws, out.
  - destruct (any_slot cap sm w0 pub0 T vs t ws out clock now s n ms I He Hc) as (t1 & E1 & I1).
    destruct (IH _ _ _ _ _ I1 Hrun) as (t' & ws' & out' & E & I'). exists t', ws', out'.
    cbn [fmap list_fmap fst stage_run]. rewrite E1. done.
  - pose proof He as (Hlt & Hms & Haf). cbn [fst snd] in *. subst ms.
    destruct (any_work cap sm w0 pub0 T vs t ws out clock sh after I Hsm He) as (t1 & ws1 & out1 & E1 & I1).
    { specialize (Hrun sh Hlt). cbn [fmap list_fmap foldl] in Hrun.
      destruct (view_events_popped cap sh (plain <$> es) (view_event cap sh (vs sh) (Work sh after, []))) as [l El].
      change (plain (Work sh after, (n, []))) with (Work sh after, [] : list ItchMsg) in Hrun. rewrite El, shard_run_app in Hrun.
      destruct Hrun as [x Hx]. apply bind_Some in Hx as (y & Hy & _). by exists y. }
    destruct (IH _ _ _ _ _ I1 Hrun) as (t' & ws' & out' & E & I'). exists t', ws', out'.
    cbn [fmap list_fmap fst stage_run]. rewrite E1. done.
Qed.

End Any.

(** ** From the sockets on *)

Lemma attach_plain es : forall xs : list (Z * list ItchMsg), plain <$> attach (0, []) es xs = attach [] es (xs.*2).
Proof.
  induction es as [|[now s|sh a] es IH]; intros xs; [done|..]; cbn [attach fmap list_fmap]; rewrite IH; [|done].
  by destruct xs as [|[n ms] xs].
Qed.

Lemma to_shard_stamp sh ts ms : to_shard sh (stamp ts <$> ms) = stamp ts <$> to_shard sh ms.
Proof.
  unfold to_shard. induction ms as [|m ms IH]; [done|]. rewrite fmap_cons, !filter_cons, IH.
  change (targets (stamp ts m) sh) with (targets m sh). by case_decide.
Qed.

(** Tracking of numbered packets, each with the time it is processed. *)
Definition track_all {CB R P} `{FifoOps P SeqRecord} (sess : bytes) (t : ParserThread CB R P) (l : list (Z * Z)) : ParserThread CB R P :=
  foldl (fun t x => track_sequence t x.1 x.2 sess) t l.

Lemma track_attach {CB R P} `{FifoOps P SeqRecord} sess es : forall xs (t : ParserThread CB R P),
  length (slots_of es) = length xs ->
  exists nows, length nows = length xs
    /\ foldl (track_arrival sess) t (attach (0, []) es xs) = track_all sess t (zip nows (xs.*1)).
Proof.
  induction es as [|[now s|sh a] es IH]; intros xs t Hl.
  - destruct xs; [|done]. by exists [].
  - rewrite slots_of_slot in Hl. destruct xs as [|[n ms] xs]; [done|]. cbn [length] in Hl. injection Hl as Hl.
    destruct (IH xs (track_sequence t now n sess) Hl) as (nows & Hn & E). exists (now :: nows). cbn [length]. split; [congruence|].
    exact E.
  - destruct (IH xs t Hl) as (nows & Hn & E). exists nows. split; [done|]. by rewrite <- E.
Qed.

Section Sockets.
Context {CB Q M R P N : Type} `{Fifo Q Z} `{Fifo M MergedSlot} `{Fifo R ItchMsg} `{FifoOps P SeqRecord} `{MapOps N}.
Abbreviation thread := (ParserThread CB R P).
Abbreviation worker := (ShardWorker N).
Context (times : Z -> Prop) (sess : bytes).

Lemma any_start_run cap (t : thread) (ws : list worker) clock es :
  stage_start cap sess t ws -> Forall (fun w => length (buckets_ (book_lat_ w)) = Z.to_nat TOTAL_BUCKETS) ws ->
  (forall r i, times r -> timely r (clock i)) -> Forall (arrival_ok times sess) es ->
  let view sh := foldl (view_event cap sh) (mkView [] [] 0) (plain <$> es) in
  (forall sh w, ws !! sh = Some w -> is_Some (shard_run (session_mgr_ t) w (bbo_pub_ (env_ t)) (popped (view sh)))) ->
  exists t' ws', stage_run clock (t, ws) (es.*1) = Some (t', ws') /\ same_tracking (foldl (track_arrival sess) t es) t'
    /\ forall sh w, ws !! sh = Some w ->
         (items <$> queues_ (router_ (env_ t')) !! sh) = Some (waiting (view sh))
         /\ exists w' pub' h, shard_run (session_mgr_ t) w (bbo_pub_ (env_ t)) (popped (view sh)) = Some (w', pub')
           /\ ws' !! sh = Some (with_lat w' h)
           /\ forall loc, 0 <= loc -> loc mod NUM_SHARDS = Z.of_nat sh ->
                read_bbo (bbo_pub_ (env_ t')) loc = read_bbo pub' loc.
Proof.
  intros St Hlat Hc Hes view Hrun. pose proof (ss_workers _ _ _ _ St) as Hws.
  destruct ws as [|wd ws0] eqn:Ews; [unfold NUM_SHARDS in Hws; cbn in Hws; lia|]. rewrite <- Ews in *. clear Ews.
  set (w0 := fun sh => default wd (ws !! sh)).
  assert (Hlook : forall sh, (sh < Z.to_nat NUM_SHARDS)%nat -> ws !! sh = Some (w0 sh)).
  { intros sh Hlt. destruct (lookup_lt_is_Some_2 ws sh) as [w Hw]; [lia|]. unfold w0. by rewrite Hw. }
  assert (I : any_inv times sess cap (session_mgr_ t) w0 (bbo_pub_ (env_ t)) t (fun _ => mkView [] [] 0) t ws
    (replicate (Z.to_nat NUM_SHARDS) [])).
  { split; try apply St; [by split|by rewrite length_replicate|]. intros sh Hlt.
    split; [by eapply stage_start_shows|]. split; [done|]. exists (w0 sh), (bbo_pub_ (env_ t)), (book_lat_ (w0 sh)).
    rewrite (Hlook sh Hlt). split_and!; try done; [by destruct (w0 sh)|].
    exact (Forall_lookup_1 _ _ _ _ Hlat (Hlook sh Hlt)). }
  destruct (any_run times sess cap _ w0 _ clock es (ss_open _ _ _ _ St) Hc Hes _ _ _ _ _ I) as (t' & ws' & out' & E & I').
  { intros sh Hlt. by apply Hrun, Hlook. }
  exists t', ws'. split_and!; [done|apply I'|]. intros sh w Hw. pose proof (lookup_lt_Some _ _ _ Hw) as Hlt. rewrite Hws in Hlt.
  assert (w0 sh = w) as Ew0 by (unfold w0; by rewrite Hw).
  destruct (ai_shards _ _ _ _ _ _ _ _ _ _ _ I' sh Hlt) as (Sh & _ & w' & q & h & Er & Ew & _ & Ag). rewrite Ew0 in Er.
  split; [apply Sh|]. exists w', q, h. split_and!; [done..|]. intros loc Hl Hm. by eapply agree_read.
Qed.

(** As [shards_follow], but the queued messages may carry receive times and the
    worker its own measurements. *)
Definition shards_reflect (t : thread) (ws : list worker) (t' : thread) (ws' : list worker) (msgs : list ItchMsg) : Prop :=
  forall sh w, ws !! sh = Some w -> exists applied queued w' pub' h,
    applied ++ queued = to_shard sh msgs
    /\ (fmap (stamp 0) ∘ items <$> queues_ (router_ (env_ t')) !! sh) = Some queued
    /\ shard_run (session_mgr_ t) w (bbo_pub_ (env_ t)) applied = Some (w', pub')
    /\ ws' !! sh = Some (with_lat w' h)
    /\ forall loc, 0 <= loc -> loc mod NUM_SHARDS = Z.of_nat sh ->
         read_bbo (bbo_pub_ (env_ t')) loc = read_bbo pub' loc.

Lemma attach_ok es : all_works (fun sh after => (sh < Z.to_nat NUM_SHARDS)%nat /\ forall r, times r -> timely r after) es ->
  forall ys, Forall2 (fun s y => arrival_ok times sess (Slot 0 s, y)) (slots_of es) ys ->
  Forall (arrival_ok times sess) (attach (0, []) es ys).
Proof.
  induction 1 as [|[now s|sh a] es He _ IH]; intros ys Hy; cbn [attach]; [done|..].
  - change (slots_of (Slot now s :: es)) with (s :: slots_of es) in Hy. apply Forall2_cons_inv_l in Hy as (y & ys' & Hs & Hr & ->).
    apply Forall_cons. split; [exact Hs|by apply IH].
  - apply Forall_cons. split; [|by apply IH]. destruct He. by split_and!.
Qed.

(** Messages of the wire in slots, and back. *)
Lemma stamped_back ss xs : length ss = length xs -> Forall (fun x : Z * list ItchMsg => Forall (fun m => recv_timestamp m = 0) x.2) xs ->
  stamp 0 <$> concat ((zip_with (fun s (x : Z * list ItchMsg) => (x.1, stamp (recv_ts s) <$> x.2)) ss xs).*2) = concat (xs.*2).
Proof.
  revert xs. induction ss as [|s ss IH]; intros [|[n ms] xs] Hl Hx; try done. apply Forall_cons in Hx as [Hm Hx].
  injection Hl as Hl. cbn [zip_with fmap list_fmap concat fst snd]. rewrite fmap_app. f_equal; [|by apply IH].
  cbn [snd] in Hm. transitivity (stamp 0 <$> ms); [|by apply stamp_same]. by rewrite <- list_fmap_compose.
Qed.

(** Parser and workers over a transport that yields packets of any number. *)
Lemma slots_reflected fuel cap (p0 p : Transport Q M) (t : thread) (ws : list worker) clock es ss xs :
  stage_start cap sess t ws -> Forall (fun w => length (buckets_ (book_lat_ w)) = Z.to_nat TOTAL_BUCKETS) ws ->
  (forall r i, times r -> timely r (clock i)) ->
  all_shards (fun sh after => (sh < Z.to_nat NUM_SHARDS)%nat /\ forall r, times r -> timely r after) es ->
  transport_run fuel p0 (net_events es) = Some (p, ss) ->
  Forall2 (fun s x => arrival_ok times sess (Slot 0 s, (x.1, stamp (recv_ts s) <$> x.2))) ss xs ->
  Forall (fun x : Z * list ItchMsg => Forall (fun m => recv_timestamp m = 0) x.2) xs ->
  shards_can cap t ws (concat (xs.*2)) ->
  exists t' ws' nows, full_run fuel clock (p0, (t, ws)) es = Some (p, (t', ws'))
    /\ length nows = length xs /\ same_tracking (track_all sess t (zip nows (xs.*1))) t'
    /\ shards_reflect t ws t' ws' (concat (xs.*2)).
Proof.
  intros St Hlat Hc Hk Et Hss Hts Hcan. destruct (full_run_split _ fuel clock es Hk _ _ (t, ws) ss Et) as (ses & Hs & Hkw & Hfull).
  pose proof (Forall2_length _ _ _ Hss) as Hl.
  set (ys := zip_with (fun s (x : Z * list ItchMsg) => (x.1, stamp (recv_ts s) <$> x.2)) ss xs).
  assert (Hyl : length ys = length ss) by (unfold ys; rewrite length_zip_with; lia).
  assert (Hes : Forall (arrival_ok times sess) (attach (0, []) ses ys)).
  { apply attach_ok; [done|]. rewrite Hs. unfold ys. clear -Hss. induction Hss; constructor; done. }
  assert (Hmsgs : stamp 0 <$> concat ((plain <$> attach (0, []) ses ys).*2) = concat (xs.*2)).
  { rewrite attach_plain, attach_concat, Hs, firstn_all2 by (rewrite length_fmap; lia). by apply stamped_back. }
  set (aes := attach (0, []) ses ys) in *. set (view sh := foldl (view_event cap sh) (mkView [] [] 0) (plain <$> aes)).
  assert (Hview : forall sh w, ws !! sh = Some w ->
    stamp 0 <$> popped (view sh) ++ waiting (view sh) = to_shard sh (concat (xs.*2))).
  { intros sh w Hw. destruct (Hcan sh w Hw) as [Hcap _]. rewrite <- Hmsgs, to_shard_stamp, length_fmap in Hcap.
    unfold view. rewrite (view_events_room cap sh (plain <$> aes)); [by rewrite <- Hmsgs, to_shard_stamp| |exact Hcap].
    apply Forall_fmap. eapply Forall_impl; [exact Hes|]. intros [[now s|sh' a] y] He sh0 a0; cbn; [done|]. intros _. apply He. }
  assert (Hidem : forall l : list ItchMsg, stamp 0 <$> (stamp 0 <$> l) = stamp 0 <$> l)
    by (intros l; by rewrite <- list_fmap_compose).
  destruct (any_start_run cap t ws clock aes St Hlat Hc Hes) as (t' & ws' & E & Htr & Hall).
  { intros sh w Hw. destruct (Hcan sh w Hw) as [_ [x Hx]]. rewrite <- (Hview sh w Hw), fmap_app, shard_run_app in Hx.
    apply bind_Some in Hx as (y & Hy & _). exists y. rewrite <- Hy. apply shard_run_stamp. by rewrite Hidem. }
  unfold aes in E, Htr. rewrite attach_fst in E.
  destruct (track_attach sess ses ys t) as (nows & Hn & Etr); [by rewrite Hs|]. rewrite Etr in Htr.
  assert (Hys1 : ys.*1 = xs.*1) by (unfold ys; clear -Hl; revert xs Hl; induction ss; intros [|x xs] Hl; cbn in *; try done; f_equal; auto).
  exists t', ws', nows. rewrite Hfull, E. split; [done|]. split; [congruence|]. rewrite <- Hys1. split; [done|].
  intros sh w Hw. destruct (Hall sh w Hw) as (Hq & w' & pub' & h & Er & Ew & Hread).
  eexists (stamp 0 <$> popped (view sh)), (stamp 0 <$> waiting (view sh)), w', pub', h. split_and!; try done.
  - rewrite <- fmap_app. by apply (Hview sh w).
  - rewrite option_fmap_compose, Hq. done.
  - rewrite <- Er. apply shard_run_stamp. by rewrite Hidem.
Qed.

(** C8: nothing but the order of arrival decides the quotes.  Packets of an open
    session, without system events, arrive on two feeds and from the recovery
    thread in any order, with gaps, late and repeated ones; all threads
    interleave in any way while no slot is overwritten on its way; the shard
    queues have room for all messages, the shards can apply them, and the
    latencies fit the histograms.  Then
    no thread faults; every packet taken by the parser was received, and no
    number of the live feeds passes the merger twice; tracker, gap detector and
    counters are what the numbers of the packets taken make of them, one after
    the other; and each shard has applied, in the order of the packets taken, a
    prefix of the messages addressed to it, the rest waits in its queue, and
    its quotes are those of this sequential application.  Measuring the
    latency of recovered packets touches the histograms only. *)
Theorem arrivals_to_quotes fuel cap (q qr : Q) (mq : M) timeout now0 (t : thread) (ws : list worker) clock es
    (messages : bytes -> list ItchMsg) :
  empty q PACKET_RING_DEPTH -> empty qr RECOVERY_RING_DEPTH -> empty mq MERGED_QUEUE_DEPTH ->
  stage_start cap sess t ws -> Forall (fun w => length (buckets_ (book_lat_ w)) = Z.to_nat TOTAL_BUCKETS) ws ->
  bytes_ok sess -> length sess = 10%nat -> (forall r i, times r -> timely r (clock i)) ->
  all_shards (fun sh after => (sh < Z.to_nat NUM_SHARDS)%nat /\ forall r, times r -> timely r after) es ->
  (forall src d, (src, d) ∈ received (net_events es) -> in_range 64 (seq_of d)
     /\ wire_packet sess (seq_of d) (messages d) d /\ Forall (fun m => type m <> SystemEvent) (messages d)) ->
  admissible_run fuel (Z.to_nat MERGED_QUEUE_DEPTH) flow0 (net_events es) ->
  (forall p ss, transport_run fuel (new_transport q qr mq timeout now0) (net_events es) = Some (p, ss) ->
     Forall (fun s => times (recv_ts s)) ss) ->
  (forall f, flow_run fuel (Z.to_nat MERGED_QUEUE_DEPTH) flow0 (net_events es) = Some f ->
     shards_can cap t ws (concat (messages ∘ p_data <$> given f))) ->
  exists p t' ws' f nows, full_run fuel clock (new_transport q qr mq timeout now0, (t, ws)) es = Some (p, (t', ws'))
    /\ flow_run fuel (Z.to_nat MERGED_QUEUE_DEPTH) flow0 (net_events es) = Some f
    /\ Forall (fun x => (p_src x, p_data x) ∈ received (net_events es)) (outs f) /\ NoDup (live_numbers (outs f))
    /\ length nows = length (given f)
    /\ same_tracking (track_all sess t (zip nows (seq_of ∘ p_data <$> given f))) t'
    /\ shards_reflect t ws t' ws' (concat (messages ∘ p_data <$> given f)).
Proof.
  intros Eq Er Em St Hlat Hsb Hs10 Hc Hk Hw Ha Hts Hcan.
  pose proof (new_transport_carries fuel q qr mq timeout now0 _ Eq Er Em) as C.
  destruct (transport_run_refines fuel _ _ _ _ C Ha) as (p & ss & f & new & Et & Ef & _ & Hg & F2).
  cbn [flow0 given app] in Hg. subst new. pose proof (flow_run_ok fuel _ _ _ _ _ (flow0_ok fuel) Ha Ef) as F. cbn [app] in F.
  specialize (Hts p ss Et). specialize (Hcan f Ef). pose proof (fo_out _ _ _ F) as Hout.
  assert (Hgiven : Forall (fun x => (p_src x, p_data x) ∈ received (net_events es)) (given f)) by (by apply Forall_app in Hout as [? _]).
  set (xs := (fun x => (seq_of (p_data x), messages (p_data x))) <$> given f).
  assert (Hx2 : xs.*2 = messages ∘ p_data <$> given f) by (unfold xs; by rewrite <- list_fmap_compose).
  assert (Hx1 : xs.*1 = seq_of ∘ p_data <$> given f) by (unfold xs; by rewrite <- list_fmap_compose).
  rewrite <- Hx2 in Hcan.
  destruct (slots_reflected fuel cap (new_transport q qr mq timeout now0) p t ws clock es ss xs)
    as (t' & ws' & nows & E & Hl & Htr & Hr); try done.
  - unfold xs. apply Forall2_fmap_r. clear Hcan Hx1 Hx2 Et Ef C F Hout. induction F2 as [|s x ss l [Hd Ho] _ IH]; [constructor|].
    apply Forall_cons in Hts as [Hs Hts]. apply Forall_cons in Hgiven as [Hx Hgiven]. constructor; [|by apply IH].
    destruct (Hw _ _ Hx) as (Hn & Hp & Hev). split_and!; cbn [fst snd].
    + by apply (wire_packet_stamped (p_src x) s sess _ _ (p_data x)).
    + done.
    + by apply Forall_fmap.
  - unfold xs. apply Forall_fmap. eapply Forall_impl; [exact Hgiven|]. intros x Hx. cbn.
    destruct (Hw _ _ Hx) as (_ & (_ & _ & Hz & _) & _). exact Hz.
  - exists p, t', ws', f, nows. rewrite <- Hx1, <- Hx2. split_and!; try done.
    + rewrite (fo_seen _ _ _ F). apply F.
    + rewrite Hl. unfold xs. apply length_fmap.
Qed.

End Sockets.

(** *** Witness *)

(** Packet 9 arrives, packet 8 is lost and recovered at time 100; the worker
    gets to its order at time 500. *)
Definition recovered_events : list FullEvent :=
  [Net 0 (Receive Primary one_delete_packet 0); Net 0 (Merge 0 0); Net 10 Take;
   Net 100 (Receive Recovery one_order_packet 100); Net 100 (Merge 0 0); Net 110 Take; Shard 3 500; Shard 4 500].

Lemma recovered_admissible : admissible_run 1 (Z.to_nat MERGED_QUEUE_DEPTH) flow0 (net_events recovered_events).
Proof.
  assert (Hu : forall f src, waiting_at f src = [] -> flying f src = [] -> unlapped f src).
  { intros f src Hw Hf a d Hx. rewrite Hw, Hf in Hx. by apply elem_of_nil in Hx. }
  set (es := net_events recovered_events). vm_compute in es. subst es.
  repeat match goal with
    | |- admissible_run _ _ _ [] => exact I
    | |- admissible_run _ _ _ _ => split; [|intros ? E; vm_compute in E; injection E as <-]
    | |- admissible _ _ (Receive _ _ _) => split; [vm_compute; lia|]; split; [|split; [apply Hu; reflexivity|split; reflexivity]]
    | |- admissible _ _ _ => exact I
    | |- bytes_ok _ => first [exact one_order_bytes|exact one_delete_bytes]
    end.
Qed.

Lemma recovered_times : (fun x : _ * list PacketSlot => recv_ts <$> x.2)
    <$> transport_run 1 (new_transport ring_queue recovery_q token_queue 1000 5) (net_events recovered_events)
  = Some [0; 100].
Proof. vm_compute. reflexivity. Qed.

Definition sample_messages (d : bytes) : list ItchMsg := if decide (seq_of d = 8) then [wire_order] else [wire_delete].

Lemma sample_messages_eq : sample_messages one_order_packet = [wire_order] /\ sample_messages one_delete_packet = [wire_delete]
  /\ seq_of one_order_packet = 8 /\ seq_of one_delete_packet = 9.
Proof. split_and!; vm_compute; reflexivity. Qed.

Lemma recovered_shards_can : shards_can 2 open_thread fresh_workers [wire_delete; wire_order].
Proof.
  intros sh w Hw. pose proof (lookup_lt_Some _ _ _ Hw) as Hl. change (length fresh_workers) with 8%nat in Hl.
  assert (to_shard sh [wire_delete; wire_order] = to_shard sh (concat [[wire_order]; [wire_delete]])) as ->.
  { clear Hw. do 8 (destruct sh as [|sh]; [reflexivity|]). lia. }
  by apply redundant_shards_can.
Qed.

Lemma arrivals_to_quotes_witness :
  exists p t' ws',
    full_run 1 (fun _ => 120) (new_transport ring_queue recovery_q token_queue 1000 5, (open_thread, fresh_workers))
      recovered_events = Some (p, (t', ws'))
    /\ shards_reflect open_thread fresh_workers t' ws' [wire_delete; wire_order].
Proof.
  destruct sample_messages_eq as (M8 & M9 & S8 & S9).
  destruct (arrivals_to_quotes (fun r => r = 0 \/ r = 100) sample_session 1 2 ring_queue recovery_q token_queue 1000 5 open_thread
    fresh_workers (fun _ => 120) recovered_events sample_messages)
    as (p & t' & ws' & f & nows & E & Ef & _ & _ & _ & _ & Hr).
  - exact ring_queue_empty.
  - exact recovery_q_empty.
  - exact token_queue_empty.
  - exact open_start.
  - repeat constructor.
  - clear. cbn. concrete.
  - reflexivity.
  - intros r i [-> | ->]; unfold timely; lia.
  - repeat (apply Forall_cons_2; [first [exact I|split; [unfold NUM_SHARDS; lia|intros r [-> | ->]; unfold timely; lia]]|]).
    apply Forall_nil_2.
  - intros src d Hd. change (received (net_events recovered_events)) with [(Primary, one_delete_packet); (Recovery, one_order_packet)] in Hd.
    apply elem_of_cons in Hd as [[= -> ->]|Hd]; [|apply list_elem_of_singleton in Hd as [= -> ->]].
    + rewrite S9, M9. split; [concrete|]. split; [exact one_delete_on_wire|]. repeat constructor; discriminate.
    + rewrite S8, M8. split; [concrete|]. split; [exact one_order_on_wire|]. repeat constructor; discriminate.
  - exact recovered_admissible.
  - intros p ss Et. pose proof recovered_times as Ht. rewrite Et in Ht. cbn in Ht. injection Ht as Ht.
    assert (Hall : Forall (fun r => r = 0 \/ r = 100) (recv_ts <$> ss)) by (rewrite Ht; repeat constructor; auto).
    by apply Forall_fmap in Hall.
  - intros f Ef. vm_compute in Ef. injection Ef as <-. exact recovered_shards_can.
  - vm_compute in Ef. injection Ef as <-. exists p, t', ws'. split; [exact E|exact Hr].
Defined.
