(* ===== verification/Snapshot.v ===== *)
(** * Book snapshots

    [Level2Book::serialize_snapshot] and [restore_snapshot]
    ([src/orderbook/level2_book.cpp]) and [BookSnapshot::write_snapshot] and
    [read_snapshot] ([src/recovery/book_snapshot.cpp]).  A file is the list of
    its bytes; paths, pointer files and renames are in [SnapshotFiles].
    [None] is a read outside a buffer, or the use of a scalar that a
    short [fread] left undetermined. *)

From S2P Require Import Prelude Types OrderMap Level2Book BookLevels.

Definition sizeof_PriceLevel : Z := 64.
Definition kHeaderSize : Z := 6.

(** Two's complement reading of a 64-bit word ([Price] is [int64_t]). *)
Definition s64 (z : Z) : Z := if z <? 2 ^ 63 then z else z - 2 ^ 64.

(** The memory image of a [PriceLevel] and the level a memory image holds. *)
Definition level_bytes (l : PriceLevel) : bytes :=
  le_enc 8 (u64 (level_price l)) ++ le_enc 4 (total_qty l) ++ le_enc 4 (order_count l)
  ++ le_enc 4 (head_order_idx l) ++ le_enc 4 (tail_order_idx l) ++ pad l.

Definition level_of_bytes (p : bytes) : PriceLevel :=
  mkLevel (s64 (le_val (take 8 p))) (le_val (take 4 (drop 8 p))) (le_val (take 4 (drop 12 p)))
    (le_val (take 4 (drop 16 p))) (le_val (take 4 (drop 20 p))) (take 40 (drop 24 p)).

Definition levels_bytes (ls : list PriceLevel) : bytes := concat (level_bytes <$> ls).

Fixpoint levels_of_bytes (n : nat) (p : bytes) : list PriceLevel :=
  match n with
  | O => []
  | S n' => level_of_bytes p :: levels_of_bytes n' (drop 64 p)
  end.

Definition needed_bytes (bid_count ask_count : Z) : Z :=
  kHeaderSize + bid_count * sizeof_PriceLevel + ask_count * sizeof_PriceLevel.

(** The bytes written to the buffer; [Some []] is the return value 0. *)
Definition serialize_snapshot (b : Level2Book) (buf_size : Z) : option bytes :=
  if buf_size <? needed_bytes (bid_count_ b) (ask_count_ b) then Some []
  else if decide (bid_count_ b <= Z.of_nat (length (bid_levels_ b))
                  /\ ask_count_ b <= Z.of_nat (length (ask_levels_ b)))
  then Some (le_enc 2 (locate_ b) ++ le_enc 2 (bid_count_ b) ++ le_enc 2 (ask_count_ b)
             ++ levels_bytes (take (Z.to_nat (bid_count_ b)) (bid_levels_ b))
             ++ levels_bytes (take (Z.to_nat (ask_count_ b)) (ask_levels_ b)))
  else None.

(** [memcpy] over the first levels of an array. *)
Definition overlay {A} (new old : list A) : list A := new ++ drop (length new) old.

Definition restore_snapshot (b : Level2Book) (buf : bytes) (len : Z) : option (bool * Level2Book) :=
  if len <? kHeaderSize then Some (false, b)
  else
    h ← rd_bytes 6 buf;
    let loc := le_val (take 2 h) in
    let bc := le_val (take 2 (drop 2 h)) in
    let ac := le_val (take 2 (drop 4 h)) in
    if (bc >? MAX_PRICE_LEVELS) || (ac >? MAX_PRICE_LEVELS) then Some (false, b)
    else if len <? needed_bytes bc ac then Some (false, b)
    else
      p ← rd_bytes (Z.to_nat ((bc + ac) * sizeof_PriceLevel)) (drop 6 buf);
      let bids := levels_of_bytes (Z.to_nat bc) p in
      let asks := levels_of_bytes (Z.to_nat ac) (drop (Z.to_nat (bc * sizeof_PriceLevel)) p) in
      Some (true, mkBook loc (status_ b) (overlay bids (bid_levels_ b)) (overlay asks (ask_levels_ b))
                    bc ac (drop_ctr_ b) (inplace_ctr_ b)).

(** ** The file *)

Definition snapshot_magic : Z := 1230259016.

(** One iteration of the loop of [write_snapshot]: the buffer size afterwards
    and the record of the book.  The buffer is enlarged once. *)
Definition write_book (buf_size : Z) (b : Level2Book) : option (Z * bytes) :=
  w ← serialize_snapshot b buf_size;
  '(size', w') ←
    (if Z.of_nat (length w) =? 0
     then w2 ← serialize_snapshot b (buf_size * 2); Some (buf_size * 2, w2)
     else Some (buf_size, w));
  Some (size', le_enc 4 (u32 (Z.of_nat (length w'))) ++ w').

Fixpoint write_books (buf_size : Z) (books : list Level2Book) : option bytes :=
  match books with
  | [] => Some []
  | b :: books' =>
      '(size', r) ← write_book buf_size b;
      rest ← write_books size' books';
      Some (r ++ rest)
  end.

Definition write_snapshot (books : list Level2Book) : option bytes :=
  rs ← write_books 4096 books;
  Some (le_enc 4 snapshot_magic ++ le_enc 8 (Z.of_nat (length books)) ++ rs).

(** [fread] of [n] single bytes into a buffer: what was left of the buffer
    stays after a short read. *)
Definition fread_into (buf : bytes) (n : nat) (f : bytes) : bytes * bytes :=
  (overlay (take n f) buf, drop n f).

(** [fread] of one integer of [n] bytes into a variable that is zero: at the end
    of the file it stays zero.  [None]: the file ends within the integer, which
    leaves its value indeterminate. *)
Definition fread_one (n : nat) (f : bytes) : option Z :=
  match f with [] => Some 0 | _ => le_val <$> rd_bytes n f end.

Definition read_book (buf : bytes) (b : Level2Book) (f : bytes)
    : option (bytes * Level2Book * bytes) :=
  len ← fread_one 4 f;
  let buf1 := buf ++ replicate (Z.to_nat len - length buf) 0 in
  let '(buf2, f') := fread_into buf1 (Z.to_nat len) (drop 4 f) in
  '(_, b') ← restore_snapshot b buf2 len;
  Some (buf2, b', f').

Fixpoint read_books (buf : bytes) (books : list Level2Book) (todo : nat) (f : bytes)
    : option (list Level2Book) :=
  match todo, books with
  | S todo', b :: books' =>
      '(buf', b', f') ← read_book buf b f;
      rest ← read_books buf' books' todo' f';
      Some (b' :: rest)
  | _, _ => Some books
  end.

(** The verdict and the books; [to_restore] is the smaller of the two counts. *)
Definition read_snapshot (books : list Level2Book) (f : bytes) : option (bool * list Level2Book) :=
  magic ← fread_one 4 f;
  if negb (magic =? snapshot_magic) then Some (false, books)
  else
    saved_count ← fread_one 8 (drop 4 f);
    let to_restore := Z.min saved_count (Z.of_nat (length books)) in
    bs ← read_books (replicate 4096 0) books (Z.to_nat to_restore) (drop 12 f);
    Some (true, bs).

(** ** Lemmas *)

Record level_wf (l : PriceLevel) : Prop := {
  lw_price : - 2 ^ 63 <= level_price l < 2 ^ 63;
  lw_total : in_range 32 (total_qty l);
  lw_count : in_range 32 (order_count l);
  lw_head : in_range 32 (head_order_idx l);
  lw_tail : in_range 32 (tail_order_idx l);
  lw_pad : length (pad l) = 40%nat
}.

Lemma s64_u64 z : - 2 ^ 63 <= z < 2 ^ 63 -> s64 (u64 z) = z.
Proof. intros. unfold s64. destruct (Z.ltb_spec (u64 z) (2 ^ 63)); range_lia. Qed.

Lemma fread_one_app n (a b : bytes) : length a = S n -> fread_one (S n) (a ++ b) = Some (le_val a).
Proof. intros Ha. unfold fread_one. destruct a; [done|]. by rewrite <- app_comm_cons, app_comm_cons, rd_bytes_app. Qed.

(** The first field of a buffer, and the buffer after it. *)
Lemma take_field n z (r : bytes) : take n (le_enc n z ++ r) = le_enc n z.
Proof. apply take_app_length'. by rewrite le_enc_length. Qed.

Lemma drop_field n z (r : bytes) : drop n (le_enc n z ++ r) = r.
Proof. apply drop_app_length'. by rewrite le_enc_length. Qed.

Lemma drop_fields n k z (r : bytes) : drop (n + k) (le_enc n z ++ r) = drop k r.
Proof. by rewrite <- drop_drop, drop_field. Qed.

Lemma le_val_field w n z : w = 8 * Z.of_nat n -> in_range w z -> le_val (le_enc n z) = z.
Proof.
  intros -> Hz. rewrite le_val_enc. apply Z.mod_small. unfold in_range in Hz.
  change 256 with (2 ^ 8). rewrite <- Z.pow_mul_r by lia. done.
Qed.

Lemma level_bytes_length l : level_wf l -> length (level_bytes l) = 64%nat.
Proof. intros W. unfold level_bytes. rewrite !length_app, !le_enc_length, (lw_pad _ W). done. Qed.

Lemma level_roundtrip l r : level_wf l -> level_of_bytes (level_bytes l ++ r) = l.
Proof.
  intros [Hp Ht Hc Hh Hl Hpad]. unfold level_of_bytes, level_bytes. rewrite <- !app_assoc.
  change (@drop Z 12) with (@drop Z (8 + 4)). change (@drop Z 16) with (@drop Z (8 + (4 + 4))).
  change (@drop Z 20) with (@drop Z (8 + (4 + (4 + 4)))).
  change (@drop Z 24) with (@drop Z (8 + (4 + (4 + (4 + 4))))).
  rewrite !drop_fields, !drop_field, !take_field.
  rewrite (le_val_field 64 8), !(le_val_field 32 4), s64_u64 by (done || apply wrap_range; lia).
  rewrite take_app_length' by done. by destruct l.
Qed.

Lemma levels_bytes_length ls : Forall level_wf ls -> length (levels_bytes ls) = (64 * length ls)%nat.
Proof.
  induction 1 as [|l ls W _ IH]; [done|]. unfold levels_bytes in *.
  cbn [fmap list_fmap concat length].
  rewrite length_app, level_bytes_length, IH by done. lia.
Qed.

Lemma levels_roundtrip ls r : Forall level_wf ls ->
  levels_of_bytes (length ls) (levels_bytes ls ++ r) = ls.
Proof.
  induction 1 as [|l ls W _ IH]; [done|]. unfold levels_bytes in *. cbn [fmap list_fmap concat length levels_of_bytes].
  rewrite <- app_assoc, level_roundtrip by done. f_equal.
  by rewrite drop_app_length' by (by rewrite level_bytes_length).
Qed.

Definition bids (b : Level2Book) : list PriceLevel := take (Z.to_nat (bid_count_ b)) (bid_levels_ b).
Definition asks (b : Level2Book) : list PriceLevel := take (Z.to_nat (ask_count_ b)) (ask_levels_ b).

(** A book whose fields have their C++ ranges. *)
Record book_wf (b : Level2Book) : Prop := {
  bw_locate : in_range 16 (locate_ b);
  bw_bids : 0 <= bid_count_ b <= MAX_PRICE_LEVELS /\ length (bid_levels_ b) = Z.to_nat MAX_PRICE_LEVELS;
  bw_asks : 0 <= ask_count_ b <= MAX_PRICE_LEVELS /\ length (ask_levels_ b) = Z.to_nat MAX_PRICE_LEVELS;
  bw_levels : Forall level_wf (bids b) /\ Forall level_wf (asks b)
}.

Lemma bids_length b : book_wf b -> length (bids b) = Z.to_nat (bid_count_ b)
  /\ length (asks b) = Z.to_nat (ask_count_ b).
Proof.
  intros [_ [] [] _]. unfold bids, asks. rewrite !length_take. unfold MAX_PRICE_LEVELS in *. lia.
Qed.

Definition book_image (b : Level2Book) : bytes :=
  le_enc 2 (locate_ b) ++ le_enc 2 (bid_count_ b) ++ le_enc 2 (ask_count_ b)
  ++ levels_bytes (bids b) ++ levels_bytes (asks b).

Lemma book_image_length b : book_wf b ->
  Z.of_nat (length (book_image b)) = needed_bytes (bid_count_ b) (ask_count_ b).
Proof.
  intros W. destruct (bw_levels _ W) as [Wb Wa]. destruct (bids_length b W) as [Lb La].
  destruct (bw_bids _ W) as [? _]. destruct (bw_asks _ W) as [? _].
  unfold book_image. rewrite !length_app, !le_enc_length, !levels_bytes_length, Lb, La by done.
  unfold needed_bytes, kHeaderSize, sizeof_PriceLevel. lia.
Qed.

Lemma serialize_fits b size : book_wf b -> needed_bytes (bid_count_ b) (ask_count_ b) <= size ->
  serialize_snapshot b size = Some (book_image b).
Proof.
  intros W Hs. unfold serialize_snapshot. rewrite (proj2 (Z.ltb_ge _ _)) by done.
  destruct (bw_bids _ W), (bw_asks _ W). rewrite decide_True; [done|]. unfold MAX_PRICE_LEVELS in *. lia.
Qed.

Lemma serialize_short b size : size < needed_bytes (bid_count_ b) (ask_count_ b) ->
  serialize_snapshot b size = Some [].
Proof. intros. unfold serialize_snapshot. by rewrite (proj2 (Z.ltb_lt _ _)). Qed.

(** The book [restore_snapshot] makes of the image of [b] over [b0]. *)
Definition restored (b0 b : Level2Book) : Level2Book :=
  mkBook (locate_ b) (status_ b0) (overlay (bids b) (bid_levels_ b0)) (overlay (asks b) (ask_levels_ b0))
    (bid_count_ b) (ask_count_ b) (drop_ctr_ b0) (inplace_ctr_ b0).

Lemma restored_levels b0 b : book_wf b ->
  bids (restored b0 b) = bids b /\ asks (restored b0 b) = asks b.
Proof.
  intros W. destruct (bids_length b W) as [Lb La]. split.
  - unfold bids at 1. cbn [restored bid_count_ bid_levels_]. rewrite <- Lb. apply take_app_length.
  - unfold asks at 1. cbn [restored ask_count_ ask_levels_]. rewrite <- La. apply take_app_length.
Qed.

Lemma restore_image b0 b r : book_wf b ->
  restore_snapshot b0 (book_image b ++ r) (Z.of_nat (length (book_image b)))
    = Some (true, restored b0 b).
Proof.
  intros W. rewrite book_image_length by done. destruct (bw_levels _ W) as [Wb Wa].
  destruct (bids_length b W) as [Lb La]. destruct (bw_bids _ W) as [Cb _]. destruct (bw_asks _ W) as [Ca _].
  unfold MAX_PRICE_LEVELS in *. pose proof (bw_locate _ W).
  unfold restore_snapshot, book_image. rewrite <- !app_assoc.
  rewrite (proj2 (Z.ltb_ge _ kHeaderSize)) by (unfold needed_bytes, kHeaderSize, sizeof_PriceLevel; lia).
  assert (Hh : forall a b c (t : bytes), rd_bytes 6 (le_enc 2 a ++ le_enc 2 b ++ le_enc 2 c ++ t)
    = Some (le_enc 2 a ++ le_enc 2 b ++ le_enc 2 c)).
  { intros. rewrite !app_assoc. apply rd_bytes_app. by rewrite !length_app, !le_enc_length. }
  rewrite Hh. cbn [mbind option_bind].
  change (@drop Z 4) with (@drop Z (2 + 2)). rewrite !drop_fields, !drop_field, !take_field.
  rewrite (take_ge (le_enc 2 (ask_count_ b))) by (by rewrite le_enc_length).
  rewrite !(le_val_field 16 2) by (done || range_lia).
  rewrite !Z.gtb_ltb, !(proj2 (Z.ltb_ge _ _)) by (unfold MAX_PRICE_LEVELS; lia). cbn [orb].
  change (@drop Z 6) with (@drop Z (2 + (2 + 2))). rewrite !drop_fields, drop_field, app_assoc.
  rewrite rd_bytes_app.
  2: { rewrite length_app, !levels_bytes_length, Lb, La by done. unfold sizeof_PriceLevel. lia. }
  cbn [mbind option_bind]. rewrite <- Lb, levels_roundtrip by done.
  rewrite drop_app_length'.
  2: { rewrite levels_bytes_length, Lb by done. unfold sizeof_PriceLevel. lia. }
  rewrite <- La. pose proof (levels_roundtrip (asks b) [] Wa) as Hr. rewrite app_nil_r in Hr.
  by rewrite Hr.
Qed.

(** ** Records *)

Definition book_record (b : Level2Book) : bytes :=
  le_enc 4 (Z.of_nat (length (book_image b))) ++ book_image b.

Lemma needed_bound b : book_wf b ->
  6 <= needed_bytes (bid_count_ b) (ask_count_ b) <= 32774.
Proof.
  intros W. destruct (bw_bids _ W), (bw_asks _ W).
  unfold needed_bytes, kHeaderSize, sizeof_PriceLevel, MAX_PRICE_LEVELS in *. lia.
Qed.

(** A book that fits the buffer, or twice the buffer, is written whole. *)
Lemma write_book_fits b size : book_wf b -> needed_bytes (bid_count_ b) (ask_count_ b) <= size * 2 ->
  0 <= size -> exists size', write_book size b = Some (size', book_record b) /\ size <= size'.
Proof.
  intros W Hn H0. pose proof (needed_bound b W). pose proof (book_image_length b W) as Hl.
  unfold write_book, book_record.
  destruct (decide (needed_bytes (bid_count_ b) (ask_count_ b) <= size)).
  - rewrite (serialize_fits b size) by done. cbn [mbind option_bind]. rewrite (proj2 (Z.eqb_neq _ _)) by lia.
    cbn [mbind option_bind]. exists size. rewrite wrap_small by range_lia. split; [done|lia].
  - rewrite (serialize_short b size), (serialize_fits b (size * 2)) by (done || lia). cbn [mbind option_bind length].
    change (Z.of_nat 0 =? 0) with true. cbn [mbind option_bind].
    exists (size * 2). rewrite wrap_small by range_lia. split; [done|lia].
Qed.

Lemma write_books_fit books size : Forall book_wf books ->
  Forall (fun b => needed_bytes (bid_count_ b) (ask_count_ b) <= 8192) books -> 4096 <= size ->
  write_books size books = Some (concat (book_record <$> books)).
Proof.
  intros Hw Hn. revert size. induction Hw as [|b books W _ IH]; intros size Hs; [done|].
  inversion_clear Hn as [|?? Hb Hn']. cbn [write_books].
  destruct (write_book_fits b size W) as (size' & -> & Hs'); [lia|lia|].
  cbn [mbind option_bind]. by rewrite IH by (done || lia).
Qed.

Lemma overlay_app {A} (new old : list A) : exists r, overlay new old = new ++ r.
Proof. by eexists. Qed.

Lemma read_record buf b0 b f : book_wf b ->
  exists buf', read_book buf b0 (book_record b ++ f) = Some (buf', restored b0 b, f).
Proof.
  intros W. pose proof (book_image_length b W) as Hl. pose proof (needed_bound b W).
  unfold read_book, book_record. rewrite <- app_assoc, fread_one_app by apply le_enc_length.
  cbn [mbind option_bind]. rewrite (le_val_field 32 4) by (done || range_lia).
  rewrite drop_field. unfold fread_into.
  rewrite Nat2Z.id, take_app_length, drop_app_length.
  destruct (overlay_app (book_image b) (buf ++ replicate (length (book_image b) - length buf) 0)) as [r ->].
  rewrite restore_image by done. cbn [mbind option_bind]. eauto.
Qed.

Lemma read_books_records books : Forall book_wf books ->
  forall buf targets, length targets = length books ->
  read_books buf targets (length books) (concat (book_record <$> books))
    = Some (zip_with restored targets books).
Proof.
  induction 1 as [|b books W _ IH]; intros buf [|b0 targets] Hl; try discriminate; [done|].
  cbn [length fmap list_fmap concat read_books].
  destruct (read_record buf b0 b (concat (book_record <$> books)) W) as [buf' ->].
  cbn [mbind option_bind]. rewrite IH by (by injection Hl). done.
Qed.

(** The file written from books that fit the buffer, and what reading it
    over any books of that number gives. *)
Lemma write_then_read books :
  Forall book_wf books -> Forall (fun b => bid_count_ b + ask_count_ b <= 127) books ->
  Z.of_nat (length books) < 2 ^ 64 ->
  exists f, write_snapshot books = Some f
    /\ forall targets, length targets = length books ->
         read_snapshot targets f = Some (true, zip_with restored targets books).
Proof.
  intros Hw Hfew Hn. unfold write_snapshot. rewrite write_books_fit; [|done| |lia].
  2: { eapply Forall_impl; [exact Hfew|]. intros b Hb. simpl in Hb.
       unfold needed_bytes, kHeaderSize, sizeof_PriceLevel. lia. }
  cbn [mbind option_bind]. eexists. split; [done|]. intros targets Ht.
  unfold read_snapshot. rewrite fread_one_app by apply le_enc_length. cbn [mbind option_bind].
  rewrite (le_val_field 32 4) by (done || unfold snapshot_magic; range_lia).
  rewrite Z.eqb_refl. cbn [negb]. rewrite drop_field, fread_one_app by apply le_enc_length.
  cbn [mbind option_bind]. rewrite (le_val_field 64 8) by (done || range_lia).
  change (@drop Z 12) with (@drop Z (4 + 8)). rewrite drop_fields, drop_field, Ht, Z.min_id, Nat2Z.id.
  by rewrite read_books_records.
Qed.

(** A restored book has the locate code and the levels of the saved one. *)
Definition same_book (b r : Level2Book) : Prop :=
  locate_ r = locate_ b /\ bid_count_ r = bid_count_ b /\ ask_count_ r = ask_count_ b
  /\ bids r = bids b /\ asks r = asks b.

Lemma restored_same books : Forall book_wf books -> forall targets, length targets = length books ->
  Forall2 same_book books (zip_with restored targets books).
Proof.
  induction 1 as [|b books W _ IH]; intros [|b0 targets] Ht; try discriminate; constructor;
    [|apply IH; by injection Ht].
  split_and!; [done..| |]; by apply restored_levels.
Qed.

(** ** Properties *)

(** Snapshots round trip.  A file written from any list of well-formed
    books with at most 127 levels each is read back completely: restoring it
    over the same number of books gives every book the locate code, the level
    counts and the levels of the saved one, in order. *)
Theorem snapshot_file_roundtrip books targets :
  Forall book_wf books -> Forall (fun b => bid_count_ b + ask_count_ b <= 127) books ->
  length targets = length books -> Z.of_nat (length books) < 2 ^ 64 ->
  exists f restored_books, write_snapshot books = Some f
    /\ read_snapshot targets f = Some (true, restored_books)
    /\ Forall2 same_book books restored_books.
Proof.
  intros Hw Hfew Ht Hn. destruct (write_then_read books Hw Hfew Hn) as (f & Hf & Hr).
  exists f, (zip_with restored targets books). split; [done|]. split; [by apply Hr|by apply restored_same].
Qed.

(** A deep book is silently lost.  The buffer of 4096 bytes is doubled
    only once, which holds 127 levels: a snapshot whose first book has more is
    written with an empty record for it, and reading it reports success while
    leaving that book as it was. *)
Theorem deep_book_lost b b0 :
  book_wf b -> 127 < bid_count_ b + ask_count_ b ->
  exists f, write_snapshot [b] = Some f /\ length f = 16%nat /\ read_snapshot [b0] f = Some (true, [b0]).
Proof.
  intros W Hdeep. unfold write_snapshot, write_books, write_book.
  rewrite !serialize_short by (unfold needed_bytes, kHeaderSize, sizeof_PriceLevel; lia).
  eexists. split; [reflexivity|]. split; reflexivity.
Qed.

(** ** Witnesses *)

Definition one_level_book : Level2Book :=
  set_side (new_book 9) true (<[0%nat := mkLevel 10000 5 1 0 0 (replicate 40 0)]> blank_levels) 1.

Lemma one_level_wf : book_wf one_level_book.
Proof.
  split; [cbn; concrete|vm_compute; repeat split; discriminate|vm_compute; repeat split; discriminate|].
  split; [|constructor]. repeat constructor; cbn; try lia; discriminate.
Qed.

Lemma snapshot_file_roundtrip_witness :
  exists f r, write_snapshot [one_level_book] = Some f /\ read_snapshot [new_book 3] f = Some (true, [r])
    /\ locate_ r = 9 /\ bids r = bids one_level_book.
Proof.
  destruct (snapshot_file_roundtrip [one_level_book] [new_book 3]) as (f & rs & H1 & H2 & H3).
  - repeat constructor; try apply one_level_wf.
  - repeat constructor. cbn. lia.
  - reflexivity.
  - cbn. lia.
  - inversion H3 as [|b r bs rs' (Hl & _ & _ & Hb & _) Hnil]; subst. inversion Hnil; subst.
    exists f, r. split; [exact H1|]. split; [exact H2|]. split; [exact Hl|exact Hb].
Defined.

(** A book with 128 bids. *)
Definition deep_book : Level2Book :=
  set_side (new_book 9) true (replicate 256 (mkLevel 10000 5 1 0 0 (replicate 40 0))) 128.

Lemma deep_book_lost_witness :
  exists f, write_snapshot [deep_book] = Some f /\ read_snapshot [new_book 3] f = Some (true, [new_book 3]).
Proof.
  destruct (deep_book_lost deep_book (new_book 3)) as (f & H1 & _ & H2).
  - split; [cbn; concrete|vm_compute; repeat split; discriminate|vm_compute; repeat split; discriminate|].
    split; [|constructor]. unfold bids, deep_book. cbn [set_side bid_count_ bid_levels_].
    apply Forall_take, Forall_replicate. split; cbn; unfold in_range; try lia; reflexivity.
  - cbn. lia.
  - exists f. split; [exact H1|exact H2].
Defined.
