(* ===== verification/SnapshotFiles.v ===== *)
(** * Snapshot files and their pointers

    The path templates, the pointer files and the save and load operations of
    [BookSnapshot] ([src/recovery/book_snapshot.cpp]).  A path is the list of
    its bytes, a file system a finite map from paths to contents.  Whether the
    operating system lets a file be opened or renamed is an input ([Os]);
    [fwrite] and [fprintf], whose results the source ignores, are taken to
    write everything. *)

From stdpp Require Import gmap.
From Stdlib Require Import String Ascii.
From S2P Require Import Prelude Types OrderMap Level2Book BookLevels Snapshot.

(** ** Strings *)

(** The bytes of a string literal. *)
Definition str (s : string) : bytes :=
  (fun c => Z.of_N (N_of_ascii c)) <$> list_ascii_of_string s.

(** Dropping bytes from the end while they satisfy [f]: the loops
    [while (n > 0 && ...buf[n - 1]...) --n]. *)
Fixpoint skip_while (f : Z -> bool) (l : bytes) : bytes :=
  match l with
  | [] => []
  | c :: l' => if f c then skip_while f l' else l
  end.

Definition trim_end (f : Z -> bool) (l : bytes) : bytes := rev (skip_while f (rev l)).

Definition trim_session (s10 : bytes) : option bytes :=
  s ← rd_bytes 10 s10; Some (trim_end (Z.eqb 32) s).

(** [std::string::find]: the first position from [pos] on at which [token]
    occurs; [None] is [npos]. *)
Definition starts_with (token s : bytes) : bool := bool_decide (take (length token) s = token).

Fixpoint find_first (token s : bytes) : option nat :=
  if starts_with token s then Some 0%nat
  else match s with
       | [] => None
       | _ :: s' => S <$> find_first token s'
       end.

Definition find (s token : bytes) (pos : nat) : option nat :=
  if decide (pos <= length s)%nat then (Nat.add pos) <$> find_first token (drop pos s) else None.

(** [None]: the loop did not end within the fuel. *)
Fixpoint replace_loop (fuel : nat) (s token value : bytes) (pos : nat) : option bytes :=
  match fuel with
  | O => None
  | S fuel' =>
      match find s token pos with
      | None => Some s
      | Some p =>
          let s' := take p s ++ value ++ drop (p + length token) s in
          replace_loop fuel' s' token value (p + length value)
      end
  end.

Definition replace_token (s token value : bytes) : option bytes :=
  replace_loop (S (length s)) s token value 0.

(** [std::string::rfind] of one character. *)
Fixpoint rfind (c : Z) (s : bytes) : option nat :=
  match s with
  | [] => None
  | x :: s' =>
      match rfind c s' with
      | Some i => Some (S i)
      | None => if x =? c then Some 0%nat else None
      end
  end.

Definition insert_suffix (path suffix : bytes) : bytes :=
  match rfind 46 path with
  | None => path ++ suffix
  | Some dot => take dot path ++ suffix ++ drop dot path
  end.

(** [std::to_string] of an unsigned 64-bit integer, which has at most twenty
    digits. *)
Fixpoint digits (fuel : nat) (n : Z) : bytes :=
  match fuel with
  | O => []
  | S fuel' => if n <? 10 then [48 + n] else digits fuel' (n / 10) ++ [48 + n mod 10]
  end.

Definition to_string (n : Z) : bytes := digits 20 n.

(** ** Files *)

Abbreviation FileSystem := (gmap bytes bytes).

Record Os := mkOs {
  fopen_ok : bytes -> bool;
  rename_ok : bytes -> bytes -> bool
}.

(** [rename(2)]: the target is replaced. *)
Definition rename (os : Os) (fs : FileSystem) (from to : bytes) : option FileSystem :=
  if rename_ok os from to then c ← fs !! from; Some (<[to := c]> (delete from fs)) else None.

(** Open [<path>.tmp], write [content], rename to [path]: the pattern shared
    by [write_snapshot] and [write_ptr_file]. *)
Definition commit (os : Os) (fs : FileSystem) (path content : bytes) : bool * FileSystem :=
  let tmp := c_str (path ++ str ".tmp") in
  if fopen_ok os tmp then
    let fs1 := <[tmp := content]> fs in
    match rename os fs1 tmp (c_str path) with
    | Some fs2 => (true, fs2)
    | None => (false, fs1)
    end
  else (false, fs).

(** ** BookSnapshot *)

Record BookSnapshot := mkSnapshot { dir_ : bytes; tmpl_ : bytes }.

(** [ts] is the reading of the steady clock. *)
Definition make_path (b : BookSnapshot) (session_10 : bytes) (ts : Z) : option bytes :=
  s ← trim_session session_10;
  f1 ← replace_token (tmpl_ b) (str "{session}") s;
  f2 ← replace_token f1 (str "{timestamp}") (to_string ts);
  Some (dir_ b ++ str "/" ++ f2).

Definition path_for_session (b : BookSnapshot) (session_10 : bytes) (ts : Z) : option bytes :=
  make_path b session_10 ts.

Definition latest_ptr_path (b : BookSnapshot) : bytes := dir_ b ++ str "/latest.ptr".
Definition latest_eod_ptr_path (b : BookSnapshot) : bytes := dir_ b ++ str "/latest_eod.ptr".

Definition is_eol (c : Z) : bool := (c =? 10) || (c =? 13).

(** The empty string when the file cannot be opened; at most 4095 bytes. *)
Definition read_ptr_file (os : Os) (fs : FileSystem) (ptr_path : bytes) : bytes :=
  let p := c_str ptr_path in
  match fs !! p with
  | Some content => if fopen_ok os p then trim_end is_eol (take 4095 content) else []
  | None => []
  end.

Definition write_ptr_file (os : Os) (fs : FileSystem) (ptr_path snap_path : bytes) : bool * FileSystem :=
  commit os fs ptr_path (c_str snap_path ++ [10]).

Definition write_snapshot_file (os : Os) (fs : FileSystem) (books : list Level2Book) (final_path : bytes)
    : option (bool * FileSystem) :=
  if fopen_ok os (c_str (final_path ++ str ".tmp")) then
    content ← write_snapshot books; Some (commit os fs final_path content)
  else Some (false, fs).

Definition read_snapshot_file (os : Os) (fs : FileSystem) (books : list Level2Book) (path : bytes)
    : option (bool * list Level2Book) :=
  let p := c_str path in
  match fs !! p with
  | Some f => if fopen_ok os p then read_snapshot books f else Some (false, books)
  | None => Some (false, books)
  end.

(** The result of [write_ptr_file] is not looked at. *)
Definition save (os : Os) (fs : FileSystem) (b : BookSnapshot) (books : list Level2Book)
    (session_10 : bytes) (ts : Z) : option (bool * FileSystem) :=
  final_path ← make_path b session_10 ts;
  '(ok, fs1) ← write_snapshot_file os fs books final_path;
  if negb ok then Some (false, fs1)
  else Some (true, (write_ptr_file os fs1 (latest_ptr_path b) final_path).2).

Definition save_eod (os : Os) (fs : FileSystem) (b : BookSnapshot) (books : list Level2Book)
    (session_10 : bytes) (ts : Z) : option (bool * FileSystem) :=
  base_path ← make_path b session_10 ts;
  let final_path := insert_suffix base_path (str "_EOD") in
  '(ok, fs1) ← write_snapshot_file os fs books final_path;
  if negb ok then Some (false, fs1)
  else
    let fs2 := (write_ptr_file os fs1 (latest_ptr_path b) final_path).2 in
    Some (true, (write_ptr_file os fs2 (latest_eod_ptr_path b) final_path).2).

Definition load_from (os : Os) (fs : FileSystem) (ptr_path : bytes) (books : list Level2Book)
    : option (bool * list Level2Book) :=
  let path := read_ptr_file os fs ptr_path in
  if decide (path = []) then Some (false, books) else read_snapshot_file os fs books path.

Definition load (os : Os) (fs : FileSystem) (b : BookSnapshot) (books : list Level2Book)
    : option (bool * list Level2Book) :=
  load_from os fs (latest_ptr_path b) books.

Definition load_eod (os : Os) (fs : FileSystem) (b : BookSnapshot) (books : list Level2Book)
    : option (bool * list Level2Book) :=
  load_from os fs (latest_eod_ptr_path b) books.

(** The callbacks [FeedHandler::init_workers] registers, run one after the
    other: each shard saves its books with its own [BookSnapshot] and its own
    reading of the clock. *)
Fixpoint run_eod_callbacks (os : Os) (fs : FileSystem)
    (calls : list (BookSnapshot * list Level2Book * Z)) (session_10 : bytes) : option FileSystem :=
  match calls with
  | [] => Some fs
  | (snap, slab, ts) :: calls' =>
      '(_, fs') ← save_eod os fs snap slab session_10 ts;
      run_eod_callbacks os fs' calls' session_10
  end.

(** A sequence of intra-day saves. *)
Fixpoint run_saves (os : Os) (fs : FileSystem) (b : BookSnapshot)
    (l : list (list Level2Book * bytes * Z)) : option FileSystem :=
  match l with
  | [] => Some fs
  | (books, session_10, ts) :: l' =>
      '(_, fs') ← save os fs b books session_10 ts;
      run_saves os fs' b l'
  end.

(** ** Token replacement against a reference *)

(** The reference: one pass from left to right; [skip] counts the bytes of an
    occurrence that are still to be left out. *)
Fixpoint expand (token value : bytes) (skip : nat) (s : bytes) : bytes :=
  match s with
  | [] => []
  | c :: s' =>
      match skip with
      | S k => expand token value k s'
      | O => if starts_with token s then value ++ expand token value (length token - 1) s'
             else c :: expand token value 0 s'
      end
  end.

Lemma expand_skip token value k s : expand token value k s = expand token value 0 (drop k s).
Proof.
  revert k. induction s as [|c s IH]; intros [|k]; [done..|]. cbn [expand drop]. apply IH.
Qed.

Lemma starts_with_nil token : token <> [] -> starts_with token [] = false.
Proof. intros Ht. apply bool_decide_eq_false. rewrite take_nil. congruence. Qed.

Lemma expand_first token value s : token <> [] ->
  expand token value 0 s =
    match find_first token s with
    | None => s
    | Some i => take i s ++ value ++ expand token value 0 (drop (i + length token) s)
    end.
Proof.
  intros Ht. induction s as [|c s IH]; [cbn [find_first]; by rewrite starts_with_nil|].
  cbn [expand find_first]. destruct (starts_with token (c :: s)).
  - cbn [take app]. f_equal. rewrite expand_skip. by destruct token as [|t token]; [|simpl; rewrite Nat.sub_0_r].
  - rewrite IH. by destruct (find_first token s).
Qed.

Lemma find_first_bound token s i : find_first token s = Some i -> token <> [] -> (i + length token <= length s)%nat.
Proof.
  intros Hf Ht. revert i Hf. induction s as [|c s IH]; intros i Hf; cbn [find_first] in Hf.
  { by rewrite starts_with_nil in Hf. }
  destruct (starts_with token (c :: s)) eqn:E.
  - injection Hf as <-. apply bool_decide_eq_true in E. rewrite <- E. rewrite length_take. simpl. lia.
  - apply fmap_Some in Hf as (j & Hj & ->). specialize (IH j Hj). simpl. lia.
Qed.

Lemma replace_loop_expand token value : token <> [] -> forall fuel pre s, (length s < fuel)%nat ->
  replace_loop fuel (pre ++ s) token value (length pre) = Some (pre ++ expand token value 0 s).
Proof.
  intros Ht. induction fuel as [|fuel IH]; intros pre s Hf; [lia|]. cbn [replace_loop].
  unfold find. rewrite decide_True by (rewrite length_app; lia). rewrite drop_app_length.
  rewrite expand_first by done. destruct (find_first token s) as [i|] eqn:E; cbn [fmap option_fmap option_map]; [|done].
  pose proof (find_first_bound _ _ _ E Ht) as Hb. assert (length token <> 0)%nat by (by destruct token).
  rewrite take_app_ge, drop_app_ge by lia.
  replace (length pre + i - length pre)%nat with i by lia.
  replace (length pre + i + length token - length pre)%nat with (i + length token)%nat by lia.
  specialize (IH (pre ++ take i s ++ value) (drop (i + length token) s)).
  rewrite !length_app, length_take, Nat.min_l in IH by lia.
  repeat rewrite <- app_assoc in IH. repeat rewrite <- app_assoc. replace (length pre + i + length value)%nat with (length pre + (i + length value))%nat by lia.
  apply IH. rewrite length_drop. lia.
Qed.

Lemma replace_token_eq s token value :
  token <> [] -> replace_token s token value = Some (expand token value 0 s).
Proof. intros Ht. apply (replace_loop_expand token value Ht (S (length s)) [] s). lia. Qed.

(** Expanding a token is a single left-to-right pass.  For every
    non-empty token the find-and-replace loop of [replace_token] ends and
    gives what the one-pass reference gives: each leftmost occurrence in the
    template is replaced, and the inserted value is never searched again. *)
Theorem replace_token_expands s token value :
  token <> [] -> replace_token s token value = Some (expand token value 0 s).
Proof. apply replace_token_eq. Qed.

(** ** Lemmas on files *)

Definition nul_free (p : bytes) : Prop := Forall (fun c => c <> 0) p.

Lemma c_str_id p : nul_free p -> c_str p = p.
Proof. induction 1 as [|c p Hc _ IH]; [done|]. cbn [c_str]. rewrite (proj2 (Z.eqb_neq _ _)) by done. by rewrite IH. Qed.

Lemma nul_free_tmp p : nul_free p -> nul_free (p ++ str ".tmp").
Proof. intros. apply Forall_app. split; [done|]. repeat constructor; discriminate. Qed.

Lemma skip_while_stop f c l : f c = false -> skip_while f (c :: l) = c :: l.
Proof. intros Hc. cbn [skip_while]. by rewrite Hc. Qed.

Lemma trim_end_snoc f l c : f c = true -> trim_end f (l ++ [c]) = trim_end f l.
Proof. intros Hc. unfold trim_end. rewrite rev_app_distr. cbn [rev app skip_while]. by rewrite Hc. Qed.

Lemma trim_end_id f l c : f c = false -> trim_end f (l ++ [c]) = l ++ [c].
Proof.
  intros Hc. unfold trim_end. rewrite rev_app_distr. cbn [rev app]. rewrite skip_while_stop by done.
  cbn [rev]. by rewrite rev_involutive.
Qed.

(** The operating system allows [path] to be committed. *)
Definition os_allows (os : Os) (path : bytes) : Prop :=
  fopen_ok os path = true /\ fopen_ok os (path ++ str ".tmp") = true
  /\ rename_ok os (path ++ str ".tmp") path = true.

Lemma commit_ok os fs path content : nul_free path -> os_allows os path ->
  commit os fs path content = (true, <[path := content]> (delete (path ++ str ".tmp") fs)).
Proof.
  intros Hp (_ & Ho & Hr). unfold commit, rename.
  rewrite !c_str_id, Ho, Hr by auto using nul_free_tmp.
  rewrite lookup_insert_eq. cbn [mbind option_bind]. by rewrite delete_insert_eq.
Qed.

(** Whatever the operating system answers, only the path and its temporary
    file are touched. *)
Lemma commit_frame os fs path content k : k <> c_str path -> k <> c_str (path ++ str ".tmp") ->
  (commit os fs path content).2 !! k = fs !! k.
Proof.
  intros H1 H2. unfold commit, rename. destruct (fopen_ok os _); [|done].
  rewrite lookup_insert_eq. cbn [mbind option_bind]. destruct (rename_ok os _ _); cbn [snd].
  - rewrite lookup_insert_ne, lookup_delete_ne, lookup_insert_ne by done. done.
  - by rewrite lookup_insert_ne by done.
Qed.

Lemma save_frame os fs b books s ts q ok fs' k :
  make_path b s ts = Some q -> save os fs b books s ts = Some (ok, fs') ->
  k ∉ [c_str q; c_str (q ++ str ".tmp"); c_str (latest_ptr_path b); c_str (latest_ptr_path b ++ str ".tmp")] ->
  fs' !! k = fs !! k.
Proof.
  intros Hq Hs Hk. rewrite !not_elem_of_cons in Hk. destruct Hk as (H1 & H2 & H3 & H4 & _).
  unfold save, write_snapshot_file in Hs. rewrite Hq in Hs. cbn [mbind option_bind] in Hs.
  destruct (fopen_ok os _) eqn:E.
  - destruct (write_snapshot books) as [c|]; [|done]. cbn [mbind option_bind] in Hs.
    pose proof (commit_frame os fs q c k H1 H2) as Hf. destruct (commit os fs q c) as [o fs1]. cbn [snd] in Hf.
    destruct o; cbn [negb] in Hs; injection Hs as <- <-; [|done].
    unfold write_ptr_file. by rewrite commit_frame.
  - cbn [mbind option_bind negb] in Hs. by injection Hs as <- <-.
Qed.

(** A path the pointer files can hold: a C string of at most 4095 bytes that
    does not end with a line break and is not one of the pointer files. *)
Record snap_path_ok (b : BookSnapshot) (p : bytes) : Prop := {
  sp_dir : nul_free (dir_ b);
  sp_nul : nul_free p;
  sp_len : (length p <= 4095)%nat;
  sp_last : exists q c, p = q ++ [c] /\ is_eol c = false;
  sp_other : p ∉ [latest_ptr_path b; latest_ptr_path b ++ str ".tmp";
                  latest_eod_ptr_path b; latest_eod_ptr_path b ++ str ".tmp"]
}.

Lemma ptr_nul_free b p : snap_path_ok b p ->
  nul_free (latest_ptr_path b) /\ nul_free (latest_eod_ptr_path b).
Proof.
  intros P. split; apply Forall_app; (split; [apply P|]); repeat constructor; discriminate.
Qed.

Lemma read_ptr_line b p : snap_path_ok b p -> trim_end is_eol (take 4095 (p ++ [10])) = p.
Proof.
  intros P. destruct (sp_last _ _ P) as (q & c & Hq & Hc). pose proof (sp_len _ _ P).
  destruct (decide (length p = 4095%nat)) as [E|E].
  - rewrite take_app_le, take_ge by lia. rewrite Hq. by apply trim_end_id.
  - rewrite take_ge by (rewrite length_app; simpl; lia). rewrite trim_end_snoc by done.
    rewrite Hq. by apply trim_end_id.
Qed.

(** Reading through a pointer file that names [p]. *)
Lemma load_from_ptr os fs b ptr p f books : snap_path_ok b p -> nul_free ptr ->
  fopen_ok os ptr = true -> fopen_ok os p = true ->
  fs !! ptr = Some (p ++ [10]) -> fs !! p = Some f ->
  load_from os fs ptr books = read_snapshot books f.
Proof.
  intros P Hn Ho1 Ho2 H1 H2. unfold load_from, read_ptr_file.
  rewrite c_str_id, H1, Ho1, (read_ptr_line b p) by done.
  rewrite decide_False by (destruct (sp_last _ _ P) as (? & ? & -> & _); by destruct x).
  unfold read_snapshot_file. by rewrite c_str_id, H2, Ho2 by apply P.
Qed.

(** The file system after [save_eod] at [p]. *)
Definition after_eod (fs : FileSystem) (b : BookSnapshot) (p content : bytes) : FileSystem :=
  <[latest_eod_ptr_path b := p ++ [10]]> (delete (latest_eod_ptr_path b ++ str ".tmp")
    (<[latest_ptr_path b := p ++ [10]]> (delete (latest_ptr_path b ++ str ".tmp")
      (<[p := content]> (delete (p ++ str ".tmp") fs))))).

(** Every path a save to [p] commits is allowed. *)
Definition save_allowed (os : Os) (b : BookSnapshot) (p : bytes) : Prop :=
  os_allows os p /\ os_allows os (latest_ptr_path b) /\ os_allows os (latest_eod_ptr_path b).

Lemma save_eod_ok os fs b books s ts base content :
  make_path b s ts = Some base -> let p := insert_suffix base (str "_EOD") in
  snap_path_ok b p -> save_allowed os b p -> write_snapshot books = Some content ->
  save_eod os fs b books s ts = Some (true, after_eod fs b p content).
Proof.
  intros Hm p P (O1 & O2 & O3) Hc. destruct (ptr_nul_free b p P) as [N1 N2].
  unfold save_eod, write_snapshot_file. rewrite Hm. cbn [mbind option_bind]. fold p.
  rewrite (c_str_id (p ++ _)) by (apply nul_free_tmp, P). destruct O1 as (O1 & O1' & O1'').
  rewrite O1', Hc. cbn [mbind option_bind]. rewrite commit_ok by (done || apply P). cbn [negb].
  unfold write_ptr_file. rewrite (c_str_id p) by apply P. by rewrite !commit_ok.
Qed.

Lemma ptr_paths_differ b :
  latest_ptr_path b <> latest_eod_ptr_path b
  /\ latest_ptr_path b <> latest_eod_ptr_path b ++ str ".tmp".
Proof.
  unfold latest_ptr_path, latest_eod_ptr_path. rewrite <- app_assoc.
  split; intros H%app_inv_head; discriminate.
Qed.

Lemma after_eod_lookup fs b p content : snap_path_ok b p ->
  after_eod fs b p content !! p = Some content
  /\ after_eod fs b p content !! latest_ptr_path b = Some (p ++ [10])
  /\ after_eod fs b p content !! latest_eod_ptr_path b = Some (p ++ [10]).
Proof.
  intros P. pose proof (sp_other _ _ P) as H. rewrite !not_elem_of_cons in H.
  destruct H as (H1 & H2 & H3 & H4 & _). destruct (ptr_paths_differ b).
  unfold after_eod. split_and!.
  - by rewrite lookup_insert_ne, lookup_delete_ne, lookup_insert_ne, lookup_delete_ne, lookup_insert_eq by congruence.
  - by rewrite lookup_insert_ne, lookup_delete_ne, lookup_insert_eq by congruence.
  - by rewrite lookup_insert_eq.
Qed.

(** A file system in which the EOD pointer names [p], with content [f]. *)
Lemma load_eod_from os fs b p f books : snap_path_ok b p -> save_allowed os b p ->
  fs !! latest_eod_ptr_path b = Some (p ++ [10]) -> fs !! p = Some f ->
  load_eod os fs b books = read_snapshot books f.
Proof.
  intros P (O1 & _ & O3) H1 H2. apply (load_from_ptr os fs b _ p); try done; [apply (ptr_nul_free b p P)| |].
  - apply O3.
  - apply O1.
Qed.

(** Books whose snapshot is complete. *)
Definition savable (books : list Level2Book) : Prop :=
  Forall book_wf books /\ Forall (fun b => bid_count_ b + ask_count_ b <= 127) books
  /\ Z.of_nat (length books) < 2 ^ 64.

(** ** Properties of saving and loading *)

(** The file system after [save] at [p]. *)
Definition after_save (fs : FileSystem) (b : BookSnapshot) (p content : bytes) : FileSystem :=
  <[latest_ptr_path b := p ++ [10]]> (delete (latest_ptr_path b ++ str ".tmp")
    (<[p := content]> (delete (p ++ str ".tmp") fs))).

Lemma save_ok os fs b books s ts p content :
  make_path b s ts = Some p -> snap_path_ok b p -> save_allowed os b p -> write_snapshot books = Some content ->
  save os fs b books s ts = Some (true, after_save fs b p content).
Proof.
  intros Hm P (O1 & O2 & _) Hc. destruct (ptr_nul_free b p P) as [N1 _].
  unfold save, write_snapshot_file. rewrite Hm. cbn [mbind option_bind].
  rewrite (c_str_id (p ++ _)) by (apply nul_free_tmp, P). destruct O1 as (O1 & O1' & O1'').
  rewrite O1', Hc. cbn [mbind option_bind]. rewrite commit_ok by (done || apply P). cbn [negb].
  unfold write_ptr_file. rewrite (c_str_id p) by apply P. by rewrite commit_ok.
Qed.

(** [latest.ptr] names [p], with content [f]. *)
Lemma load_latest_from os fs b p f books : snap_path_ok b p -> save_allowed os b p ->
  fs !! latest_ptr_path b = Some (p ++ [10]) -> fs !! p = Some f ->
  load os fs b books = read_snapshot books f.
Proof.
  intros P (O1 & O2 & _) H1 H2. apply (load_from_ptr os fs b _ p); try done; [apply (ptr_nul_free b p P)| |].
  - apply O2.
  - apply O1.
Qed.

(** C32: saved books of at most 127 levels are found again.  When the operating
    system lets the files be written, an intra-day [save] succeeds and [load],
    through [latest.ptr], restores exactly the saved books; an end-of-day [save_eod]
    succeeds and both [load] and [load_eod], through [latest_eod.ptr],
    restore exactly the saved books. *)
Theorem saved_books_load_back os fs b books s ts base targets :
  make_path b s ts = Some base -> let eod := insert_suffix base (str "_EOD") in
  snap_path_ok b base -> snap_path_ok b eod -> save_allowed os b base -> save_allowed os b eod ->
  savable books -> length targets = length books ->
  exists fs1 fs2 rs, Forall2 same_book books rs
    /\ save os fs b books s ts = Some (true, fs1) /\ load os fs1 b targets = Some (true, rs)
    /\ save_eod os fs b books s ts = Some (true, fs2)
    /\ load os fs2 b targets = Some (true, rs) /\ load_eod os fs2 b targets = Some (true, rs).
Proof.
  intros Hm eod P1 P2 O1 O2 (Hw & Hf & Hn) Ht. destruct (write_then_read books Hw Hf Hn) as (f & Hc & Hr).
  exists (after_save fs b base f), (after_eod fs b eod f), (zip_with restored targets books).
  destruct (after_eod_lookup fs b eod f P2) as (L1 & L2 & L3).
  split; [by apply restored_same|]. split; [by apply save_ok|]. split; [|split; [by apply save_eod_ok|split]].
  - rewrite (load_latest_from os _ b base f) by
      (done || unfold after_save; rewrite ?lookup_insert_eq; done ||
       pose proof (sp_other _ _ P1) as H; rewrite !not_elem_of_cons in H; destruct H as (H1 & H2 & _);
       by rewrite lookup_insert_ne, lookup_delete_ne, lookup_insert_eq by congruence).
    by apply Hr.
  - rewrite (load_latest_from os _ b eod f) by done. by apply Hr.
  - rewrite (load_eod_from os _ b eod f) by done. by apply Hr.
Qed.

Lemma run_saves_frame os b l k : forall fs fs', run_saves os fs b l = Some fs' ->
  (forall books s ts q, ((books, s, ts) ∈ l) -> make_path b s ts = Some q ->
     k ∉ [c_str q; c_str (q ++ str ".tmp"); c_str (latest_ptr_path b); c_str (latest_ptr_path b ++ str ".tmp")]) ->
  fs' !! k = fs !! k.
Proof.
  induction l as [|[[books s] ts] l IH]; intros fs fs' Hr Hk; cbn [run_saves] in Hr; [by injection Hr as <-|].
  destruct (save os fs b books s ts) as [[ok fs1]|] eqn:E; [|done]. cbn [mbind option_bind] in Hr.
  rewrite (IH fs1 fs' Hr) by (intros; eapply Hk; [by right|done]).
  pose proof E as E'. unfold save in E'. destruct (make_path b s ts) as [q|] eqn:Eq; [|done].
  eapply save_frame; [exact Eq|exact E|]. eapply Hk; [left|done].
Qed.

Lemma not_touched b q k : nul_free (latest_ptr_path b) ->
  k ∉ [c_str q; c_str (q ++ str ".tmp")] ->
  k <> latest_ptr_path b -> k <> latest_ptr_path b ++ str ".tmp" ->
  k ∉ [c_str q; c_str (q ++ str ".tmp"); c_str (latest_ptr_path b); c_str (latest_ptr_path b ++ str ".tmp")].
Proof.
  intros N H H1 H2. rewrite (c_str_id (latest_ptr_path b)), (c_str_id (latest_ptr_path b ++ _))
    by auto using nul_free_tmp.
  rewrite !not_elem_of_cons in *. destruct H as (Ha & Hb & _). auto using not_elem_of_nil.
Qed.

(** The EOD snapshot outlives the saves of the next day.  After
    [save_eod], any number of intra-day saves - successful or refused by the
    operating system at any point - to files other than the EOD snapshot and
    its pointer leave it in place: [load_eod] still restores exactly the books
    of the end of day. *)
Theorem eod_snapshot_survives_saves os1 os2 fs b books s ts base l targets :
  make_path b s ts = Some base -> let p := insert_suffix base (str "_EOD") in
  snap_path_ok b p -> save_allowed os1 b p -> save_allowed os2 b p -> savable books ->
  length targets = length books ->
  (forall books' s' ts' q, ((books', s', ts') ∈ l) -> make_path b s' ts' = Some q ->
     (p ∉ [c_str q; c_str (q ++ str ".tmp")])
     /\ (latest_eod_ptr_path b ∉ [c_str q; c_str (q ++ str ".tmp")])) ->
  exists fs1, save_eod os1 fs b books s ts = Some (true, fs1)
    /\ forall os' fs2, run_saves os' fs1 b l = Some fs2 ->
       exists rs, load_eod os2 fs2 b targets = Some (true, rs) /\ Forall2 same_book books rs.
Proof.
  intros Hm p P O1 O2 (Hw & Hf & Hn) Ht Hl. destruct (write_then_read books Hw Hf Hn) as (f & Hc & Hr).
  exists (after_eod fs b p f). split; [by apply save_eod_ok|]. intros os' fs2 Hs.
  exists (zip_with restored targets books). split; [|by apply restored_same].
  destruct (after_eod_lookup fs b p f P) as (L1 & _ & L3). destruct (ptr_nul_free b p P) as [N1 N2].
  pose proof (sp_other _ _ P) as Hp. rewrite !not_elem_of_cons in Hp. destruct Hp as (Hp1 & Hp2 & _).
  destruct (ptr_paths_differ b) as [D1 D2].
  rewrite (load_eod_from os2 fs2 b p f); [by apply Hr|done..| |].
  - rewrite (run_saves_frame os' b l _ _ _ Hs), L3; [done|]. intros books' s' ts' q Hin Hq.
    apply not_touched; [done|by eapply Hl|congruence|].
    unfold latest_ptr_path, latest_eod_ptr_path. rewrite <- app_assoc. intros E%app_inv_head. discriminate.
  - rewrite (run_saves_frame os' b l _ _ _ Hs), L1; [done|]. intros books' s' ts' q Hin Hq.
    apply not_touched; [done|by eapply Hl|congruence..].
Qed.

(** A save of complete books never runs into undefined behaviour. *)
Lemma save_eod_total os fs b books s ts : (10 <= length s)%nat -> savable books ->
  exists ok fs', save_eod os fs b books s ts = Some (ok, fs').
Proof.
  intros Hs (Hw & Hf & Hn). destruct (write_then_read books Hw Hf Hn) as (f & Hc & _).
  unfold save_eod, make_path, trim_session. rewrite rd_bytes_Some by done. cbn [mbind option_bind].
  rewrite replace_token_eq by done. cbn [mbind option_bind]. rewrite replace_token_eq by done. cbn [mbind option_bind].
  unfold write_snapshot_file. destruct (fopen_ok os _); [|by eexists _, _].
  rewrite Hc. cbn [mbind option_bind]. destruct (commit os fs _ f) as [[] fs1]; by eexists _, _.
Qed.

Lemma run_eod_callbacks_total os s calls : (10 <= length s)%nat -> forall fs,
  Forall (fun '(_, slab, _) => savable slab) calls -> exists fs', run_eod_callbacks os fs calls s = Some fs'.
Proof.
  intros Hs. induction calls as [|[[b slab] ts] calls IH]; intros fs Hf; cbn [run_eod_callbacks]; [by exists fs|].
  apply Forall_cons in Hf as [Hb Hf]. destruct (save_eod_total os fs b slab s ts Hs Hb) as (ok & fs1 & ->).
  cbn [mbind option_bind]. by apply IH.
Qed.

(** The pointer files are named after the directory alone: whoever saves last
    in it is found by every reader of it. *)
Lemma last_callback_wins os fs pre last slab ts s base fs0 :
  run_eod_callbacks os fs pre s = Some fs0 ->
  make_path last s ts = Some base -> snap_path_ok last (insert_suffix base (str "_EOD")) ->
  save_allowed os last (insert_suffix base (str "_EOD")) -> savable slab ->
  exists fs', run_eod_callbacks os fs (pre ++ [(last, slab, ts)]) s = Some fs'
    /\ forall b targets, dir_ b = dir_ last -> length targets = length slab ->
       exists rs, load_eod os fs' b targets = Some (true, rs) /\ Forall2 same_book slab rs.
Proof.
  intros Hpre Hm P O (Hw & Hf & Hn). destruct (write_then_read slab Hw Hf Hn) as (f & Hc & Hr).
  exists (after_eod fs0 last (insert_suffix base (str "_EOD")) f). split.
  - revert fs Hpre. induction pre as [|[[b1 slab1] ts1] pre IH]; intros fs Hpre; cbn [run_eod_callbacks app] in *.
    + injection Hpre as <-. by rewrite (save_eod_ok os fs last slab s ts base f).
    + destruct (save_eod os fs b1 slab1 s ts1) as [[ok fs1]|]; [|done]. cbn [mbind option_bind] in *. by apply IH.
  - intros b targets Hd Ht. exists (zip_with restored targets slab). split; [|by apply restored_same].
    assert (Hp : latest_eod_ptr_path b = latest_eod_ptr_path last) by (unfold latest_eod_ptr_path; by rewrite Hd).
    unfold load_eod. rewrite Hp. fold (load_eod os (after_eod fs0 last (insert_suffix base (str "_EOD")) f) last targets).
    destruct (after_eod_lookup fs0 last _ f P) as (L1 & _ & L3).
    rewrite (load_eod_from os _ last (insert_suffix base (str "_EOD")) f) by done. by apply Hr.
Qed.

(** The EOD suffix can land in the directory name.  The suffix goes
    before the last dot of the whole path: when the directory has a dot and
    the file name has none, the file is addressed in another directory. *)
Theorem eod_suffix_renames_directory dir1 dir2 file :
  rfind 46 (dir2 ++ str "/" ++ file) = None ->
  insert_suffix (dir1 ++ [46] ++ dir2 ++ str "/" ++ file) (str "_EOD")
    = dir1 ++ str "_EOD" ++ [46] ++ dir2 ++ str "/" ++ file.
Proof.
  intros Hn. unfold insert_suffix. assert (Hr : rfind 46 (dir1 ++ [46] ++ dir2 ++ str "/" ++ file) = Some (length dir1)).
  { induction dir1 as [|c d IH]; cbn [app rfind length]; [by rewrite Hn|]. cbn [app] in IH. by rewrite IH. }
  rewrite Hr, take_app_length, drop_app_length. done.
Qed.

(** ** Witnesses *)

Example make_path_default :
  make_path (mkSnapshot (str "/s") (str "itch_{session}_{timestamp}.snap")) (str "STRT0000T ") 1205
    = Some (str "/s/itch_STRT0000T_1205.snap").
Proof. reflexivity. Qed.

Lemma replace_token_expands_witness :
  replace_token (str "a{x}{x}b") (str "{x}") (str "{x}c") = Some (str "a{x}c{x}cb").
Proof. rewrite (replace_token_expands (str "a{x}{x}b") (str "{x}")) by discriminate. reflexivity. Defined.

Definition free_os : Os := mkOs (fun _ => true) (fun _ _ => true).
Definition demo_snapshot : BookSnapshot := mkSnapshot (str "/s") (str "i_{session}_{timestamp}.snap").
Definition demo_path : bytes := str "/s/i_STRT0000T_7_EOD.snap".

Lemma demo_path_ok : snap_path_ok demo_snapshot demo_path.
Proof.
  split; [repeat constructor; discriminate|repeat constructor; discriminate|vm_compute; lia| |].
  - exists (take 24 demo_path), 112. split; reflexivity.
  - rewrite !not_elem_of_cons. split_and!; try discriminate. apply not_elem_of_nil.
Qed.

Lemma one_level_savable : savable [one_level_book].
Proof.
  split_and!; [repeat constructor; apply one_level_wf|repeat constructor; cbn; lia|cbn; lia].
Qed.

Lemma demo_base_ok : snap_path_ok demo_snapshot (str "/s/i_STRT0000T_7.snap").
Proof.
  split; [repeat constructor; discriminate|repeat constructor; discriminate|vm_compute; lia| |].
  - exists (take 20 (str "/s/i_STRT0000T_7.snap")), 112. split; reflexivity.
  - rewrite !not_elem_of_cons. split_and!; try discriminate. apply not_elem_of_nil.
Qed.

Lemma saved_books_load_back_witness :
  exists fs1 r, save free_os ∅ demo_snapshot [one_level_book] (str "STRT0000T ") 7 = Some (true, fs1)
    /\ load free_os fs1 demo_snapshot [new_book 3] = Some (true, [r]) /\ bids r = bids one_level_book.
Proof.
  destruct (saved_books_load_back free_os ∅ demo_snapshot [one_level_book] (str "STRT0000T ") 7
    (str "/s/i_STRT0000T_7.snap") [new_book 3]) as (fs1 & fs2 & rs & H3 & H1 & H2 & _).
  - reflexivity.
  - apply demo_base_ok.
  - apply demo_path_ok.
  - repeat split.
  - repeat split.
  - apply one_level_savable.
  - reflexivity.
  - inversion H3 as [|b r bs rs' Hb Hnil]; subst. inversion Hnil; subst.
    exists fs1, r. split; [exact H1|]. split; [exact H2|apply Hb].
Defined.

Lemma eod_snapshot_survives_saves_witness :
  exists fs1, save_eod free_os ∅ demo_snapshot [one_level_book] (str "STRT0000T ") 7 = Some (true, fs1)
    /\ forall os' fs2, run_saves os' fs1 demo_snapshot [([new_book 3], str "STRT0000U ", 8)] = Some fs2 ->
       exists rs, load_eod free_os fs2 demo_snapshot [new_book 3] = Some (true, rs)
         /\ Forall2 same_book [one_level_book] rs.
Proof.
  apply (eod_snapshot_survives_saves free_os free_os ∅ demo_snapshot [one_level_book] (str "STRT0000T ") 7
    (str "/s/i_STRT0000T_7.snap") [([new_book 3], str "STRT0000U ", 8)] [new_book 3]).
  - reflexivity.
  - apply demo_path_ok.
  - repeat split.
  - repeat split.
  - apply one_level_savable.
  - reflexivity.
  - intros books' s' ts' q Hin Hq. apply list_elem_of_singleton in Hin. injection Hin as -> -> ->.
    injection Hq as <-. rewrite !not_elem_of_cons. split_and!; try discriminate; apply not_elem_of_nil.
Defined.

Lemma eod_suffix_renames_directory_witness :
  insert_suffix (str "/var/itch.d/books") (str "_EOD") = str "/var/itch_EOD.d/books".
Proof. apply (eod_suffix_renames_directory (str "/var/itch") (str "d") (str "books")). reflexivity. Defined.
