(* ===== verification/Recovery.v ===== *)
(** * Recovery: retransmit client, recovery thread, persistent sequence

    [RetransmitClient] and [NasdaqLoginHandler]
    ([src/recovery/retransmit_client.cpp]), [RecoveryThread]
    ([src/workers/recovery_thread.cpp]) and [PersistentSequence]
    ([include/recovery/persistent_sequence.hpp],
    [src/recovery/persistent_sequence.cpp]).  What the operating system answers
    - whether a call succeeds, the bytes a peer sends - is an input of each
    operation; what is sent or written is part of its result. *)

From S2P Require Import Prelude Types Mold Sequence Spsc PacketRing ParserThread.

(** ** Retransmit requests *)

(** The loop that stores a number big-endian: the last byte first. *)
Fixpoint store_be (n : nat) (seq : Z) : bytes :=
  match n with
  | O => []
  | S n' => store_be n' (Z.shiftr seq 8) ++ [Z.land seq 255]
  end.

(** The 20 bytes of [RetransmitClient::request]. *)
Definition request_packet (session_10 : bytes) (start_seq count : Z) : option bytes :=
  s ← rd_bytes 10 session_10;
  Some (s ++ store_be 8 start_seq ++ [Z.land (Z.shiftr count 8) 255; Z.land count 255]).

(** What [send] answers: the number of bytes taken, negative on error. *)
Definition request (connected : bool) (session_10 : bytes) (start_seq count sent : Z)
    : option (bool * option bytes) :=
  if negb connected then Some (false, None)
  else p ← request_packet session_10 start_seq count; Some (sent =? 20, Some p).

(** ** Login *)

(** A C string is its bytes; a null pointer copies nothing. *)
Definition pad_copy (dst_len : nat) (src : option bytes) (fill : Z) : bytes :=
  let s := default [] src in
  let n := Nat.min (length s) dst_len in
  take n s ++ replicate (dst_len - n) fill.

Definition login_packet (username password : option bytes) (session_10 : option bytes) : option bytes :=
  sess ← (match session_10 with Some s => rd_bytes 10 s | None => Some (replicate 10 32) end);
  Some ([0; 62] ++ [76] ++ pad_copy 6 username 32 ++ pad_copy 10 password 32 ++ sess
        ++ [49] ++ replicate 19 32 ++ replicate 15 0).

Inductive LoginResult := Accepted | Rejected | LoginError.

(** [recv_response] on the bytes the peer sends before it closes or the time
    runs out: [read_all] fails when there are fewer than it asks for. *)
Definition recv_response (stream : bytes) : LoginResult :=
  match rd_bytes 2 stream with
  | None => LoginError
  | Some len_buf =>
      let payload_len := be_val len_buf in
      if (payload_len =? 0) || (payload_len >? 64) then LoginError
      else match rd_bytes (Z.to_nat payload_len) (drop 2 stream) with
           | None => LoginError
           | Some payload =>
               match payload !! 0%nat with
               | Some 65 => Accepted
               | Some 74 => Rejected
               | _ => LoginError
               end
           end
  end.

(** One endpoint as the client finds it. *)
Record Endpoint := mkEndpoint {
  socket_ok : bool;
  address_ok : bool;
  connect_ok : bool;
  send_ok : bool;
  reply : bytes
}.

(** [ConnectExit]: the process ends, [exit(1)]. *)
Inductive ConnectResult := Connected | ConnectFailed | ConnectExit.

Definition login (e : Endpoint) : bool :=
  send_ok e && match recv_response (reply e) with Accepted => true | _ => false end.

Definition connect_to (require_login : bool) (e : Endpoint) : ConnectResult :=
  if negb (socket_ok e) || negb (address_ok e) || negb (connect_ok e) then ConnectFailed
  else if require_login && negb (login e) then ConnectExit
  else Connected.

(** [secondary] is [None] when no secondary address or port is configured. *)
Definition connect (require_login : bool) (primary : Endpoint) (secondary : option Endpoint)
    : ConnectResult :=
  match connect_to require_login primary, secondary with
  | ConnectFailed, Some e => connect_to require_login e
  | r, _ => r
  end.

(** ** Recovery thread *)

Record RecoveryThread := mkRecovery {
  gap_det : GapDetector;
  connected : bool;
  rec_session_ : bytes
}.

(** [session_] of the constructor: at most ten bytes of the name given to it,
    zero padded. *)
Definition recovery_session (session : option bytes) : bytes :=
  let s := take 10 (default [] session) in s ++ replicate (11 - length s) 0.

(** The result of a poll: the thread, and the request sent, or [None] when
    the process has ended. *)
Definition send_request (t : RecoveryThread) (sent : Z) : option (RecoveryThread * option bytes) :=
  let g := gap (gap_det t) in
  let count := gr_end_seq g -64 gr_start_seq g +64 1 in
  let count := if count >? 65535 then 65535 else count in
  '(_, p) ← request (connected t) (rec_session_ t) (gr_start_seq g) (u16 count) sent;
  Some (mkRecovery (mark_recovery_sent (gap_det t)) (connected t) (rec_session_ t), p).

Definition handle_recovery (t : RecoveryThread) (now : Z) (answer : ConnectResult) (sent : Z)
    : option (RecoveryThread * option bytes) :=
  if negb (Sequence.pending (gap_det t)) then Some (t, None)
  else if negb (should_request_recovery now (gap_det t)) then Some (t, None)
  else if connected t then send_request t sent
  else match answer with
       | Connected => send_request (mkRecovery (gap_det t) true (rec_session_ t)) sent
       | ConnectFailed => Some (t, None)
       | ConnectExit => None
       end.

(** What one call of [recv] gives: data with its time, nothing, an error, or
    the end of the connection. *)
Inductive RecvResult := RData (bs : bytes) (ts : Z) | RNothing | RError | RClosed.

Section Drain.
Context {Q : Type} `{FifoOps Q Z}.

(** The loop of [recv_retransmitted]: at most [n] more packets.  The two
    counters are those of [FeedStats]. *)
Fixpoint recv_loop (n : nat) (r : ZeroCopyRing Q) (inputs : list RecvResult)
    (recovered drops : Z) : option (bool * ZeroCopyRing Q * Z * Z) :=
  match n, inputs with
  | S n', RData bs ts :: inputs' =>
      '(ok, r') ← inject_recovered_packet r bs ts;
      if ok : bool then recv_loop n' r' inputs' (recovered +64 1) drops
      else recv_loop n' r' inputs' recovered (drops +64 1)
  | S _, RClosed :: _ => Some (false, r, recovered, drops)
  | _, _ => Some (true, r, recovered, drops)
  end.

(** The first component is [is_connected()] afterwards. *)
Definition recv_retransmitted (conn : bool) (r : ZeroCopyRing Q) (inputs : list RecvResult)
    (recovered drops : Z) : option (bool * ZeroCopyRing Q * Z * Z) :=
  if negb conn then Some (conn, r, recovered, drops) else recv_loop 64 r inputs recovered drops.

(** One iteration of [run]; the snapshot timer only writes a log line. *)
Definition recovery_iter (t : RecoveryThread) (r : ZeroCopyRing Q) (now : Z) (answer : ConnectResult)
    (sent : Z) (inputs : list RecvResult) (recovered drops : Z)
    : option (RecoveryThread * option bytes * ZeroCopyRing Q * Z * Z) :=
  '(t1, p) ← handle_recovery t now answer sent;
  '(conn, r', recovered', drops') ← recv_retransmitted (connected t1) r inputs recovered drops;
  Some (mkRecovery (gap_det t1) conn (rec_session_ t1), p, r', recovered', drops').

End Drain.

(** ** Persistent sequence *)

Record LoadedSeq := mkLoaded { loaded_seq : Z; loaded_session : bytes }.
Definition LoadedSeq0 : LoadedSeq := mkLoaded 0 (replicate 10 0).

(** The 24 bytes of a [PersistRecord]: magic, session, version, sequence. *)
Definition persist_record (seq : Z) (session_10 : bytes) : option bytes :=
  s ← rd_bytes 10 session_10;
  Some ([73; 84; 67; 83] ++ s ++ le_enc 2 1 ++ le_enc 8 seq).

(** The file as [load] finds it: [None] when it cannot be opened. *)
Definition load (file : option bytes) : LoadedSeq :=
  match file with
  | None => LoadedSeq0
  | Some f =>
      match rd_bytes 24 f with
      | None => LoadedSeq0
      | Some rec =>
          if decide (take 4 rec = [73; 84; 67; 83])
          then mkLoaded (le_val (drop 16 rec)) (take 10 (drop 4 rec))
          else LoadedSeq0
      end
  end.

(** How far a save gets. *)
Inductive SaveOutcome := SaveOk | OpenFailed | ShortWrite | RenameFailed.

(** The state file after [save_sync]: only the final rename replaces it. *)
Definition save_sync (file : option bytes) (seq : Z) (session_10 : bytes) (o : SaveOutcome)
    : option (option bytes) :=
  rec ← persist_record seq session_10;
  Some (match o with SaveOk => Some rec | _ => file end).

Section Writer.
Context {P : Type} `{FifoOps P SeqRecord}.

(** The inner loop of [run]: pops and saves until the queue is empty; the fuel
    is the number of records, each iteration removing one. *)
Fixpoint drain (fuel : nat) (q : P) (file : option bytes) (os : nat -> SaveOutcome)
    : option (P * option bytes) :=
  let '(x, q') := try_pop q in
  match x with
  | None => Some (q', file)
  | Some r =>
      match fuel with
      | O => None
      | S fuel' =>
          file' ← save_sync file (rec_seq r) (rec_session r) (os fuel); drain fuel' q' file' os
      end
  end.

(** [stop] after the writer has left its loop: one more record is saved. *)
Definition stop_final (q : P) (file : option bytes) (o : SaveOutcome) : option (P * option bytes) :=
  let '(x, q') := try_pop q in
  match x with
  | None => Some (q', file)
  | Some r => file' ← save_sync file (rec_seq r) (rec_session r) o; Some (q', file')
  end.

(** The object: [running_], the queue and the state file. *)
Record PersistentSequence := mkPersist {
  ps_running : bool;
  ps_queue : P;
  ps_file : option bytes
}.

Definition ps_start (s : PersistentSequence) : PersistentSequence := mkPersist true (ps_queue s) (ps_file s).

(** The producer's call, [PersistentSequence::enqueue]. *)
Definition ps_enqueue (s : PersistentSequence) (seq : Z) (session_10 : bytes) : PersistentSequence :=
  mkPersist (ps_running s) (enqueue (ps_queue s) seq session_10) (ps_file s).

(** One iteration of [run]: nothing when the flag is down, the idle sleep when
    the queue is empty, else everything queued is saved.  The fuel is that of
    [drain]. *)
Definition ps_iter (fuel : nat) (s : PersistentSequence) (os : nat -> SaveOutcome) : option PersistentSequence :=
  if negb (ps_running s) then Some s
  else '(q, file) ← drain fuel (ps_queue s) (ps_file s) os; Some (mkPersist true q file).

(** [stop], after the writer has left its loop. *)
Definition ps_stop (s : PersistentSequence) (o : SaveOutcome) : option PersistentSequence :=
  if negb (ps_running s) then Some s
  else '(q, file) ← stop_final (ps_queue s) (ps_file s) o; Some (mkPersist false q file).

(** ** Lemmas *)

Lemma persist_record_Some seq s : length s = 10%nat ->
  persist_record seq s = Some ([73; 84; 67; 83] ++ s ++ le_enc 2 1 ++ le_enc 8 seq).
Proof.
  intros Hl. unfold persist_record. rewrite rd_bytes_Some, firstn_all2 by lia. done.
Qed.

Lemma load_record seq s : length s = 10%nat -> in_range 64 seq ->
  load (Some ([73; 84; 67; 83] ++ s ++ le_enc 2 1 ++ le_enc 8 seq)) = mkLoaded seq s.
Proof.
  intros Hl Hq. unfold load.
  assert (Hlen : length ([73; 84; 67; 83] ++ s ++ le_enc 2 1 ++ le_enc 8 seq) = 24%nat)
    by (rewrite !length_app, !le_enc_length, Hl; done).
  rewrite rd_bytes_Some by lia. rewrite (firstn_all2 (n := 24)) by lia.
  rewrite decide_True by done. set (x := s ++ _).
  change (drop 16 (_ ++ x)) with (drop 12 x). change (drop 4 (_ ++ x)) with x. subst x.
  rewrite take_app_length' by done. f_equal.
  change (@drop Z 12) with (@drop Z (10 + 2)). rewrite <- drop_drop.
  rewrite (drop_app_length' s) by done. rewrite drop_app_length' by (by rewrite le_enc_length).
  rewrite le_val_enc. apply Z.mod_small. exact Hq.
Qed.

Context {PF : Fifo P SeqRecord}.

Definition record_ok (r : SeqRecord) : Prop := in_range 64 (rec_seq r) /\ length (rec_session r) = 10%nat.

Definition as_loaded (r : SeqRecord) : LoadedSeq := mkLoaded (rec_seq r) (rec_session r).

(** ** Properties of the persisted sequence *)

(** A save is atomic.  Whatever step fails, the file that [load] would find
    is either the old one or the complete new record, and a save that went
    through is read back exactly. *)
Theorem save_load_atomic file seq s o :
  in_range 64 seq -> length s = 10%nat ->
  exists file', save_sync file seq s o = Some file'
    /\ load file' = match o with SaveOk => mkLoaded seq s | _ => load file end.
Proof.
  intros Hq Hs. unfold save_sync. rewrite persist_record_Some by done.
  eexists. split; [reflexivity|]. destruct o; [by apply load_record|done..].
Qed.

(** The writer's loop empties the queue; with saves that succeed the file
    holds the newest record. *)
Theorem drain_saves_newest rs : forall q file os, fifo_ok q -> items q = rs -> Forall record_ok rs ->
  (forall i, os i = SaveOk) ->
  exists q' file', drain (length rs) q file os = Some (q', file') /\ items q' = []
    /\ load file' = match last rs with Some r => as_loaded r | None => load file end.
Proof.
  induction rs as [|r rs IH]; intros q file os Hq Hi Hrs Hos.
  { destruct (pop_empty q Hq Hi) as [Hp Hi']. 
    cbn [length drain]. destruct (try_pop q) as [x q']. simpl in Hp, Hi'. subst x.
    by exists q', file. }
  inversion_clear Hrs as [|?? [Hr1 Hr2] Hrs']. destruct (pop_head q r rs Hq Hi) as [Hp Hi'].
  destruct (pop_keeps q Hq) as [Hq' _]. cbn [length drain].
  destruct (try_pop q) as [y q']. simpl in Hp, Hi', Hq'. subst y.
  unfold save_sync. rewrite persist_record_Some, Hos by done. cbn [mbind option_bind].
  destruct (IH q' (Some ([73; 84; 67; 83] ++ rec_session r ++ le_enc 2 1 ++ le_enc 8 (rec_seq r))) os)
    as (q2 & file2 & -> & Hi2 & Hl2); try done.
  exists q2, file2. split_and!; [done|done|]. rewrite Hl2, last_cons.
  destruct (last rs); [done|]. by apply load_record.
Qed.

(** [stop] loses the newest record.  The queue has two slots; when both are
    filled as the writer leaves its loop, [stop] saves the older record only,
    although its comment promises a precise final state on disk. *)
Theorem stop_saves_oldest_only q file r1 r2 :
  fifo_ok q -> items q = [r1; r2] -> record_ok r1 ->
  exists q' file', stop_final q file SaveOk = Some (q', file') /\ items q' = [r2]
    /\ load file' = as_loaded r1.
Proof.
  intros Hq Hi [Hr1 Hr2]. destruct (pop_head q r1 [r2] Hq Hi) as [Hp Hi'].
  unfold stop_final. destruct (try_pop q) as [x q']. simpl in Hp, Hi'. subst x.
  unfold save_sync. rewrite persist_record_Some by done. cbn [mbind option_bind].
  eexists _, _. split; [reflexivity|]. split; [done|]. by apply load_record.
Qed.

(** With at most one record waiting, as after a last iteration of the writer
    and one more packet, [stop] leaves the newest position on disk; stopping
    again, as [FeedHandler::stop] and the destructor do, changes nothing. *)
Theorem stop_persists_newest (s : PersistentSequence) r :
  ps_running s = true -> fifo_ok (ps_queue s) -> items (ps_queue s) = [r] -> record_ok r ->
  exists s', ps_stop s SaveOk = Some s' /\ items (ps_queue s') = [] /\ load (ps_file s') = as_loaded r
    /\ forall o, ps_stop s' o = Some s'.
Proof.
  intros Hr Hq Hi [Hr1 Hr2]. destruct (pop_head _ r [] Hq Hi) as [Hp Hi'].
  unfold ps_stop, stop_final. rewrite Hr. cbn [negb]. destruct (try_pop (ps_queue s)) as [x q']. simpl in Hp, Hi'. subst x.
  unfold save_sync. rewrite persist_record_Some by done. cbn [mbind option_bind].
  eexists. split; [reflexivity|]. split; [done|]. split; [by apply load_record|done].
Qed.

End Writer.

(** ** Properties of the recovery thread *)

Lemma store_be_enc n z : store_be n z = be_enc n z.
Proof.
  revert z. induction n as [|n IH]; intros z; [done|]. cbn [store_be be_enc].
  rewrite IH, Z.shiftr_div_pow2 by lia. f_equal. f_equal.
  change 255 with (Z.ones 8). by rewrite Z.land_ones by lia.
Qed.

Lemma request_packet_mold s start count : length s = 10%nat -> in_range 16 count ->
  request_packet s start count = Some (mold_packet s start count []).
Proof.
  intros Hl Hc. unfold request_packet, mold_packet. rewrite rd_bytes_Some, firstn_all2 by lia.
  cbn [mbind option_bind].
  change [Z.land (Z.shiftr count 8) 255; Z.land count 255] with (store_be 2 count).
  by rewrite !store_be_enc, app_nil_r.
Qed.

(** The session of the thread is zero terminated. *)
Lemma request_packet_name name rest start count : length name = 10%nat ->
  request_packet (name ++ rest) start count = request_packet name start count.
Proof. intros. unfold request_packet. rewrite rd_bytes_app, rd_bytes_Some, firstn_all2 by lia. done. Qed.

(** A request to a connected server, whatever [send] answers, marks the gap as
    requested. *)
Lemma handle_recovery_sends t now answer sent :
  should_request_recovery now (gap_det t) = true -> connected t = true ->
  (10 <= length (rec_session_ t))%nat ->
  exists t' p, handle_recovery t now answer sent = Some (t', Some p)
    /\ gap_det t' = mark_recovery_sent (gap_det t)
    /\ request_packet (rec_session_ t) (gr_start_seq (gap (gap_det t)))
         (u16 (Z.min 65535 (gr_end_seq (gap (gap_det t)) -64 gr_start_seq (gap (gap_det t)) +64 1)))
       = Some p.
Proof.
  intros Hs Hc Hl. unfold handle_recovery.
  assert (Hp : Sequence.pending (gap_det t) = true).
  { unfold should_request_recovery in Hs. by destruct (Sequence.pending (gap_det t)). }
  assert (Hmin : forall z, (if z >? 65535 then 65535 else z) = Z.min 65535 z).
  { intros z. rewrite Z.gtb_ltb. destruct (Z.ltb_spec 65535 z); lia. }
  rewrite Hp, Hs, Hc. cbn [negb]. unfold send_request, request. rewrite Hc, Hmin. cbn [negb].
  unfold request_packet. rewrite rd_bytes_Some by done. cbn [mbind option_bind].
  eexists _, _. split; [reflexivity|]. done.
Qed.

Lemma sent_is_quiet t now answer sent :
  recovery_sent (gap (gap_det t)) = true -> handle_recovery t now answer sent = Some (t, None).
Proof.
  intros Hs. unfold handle_recovery, should_request_recovery. rewrite Hs, orb_true_r.
  by destruct (Sequence.pending (gap_det t)).
Qed.

(** A lost range is requested exactly.  When a gap of at most 65535
    packets has timed out and the server is connected, the poll sends a request
    that decodes, as a MoldUDP64 header, to the thread's session, the first
    missing number and the number of missing packets. *)
Theorem recovery_requests_gap t now answer sent name :
  should_request_recovery now (gap_det t) = true -> connected t = true ->
  rec_session_ t = name ++ [0] -> bytes_ok name -> length name = 10%nat ->
  let g := gap (gap_det t) in
  0 <= gr_start_seq g <= gr_end_seq g -> gr_end_seq g < 2 ^ 64 - 1 ->
  gr_end_seq g - gr_start_seq g < 65535 ->
  exists t' p h, handle_recovery t now answer sent = Some (t', Some p)
    /\ header_of_bytes p = Some h /\ length p = 20%nat /\ session h = name
    /\ get_sequence h = gr_start_seq g
    /\ get_message_count h = gr_end_seq g - gr_start_seq g + 1.
Proof.
  intros Hs Hc Hn Hok Hl g Hr He Hfew.
  destruct (handle_recovery_sends t now answer sent Hs Hc) as (t' & p & E & _ & Hp).
  { rewrite Hn, length_app. lia. }
  set (n := gr_end_seq g - gr_start_seq g + 1).
  assert (Hcount : u16 (Z.min 65535 (gr_end_seq g -64 gr_start_seq g +64 1)) = n).
  { rewrite (wrap_small 64 (gr_end_seq g - _)) by range_lia.
    rewrite (wrap_small 64) by range_lia. subst n. rewrite Z.min_r, wrap_small; range_lia. }
  fold g in Hp. rewrite Hcount in Hp.
  rewrite Hn, request_packet_name, request_packet_mold in Hp by (done || subst n; range_lia). injection Hp as <-.
  destruct (mold_packet_header name (gr_start_seq g) n []) as (h & Eh & H1 & H2 & H3);
    [done|done|constructor|subst n; range_lia|subst n; range_lia|].
  exists t', (mold_packet name (gr_start_seq g) n []), h. split_and!; try done.
  by rewrite mold_packet_length.
Qed.

(** A failed request is never repeated, and neither is one that could not
    name the whole gap.  The result of [request] is ignored and the gap is
    marked as requested: whatever [send] answered, every later poll does
    nothing until a new gap is reported. *)
Theorem failed_request_not_retried t now answer sent :
  should_request_recovery now (gap_det t) = true -> connected t = true ->
  (10 <= length (rec_session_ t))%nat ->
  exists t' p, handle_recovery t now answer sent = Some (t', Some p)
    /\ forall now' answer' sent', handle_recovery t' now' answer' sent' = Some (t', None).
Proof.
  intros Hs Hc Hl. destruct (handle_recovery_sends t now answer sent Hs Hc Hl) as (t' & p & E & Hg & _).
  exists t', p. split; [done|]. intros. apply sent_is_quiet. by rewrite Hg.
Qed.

(** The login request is 64 bytes long and has its fields where the protocol
    puts them. *)
Theorem login_packet_layout user pass sess p :
  login_packet user pass sess = Some p ->
  length p = 64%nat /\ take 3 p = [0; 62; 76]
  /\ take 6 (drop 3 p) = pad_copy 6 user 32 /\ take 10 (drop 9 p) = pad_copy 10 pass 32
  /\ take 10 (drop 19 p) = default (replicate 10 32) (take 10 <$> sess).
Proof.
  assert (Hpad : forall n s f, length (pad_copy n s f) = n).
  { intros. unfold pad_copy. rewrite length_app, length_take, length_replicate. lia. }
  unfold login_packet. intros E. apply bind_Some in E as (s & Hs & E). apply Some_inj in E as <-.
  assert (Hlen : length s = 10%nat /\ s = default (replicate 10 32) (take 10 <$> sess)).
  { destruct sess as [z|]; [|injection Hs as <-; done]. unfold rd_bytes in Hs.
    destruct (decide _); [|done]. injection Hs as <-. rewrite length_take. split; [lia|done]. }
  destruct Hlen as [Hl <-]. set (u := pad_copy 6 user 32). set (w := pad_copy 10 pass 32).
  assert (Hu : length u = 6%nat) by apply Hpad. assert (Hw : length w = 10%nat) by apply Hpad.
  set (r := [49] ++ replicate 19 32 ++ replicate 15 0).
  split; [simpl; rewrite !length_app, Hu, Hw, Hl; done|]. split; [done|].
  change (drop 3 ([0; 62] ++ [76] ++ u ++ w ++ s ++ r)) with (u ++ w ++ s ++ r).
  change (drop 9 ([0; 62] ++ [76] ++ u ++ w ++ s ++ r)) with (drop 6 (u ++ w ++ s ++ r)).
  change (drop 19 ([0; 62] ++ [76] ++ u ++ w ++ s ++ r)) with (drop (6 + 10) (u ++ w ++ s ++ r)).
  rewrite <- drop_drop, !(drop_app_length' u), (drop_app_length' w), !take_app_length' by done. done.
Qed.

(** ** Witnesses *)

Definition sample_rec : SeqRecord := mkSeqRecord 41 (replicate 10 84).
Definition sample_rec2 : SeqRecord := mkSeqRecord 42 (replicate 10 84).

Lemma save_load_atomic_witness :
  exists f, save_sync None 41 (replicate 10 84) SaveOk = Some f
    /\ load f = mkLoaded 41 (replicate 10 84).
Proof.
  destruct (save_load_atomic None 41 (replicate 10 84) SaveOk) as (f & H1 & H2).
  - concrete.
  - reflexivity.
  - exists f. split; [exact H1|exact H2].
Defined.

(** The two-slot queue with both slots filled. *)
Definition two_records : Seq.SpscQueue SeqRecord :=
  snd (Seq.push (snd (Seq.push (Seq.init (Z.to_nat (2 ^ 1)) (mkSeqRecord 0 [])) sample_rec)) sample_rec2).

Lemma two_records_ok : fifo_ok two_records.
Proof.
  refine (proj1 (push_keeps (snd (try_push (Seq.init (Z.to_nat (2 ^ 1)) (mkSeqRecord 0 [])) sample_rec))
    sample_rec2 _)).
  refine (proj1 (push_keeps (Seq.init (Z.to_nat (2 ^ 1)) (mkSeqRecord 0 [])) sample_rec _)).
  by apply init_fifo_ok.
Qed.

Lemma stop_saves_oldest_only_witness :
  exists q f, stop_final two_records None SaveOk = Some (q, f) /\ items q = [sample_rec2]
    /\ load f = mkLoaded 41 (replicate 10 84).
Proof.
  destruct (stop_saves_oldest_only two_records None sample_rec sample_rec2) as (q & f & H1 & H2 & H3).
  - exact two_records_ok.
  - reflexivity.
  - split; [cbn; concrete|reflexivity].
  - exists q, f. split; [exact H1|]. split; [exact H2|exact H3].
Defined.

Definition waiting_thread : RecoveryThread :=
  mkRecovery (on_gap (mkGapInfo 5 9 0) (gap_detector_init 1)) true (replicate 10 84 ++ [0]).

Lemma recovery_requests_gap_witness :
  exists t' p h, handle_recovery waiting_thread 1000000 ConnectFailed 20 = Some (t', Some p)
    /\ header_of_bytes p = Some h /\ get_sequence h = 5 /\ get_message_count h = 5.
Proof.
  destruct (recovery_requests_gap waiting_thread 1000000 ConnectFailed 20 (replicate 10 84))
    as (t' & p & h & H1 & H2 & _ & _ & H3 & H4).
  - reflexivity.
  - reflexivity.
  - reflexivity.
  - cbn. concrete.
  - reflexivity.
  - cbn. lia.
  - cbn. lia.
  - cbn. lia.
  - exists t', p, h. split; [exact H1|]. split; [exact H2|]. split; [exact H3|exact H4].
Defined.

Lemma failed_request_not_retried_witness :
  exists t' p, handle_recovery waiting_thread 1000000 ConnectFailed (-1) = Some (t', Some p)
    /\ handle_recovery t' 5000000 ConnectFailed 20 = Some (t', None).
Proof.
  destruct (failed_request_not_retried waiting_thread 1000000 ConnectFailed (-1)) as (t' & p & H1 & H2).
  - reflexivity.
  - reflexivity.
  - cbn. lia.
  - exists t', p. split; [exact H1|apply H2].
Defined.

(** ** The recovery ring as a queue *)

Section RecoveryRing.
Context {Q : Type} `{Fifo Q Z}.

(** The queued indices are consecutive and end before [recovery_write_]. *)
Definition recovery_run (w : Z) (n : nat) : list Z :=
  (fun i => (w - Z.of_nat n + Z.of_nat i) mod RECOVERY_RING_DEPTH) <$> List.seq 0 n.

Record recovery_ok (r : ZeroCopyRing Q) : Prop := {
  ro_queue : fifo_ok (recovery_queue r);
  ro_cap : fifo_cap (recovery_queue r) = Z.to_nat RECOVERY_RING_DEPTH;
  ro_slots : length (recovery_slots r) = Z.to_nat RECOVERY_RING_DEPTH;
  ro_data : Forall (fun s => length (data s) = Z.to_nat MAX_UDP_PAYLOAD) (recovery_slots r);
  ro_write : in_range 16 (recovery_write_ r);
  ro_items : items (recovery_queue r)
    = recovery_run (recovery_write_ r) (length (items (recovery_queue r)))
}.

(** The datagrams the merger will find in the recovery ring. *)
Definition recovered (r : ZeroCopyRing Q) : list (option bytes) :=
  (fun i => datagram <$> recovery_slot r i) <$> items (recovery_queue r).

Lemma recovery_mask_mod z : recovery_mask z = Z.to_nat (z mod RECOVERY_RING_DEPTH).
Proof.
  unfold recovery_mask, RECOVERY_RING_DEPTH. change (u16 (1024 - 1)) with (2 ^ 10 - 1).
  by rewrite land_mask by lia.
Qed.

Lemma recovery_run_lookup w n i x :
  recovery_run w n !! i = Some x ->
  (i < n)%nat /\ x = (w - Z.of_nat n + Z.of_nat i) mod RECOVERY_RING_DEPTH.
Proof.
  unfold recovery_run. rewrite list_lookup_fmap_Some. intros (j & -> & Hj).
  by apply lookup_seq in Hj as [-> ?].
Qed.

Lemma recovery_run_snoc w n :
  recovery_run (u16 (w + 1)) (S n) = recovery_run w n ++ [w mod RECOVERY_RING_DEPTH].
Proof.
  unfold recovery_run, RECOVERY_RING_DEPTH. rewrite seq_S, fmap_app. f_equal.
  - apply list_fmap_ext. intros i x Hi. range_lia.
  - simpl. f_equal. range_lia.
Qed.

Lemma recovery_len r : recovery_ok r ->
  Z.of_nat (length (items (recovery_queue r))) <= RECOVERY_RING_DEPTH.
Proof.
  intros O. pose proof (cap_bound _ (ro_queue _ O)). rewrite (ro_cap _ O) in *.
  unfold RECOVERY_RING_DEPTH in *. lia.
Qed.

(** Unlike the receiver, [inject_recovered_packet] asks for room first: a
    packet is appended, or refused with the ring unchanged. *)
Lemma inject_spec r bs ts :
  recovery_ok r -> (length bs <= Z.to_nat MAX_UDP_PAYLOAD)%nat ->
  if decide (Z.of_nat (length (items (recovery_queue r))) < RECOVERY_RING_DEPTH)
  then exists r', inject_recovered_packet r bs ts = Some (true, r') /\ recovery_ok r'
         /\ recovered r' = recovered r ++ [Some bs]
         /\ length (items (recovery_queue r')) = S (length (items (recovery_queue r)))
  else inject_recovered_packet r bs ts = Some (false, r).
Proof.
  intros O Hl. pose proof (ro_write _ O) as Hw. unfold inject_recovered_packet.
  rewrite (size_exact _ (ro_queue _ O)), Z.geb_leb. case_decide as Hroom.
  2: { by rewrite (proj2 (Z.leb_le _ _)) by lia. }
  rewrite (proj2 (Z.leb_gt _ _)) by lia. set (w := recovery_write_ r) in *.
  assert (Hidx : Z.land w (u16 (RECOVERY_RING_DEPTH - 1)) = w mod RECOVERY_RING_DEPTH).
  { unfold RECOVERY_RING_DEPTH. change (u16 (1024 - 1)) with (2 ^ 10 - 1). by rewrite land_mask by lia. }
  rewrite Hidx. set (k := w mod RECOVERY_RING_DEPTH) in *.
  assert (Hk : 0 <= k < RECOVERY_RING_DEPTH) by (apply Z.mod_pos_bound; done).
  destruct (lookup_lt_is_Some_2 (recovery_slots r) (Z.to_nat k)) as [old Hold].
  { rewrite (ro_slots _ O). lia. }
  pose proof (Forall_lookup_1 _ _ _ _ (ro_data _ O) Hold) as Hd. simpl in Hd.
  rewrite Hold. cbn [mbind option_bind]. rewrite blit_Some by lia. cbn [mbind option_bind].
  destruct (push_ok (recovery_queue r) k (ro_queue _ O)) as [Hp Hi]; [rewrite (ro_cap _ O); lia|].
  destruct (push_keeps (recovery_queue r) k (ro_queue _ O)) as [Hk1 Hk2].
  destruct (try_push (recovery_queue r) k) as [ok q']. simpl in Hp, Hi, Hk1, Hk2. subst ok.
  eexists. split; [done|]. pose proof (lookup_lt_Some _ _ _ Hold).
  split; [|split; [|simpl; rewrite Hi, length_app; simpl; lia]].
  - split; cbn [recovery_queue recovery_slots recovery_write_].
    + done.
    + by rewrite Hk2, (ro_cap _ O).
    + by rewrite length_insert, (ro_slots _ O).
    + apply Forall_insert; [apply O|]. cbn [data]. rewrite length_app, length_drop. lia.
    + by apply wrap_range.
    + rewrite Hi, length_app, Nat.add_1_r, recovery_run_snoc. f_equal. apply O.
  - unfold recovered. cbn [recovery_queue]. rewrite Hi, fmap_app. f_equal.
    + apply list_fmap_ext. intros i x Hx. f_equal. unfold recovery_slot. cbn [recovery_slots].
      apply list_lookup_insert_ne. rewrite recovery_mask_mod. rewrite (ro_items _ O) in Hx.
      apply recovery_run_lookup in Hx as [Hlt ->]. fold w. subst k. unfold RECOVERY_RING_DEPTH in *.
      range_lia.
    + simpl. f_equal. unfold recovery_slot. cbn [recovery_slots]. rewrite recovery_mask_mod.
      rewrite (Z.mod_small k) by done. rewrite list_lookup_insert_eq by done. cbn [fmap option_fmap option_map].
      f_equal. unfold datagram. cbn [length_ data]. rewrite Nat2Z.id. apply take_app_length.
Qed.

(** Retransmitted packets are queued in order and refused only when the
    recovery ring is full.  For a burst of at most 64 packets the poll appends
    exactly the first of them that fit to what the merger will find, changes
    nothing that is queued, counts these as recovered and the others as
    dropped. *)
Theorem retransmitted_packets_queued (r : ZeroCopyRing Q) pkts a b :
  recovery_ok r -> Forall (fun p => length (fst p) <= Z.to_nat MAX_UDP_PAYLOAD)%nat pkts ->
  (length pkts <= 64)%nat ->
  let room := Z.to_nat (RECOVERY_RING_DEPTH - Z.of_nat (length (items (recovery_queue r)))) in
  exists r', recv_retransmitted true r ((fun p => RData (fst p) (snd p)) <$> pkts) a b
      = Some (true, r', foldl (fun n _ => n +64 1) a (take room pkts),
                foldl (fun n _ => n +64 1) b (drop room pkts))
    /\ recovery_ok r' /\ recovered r' = recovered r ++ ((fun p => Some (fst p)) <$> take room pkts).
Proof.
  intros O Hp Hn. unfold recv_retransmitted. cbn [negb]. revert Hn. generalize 64%nat as n.
  revert r O a b. induction Hp as [|[bs ts] pkts Hbs _ IH]; intros r O a b n Hn.
  { exists r. rewrite take_nil, drop_nil. simpl. rewrite app_nil_r. by destruct n. }
  destruct n as [|n]; simpl in Hn; [lia|]. cbn [fmap list_fmap recv_loop fst snd] in *.
  pose proof (inject_spec r bs ts O Hbs) as Hinj. pose proof (recovery_len r O). case_decide as Hroom.
  - destruct Hinj as (r1 & -> & O1 & Hr1 & Hl1). cbn [mbind option_bind].
    destruct (IH r1 O1 (a +64 1) b n) as (r' & -> & O' & Hr'); [lia|]. exists r'.
    assert (E : Z.to_nat (RECOVERY_RING_DEPTH - Z.of_nat (length (items (recovery_queue r))))
      = S (Z.to_nat (RECOVERY_RING_DEPTH - Z.of_nat (length (items (recovery_queue r1)))))) by lia.
    rewrite E. cbn [take drop foldl fmap list_fmap fst]. split_and!; [done|done|].
    by rewrite Hr', Hr1, <- app_assoc.
  - rewrite Hinj. cbn [mbind option_bind]. destruct (IH r O a (b +64 1) n) as (r' & -> & O' & Hr'); [lia|].
    replace (Z.to_nat _) with 0%nat in Hr' |- * by lia.
    exists r'. rewrite !take_0, !drop_0. split_and!; [done|done|]. by rewrite take_0 in Hr'.
Qed.

End RecoveryRing.

(** A ring with an empty recovery queue. *)
Definition empty_recovery_ring : ZeroCopyRing (Seq.SpscQueue Z) :=
  mkRing [] (Seq.init 2 0) no_slots (Seq.init (Z.to_nat (2 ^ 10)) 0) 0.

Lemma empty_recovery_ok : recovery_ok empty_recovery_ring /\ recovered empty_recovery_ring = [].
Proof.
  assert (Hi : items (recovery_queue empty_recovery_ring) = []) by reflexivity. split.
  - split.
    + by apply init_fifo_ok.
    + reflexivity.
    + unfold empty_recovery_ring, no_slots. cbn [recovery_slots]. by rewrite length_replicate.
    + unfold empty_recovery_ring, no_slots. cbn [recovery_slots]. apply Forall_replicate.
      unfold slot0. cbn [data]. by rewrite length_replicate.
    + cbn. concrete.
    + by rewrite Hi.
  - unfold recovered. by rewrite Hi.
Qed.

Lemma retransmitted_packets_queued_witness :
  exists r', recv_retransmitted true empty_recovery_ring [RData [1; 2] 7; RData [3] 8] 0 0
      = Some (true, r', 2, 0)
    /\ recovered r' = [Some [1; 2]; Some [3]].
Proof.
  destruct (retransmitted_packets_queued empty_recovery_ring [([1; 2], 7); ([3], 8)] 0 0)
    as (r' & E & _ & Hr).
  - exact (proj1 empty_recovery_ok).
  - repeat constructor; unfold MAX_UDP_PAYLOAD; cbn [fst length]; lia.
  - simpl. lia.
  - exists r'. split; [exact E|]. rewrite Hr, (proj2 empty_recovery_ok). reflexivity.
Defined.
