(* ===== verification/GapRecovery.v ===== *)
(** * A gap from its detection to its recovery

    [SequenceTracker], [GapDetector], [ParserThread] and [RecoveryThread]
    together: what becomes of the packets that are missing when the parser
    meets a number that is too high.  The detector is shared: the parser
    reports and clears gaps, the recovery thread reads them and marks them as
    requested. *)

From S2P Require Import Prelude Types Mold ItchParser Sequence Spsc PacketRing Histogram.
From S2P Require Import Routing Session ParserThread Recovery.

Section Gap.
Context {CB R P : Type} `{Fifo R ItchMsg} `{FifoOps P SeqRecord}.
Abbreviation thread := (ParserThread CB R P).

(** What the recovery thread writes into the shared detector. *)
Definition set_gap (t : thread) (d : GapDetector) : thread :=
  mkParser (env_ t) (session_mgr_ t) d (persist_seq_ t) (parse_lat_ t) (sequence_gaps t) (sequence_dups t)
    (messages_parsed t) (msg_type_count t).

(** ** What the tracker and the detector make of a number *)

(** A number that is too high is reported as a gap and accepted. *)
Lemma track_gap (t : thread) now m sess : let tr := seq_tracker_ (env_ t) in
  tracker_ok tr -> gap_count tr < 2 ^ 64 - 1 -> seq tr + 1 < m < 2 ^ 64 - 1 ->
  let t' := track_sequence t now m sess in
  seq_tracker_ (env_ t') = mkTracker m (gap_count tr + 1) (dup_count tr) (seq tr + 1) (m - 1) now
  /\ gap_detector_ t' = on_gap (mkGapInfo (seq tr + 1) (m - 1) now) (gap_detector_ t).
Proof.
  intros tr [Hr Hg] Hgc Hm. unfold track_sequence, try_advance. fold tr.
  rewrite (wrap_small 64 (seq tr + 1)) by range_lia.
  rewrite (proj2 (Z.eqb_neq _ _)), (proj2 (Z.gtb_lt _ _)) by lia.
  rewrite (wrap_small 64 (gap_count tr + 1)), (wrap_small 64 (m - 1)) by range_lia. cbn [gap_count].
  rewrite (proj2 (Z.gtb_lt _ _)) by range_lia. done.
Qed.

(** A number that is too low, once there was a gap, reports that gap again. *)
Lemma track_late (t : thread) now k sess : let tr := seq_tracker_ (env_ t) in
  tracker_ok tr -> 0 < gap_count tr -> 0 <= k <= seq tr ->
  let t' := track_sequence t now k sess in
  seq_tracker_ (env_ t') = mkTracker (seq tr) (gap_count tr) (dup_count tr +64 1) (last_gap_start tr) (last_gap_end tr)
    (last_gap_ts tr)
  /\ gap_detector_ t' = on_gap (last_gap tr) (gap_detector_ t).
Proof.
  intros tr [Hr Hg] Hpos Hk. unfold track_sequence, try_advance. fold tr. rewrite wrap_small by range_lia.
  rewrite (proj2 (Z.eqb_neq _ _)), Z.gtb_ltb, (proj2 (Z.ltb_ge _ _)) by lia. cbn [gap_count].
  by rewrite (proj2 (Z.gtb_lt _ _)) by done.
Qed.

(** The next number clears every gap before it. *)
Lemma track_next (t : thread) now sess : let tr := seq_tracker_ (env_ t) in tracker_ok tr ->
  gap_detector_ (track_sequence t now (seq tr + 1) sess) = mark_recovered (seq tr + 1) (gap_detector_ t).
Proof.
  intros tr [Hr _]. unfold track_sequence, try_advance. fold tr. rewrite wrap_small by range_lia.
  by rewrite Z.eqb_refl.
Qed.

(** Late packets, one after the other. *)
Lemma late_run cap sess clock (l : list (Z * PacketSlot * list ItchMsg)) : forall (t : thread) (num : nat -> Z),
  parser_ok cap t -> tracker_ok (seq_tracker_ (env_ t)) -> 0 < gap_count (seq_tracker_ (env_ t)) ->
  sess = take 10 (session_ (session_mgr_ t)) ->
  (forall i now s ms, l !! i = Some (now, s, ms) ->
     holds_packet s sess (num i) ms /\ (forall j, timely (recv_ts s) (clock j)) /\ 0 <= num i <= seq (seq_tracker_ (env_ t))) ->
  exists t', process_slots t clock (l.*1) = Some t'
    /\ seq (seq_tracker_ (env_ t')) = seq (seq_tracker_ (env_ t))
    /\ last_gap (seq_tracker_ (env_ t')) = last_gap (seq_tracker_ (env_ t))
    /\ (l <> [] -> gap_detector_ t' = on_gap (last_gap (seq_tracker_ (env_ t))) (gap_detector_ t))
    /\ forall out sh v, shows (router_ (env_ t), out) sh v ->
         shows (router_ (env_ t'), out) sh
           (foldl (view_push cap) v (filter (fun m => targets m sh = true) (concat (l.*2)))).
Proof.
  induction l as [|[[now s] ms] l IH]; intros t num Po Htr Hpos Hs Hl; [by exists t|].
  destruct (Hl 0%nat now s ms eq_refl) as (Hp & Hts & Hk).
  destruct (slot_delivered cap t now clock s sess _ ms Po Hp Hs Hts) as (t1 & calls & E & Po1 & F & N1 & _ & V1).
  destruct (track_late t now (num 0%nat) sess Htr Hpos Hk) as [T1 G1].
  pose proof (st_tracker _ _ F) as F1. pose proof (st_gap _ _ F) as F2. rewrite T1 in F1. rewrite G1 in F2.
  destruct (IH t1 (fun i => num (S i))) as (t' & E' & S' & L' & G' & V'); rewrite ?F1; try done.
  - by rewrite N1.
  - intros i now' s' ms' Hi. exact (Hl (S i) now' s' ms' Hi).
  - exists t'. cbn [fmap list_fmap fst snd process_slots concat]. rewrite E. cbn [mbind option_bind].
    split; [exact E'|]. rewrite S', L', F1. split_and!; try done.
    + intros _. destruct l as [|x l]; [injection E' as <-; exact F2|]. rewrite G' by done. rewrite F1, F2. done.
    + intros out sh v Hv. rewrite filter_app, foldl_app. by apply V', V1.
Qed.

(** ** Properties *)

(** The request the recovery thread sends for a gap that has timed out. *)
Lemma gap_requested d a b ts sess now ans sent : length sess = 10%nat ->
  0 <= a <= b -> b - a < 65535 -> b < 2 ^ 64 - 1 -> 0 <= ts <= now -> now < 2 ^ 64 -> gap_timeout_ns d <= now - ts ->
  exists t', handle_recovery (mkRecovery (on_gap (mkGapInfo a b ts) d) true (sess ++ [0])) now ans sent
      = Some (t', Some (mold_packet sess a (b - a + 1) []))
    /\ gap_det t' = mark_recovery_sent (on_gap (mkGapInfo a b ts) d).
Proof.
  intros Hl Hab Hfew Hb Hts Hnow Hto. set (t := mkRecovery _ true _).
  destruct (handle_recovery_sends t now ans sent) as (t' & p & E & G & Hp).
  - unfold should_request_recovery. cbn. rewrite wrap_small by range_lia. apply Z.geb_le. lia.
  - done.
  - cbn. rewrite length_app. lia.
  - exists t'. split; [|done]. rewrite E. do 2 f_equal. f_equal. cbn in Hp.
    rewrite (wrap_small 64 (b - a)) in Hp by range_lia. rewrite (wrap_small 64 (b - a + 1)) in Hp by range_lia.
    rewrite Z.min_r, wrap_small in Hp by range_lia.
    rewrite request_packet_name, request_packet_mold in Hp by (done || range_lia). by injection Hp as <-.
Qed.

(** C29: lost packets come back, late and more than once.  The parser meets
    number [m] where [n + 1] was due, no more than 65534 packets being missing,
    and the feed then stays silent past the timeout.  The gap is reported with
    its exact bounds; the next poll of a connected recovery thread requests
    exactly the missing packets; and when these are re-injected, each with the
    time at which it was received, and processed before their latency exceeds
    the histogram, every shard queue has been offered all messages of the
    packets [n + 1] to [m] addressed to it, the recovered ones behind those of
    packet [m].  But each recovered packet counts as a duplicate, which reports
    the gap again: the following poll requests the same packets once more. *)
Theorem lost_packets_recovered cap (t : thread) now0 now clock s sess m ms l ans sent ans' sent' :
  parser_ok cap t -> tracker_ok (seq_tracker_ (env_ t)) -> gap_count (seq_tracker_ (env_ t)) < 2 ^ 64 - 1 ->
  sess = take 10 (session_ (session_mgr_ t)) ->
  let n := seq (seq_tracker_ (env_ t)) in n + 1 < m < 2 ^ 64 - 1 -> m - n <= 65535 ->
  holds_packet s sess m ms -> (forall j, timely (recv_ts s) (clock j)) -> Z.of_nat (length l) = m - n - 1 ->
  (forall i now s ms, l !! i = Some (now, s, ms) -> holds_packet s sess (n + 1 + Z.of_nat i) ms /\ forall j, timely (recv_ts s) (clock j)) ->
  0 <= now0 <= now -> now < 2 ^ 64 -> gap_timeout_ns (gap_detector_ t) <= now - now0 ->
  let asked := mold_packet sess (n + 1) (m - n - 1) [] in
  exists t1 calls rt t2, process_slot t now0 clock s = Some (t1, calls)
    /\ gap (gap_detector_ t1) = mkGapRange (n + 1) (m - 1) now0 false
    /\ handle_recovery (mkRecovery (gap_detector_ t1) true (sess ++ [0])) now ans sent = Some (rt, Some asked)
    /\ process_slots (set_gap t1 (gap_det rt)) clock (l.*1) = Some t2
    /\ seq (seq_tracker_ (env_ t2)) = m
    /\ (forall out sh v, shows (router_ (env_ t), out) sh v ->
          shows (router_ (env_ t2), out) sh
            (foldl (view_push cap) v (filter (fun x => targets x sh = true) (ms ++ concat (l.*2)))))
    /\ exists rt', handle_recovery (mkRecovery (gap_detector_ t2) true (sess ++ [0])) now ans' sent'
                     = Some (rt', Some asked).
Proof.
  intros Po Htr Hgc Hs n Hm Hfew Hp Hts Hlen Hl Hn0 Hn64 Hto asked. destruct (hp_sess _ _ _ _ Hp) as [_ Hs10].
  destruct (slot_delivered cap t now0 clock s sess m ms Po Hp Hs Hts) as (t1 & calls & E & Po1 & F & N1 & _ & V1).
  destruct (track_gap t now0 m sess Htr Hgc Hm) as [T1 G1]. fold n in T1, G1.
  pose proof (st_tracker _ _ F) as F1. pose proof (st_gap _ _ F) as F2. rewrite T1 in F1. rewrite G1 in F2.
  pose proof (proj1 Htr) as Hn. fold n in Hn.
  assert (Hask : forall d a o, gap_timeout_ns d = gap_timeout_ns (gap_detector_ t) -> exists rt,
    handle_recovery (mkRecovery (on_gap (mkGapInfo (n + 1) (m - 1) now0) d) true (sess ++ [0])) now a o
      = Some (rt, Some asked) /\ gap_det rt = mark_recovery_sent (on_gap (mkGapInfo (n + 1) (m - 1) now0) d)).
  { intros d a o Hd. destruct (gap_requested d (n + 1) (m - 1) now0 sess now a o) as (rt & E' & G'); try done; try lia.
    exists rt. split; [|done]. rewrite E'. unfold asked. by replace (m - 1 - (n + 1) + 1) with (m - n - 1) by lia. }
  destruct (Hask (gap_detector_ t) ans sent eq_refl) as (rt & Ert & Grt).
  assert (Hne : l <> []) by (intros ->; cbn in Hlen; lia).
  destruct (late_run cap sess clock l (set_gap t1 (gap_det rt)) (fun i => n + 1 + Z.of_nat i))
    as (t2 & E2 & S2 & _ & G2 & V2); cbn [env_ set_gap session_mgr_]; rewrite ?F1; cbn [seq gap_count].
  - destruct Po1. by split.
  - destruct Htr as [_ Hr]. split; cbn; range_lia.
  - destruct Htr as [_ Hr]. range_lia.
  - by rewrite N1.
  - intros i now' s' ms' Hi. destruct (Hl i now' s' ms' Hi) as [? ?]. apply lookup_lt_Some in Hi. split_and!; try done; lia.
  - specialize (G2 Hne). cbn [env_ set_gap gap_detector_] in S2, G2, V2. rewrite F1 in S2, G2.
    exists t1, calls, rt, t2. split_and!; try done.
    + by rewrite F2.
    + by rewrite F2.
    + intros out sh v Hv. rewrite filter_app, foldl_app. by apply V2, V1.
    + rewrite G2. destruct (Hask (gap_det rt) ans' sent') as (rt' & E' & _); [by rewrite Grt|]. by exists rt'.
Qed.

(** C30: the next packet cancels the recovery.  In-order packets clear every
    gap that ends before them, although the missing packets were never
    recovered: when the feed goes on after a gap and its next packet arrives
    before the timeout, the gap is forgotten and no poll of the recovery
    thread, however late, requests it. *)
Theorem next_packet_cancels_recovery cap (t : thread) now1 now2 clock s1 s2 sess m ms1 ms2 :
  parser_ok cap t -> tracker_ok (seq_tracker_ (env_ t)) -> gap_count (seq_tracker_ (env_ t)) < 2 ^ 64 - 1 ->
  sess = take 10 (session_ (session_mgr_ t)) ->
  let n := seq (seq_tracker_ (env_ t)) in n + 1 < m -> m + 1 < 2 ^ 64 - 1 ->
  holds_packet s1 sess m ms1 -> (forall j, timely (recv_ts s1) (clock j)) ->
  holds_packet s2 sess (m + 1) ms2 -> (forall j, timely (recv_ts s2) (clock j)) ->
  exists t1 c1 t2 c2, process_slot t now1 clock s1 = Some (t1, c1) /\ process_slot t1 now2 clock s2 = Some (t2, c2)
    /\ Sequence.pending (gap_detector_ t1) = true
    /\ gap (gap_detector_ t1) = mkGapRange (n + 1) (m - 1) now1 false
    /\ forall rt now ans sent, gap_det rt = gap_detector_ t2 -> handle_recovery rt now ans sent = Some (rt, None).
Proof.
  intros Po Htr Hgc Hs n Hm Hb Hp1 Ht1 Hp2 Ht2.
  destruct (slot_delivered cap t now1 clock s1 sess m ms1 Po Hp1 Hs Ht1) as (t1 & c1 & E1 & Po1 & F & N1 & _).
  destruct (track_gap t now1 m sess Htr Hgc ltac:(fold n; lia)) as [T1 G1]. fold n in T1, G1.
  pose proof (st_tracker _ _ F) as F1. pose proof (st_gap _ _ F) as F2. rewrite T1 in F1. rewrite G1 in F2.
  destruct (slot_delivered cap t1 now2 clock s2 sess (m + 1) ms2 Po1 Hp2) as (t2 & c2 & E2 & _ & F' & _); [by rewrite N1|done|].
  exists t1, c1, t2, c2. rewrite F2. split_and!; try done. intros rt now ans sent Hrt.
  assert (Htr1 : tracker_ok (seq_tracker_ (env_ t1))).
  { rewrite F1. pose proof (proj1 Htr) as Hn. fold n in Hn. destruct Htr as [_ Hr]. split; cbn; range_lia. }
  pose proof (track_next t1 now2 sess Htr1) as G2. rewrite F1 in G2. cbn [seq] in G2.
  pose proof (st_gap _ _ F') as F3. rewrite G2, F2 in F3. unfold mark_recovered in F3. cbn in F3.
  rewrite (proj2 (Z.geb_le _ _)) in F3 by lia. unfold handle_recovery. by rewrite Hrt, F3.
Qed.

End Gap.

(** ** Witnesses *)

Lemma wire_slot_holds n : in_range 64 n -> holds_packet (sample_slot n wire_order) sample_session n [wire_order].
Proof.
  intros Hn. destruct (encode_blocks 0 [wire_order]) as [bs|] eqn:E; [|vm_compute in E; discriminate].
  by apply (sample_slot_holds n wire_order bs); [|exact wire_order_ok| |].
Qed.

Definition waiting_parser := sample_thread (Some sample_session) (tracker_init 7).

(** A recovered packet, received at time 100. *)
Definition late_order : ItchMsg := mkMsg (type wire_order) (locate wire_order) (timestamp wire_order) 100 (body wire_order).
Definition late_slot (n : Z) : PacketSlot :=
  mkSlot (data (sample_slot n wire_order)) (length_ (sample_slot n wire_order)) 0 0 0 100.

Lemma late_slot_holds n : in_range 64 n -> holds_packet (late_slot n) sample_session n [late_order].
Proof.
  intros Hn. destruct (wire_slot_holds n Hn) as [P1 P2 P3 [P4 _] (tracking & bs & rest & E & R)]. split; try done.
  - split; [|by apply Forall_cons_2; [|apply Forall_nil_2]]. by apply Forall_cons_2; [exact wire_order_ok|apply Forall_nil_2].
  - exists tracking, bs, rest. split; [exact E|exact R].
Qed.

(** Packets 8 and 9 are lost, packet 10 arrives. *)
Definition recovered_packets : list (Z * PacketSlot * list ItchMsg) :=
  [(1, late_slot 8, [late_order]); (2, late_slot 9, [late_order])].

Lemma lost_packets_recovered_witness :
  exists t1 calls rt t2, process_slot waiting_parser 0 (fun _ => 5000) (sample_slot 10 wire_order) = Some (t1, calls)
    /\ handle_recovery (mkRecovery (gap_detector_ t1) true (sample_session ++ [0])) 100000000 Connected 20
       = Some (rt, Some (mold_packet sample_session 8 2 []))
    /\ process_slots (set_gap t1 (gap_det rt)) (fun _ => 5000) (recovered_packets.*1) = Some t2
    /\ seq (seq_tracker_ (env_ t2)) = 10.
Proof.
  destruct (lost_packets_recovered 2 waiting_parser 0 100000000 (fun _ => 5000) (sample_slot 10 wire_order) sample_session
    10 [wire_order] recovered_packets Connected 20 Connected 20) as (t1 & calls & rt & t2 & H1 & _ & H2 & H3 & H4 & _).
  - apply sample_thread_ok.
  - split; cbn; concrete.
  - cbn. lia.
  - reflexivity.
  - cbn. lia.
  - cbn. lia.
  - apply wire_slot_holds. concrete.
  - intros j. left. reflexivity.
  - reflexivity.
  - intros [|[|i]] now s ms Hi; [injection Hi as <- <- <-..|discriminate Hi];
      (split; [apply late_slot_holds; concrete|intros j; right; right; reflexivity]).
  - lia.
  - lia.
  - cbn. vm_compute. discriminate.
  - exists t1, calls, rt, t2. split; [exact H1|]. split; [exact H2|]. split; [exact H3|exact H4].
Defined.

Lemma next_packet_cancels_recovery_witness :
  exists t1 c1 t2 c2, process_slot waiting_parser 0 (fun _ => 0) (sample_slot 10 wire_order) = Some (t1, c1)
    /\ process_slot t1 1 (fun _ => 0) (sample_slot 11 wire_order) = Some (t2, c2)
    /\ gap (gap_detector_ t1) = mkGapRange 8 9 0 false
    /\ handle_recovery (mkRecovery (gap_detector_ t2) true (sample_session ++ [0])) (2 ^ 63) Connected 20
       = Some (mkRecovery (gap_detector_ t2) true (sample_session ++ [0]), None).
Proof.
  destruct (next_packet_cancels_recovery 2 waiting_parser 0 1 (fun _ => 0) (sample_slot 10 wire_order)
    (sample_slot 11 wire_order) sample_session 10 [wire_order] [wire_order])
    as (t1 & c1 & t2 & c2 & H1 & H2 & _ & H3 & H4).
  - apply sample_thread_ok.
  - split; cbn; concrete.
  - cbn. lia.
  - reflexivity.
  - cbn. lia.
  - cbn. lia.
  - apply wire_slot_holds. concrete.
  - intros j. left. reflexivity.
  - apply wire_slot_holds. concrete.
  - intros j. left. reflexivity.
  - exists t1, c1, t2, c2. split; [exact H1|]. split; [exact H2|]. split; [exact H3|]. apply H4. reflexivity.
Defined.
