(* ===== verification/Sockets.v ===== *)
(** * Sockets

    [SocketReceiver] ([src/network/socket_receiver.cpp]), [RetransmitClient]
    and [NasdaqLoginHandler] ([src/recovery/retransmit_client.cpp]), and the
    [RecoveryThread] ([src/workers/recovery_thread.cpp]) that owns a client,
    down to the system calls.  The kernel is the table of open descriptors and
    the answers it will give: a call takes the next answer, and fails when
    there is none left.  What arrives on a socket, and how much of each [send]
    it takes, is part of the socket.  [Recovery] has the same client with one
    flag for the connection and whole replies; [recovery_poll_refines] and
    [login_any_chunking] relate the two. *)

From stdpp Require Import gmap.
From S2P Require Import Prelude Types Mold Sequence Spsc PacketRing ParserThread Recovery.

(** ** The kernel *)

Inductive Errno := EAGAIN | EINTR | EOther.

(** The control messages of a datagram; a time stamp message has three
    [timespec]s: software, deprecated, hardware. *)
Inductive Cmsg :=
  | ScmTimestamping (sw dep hw : Z * Z)
  | OtherCmsg.

(** What waits on a socket.  On a stream no bytes mean that the peer has
    closed it. *)
Inductive Recv :=
  | RBytes (bs : bytes) (ctrl : list Cmsg)
  | RErr (e : Errno).

(** How many bytes the next [send] takes. *)
Inductive SendAns := STake (n : nat) | SErr (e : Errno).

Inductive SockOpt :=
  | ReuseAddr | ReusePort | RcvBuf (n : Z) | Timestamping | NoDelay
  | Membership (group iface : Z) | RcvTimeo (sec : Z).

Record Sock := mkSock {
  stream : bool;                   (* SOCK_STREAM or SOCK_DGRAM *)
  nonblock : bool;
  opts : list SockOpt;             (* as set, the newest first *)
  bound : option (Z * Z);          (* address and port bound or connected to *)
  inbox : list Recv;
  outbox : list SendAns;
  sent : bytes
}.

(** The answer to a call that is neither [send] nor [recv]. *)
Inductive Answer := AFd (fd : Z) | AOk | AConn (i : list Recv) (o : list SendAns) | AFail.

Record Kernel := mkKernel {
  fds : gmap Z Sock;
  answers : list Answer
}.

(** [Exit]: the process has called [exit(1)].  [Hang]: it waits for ever.
    [Fault]: an access outside a buffer. *)
Inductive Outcome (A : Type) := Val (a : A) | Exit | Hang | Fault.
Arguments Val {A} a.
Arguments Exit {A}.
Arguments Hang {A}.
Arguments Fault {A}.

Definition K (A : Type) : Type := Kernel -> Outcome A * Kernel.

#[export] Instance K_ret : MRet K := fun A a k => (Val a, k).
#[export] Instance K_bind : MBind K := fun A B f m k =>
  match m k with
  | (Val a, k') => f a k'
  | (Exit, k') => (Exit, k')
  | (Hang, k') => (Hang, k')
  | (Fault, k') => (Fault, k')
  end.

Definition stop_with {A} (o : Outcome A) : K A := fun k => (o, k).
Definition lift_opt {A} (x : option A) : K A := fun k => (from_option Val Fault x, k).
Definition get_sock (fd : Z) : K (option Sock) := fun k => (Val (fds k !! fd), k).
Definition put_sock (fd : Z) (s : Sock) : K () :=
  fun k => (Val (), mkKernel (<[fd := s]> (fds k)) (answers k)).
Definition upd_sock (fd : Z) (f : Sock -> Sock) : K () :=
  fun k => (Val (), mkKernel (alter f fd (fds k)) (answers k)).
Definition answer : K Answer := fun k =>
  match answers k with
  | [] => (Val AFail, k)
  | a :: l => (Val a, mkKernel (fds k) l)
  end.

Definition new_sock (st : bool) : Sock := mkSock st false [] None [] [] [].
Definition set_opt (o : SockOpt) (s : Sock) : Sock :=
  mkSock (stream s) (nonblock s) (o :: opts s) (bound s) (inbox s) (outbox s) (sent s).
Definition set_bound (a : Z * Z) (s : Sock) : Sock :=
  mkSock (stream s) (nonblock s) (opts s) (Some a) (inbox s) (outbox s) (sent s).
Definition set_conn (a : Z * Z) (i : list Recv) (o : list SendAns) (s : Sock) : Sock :=
  mkSock (stream s) (nonblock s) (opts s) (Some a) i o (sent s).
Definition set_nonblock (s : Sock) : Sock :=
  mkSock (stream s) true (opts s) (bound s) (inbox s) (outbox s) (sent s).
Definition set_inbox (i : list Recv) (s : Sock) : Sock :=
  mkSock (stream s) (nonblock s) (opts s) (bound s) i (outbox s) (sent s).
Definition set_outbox (o : list SendAns) (s : Sock) : Sock :=
  mkSock (stream s) (nonblock s) (opts s) (bound s) (inbox s) o (sent s).
Definition add_sent (bs : bytes) (s : Sock) : Sock :=
  mkSock (stream s) (nonblock s) (opts s) (bound s) (inbox s) (outbox s) (sent s ++ bs).

(** [SO_RCVTIMEO]: the value set last, 0 for none. *)
Fixpoint rcvtimeo (l : list SockOpt) : Z :=
  match l with
  | [] => 0
  | RcvTimeo n :: _ => n
  | _ :: l' => rcvtimeo l'
  end.

(** A descriptor that is in use is never handed out. *)
Definition new_fd (st : bool) (fd : Z) : K Z := fun k =>
  if (0 <=? fd) && bool_decide (fds k !! fd = None)
  then (Val fd, mkKernel (<[fd := new_sock st]> (fds k)) (answers k)) else (Val (-1), k).

Definition sys_socket (st : bool) : K Z :=
  a ← answer; match a with AFd fd => new_fd st fd | _ => mret (-1) end.

Definition sys_close (fd : Z) : K () :=
  fun k => (Val (), mkKernel (delete fd (fds k)) (answers k)).

Definition setsockopt (fd : Z) (o : SockOpt) : K bool :=
  a ← answer;
  match a with AOk => _ ← upd_sock fd (set_opt o); mret true | _ => mret false end.

Definition sys_bind (fd : Z) (sa : Z * Z) : K bool :=
  a ← answer;
  match a with AOk => _ ← upd_sock fd (set_bound sa); mret true | _ => mret false end.

Definition sys_connect (fd : Z) (sa : Z * Z) : K bool :=
  a ← answer;
  match a with
  | AConn i o => _ ← upd_sock fd (set_conn sa i o); mret true
  | _ => mret false
  end.

(** The two calls of [fcntl] that add [O_NONBLOCK]; their results are ignored. *)
Definition fcntl_nonblock (fd : Z) : K () :=
  a ← answer;
  match a with AOk => upd_sock fd set_nonblock | _ => mret () end.

Inductive SendRes := Sent (n : nat) | SendErr (e : Errno).
Inductive RecvRes := Got (bs : bytes) (ctrl : list Cmsg) | RecvErr (e : Errno).

Definition sys_send (fd : Z) (buf : bytes) : K SendRes :=
  x ← get_sock fd;
  match x with
  | None => mret (SendErr EOther)
  | Some s =>
      match outbox s with
      | [] => _ ← put_sock fd (add_sent buf s); mret (Sent (length buf))
      | STake n :: o =>
          _ ← put_sock fd (add_sent (take n buf) (set_outbox o s)); mret (Sent (Nat.min n (length buf)))
      | SErr e :: o => _ ← put_sock fd (set_outbox o s); mret (SendErr e)
      end
  end.

(** What a read of [count] bytes leaves behind: the rest of a datagram is lost,
    that of a stream stays, and so does the end of a stream. *)
Definition rest_of (st : bool) (count : nat) (bs : bytes) (ctrl : list Cmsg) (l : list Recv) : list Recv :=
  if st then
    if decide (bs = []) then RBytes [] ctrl :: l
    else if decide (drop count bs = []) then l else RBytes (drop count bs) [] :: l
  else l.

Definition sys_recv (fd : Z) (count : nat) : K RecvRes :=
  x ← get_sock fd;
  match x with
  | None => mret (RecvErr EOther)
  | Some s =>
      match inbox s with
      | [] => if nonblock s || (0 <? rcvtimeo (opts s)) then mret (RecvErr EAGAIN) else stop_with Hang
      | RErr e :: l => _ ← put_sock fd (set_inbox l s); mret (RecvErr e)
      | RBytes bs ctrl :: l =>
          _ ← put_sock fd (set_inbox (rest_of (stream s) count bs ctrl l) s);
          mret (Got (take count bs) ctrl)
      end
  end.

(** [errno == EAGAIN || errno == EWOULDBLOCK]: one value on Linux. *)
Definition would_block (e : Errno) : bool := match e with EAGAIN => true | _ => false end.

(** ** Socket receiver *)

Section Sockets.
(** The conditional compilation on [SO_REUSEPORT] and [SO_TIMESTAMPING], and
    the address parsers of the C library. *)
Context (has_reuseport has_timestamping : bool).
Context (inet_pton : bytes -> option Z) (inet_addr : bytes -> Z).

(** [fd_] of a [SocketReceiver] is passed and returned.  The old value is
    overwritten without being closed.  An address that does not parse leaves
    [sin_addr] zero: the result of [inet_pton] is not looked at. *)
Definition sock_open (addr : bytes) (port : Z) : K (bool * Z) :=
  fd ← sys_socket false;
  if fd <? 0 then mret (false, fd)
  else
    _ ← setsockopt fd ReuseAddr;
    _ ← (if has_reuseport then setsockopt fd ReusePort else mret true);
    _ ← setsockopt fd (RcvBuf (8 * 1024 * 1024));
    _ ← (if has_timestamping then setsockopt fd Timestamping else mret true);
    ok ← sys_bind fd (default 0 (inet_pton (c_str addr)), port);
    if negb ok then _ ← sys_close fd; mret (false, -1)
    else _ ← fcntl_nonblock fd; mret (true, fd).

Definition join_multicast (fd : Z) (group iface : bytes) : K bool :=
  if fd <? 0 then mret false
  else setsockopt fd (Membership (default 0 (inet_pton (c_str group))) (inet_addr (c_str iface))).

Definition sock_close (fd : Z) : K Z :=
  if 0 <=? fd then _ ← sys_close fd; mret (-1) else mret fd.

(** [ReceiverThread::open]. *)
Definition receiver_thread_open (addr : bytes) (port : Z) (group iface : bytes) : K (bool * Z) :=
  '(ok, fd) ← sock_open addr port;
  if negb ok then mret (false, fd)
  else if decide (group = []) then mret (true, fd)
  else joined ← join_multicast fd group iface; mret (joined, fd).

(** The walk over the control messages: the first time stamp message counts,
    and only if its hardware time is set. *)
Fixpoint hw_timestamp (now : Z) (l : list Cmsg) : Z :=
  match l with
  | [] => now
  | OtherCmsg :: l' => hw_timestamp now l'
  | ScmTimestamping _ _ (sec, nsec) :: _ =>
      if negb (sec =? 0) || negb (nsec =? 0) then (u64 (u64 sec * 1000000000)) +64 u64 nsec else now
  end.

(** [SocketReceiver::recv]: the number of bytes, 0 or -1, and the data and time
    stamp stored in the packet, [None] when the packet is not touched. *)
Definition sock_recv (fd : Z) (now : Z) : K (Z * option (bytes * Z)) :=
  r ← sys_recv fd (Z.to_nat MAX_UDP_PAYLOAD);
  mret (match r with
        | RecvErr e => (if would_block e then 0 else -1, None)
        | Got bs ctrl =>
            (Z.of_nat (length bs), Some (bs, if has_timestamping then hw_timestamp now ctrl else now))
        end).

(** ** Blocking reads and writes of the login *)

(** One iteration per [send]; see [write_all]. *)
Fixpoint write_loop (fuel : nat) (fd : Z) (buf : bytes) : K bool :=
  if decide (buf = []) then mret true
  else match fuel with
       | O => stop_with Hang
       | S fuel' =>
           r ← sys_send fd buf;
           match r with
           | SendErr EINTR => write_loop fuel' fd buf
           | SendErr _ => mret false
           | Sent n => write_loop fuel' fd (drop n buf)
           end
       end.

Fixpoint read_loop (fuel : nat) (fd : Z) (count : nat) : K (option bytes) :=
  if decide (count = O) then mret (Some [])
  else match fuel with
       | O => stop_with Hang
       | S fuel' =>
           r ← sys_recv fd count;
           match r with
           | RecvErr EINTR => read_loop fuel' fd count
           | RecvErr _ => mret None
           | Got [] _ => mret None
           | Got bs _ =>
               x ← read_loop fuel' fd (count - length bs);
               mret (app bs <$> x)
           end
       end.

(** The fuel is a bound on the number of calls: every [send] uses up an entry
    of the outbox or sends everything; every [recv] uses up an entry of the
    inbox or the bytes wanted. *)
Definition write_all (fd : Z) (buf : bytes) : K bool :=
  x ← get_sock fd; write_loop (S (from_option (fun s => length (outbox s)) O x)) fd buf.

Definition read_all (fd : Z) (count : nat) : K (option bytes) :=
  x ← get_sock fd; read_loop (S (from_option (fun s => length (inbox s)) O x)) fd count.

(** [NasdaqLoginHandler::recv_response] on the socket. *)
Definition soup_recv_response (fd : Z) : K LoginResult :=
  _ ← setsockopt fd (RcvTimeo 5);
  len_buf ← read_all fd 2;
  match len_buf with
  | None => _ ← setsockopt fd (RcvTimeo 0); mret LoginError
  | Some len_buf =>
      let payload_len := be_val len_buf in
      if (payload_len =? 0) || (payload_len >? 64) then
        _ ← setsockopt fd (RcvTimeo 0); mret LoginError
      else
        payload ← read_all fd (Z.to_nat payload_len);
        _ ← setsockopt fd (RcvTimeo 0);
        mret (match payload with
              | None => LoginError
              | Some payload =>
                  match payload !! 0%nat with
                  | Some 65 => Accepted
                  | Some 74 => Rejected
                  | _ => LoginError
                  end
              end)
  end.

Definition nasdaq_login (fd : Z) (username password : option bytes) (session_10 : option bytes) : K bool :=
  pkt ← lift_opt (login_packet username password session_10);
  ok ← write_all fd pkt;
  if negb ok then mret false
  else r ← soup_recv_response fd; mret (match r with Accepted => true | _ => false end).

(** ** Retransmit client *)

Record RetransmitCredentials := mkCreds { username : bytes; password : bytes; require_login : bool }.

Definition LoginHandler : Type := Z -> option bytes -> option bytes -> option bytes -> K bool.

Record RetransmitClient := mkClient {
  fd_ : Z;
  primary_addr_ : bytes;
  primary_port_ : Z;
  secondary_addr_ : bytes;
  secondary_port_ : Z;
  creds_ : RetransmitCredentials;
  login_handler_ : option LoginHandler
}.

Definition new_client (pa : bytes) (pp : Z) (sa : bytes) (sp : Z) (creds : RetransmitCredentials)
    : RetransmitClient := mkClient (-1) pa pp sa sp creds (Some nasdaq_login).

Definition set_fd (c : RetransmitClient) (fd : Z) : RetransmitClient :=
  mkClient fd (primary_addr_ c) (primary_port_ c) (secondary_addr_ c) (secondary_port_ c)
    (creds_ c) (login_handler_ c).

Definition set_login_handler (c : RetransmitClient) (h : option LoginHandler) : RetransmitClient :=
  mkClient (fd_ c) (primary_addr_ c) (primary_port_ c) (secondary_addr_ c) (secondary_port_ c)
    (creds_ c) h.

Definition is_connected (c : RetransmitClient) : bool := 0 <=? fd_ c.

(** The login as [connect_to] calls it: without a handler it fails. *)
Definition run_login (c : RetransmitClient) (fd : Z) : K bool :=
  match login_handler_ c with
  | None => mret false
  | Some h => h fd (Some (c_str (username (creds_ c)))) (Some (c_str (password (creds_ c)))) None
  end.

Definition client_connect_to (c : RetransmitClient) (addr : bytes) (port : Z)
    : K (bool * RetransmitClient) :=
  fd ← sys_socket true;
  if fd <? 0 then mret (false, set_fd c fd)
  else
    _ ← setsockopt fd NoDelay;
    match inet_pton (c_str addr) with
    | None => _ ← sys_close fd; mret (false, set_fd c (-1))
    | Some a =>
        ok ← sys_connect fd (a, port);
        if negb ok then _ ← sys_close fd; mret (false, set_fd c (-1))
        else
          logged ← (if require_login (creds_ c) then run_login c fd else mret true);
          if negb logged then _ ← sys_close fd; stop_with Exit
          else _ ← fcntl_nonblock fd; mret (true, set_fd c fd)
    end.

Definition client_connect (c : RetransmitClient) : K (bool * RetransmitClient) :=
  '(ok, c1) ← client_connect_to c (primary_addr_ c) (primary_port_ c);
  if ok : bool then mret (true, c1)
  else if negb (bool_decide (secondary_addr_ c = [])) && negb (secondary_port_ c =? 0)
  then client_connect_to c1 (secondary_addr_ c) (secondary_port_ c)
  else mret (false, c1).

Definition client_request (c : RetransmitClient) (session_10 : bytes) (start_seq count : Z) : K bool :=
  if negb (is_connected c) then mret false
  else
    buf ← lift_opt (request_packet session_10 start_seq count);
    r ← sys_send (fd_ c) buf;
    mret (match r with Sent n => bool_decide (n = length buf) | SendErr _ => false end).

Definition client_disconnect (c : RetransmitClient) : K RetransmitClient :=
  if 0 <=? fd_ c then _ ← sys_close (fd_ c); mret (set_fd c (-1)) else mret c.

Definition client_recv (c : RetransmitClient) (now : Z) : K (Z * option (bytes * Z) * RetransmitClient) :=
  if negb (is_connected c) then mret (-1, None, c)
  else
    r ← sys_recv (fd_ c) (Z.to_nat MAX_UDP_PAYLOAD);
    match r with
    | RecvErr e => mret (if would_block e then 0 else -1, None, c)
    | Got [] _ => c' ← client_disconnect c; mret (-1, None, c')
    | Got bs _ => mret (Z.of_nat (length bs), Some (bs, now), c)
    end.

(** ** Recovery thread *)

Section Thread.
Context {Q : Type} `{FifoOps Q Z}.

Record RtState := mkRt {
  rt_gap : GapDetector;
  rt_client : RetransmitClient;
  rt_session : bytes;
  rt_ring : ZeroCopyRing Q;
  rt_recovered : Z;
  rt_drops : Z
}.

Definition set_client (t : RtState) (c : RetransmitClient) : RtState :=
  mkRt (rt_gap t) c (rt_session t) (rt_ring t) (rt_recovered t) (rt_drops t).

(** The request for the pending gap; whether it could be sent is ignored. *)
Definition rt_request (t : RtState) : K RtState :=
  let g := gap (rt_gap t) in
  let count := gr_end_seq g -64 gr_start_seq g +64 1 in
  let count := if count >? 65535 then 65535 else count in
  _ ← client_request (rt_client t) (rt_session t) (gr_start_seq g) (u16 count);
  mret (mkRt (mark_recovery_sent (rt_gap t)) (rt_client t) (rt_session t) (rt_ring t)
          (rt_recovered t) (rt_drops t)).

Definition rt_handle_recovery (now : Z) (t : RtState) : K RtState :=
  if negb (Sequence.pending (rt_gap t)) then mret t
  else if negb (should_request_recovery now (rt_gap t)) then mret t
  else if is_connected (rt_client t) then rt_request t
  else
    '(ok, c) ← client_connect (rt_client t);
    if negb ok then mret (set_client t c) else rt_request (set_client t c).

(** [clock n]: the time read when [n] packets may still be taken. *)
Fixpoint rt_recv_loop (n : nat) (clock : nat -> Z) (t : RtState) : K RtState :=
  match n with
  | O => mret t
  | S n' =>
      '(len, pkt, c) ← client_recv (rt_client t) (clock n);
      let t1 := set_client t c in
      if len <=? 0 then mret t1
      else match pkt with
           | None => mret t1
           | Some (bs, ts) =>
               '(ok, r) ← lift_opt (inject_recovered_packet (rt_ring t1) bs ts);
               rt_recv_loop n' clock
                 (mkRt (rt_gap t1) c (rt_session t1) r
                    (if ok : bool then rt_recovered t1 +64 1 else rt_recovered t1)
                    (if ok then rt_drops t1 else rt_drops t1 +64 1))
           end
  end.

Definition rt_recv_retransmitted (clock : nat -> Z) (t : RtState) : K RtState :=
  if negb (is_connected (rt_client t)) then mret t else rt_recv_loop 64 clock t.

(** One iteration of [RecoveryThread::run]. *)
Definition rt_poll (now : Z) (clock : nat -> Z) (t : RtState) : K RtState :=
  t1 ← rt_handle_recovery now t; rt_recv_retransmitted clock t1.

(** [RecoveryThread::stop] after the join, and the destructor of the client. *)
Definition rt_stop (t : RtState) : K RtState :=
  c ← client_disconnect (rt_client t); mret (set_client t c).

(** A run: polls, and what the network does in between on the client's
    socket and to the answers of later calls. *)
Inductive RtEvent :=
  | Poll (now : Z) (clock : nat -> Z)
  | Arrive (i : list Recv) (o : list SendAns) (l : list Answer).

Definition arrive (i : list Recv) (o : list SendAns) (s : Sock) : Sock :=
  set_outbox (outbox s ++ o) (set_inbox (inbox s ++ i) s).

Definition rt_event (e : RtEvent) (t : RtState) : K RtState :=
  match e with
  | Poll now clock => rt_poll now clock t
  | Arrive i o l => fun k =>
      (Val t, mkKernel (if is_connected (rt_client t) then alter (arrive i o) (fd_ (rt_client t)) (fds k)
                        else fds k) (answers k ++ l))
  end.

Fixpoint rt_run (es : list RtEvent) (t : RtState) : K RtState :=
  match es with
  | [] => mret t
  | e :: es' => t' ← rt_event e t; rt_run es' t'
  end.

(** The state of [Recovery]: the client is one flag. *)
Definition rt_abs (t : RtState) : RecoveryThread :=
  mkRecovery (rt_gap t) (is_connected (rt_client t)) (rt_session t).

End Thread.
Arguments RtState : clear implicits.

(** ** Local computations

    [local fd m]: of all descriptors [m] touches only [fd], which it neither
    opens nor closes; and it does not end the process. *)

Definition keeps (fd : Z) (k k' : Kernel) : Prop :=
  delete fd (fds k') = delete fd (fds k) /\ (is_Some (fds k !! fd) <-> is_Some (fds k' !! fd)).

Definition local {A} (fd : Z) (m : K A) : Prop := forall k, keeps fd k (m k).2 /\ (m k).1 <> Exit.

Create HintDb kernel.

Lemma keeps_refl fd k : keeps fd k k.
Proof. done. Qed.

Lemma keeps_trans fd k1 k2 k3 : keeps fd k1 k2 -> keeps fd k2 k3 -> keeps fd k1 k3.
Proof. intros [E1 S1] [E2 S2]. split; [congruence|by rewrite S1]. Qed.

Lemma local_ret {A} fd (a : A) : local fd (mret a).
Proof. done. Qed.

Lemma local_lift {A} fd (x : option A) : local fd (lift_opt x).
Proof. by destruct x. Qed.

Lemma local_hang {A} fd : local fd (stop_with (A := A) Hang).
Proof. done. Qed.

Lemma local_get fd fd' : local fd (get_sock fd').
Proof. done. Qed.

Lemma local_answer fd : local fd answer.
Proof. intros k. unfold answer. by destruct (answers k). Qed.

Lemma local_upd fd f : local fd (upd_sock fd f).
Proof.
  intros k. split; [|done]. split; simpl; [apply delete_alter_eq|]. rewrite lookup_alter_eq.
  destruct (fds k !! fd); naive_solver.
Qed.

Lemma local_bind {A B} fd (m : K A) (f : A -> K B) :
  local fd m -> (forall a, local fd (f a)) -> local fd (m ≫= f).
Proof.
  intros Hm Hf k. unfold mbind, K_bind. destruct (Hm k) as [Hk Hx].
  destruct (m k) as [[a| | |] k']; simpl in *; [|done..]. destruct (Hf a k') as [Hk' Hx'].
  split; [by eapply keeps_trans|done].
Qed.

#[local] Hint Resolve local_ret local_lift local_hang local_get local_answer local_upd : kernel.

(** Proves [local] goals: follows the program and splits its conditionals. *)
Ltac is_local :=
  repeat first
    [ solve [eauto 2 with kernel]
    | apply local_bind
    | match goal with |- forall _, _ => intros ? end
    | progress case_match ].

Lemma local_setsockopt fd o : local fd (setsockopt fd o).
Proof. unfold setsockopt. is_local. Qed.

Lemma local_connect fd sa : local fd (sys_connect fd sa).
Proof. unfold sys_connect. is_local. Qed.

Lemma local_bind_call fd sa : local fd (sys_bind fd sa).
Proof. unfold sys_bind. is_local. Qed.

Lemma local_nonblock fd : local fd (fcntl_nonblock fd).
Proof. unfold fcntl_nonblock. is_local. Qed.

Lemma keeps_put {A} fd s s' k (o : Outcome A) : fds k !! fd = Some s -> o <> Exit ->
  keeps fd k (put_sock fd s' k).2 /\ o <> Exit.
Proof.
  intros Hs Ho. split; [|done]. split; simpl; [apply delete_insert_eq|]. rewrite Hs, lookup_insert_eq. naive_solver.
Qed.

Lemma local_send fd buf : local fd (sys_send fd buf).
Proof.
  intros k. unfold sys_send, mbind, K_bind, get_sock. destruct (fds k !! fd) as [s|] eqn:E; [|done].
  destruct (outbox s) as [|[n|e] o]; by eapply keeps_put.
Qed.

Lemma local_recv fd n : local fd (sys_recv fd n).
Proof.
  intros k. unfold sys_recv, mbind, K_bind, get_sock. destruct (fds k !! fd) as [s|] eqn:E; [|done].
  destruct (inbox s) as [|[bs ctrl|e] l]; [by destruct (_ || _)|by eapply keeps_put..].
Qed.

#[local] Hint Resolve local_setsockopt local_connect local_bind_call local_nonblock local_send local_recv : kernel.

Lemma local_write_loop fuel fd buf : local fd (write_loop fuel fd buf).
Proof. revert buf. induction fuel as [|n IH]; intros buf; cbn [write_loop]; is_local. Qed.

Lemma local_read_loop fuel fd count : local fd (read_loop fuel fd count).
Proof. revert count. induction fuel as [|n IH]; intros count; cbn [read_loop]; is_local. Qed.

#[local] Hint Resolve local_write_loop local_read_loop : kernel.

Lemma local_nasdaq_login fd u p s : local fd (nasdaq_login fd u p s).
Proof. unfold nasdaq_login, soup_recv_response, write_all, read_all. is_local. Qed.

(** ** Ownership of a descriptor *)

(** Over the descriptors [base] of the rest of the process, the object with
    descriptor [fd] has exactly this one, or none when [fd] is negative. *)
Definition owns (base : gmap Z Sock) (fd : Z) (k : Kernel) : Prop :=
  if 0 <=? fd then base !! fd = None /\ is_Some (fds k !! fd) /\ delete fd (fds k) = base
  else fds k = base.

Lemma owns_local {A} base fd k (m : K A) : 0 <= fd -> owns base fd k -> local fd m -> owns base fd (m k).2.
Proof.
  intros Hf. unfold owns. rewrite (proj2 (Z.leb_le 0 fd)) by done. intros (Hb & Hs & Hd) Hm.
  destruct (Hm k) as [[E S] _]. split_and!; [done|by apply S|congruence].
Qed.

Lemma owns_close base fd k : 0 <= fd -> owns base fd k -> fds (sys_close fd k).2 = base.
Proof. intros Hf. unfold owns. rewrite (proj2 (Z.leb_le 0 fd)) by done. by intros (_ & _ & ?). Qed.

Lemma owns_neg base fd k : fd < 0 -> owns base fd k <-> fds k = base.
Proof. intros Hn. unfold owns. by rewrite (proj2 (Z.leb_gt 0 fd)). Qed.

(** A new socket: the caller owns it, or the call has failed. *)
Lemma socket_owned st k : exists fd k', sys_socket st k = (Val fd, k') /\ -1 <= fd /\ owns (fds k) fd k'.
Proof.
  assert (Hfail : forall k', fds k' = fds k -> -1 <= -1 /\ owns (fds k) (-1) k') by (by intros k'; split).
  unfold sys_socket, mbind, K_bind, answer. destruct (answers k) as [|a l].
  { exists (-1), k. split; [done|]. by apply Hfail. }
  destruct a as [fd| | |]; try (eexists (-1), _; split; [done|]; by apply Hfail).
  unfold new_fd. simpl. destruct (Z.leb_spec 0 fd) as [Hf|Hf]; [|eexists (-1), _; split; [done|]; by apply Hfail].
  destruct (fds k !! fd) eqn:E; simpl; [eexists (-1), _; split; [done|]; by apply Hfail|].
  eexists fd, _. split; [done|]. split; [lia|]. unfold owns. simpl.
  rewrite (proj2 (Z.leb_le 0 fd)) by done. rewrite lookup_insert_eq. split_and!; [done|done|].
  by apply delete_insert_id.
Qed.

(** Partial correctness: [R] when [m] returns, [X] when it ends the process. *)
Definition triple {A} (P : Kernel -> Prop) (m : K A) (R : A -> Kernel -> Prop) (X : Kernel -> Prop) : Prop :=
  forall k, P k -> match m k with (Val a, k') => R a k' | (Exit, k') => X k' | _ => True end.

Lemma triple_ret {A} (a : A) (R : A -> Kernel -> Prop) X : triple (R a) (mret a) R X.
Proof. by intros k Hk. Qed.

Lemma triple_bind {A B} P (m : K A) (f : A -> K B) R R' X :
  triple P m R X -> (forall a, triple (R a) (f a) R' X) -> triple P (m ≫= f) R' X.
Proof.
  intros Hm Hf k Hk. specialize (Hm k Hk). unfold mbind, K_bind.
  destruct (m k) as [[a| | |] k']; try done. by apply Hf.
Qed.

Lemma triple_pre {A} (P P' : Kernel -> Prop) (m : K A) R X :
  (forall k, P k -> P' k) -> triple P' m R X -> triple P m R X.
Proof. intros Hp Hm k Hk. by apply Hm, Hp. Qed.

Lemma triple_post {A} P (m : K A) (R R' : A -> Kernel -> Prop) X :
  (forall a k, R a k -> R' a k) -> triple P m R X -> triple P m R' X.
Proof.
  intros Hr Hm k Hk. specialize (Hm k Hk). destruct (m k) as [[a| | |] k']; try done. by apply Hr.
Qed.

Lemma triple_local {A} base fd (m : K A) X :
  0 <= fd -> local fd m -> triple (owns base fd) m (fun _ => owns base fd) X.
Proof.
  intros Hf Hm k Hk. pose proof (owns_local base fd k m Hf Hk Hm) as Ho. destruct (Hm k) as [_ Hx].
  by destruct (m k) as [[a| | |] k'].
Qed.

Lemma triple_close base fd X : 0 <= fd -> triple (owns base fd) (sys_close fd) (fun _ k => fds k = base) X.
Proof. intros Hf k Hk. by apply owns_close. Qed.

Lemma triple_socket base st X :
  triple (fun k => fds k = base) (sys_socket st) (fun fd k => -1 <= fd /\ owns base fd k) X.
Proof. intros k <-. by destruct (socket_owned st k) as (fd & k' & -> & ? & ?). Qed.

(** The object is left with a descriptor it owns, and its flag says so. *)
Definition client_ok (base : gmap Z Sock) (c : RetransmitClient) (k : Kernel) : Prop :=
  -1 <= fd_ c /\ owns base (fd_ c) k.

(** A login handler works on the socket it is given. *)
Definition handler_local (c : RetransmitClient) : Prop :=
  forall h, login_handler_ c = Some h -> forall fd u p s, local fd (h fd u p s).

Lemma run_login_local c fd : handler_local c -> local fd (run_login c fd).
Proof. intros Hh. unfold run_login. destruct (login_handler_ c) eqn:E; [by apply Hh|done]. Qed.

Lemma connect_to_owned base c addr port : handler_local c ->
  triple (fun k => fds k = base) (client_connect_to c addr port)
    (fun r k => r.2 = set_fd c (fd_ r.2) /\ r.1 = is_connected r.2 /\ client_ok base r.2 k)
    (fun k => fds k = base).
Proof.
  intros Hh. unfold client_connect_to. eapply triple_bind; [apply triple_socket|]. intros fd.
  set (X := fun k => fds k = base).
  assert (Hno : triple X (mret (false, set_fd c (-1)))
    (fun r k => r.2 = set_fd c (fd_ r.2) /\ r.1 = is_connected r.2 /\ client_ok base r.2 k) X)
    by (by intros k Hk; repeat split).
  destruct (Z.ltb_spec fd 0) as [Hn|Hp].
  { intros k [Hfd Ho]. split_and!; try done.
    unfold is_connected. simpl. by rewrite (proj2 (Z.leb_gt 0 fd)). }
  eapply triple_pre; [intros k [_ Ho]; exact Ho|].
  eapply triple_bind; [by apply triple_local; [|apply local_setsockopt]|]. intros ?.
  destruct (inet_pton (c_str addr)) as [ip|].
  2:{ eapply triple_bind; [by apply triple_close|]. by intros ?. }
  eapply triple_bind; [by apply triple_local; [|apply local_connect]|]. intros [|]; simpl.
  2:{ eapply triple_bind; [by apply triple_close|]. by intros ?. }
  eapply triple_bind.
  { apply triple_local; [done|]. destruct (require_login _); [by apply run_login_local|apply local_ret]. }
  intros [|]; simpl.
  - eapply triple_bind; [by apply triple_local; [|apply local_nonblock]|]. intros ? k Ho.
    split; [done|]. unfold is_connected, client_ok. simpl. split; [symmetry; by apply Z.leb_le|]. split; [lia|done].
  - eapply triple_bind; [by apply triple_close|]. by intros ? k Hk.
Qed.

Lemma client_ok_closed base c k : is_connected c = false -> client_ok base c k <-> -1 <= fd_ c /\ fds k = base.
Proof. intros Hc. apply Z.leb_gt in Hc. unfold client_ok. by rewrite owns_neg. Qed.

Lemma connect_owned base c : handler_local c -> is_connected c = false ->
  triple (client_ok base c) (client_connect c)
    (fun r k => r.2 = set_fd c (fd_ r.2) /\ r.1 = is_connected r.2 /\ client_ok base r.2 k)
    (fun k => fds k = base).
Proof.
  intros Hh Hc. apply (triple_pre _ (fun k => fds k = base)).
  { intros k Ho. by apply (client_ok_closed base c k Hc) in Ho as [_ ?]. }
  unfold client_connect. eapply triple_bind; [by apply connect_to_owned|]. intros [ok c1].
  destruct ok; [by intros k Hk|]. intros k (Hc1 & Hok & Ho). simpl in *.
  apply client_ok_closed in Ho as [Hf Hb]; [|done].
  destruct (_ && _); [|split_and!; try done; by apply client_ok_closed].
  assert (Hh1 : handler_local c1) by (rewrite Hc1; exact Hh).
  pose proof (connect_to_owned base c1 (secondary_addr_ c) (secondary_port_ c) Hh1 k Hb) as Ht.
  destruct (client_connect_to _ _ _ k) as [[[ok c2]| | |] k']; try done. simpl in *.
  destruct Ht as (H1 & H2 & H3). split_and!; try done. rewrite H1 at 1. by rewrite Hc1.
Qed.

Lemma disconnect_owned base c X :
  triple (client_ok base c) (client_disconnect c)
    (fun c' k => c' = set_fd c (fd_ c') /\ is_connected c' = false /\ client_ok base c' k /\ fds k = base) X.
Proof.
  unfold client_disconnect. destruct (Z.leb_spec 0 (fd_ c)) as [Hp|Hn].
  - eapply triple_pre; [by intros k [_ Ho]; exact Ho|]. eapply triple_bind; [by apply triple_close|].
    by intros ? k Hk.
  - intros k Hk. assert (Hc : is_connected c = false) by (by apply Z.leb_gt).
    pose proof Hk as Hk'. apply client_ok_closed in Hk' as [_ Hb]; [|done].
    split_and!; try done. by destruct c.
Qed.

Lemma request_owned base c s a n X : triple (client_ok base c) (client_request c s a n) (fun _ => client_ok base c) X.
Proof.
  unfold client_request. destruct (is_connected c) eqn:E; [|by intros k]. apply Z.leb_le in E. simpl.
  apply (triple_pre _ (owns base (fd_ c))); [by intros k [_ Ho]|].
  eapply triple_post; [|by apply triple_local; [|is_local]]. intros b k Ho. by split; [lia|].
Qed.

Lemma recv_owned base c now X :
  triple (client_ok base c) (client_recv c now)
    (fun r k => r.2 = set_fd c (fd_ r.2) /\ client_ok base r.2 k) X.
Proof.
  unfold client_recv. destruct (is_connected c) eqn:E; [|by intros k Hk; destruct c]. apply Z.leb_le in E. simpl.
  apply (triple_pre _ (owns base (fd_ c))); [by intros k [_ Ho]|].
  assert (Hc : forall k, owns base (fd_ c) k -> client_ok base c k) by (split; [lia|done]).
  eapply triple_bind; [by apply triple_local, local_recv|]. intros [[|b bs] ctrl|e]; simpl.
  - apply (triple_pre _ _ _ _ _ Hc). eapply triple_bind; [apply disconnect_owned|].
    by intros c' k (H1 & _ & H2 & _).
  - intros k Hk. split; [by destruct c|by apply Hc].
  - intros k Hk. split; [by destruct c|by apply Hc].
Qed.

Lemma handler_local_set c c' : handler_local c -> c' = set_fd c (fd_ c') -> handler_local c'.
Proof. intros Hh ->. exact Hh. Qed.

Section Runs.
Context {Q : Type} `{FifoOps Q Z}.

Definition rt_inv (base : gmap Z Sock) (t : RtState Q) (k : Kernel) : Prop :=
  handler_local (rt_client t) /\ client_ok base (rt_client t) k.

Lemma rt_request_owned base t X : triple (rt_inv base t) (rt_request t) (rt_inv base) X.
Proof.
  intros k [Hh Hk]. unfold rt_request. revert k Hk.
  eapply triple_bind; [apply request_owned|]. by intros ? k Hk.
Qed.

Lemma rt_handle_owned base now t :
  triple (rt_inv base t) (rt_handle_recovery now t) (rt_inv base) (fun k => fds k = base).
Proof.
  unfold rt_handle_recovery. destruct (negb _); [by intros k|]. destruct (negb _); [by intros k|].
  destruct (is_connected (rt_client t)) eqn:E; [apply rt_request_owned|].
  intros k [Hh Hk]. revert k Hk. eapply triple_bind; [by apply connect_owned|].
  intros [ok c] k (Hc & Hok & Ho). simpl in *.
  assert (Hi : rt_inv base (set_client t c) k) by (split; [by eapply handler_local_set|done]).
  destruct ok; simpl; [by apply rt_request_owned|done].
Qed.

Lemma rt_loop_owned base n clock X : forall t, triple (rt_inv base t) (rt_recv_loop n clock t) (rt_inv base) X.
Proof.
  induction n as [|n IH]; intros t; [by intros k|]. cbn [rt_recv_loop].
  intros k [Hh Hk]. revert k Hk. eapply triple_bind; [apply recv_owned|].
  intros [[len pkt] c] k [Hc Ho]. simpl in *.
  assert (Hh' : handler_local c) by (by eapply handler_local_set).
  destruct (len <=? 0); [done|]. destruct pkt as [[bs ts]|]; [|done].
  unfold mbind, K_bind, lift_opt. destruct (inject_recovered_packet _ _ _) as [[ok r]|]; [|done].
  by apply IH.
Qed.

Lemma rt_event_owned base e t : triple (rt_inv base t) (rt_event e t) (rt_inv base) (fun k => fds k = base).
Proof.
  destruct e as [now clock|i o l]; cbn [rt_event].
  - unfold rt_poll. eapply triple_bind; [apply rt_handle_owned|]. intros t1. unfold rt_recv_retransmitted.
    destruct (negb _); [by intros k|apply rt_loop_owned].
  - intros k [Hh [Hf Ho]]. split; [done|]. split; [done|]. unfold owns, is_connected in *. simpl.
    destruct (0 <=? fd_ (rt_client t)); [|done].
    destruct Ho as (H1 & [s Hs] & H3). by rewrite delete_alter_eq, lookup_alter_eq, Hs.
Qed.

Lemma rt_run_owned base es : forall t, triple (rt_inv base t) (rt_run es t) (rt_inv base) (fun k => fds k = base).
Proof.
  induction es as [|e es IH]; intros t; cbn [rt_run]; [by intros k|].
  eapply triple_bind; [apply rt_event_owned|]. intros t'. apply IH.
Qed.

(** C37: the recovery thread leaks no descriptor.  Whatever the calls answer and
    whatever arrives in between, after any run of polls and [stop] the process
    has exactly the descriptors it had before; and so it has when a refused
    login ends it.  In between the thread has at most one descriptor of its
    own, the one it takes itself to be connected with. *)
Theorem recovery_descriptors_returned es (t : RtState Q) k :
  handler_local (rt_client t) -> fd_ (rt_client t) = -1 ->
  match rt_run es t k with
  | (Val t', k') =>
      owns (fds k) (fd_ (rt_client t')) k'
      /\ exists t'' k'', rt_stop t' k' = (Val t'', k'') /\ fds k'' = fds k /\ fd_ (rt_client t'') < 0
  | (Exit, k') => fds k' = fds k
  | _ => True
  end.
Proof.
  intros Hh Hf. assert (Hi : rt_inv (fds k) t k) by (split; [done|]; by unfold client_ok; rewrite Hf).
  pose proof (rt_run_owned (fds k) es t k Hi) as Hr. destruct (rt_run es t k) as [[t'| | |] k']; try done.
  destruct Hr as [Hh' Ho]. split; [apply Ho|].
  pose proof (disconnect_owned (fds k) (rt_client t') (fun _ => False) k' Ho) as Hd.
  unfold rt_stop, mbind, K_bind. unfold client_disconnect in *.
  destruct (0 <=? fd_ (rt_client t')); destruct Hd as (_ & Hc & _ & Hb); eexists _, _; split_and!;
    try done; by apply Z.leb_gt.
Qed.

End Runs.

(** ** Reads and writes in pieces *)

(** What a blocking reader gets off a stream before it ends, fails or times
    out: pieces and interruptions do not show. *)
Fixpoint stream_of (l : list Recv) : bytes :=
  match l with
  | [] => []
  | RBytes [] _ :: _ => []
  | RBytes bs _ :: l' => bs ++ stream_of l'
  | RErr EINTR :: l' => stream_of l'
  | RErr _ :: _ => []
  end.

(** Reads of the socket return: it does not wait for ever. *)
Definition reads_return (s : Sock) : bool := nonblock s || (0 <? rcvtimeo (opts s)).

Definition with_inbox (fd : Z) (s : Sock) (l : list Recv) (k : Kernel) : Kernel :=
  mkKernel (<[fd := set_inbox l s]> (fds k)) (answers k).

Lemma with_inbox_id fd s k : fds k !! fd = Some s -> with_inbox fd s (inbox s) k = k.
Proof.
  intros Hs. unfold with_inbox. assert (set_inbox (inbox s) s = s) as -> by (by destruct s).
  rewrite insert_id by done. by destruct k.
Qed.

Lemma with_inbox_twice fd s l l' k : with_inbox fd (set_inbox l s) l' (with_inbox fd s l k) = with_inbox fd s l' k.
Proof. unfold with_inbox. simpl. by rewrite insert_insert_eq. Qed.

Lemma sys_recv_eq fd s count k : fds k !! fd = Some s -> reads_return s = true ->
  sys_recv fd count k =
    match inbox s with
    | [] => (Val (RecvErr EAGAIN), k)
    | RErr e :: l => (Val (RecvErr e), with_inbox fd s l k)
    | RBytes bs ctrl :: l => (Val (Got (take count bs) ctrl), with_inbox fd s (rest_of (stream s) count bs ctrl l) k)
    end.
Proof.
  intros Hs Hr. unfold sys_recv, mbind, K_bind, get_sock. rewrite Hs. unfold reads_return in Hr. rewrite Hr.
  by destruct (inbox s) as [|[bs ctrl|e] l].
Qed.

Lemma rest_of_stream count bs ctrl l : bs <> [] -> (count <= length bs)%nat ->
  stream_of (rest_of true count bs ctrl l) = drop count (bs ++ stream_of l).
Proof.
  intros Hb Hc. unfold rest_of. rewrite decide_False, drop_app_le by done.
  destruct (decide (drop count bs = [])) as [->|Hd]; [done|]. cbn [stream_of].
  by destruct (drop count bs).
Qed.

Lemma rd_bytes_short n p : (length p < n)%nat -> rd_bytes n p = None.
Proof. intros. unfold rd_bytes. rewrite decide_False; [done|lia]. Qed.

Lemma rd_bytes_split n (a b : bytes) : (length a <= n)%nat ->
  rd_bytes n (a ++ b) = app a <$> rd_bytes (n - length a) b.
Proof.
  intros Hl. unfold rd_bytes. rewrite length_app.
  destruct (decide (n <= _)%nat), (decide (n - length a <= _)%nat); try lia; [|done]. simpl.
  f_equal. by apply take_app_ge.
Qed.

(** [read_all] reads exactly what was asked for, however the stream is cut. *)
Lemma read_loop_spec fd : forall fuel count k s,
  fds k !! fd = Some s -> stream s = true -> reads_return s = true -> (length (inbox s) < fuel)%nat ->
  exists l, read_loop fuel fd count k = (Val (rd_bytes count (stream_of (inbox s))), with_inbox fd s l k)
    /\ ((count <= length (stream_of (inbox s)))%nat -> stream_of l = drop count (stream_of (inbox s))).
Proof.
  induction fuel as [|fuel IH]; intros count k s Hs Hst Hr Hf; [lia|]. cbn [read_loop].
  destruct (decide (count = O)) as [->|Hc].
  { exists (inbox s). rewrite with_inbox_id by done. done. }
  unfold mbind, K_bind at 1. rewrite (sys_recv_eq fd s) by done.
  destruct (inbox s) as [|[bs ctrl|e] l] eqn:Hi.
  - exists []. rewrite <- Hi, with_inbox_id by done. rewrite Hi. simpl. rewrite rd_bytes_short by (simpl; lia).
    split; [done|lia].
  - rewrite Hst. destruct (decide (bs = [])) as [->|Hb].
    { exists (RBytes [] ctrl :: l). rewrite take_nil. simpl. rewrite rd_bytes_short by (simpl; lia). split; [done|lia]. }
    assert (Hso : stream_of (RBytes bs ctrl :: l) = bs ++ stream_of l) by (by destruct bs).
    assert (Hgot : exists b bs', take count bs = b :: bs')
      by (destruct bs, count; try done; simpl; eauto). destruct Hgot as (b & bs' & Hg). rewrite Hg. cbn beta iota. rewrite <- Hg, Hso.
    destruct (decide (count <= length bs)%nat) as [Hle|Hgt].
    + exists (rest_of true count bs ctrl l). rewrite length_take, Nat.min_l, Nat.sub_diag by done.
      rewrite rest_of_stream by done. split; [|done].
      assert (read_loop fuel fd 0 = mret (Some [])) as -> by (by destruct fuel).
      rewrite rd_bytes_Some by (rewrite length_app; lia). rewrite take_app_le by done. unfold K_bind. simpl. by rewrite app_nil_r.
    + assert (Hrest : rest_of true count bs ctrl l = l).
      { unfold rest_of. rewrite decide_False, drop_ge, decide_True by (done || lia). done. }
      rewrite Hrest, take_ge by lia. simpl in Hf.
      destruct (IH (count - length bs)%nat (with_inbox fd s l k) (set_inbox l s)) as (l' & E & Hl');
        [apply lookup_insert_eq|done|done|simpl; lia|].
      simpl inbox in E, Hl'. unfold K_bind. rewrite E. exists l'. rewrite with_inbox_twice.
      rewrite rd_bytes_split by lia. split; [done|]. rewrite length_app. intros Hlen.
      rewrite Hl', drop_app_ge by lia. done.
  - simpl in Hf. destruct e; try (exists l; simpl; rewrite rd_bytes_short by (simpl; lia); split; [done|lia]).
    destruct (IH count (with_inbox fd s l k) (set_inbox l s)) as (l' & E & Hl');
      [apply lookup_insert_eq|done|done|simpl; lia|].
    simpl inbox in E, Hl'. rewrite E. exists l'. by rewrite with_inbox_twice.
Qed.

Lemma bind_val {A B} (m : K A) (f : A -> K B) k a k' : m k = (Val a, k') -> (m ≫= f) k = f a k'.
Proof. intros E. unfold mbind, K_bind. by rewrite E. Qed.

(** Does a blocking write of [n] bytes go through? *)
Fixpoint writes_ok (l : list SendAns) (n : nat) : bool :=
  match l with
  | [] => true
  | STake m :: l' => if decide (n = O) then true else writes_ok l' (n - m)
  | SErr e :: l' =>
      if decide (n = O) then true else match e with EINTR => writes_ok l' n | _ => false end
  end.

(** The socket up to what was sent on it. *)
Definition same_reads (s s' : Sock) : Prop :=
  stream s' = stream s /\ nonblock s' = nonblock s /\ opts s' = opts s /\ inbox s' = inbox s.

Lemma write_loop_spec fd : forall fuel buf k s,
  fds k !! fd = Some s -> (length (outbox s) < fuel)%nat ->
  exists s', write_loop fuel fd buf k
      = (Val (writes_ok (outbox s) (length buf)), mkKernel (<[fd := s']> (fds k)) (answers k))
    /\ same_reads s s' /\ (writes_ok (outbox s) (length buf) = true -> sent s' = sent s ++ buf).
Proof.
  induction fuel as [|fuel IH]; intros buf k s Hs Hf; [lia|]. cbn [write_loop].
  destruct (decide (buf = [])) as [->|Hb].
  { exists s. rewrite insert_id by done. rewrite app_nil_r. cbn [length].
    assert (writes_ok (outbox s) 0 = true) as -> by (by destruct (outbox s) as [|[|]]). by destruct k. }
  assert (Hn : length buf <> O) by (by destruct buf).
  assert (Hsend : forall s1 r, sys_send fd buf k = (Val r, mkKernel (<[fd := s1]> (fds k)) (answers k)) ->
    forall f : SendRes -> K bool, (sys_send fd buf ≫= f) k = f r (mkKernel (<[fd := s1]> (fds k)) (answers k)))
    by (intros; by apply bind_val).
  unfold sys_send in Hsend at 1. unfold mbind at 1, K_bind at 1, get_sock in Hsend. rewrite Hs in Hsend.
  destruct (outbox s) as [|[m|e] o] eqn:Ho; simpl in Hf.
  - rewrite (Hsend _ _ eq_refl). rewrite drop_all.
    assert (write_loop fuel fd [] = mret true) as -> by (by destruct fuel). by exists (add_sent buf s).
  - rewrite (Hsend _ _ eq_refl). simpl. rewrite decide_False by done.
    destruct (IH (drop (Nat.min m (length buf)) buf) (mkKernel (<[fd := add_sent (take m buf) (set_outbox o s)]> (fds k))
      (answers k)) (add_sent (take m buf) (set_outbox o s))) as (s' & E & Hsame & Hsent);
      [apply lookup_insert_eq|simpl; lia|].
    simpl outbox in *. simpl fds in E. rewrite insert_insert_eq in E.
    assert (Hl : length (drop (Nat.min m (length buf)) buf) = (length buf - m)%nat) by (rewrite length_drop; lia).
    rewrite Hl in *. exists s'. split_and!; [done|done|]. intros Hw. rewrite (Hsent Hw). simpl.
    rewrite <- app_assoc. f_equal. destruct (decide (m <= length buf)%nat).
    + rewrite Nat.min_l by done. apply take_drop.
    + rewrite Nat.min_r, drop_all, app_nil_r, take_ge by lia. done.
  - rewrite (Hsend _ _ eq_refl). simpl. rewrite decide_False by done.
    destruct e; try (exists (set_outbox o s); done).
    destruct (IH buf (mkKernel (<[fd := set_outbox o s]> (fds k)) (answers k)) (set_outbox o s))
      as (s' & E & Hsame & Hsent); [apply lookup_insert_eq|simpl; lia|].
    simpl in *. rewrite insert_insert_eq in E. by exists s'.
Qed.

Lemma alter_known (m : gmap Z Sock) fd s f : m !! fd = Some s -> alter f fd m = <[fd := f s]> m.
Proof.
  intros Hs. apply map_eq. intros j. destruct (decide (j = fd)) as [->|Hj].
  - by rewrite lookup_alter_eq, lookup_insert_eq, Hs.
  - by rewrite lookup_alter_ne, lookup_insert_ne.
Qed.

Lemma setsockopt_ok fd o k s l : fds k !! fd = Some s -> answers k = AOk :: l ->
  setsockopt fd o k = (Val true, mkKernel (<[fd := set_opt o s]> (fds k)) l).
Proof.
  intros Hs Ha. unfold setsockopt, mbind, K_bind, answer. rewrite Ha. simpl.
  by rewrite (alter_known _ _ _ _ Hs).
Qed.

(** The timeout is cleared, whatever that call answers. *)
Lemma clear_then {A} fd (r : A) k :
  exists k', (_ ← setsockopt fd (RcvTimeo 0); mret r) k = (Val r, k').
Proof.
  unfold setsockopt, mbind, K_bind, answer. destruct (answers k) as [|[]]; simpl; eauto.
Qed.

Lemma read_all_spec fd count k s :
  fds k !! fd = Some s -> stream s = true -> reads_return s = true ->
  exists l, read_all fd count k = (Val (rd_bytes count (stream_of (inbox s))), with_inbox fd s l k)
    /\ ((count <= length (stream_of (inbox s)))%nat -> stream_of l = drop count (stream_of (inbox s))).
Proof.
  intros Hs Hst Hr. unfold read_all. rewrite (bind_val (get_sock fd) _ k (Some s) k)
    by (unfold get_sock; by rewrite Hs). by apply read_loop_spec; [..|simpl; lia].
Qed.

Lemma soup_response_spec fd k s l :
  fds k !! fd = Some s -> stream s = true -> answers k = AOk :: l ->
  exists k', soup_recv_response fd k = (Val (recv_response (stream_of (inbox s))), k').
Proof.
  intros Hs Hst Ha. unfold soup_recv_response. rewrite (bind_val _ _ _ _ _ (setsockopt_ok fd _ k s l Hs Ha)).
  set (s1 := set_opt (RcvTimeo 5) s). set (k1 := mkKernel _ l).
  assert (Hs1 : fds k1 !! fd = Some s1) by apply lookup_insert_eq.
  assert (Hr1 : reads_return s1 = true) by apply orb_true_r.
  destruct (read_all_spec fd 2 k1 s1 Hs1 Hst Hr1) as (l1 & E1 & Hl1).
  rewrite (bind_val _ _ _ _ _ E1). change (inbox s1) with (inbox s) in *.
  set (st := stream_of (inbox s)) in *. unfold recv_response.
  destruct (decide (2 <= length st)%nat) as [H2|H2]; [|rewrite rd_bytes_short by lia; apply clear_then].
  rewrite (rd_bytes_Some 2 st) by done.
  destruct ((be_val (take 2 st) =? 0) || _); [apply clear_then|].
  set (n := Z.to_nat _). set (s2 := set_inbox l1 s1).
  destruct (read_all_spec fd n (with_inbox fd s1 l1 k1) s2) as (l2 & E2 & _);
    [apply lookup_insert_eq|done|done|].
  rewrite (bind_val _ _ _ _ _ E2). change (inbox s2) with l1. rewrite Hl1 by done.
  destruct (rd_bytes n (drop 2 st)); apply clear_then.
Qed.

(** Logging in does not depend on how the network cuts the stream.  With the
    receive timeout accepted, the handshake over the socket - sends that take
    a part, replies that come in pieces, interrupted calls - ends, and with
    the result [Recovery] computes from the whole reply; when all could be
    sent, exactly the login packet has gone out. *)
Theorem login_any_chunking fd u p sess pkt k s l :
  fds k !! fd = Some s -> stream s = true -> answers k = AOk :: l ->
  login_packet u p sess = Some pkt ->
  let sends := writes_ok (outbox s) (length pkt) in
  exists k', nasdaq_login fd u p sess k
      = (Val (login (mkEndpoint true true true sends (stream_of (inbox s)))), k')
    /\ (sends = true -> exists s1, (write_all fd pkt k).2 = mkKernel (<[fd := s1]> (fds k)) (answers k)
                       /\ sent s1 = sent s ++ pkt).
Proof.
  intros Hs Hst Ha Hp sends. unfold nasdaq_login, lift_opt. rewrite Hp.
  destruct (write_loop_spec fd (S (length (outbox s))) pkt k s Hs) as (s1 & E & (H1 & H2 & H3 & H4) & Hsent); [lia|].
  assert (Ew : write_all fd pkt k = (Val sends, mkKernel (<[fd := s1]> (fds k)) (answers k))).
  { unfold write_all. rewrite (bind_val (get_sock fd) _ k (Some s) k) by (unfold get_sock; by rewrite Hs). exact E. }
  rewrite (bind_val (fun k0 => (Val pkt, k0)) _ k pkt k eq_refl), (bind_val _ _ _ _ _ Ew).
  unfold login. simpl. assert (Hw : sends = true -> exists s1, (write_all fd pkt k).2 = mkKernel (<[fd := s1]> (fds k))
    (answers k) /\ sent s1 = sent s ++ pkt) by (intros Ht; exists s1; rewrite Ew; auto).
  destruct sends; simpl; [|by eexists].
  destruct (soup_response_spec fd (mkKernel (<[fd := s1]> (fds k)) (answers k)) s1 l) as (k' & E');
    [apply lookup_insert_eq|by rewrite H1|done|].
  rewrite H4 in E'. rewrite (bind_val _ _ _ _ _ E'). by eexists.
Qed.

(** ** The poll of [Recovery] *)

Lemma triple_any {A} P (m : K A) : triple P m (fun _ _ => True) (fun _ => True).
Proof. intros k _. by destruct (m k) as [[a| | |] k']. Qed.

Lemma connect_to_flag c addr port :
  triple (fun _ => True) (client_connect_to c addr port) (fun r _ => r.1 = is_connected r.2) (fun _ => True).
Proof.
  unfold client_connect_to. eapply triple_bind; [apply triple_any|]. intros fd.
  destruct (Z.ltb_spec fd 0) as [Hn|Hp].
  { intros k _. unfold is_connected. simpl. by rewrite (proj2 (Z.leb_gt 0 fd)). }
  eapply triple_bind; [apply triple_any|]. intros ?. destruct (inet_pton (c_str addr)).
  2:{ eapply triple_bind; [apply triple_any|]. by intros ? k _. }
  eapply triple_bind; [apply triple_any|]. intros [|]; simpl.
  2:{ eapply triple_bind; [apply triple_any|]. by intros ? k _. }
  eapply triple_bind; [apply triple_any|]. intros [|]; simpl.
  - eapply triple_bind; [apply triple_any|]. intros ? k _. unfold is_connected. simpl.
    symmetry. by apply Z.leb_le.
  - eapply triple_bind; [apply triple_any|]. by intros ? k _.
Qed.

Lemma connect_flag c :
  triple (fun _ => True) (client_connect c) (fun r _ => r.1 = is_connected r.2) (fun _ => True).
Proof.
  unfold client_connect. eapply triple_bind; [apply connect_to_flag|]. intros [[|] c1]; [by intros k|].
  destruct (_ && _); [|by intros k]. intros k _. by apply connect_to_flag.
Qed.

(** What [recv] hands to the loop: nothing longer than the packet buffer. *)
Definition input_ok (r : RecvResult) : Prop :=
  match r with RData bs _ => (0 < length bs <= Z.to_nat MAX_UDP_PAYLOAD)%nat | _ => True end.

Lemma sys_recv_bound fd n k :
  match sys_recv fd n k with
  | (Val (Got bs _), _) => (length bs <= n)%nat
  | (Val _, _) | (Hang, _) => True
  | _ => False
  end.
Proof.
  unfold sys_recv, mbind, K_bind, get_sock. destruct (fds k !! fd) as [s|]; [|done].
  destruct (inbox s) as [|[bs ctrl|e] l]; simpl; [by destruct (_ || _)| |done].
  rewrite length_take. lia.
Qed.

Lemma client_recv_cases c now k : is_connected c = true ->
  match client_recv c now k with
  | (Val (len, Some (bs, ts), c'), _) =>
      c' = c /\ len = Z.of_nat (length bs) /\ (0 < length bs <= Z.to_nat MAX_UDP_PAYLOAD)%nat /\ ts = now
  | (Val (len, None, c'), _) => len <= 0 /\ (c' = c \/ is_connected c' = false /\ c' = set_fd c (-1))
  | (Hang, _) => True
  | _ => False
  end.
Proof.
  intros Hc. unfold client_recv. rewrite Hc. cbn [negb].
  pose proof (sys_recv_bound (fd_ c) (Z.to_nat MAX_UDP_PAYLOAD) k) as Hr. unfold mbind, K_bind.
  destruct (sys_recv _ _ k) as [[[[|b bs] ctrl|e]| | |] k']; try done.
  - unfold client_disconnect. unfold is_connected in Hc. rewrite Hc. simpl. split; [lia|]. by right.
  - simpl in *. split_and!; try done; lia.
  - simpl. split; [by destruct (would_block e)|by left].
Qed.

Section Refine.
Context {Q : Type} `{FifoOps Q Z}.

Definition same_ring (t t' : RtState Q) : Prop :=
  rt_ring t' = rt_ring t /\ rt_recovered t' = rt_recovered t /\ rt_drops t' = rt_drops t.

Lemma rt_request_refines (t : RtState Q) k : is_connected (rt_client t) = true ->
  match rt_request t k with
  | (Val t', _) => same_ring t t' /\ exists n p, send_request (rt_abs t) n = Some (rt_abs t', p)
  | (Fault, _) => send_request (rt_abs t) 0 = None
  | _ => False
  end.
Proof.
  intros Hc. unfold rt_request, send_request, client_request, request. simpl. rewrite Hc. simpl.
  unfold mbind, K_bind, lift_opt. destruct (request_packet _ _ _) as [p|]; simpl; [|done].
  assert (Hv : forall k, exists r k', sys_send (fd_ (rt_client t)) p k = (Val r, k')).
  { intros k0. unfold sys_send, mbind, K_bind, get_sock. destruct (fds k0 !! _) as [s|]; [|simpl; eauto].
    destruct (outbox s) as [|[]]; simpl; eauto. }
  destruct (Hv k) as (r & k' & ->). simpl. split; [done|]. exists 0, (Some p). unfold rt_abs. simpl. by rewrite Hc.
Qed.

Lemma rt_handle_refines now (t : RtState Q) k :
  match rt_handle_recovery now t k with
  | (Val t', _) =>
      same_ring t t' /\ exists ans n p, handle_recovery (rt_abs t) now ans n = Some (rt_abs t', p)
  | (Hang, _) => True
  | _ => exists ans, handle_recovery (rt_abs t) now ans 0 = None
  end.
Proof.
  unfold rt_handle_recovery, handle_recovery. cbn [gap_det rt_abs connected].
  destruct (negb (Sequence.pending _)); [split; [done|]; by exists ConnectFailed, 0, None|].
  destruct (negb _); [split; [done|]; by exists ConnectFailed, 0, None|].
  destruct (is_connected (rt_client t)) eqn:E.
  { pose proof (rt_request_refines t k E) as Hr. destruct (rt_request t k) as [[t'| | |] k']; try done.
    - destruct Hr as (Hs & n & p & Hp). split; [done|]. by exists ConnectFailed, n, p.
    - by exists ConnectFailed. }
  pose proof (connect_flag (rt_client t) k I) as Hc. unfold mbind, K_bind.
  destruct (client_connect _ k) as [[[ok c]| | |] k']; [|by exists ConnectExit|done|by exists ConnectExit].
  simpl in Hc. subst ok. destruct (is_connected c) eqn:Ec; simpl.
  - pose proof (rt_request_refines (set_client t c) k' Ec) as Hr.
    assert (Ha : rt_abs (set_client t c) = mkRecovery (rt_gap t) true (rt_session t))
      by (unfold rt_abs; simpl; by rewrite Ec).
    rewrite Ha in Hr. destruct (rt_request _ k') as [[t'| | |] k'']; try done.
    + destruct Hr as (Hs & n & p & Hp). split; [done|]. by exists Connected, n, p.
    + by exists Connected.
  - split; [done|]. exists ConnectFailed, 0, None. unfold rt_abs. simpl. by rewrite E, Ec.
Qed.

Lemma rt_loop_refines n clock : forall (t : RtState Q) k, is_connected (rt_client t) = true ->
  match rt_recv_loop n clock t k with
  | (Val t', _) => exists inputs, Forall input_ok inputs
      /\ recv_loop n (rt_ring t) inputs (rt_recovered t) (rt_drops t)
         = Some (is_connected (rt_client t'), rt_ring t', rt_recovered t', rt_drops t')
      /\ rt_gap t' = rt_gap t /\ rt_session t' = rt_session t
  | (Fault, _) => exists inputs, Forall input_ok inputs
      /\ recv_loop n (rt_ring t) inputs (rt_recovered t) (rt_drops t) = None
  | (Hang, _) => True
  | (Exit, _) => False
  end.
Proof.
  induction n as [|n IH]; intros t k Hc; cbn [rt_recv_loop].
  { exists []. simpl. by rewrite Hc. }
  pose proof (client_recv_cases (rt_client t) (clock (S n)) k Hc) as Hr. unfold mbind, K_bind at 1.
  destruct (client_recv _ _ k) as [[[[len [[bs ts]|]] c]| | |] k']; try done.
  - destruct Hr as (-> & -> & Hl & ->). rewrite (proj2 (Z.leb_gt _ 0)) by lia. cbn [set_client rt_ring].
    unfold K_bind, lift_opt. destruct (inject_recovered_packet (rt_ring t) bs (clock (S n))) as [[ok r]|] eqn:Ei.
    2:{ exists [RData bs (clock (S n))]. split; [by apply Forall_singleton|]. simpl. by rewrite Ei. }
    simpl from_option. cbn iota beta.
    set (t1 := mkRt _ _ _ _ _ _). specialize (IH t1 k' Hc).
    assert (Hstep : forall i, recv_loop (S n) (rt_ring t) (RData bs (clock (S n)) :: i) (rt_recovered t) (rt_drops t)
      = recv_loop n (rt_ring t1) i (rt_recovered t1) (rt_drops t1))
      by (intros i; cbn [recv_loop]; rewrite Ei; by destruct ok).
    destruct (rt_recv_loop n clock t1 k') as [[t'| | |] k'']; try done.
    + destruct IH as (i & Hi & E & Hg). exists (RData bs (clock (S n)) :: i).
      rewrite Hstep, E. split; [|done]. by constructor.
    + destruct IH as (i & Hi & E). exists (RData bs (clock (S n)) :: i). rewrite Hstep. split; [|done]. by constructor.
  - destruct Hr as (Hl & Hr). rewrite (proj2 (Z.leb_le _ 0)) by done.
    destruct Hr as [->|[Hd _]]; [exists [RNothing]|exists [RClosed]]; simpl; rewrite ?Hc, ?Hd; by repeat constructor.
Qed.

(** Every poll of the thread is one of [Recovery].  Down to its system calls
    the recovery thread does what [recovery_iter] does for some answers of the
    network: the same gap is marked as requested, the same packets reach the
    recovery ring, the counters agree, and the descriptor is valid exactly
    when [Recovery] says connected; the process ends only where [recovery_iter]
    has no result.  Every packet injected fits the slot. *)
Theorem recovery_poll_refines now clock (t : RtState Q) k :
  match rt_poll now clock t k with
  | (Val t', _) => exists ans n inputs p, Forall input_ok inputs
      /\ recovery_iter (rt_abs t) (rt_ring t) now ans n inputs (rt_recovered t) (rt_drops t)
         = Some (rt_abs t', p, rt_ring t', rt_recovered t', rt_drops t')
  | (Hang, _) => True
  | _ => exists ans n inputs, Forall input_ok inputs
      /\ recovery_iter (rt_abs t) (rt_ring t) now ans n inputs (rt_recovered t) (rt_drops t) = None
  end.
Proof.
  unfold rt_poll, mbind, K_bind, recovery_iter, rt_recv_retransmitted, recv_retransmitted.
  generalize 64%nat. intros N. pose proof (rt_handle_refines now t k) as Hh.
  destruct (rt_handle_recovery now t k) as [[t1| | |] k1]; [|..|].
  2,4: destruct Hh as [ans Hh]; exists ans, 0, []; split; [by constructor|by rewrite Hh].
  2: done.
  destruct Hh as ((H1 & H2 & H3) & ans & n & p & Hh). rewrite <- H1, <- H2, <- H3.
  destruct (is_connected (rt_client t1)) eqn:Ec; cbn [negb].
  - pose proof (rt_loop_refines N clock t1 k1 Ec) as Hl.
    destruct (rt_recv_loop N clock t1 k1) as [[t'| | |] k']; try done.
    + destruct Hl as (i & Hi & E & Hg & Hs). exists ans, n, i, p. split; [done|].
      rewrite Hh. cbn [mbind option_bind rt_abs connected]. rewrite Ec. cbn [negb].
      rewrite E. unfold rt_abs. simpl. by rewrite Hg, Hs.
    + destruct Hl as (i & Hi & E). exists ans, n, i. split; [done|].
      rewrite Hh. cbn [mbind option_bind rt_abs connected]. rewrite Ec. cbn [negb].
      by rewrite E.
  - exists ans, n, [], p. split; [done|]. rewrite Hh.
    unfold rt_abs. cbn [mbind option_bind connected gap_det rec_session_]. by rewrite Ec.
Qed.

End Refine.

(** ** Receiver *)

Lemma local_sock_recvs fd nows : local fd (mapM (sock_recv fd) nows).
Proof.
  induction nows as [|n l IH]; [apply local_ret|]. cbn [mapM]. unfold sock_recv. is_local.
Qed.

Lemma sock_open_owned base addr port X :
  triple (fun k => fds k = base) (sock_open addr port)
    (fun r k => owns base r.2 k /\ r.1 = (0 <=? r.2)) X.
Proof.
  unfold sock_open. eapply triple_bind; [apply triple_socket|]. intros fd.
  destruct (Z.ltb_spec fd 0) as [Hn|Hp].
  { intros k [_ Ho]. split; [done|]. simpl. by rewrite (proj2 (Z.leb_gt 0 fd)). }
  eapply triple_pre; [by intros k [_ Ho]; exact Ho|].
  do 4 (eapply triple_bind; [by apply triple_local; [done|is_local]|]; intros ?).
  eapply triple_bind; [by apply triple_local; [done|apply local_bind_call]|]. intros [|]; simpl.
  - eapply triple_bind; [by apply triple_local; [done|apply local_nonblock]|]. intros ? k Ho.
    split; [done|]. simpl. symmetry. by apply Z.leb_le.
  - eapply triple_bind; [by apply triple_close|]. by intros ? k Hk.
Qed.

(** Calls that always return. *)
Definition total {A} (m : K A) : Prop := forall k, exists a k', m k = (Val a, k').

Lemma total_ret {A} (a : A) : total (mret a).
Proof. intros k. by exists a, k. Qed.

Lemma total_bind {A B} (m : K A) (f : A -> K B) : total m -> (forall a, total (f a)) -> total (m ≫= f).
Proof. intros Hm Hf k. destruct (Hm k) as (a & k' & E). rewrite (bind_val _ _ _ _ _ E). apply Hf. Qed.

Lemma total_answer : total answer.
Proof. intros k. unfold answer. destruct (answers k); eauto. Qed.

Lemma total_upd fd f : total (upd_sock fd f).
Proof. intros k. by eexists _, _. Qed.

Lemma total_close fd : total (sys_close fd).
Proof. intros k. by eexists _, _. Qed.

Lemma total_socket st : total (sys_socket st).
Proof. intros k. destruct (socket_owned st k) as (fd & k' & E & _). eauto. Qed.

#[local] Hint Resolve total_ret total_answer total_upd total_close total_socket : kernel.

Ltac is_total :=
  repeat first
    [ solve [eauto 2 with kernel]
    | apply total_bind
    | match goal with |- forall _, _ => intros ? end
    | progress case_match ].

Lemma total_receiver_open addr port group iface : total (receiver_thread_open addr port group iface).
Proof.
  unfold receiver_thread_open, sock_open, join_multicast, setsockopt, sys_bind, fcntl_nonblock. is_total.
Qed.

(** A receiver leaks no descriptor.  [ReceiverThread::open] returns, whatever
    the kernel answers, with at most one new descriptor, which the receiver
    knows: none when the socket could not be bound, and still one when only
    the multicast join failed.  After any number of reads [close] (in [stop]
    or the destructor) gives it back. *)
Theorem receiver_descriptor_returned addr port group iface k :
  exists ok fd k1, receiver_thread_open addr port group iface k = (Val (ok, fd), k1)
    /\ owns (fds k) fd k1 /\ (ok = true -> 0 <= fd)
    /\ forall nows, 0 <= fd -> fds (sock_close fd (mapM (sock_recv fd) nows k1).2).2 = fds k.
Proof.
  destruct (total_receiver_open addr port group iface k) as ([ok fd] & k1 & E).
  assert (Ht : triple (fun k' => fds k' = fds k) (receiver_thread_open addr port group iface)
    (fun r k' => owns (fds k) r.2 k' /\ (r.1 = true -> 0 <= r.2)) (fun _ => False)).
  { unfold receiver_thread_open. eapply triple_bind; [apply sock_open_owned|]. intros [o f] k' [Ho Hf].
    simpl in *. destruct o; [|done]. symmetry in Hf. apply Z.leb_le in Hf. simpl.
    destruct (decide (group = [])); [done|].
    assert (Hj : triple (owns (fds k) f) (joined ← join_multicast f group iface; mret (joined, f))
      (fun r k2 => owns (fds k) r.2 k2 /\ (r.1 = true -> 0 <= r.2)) (fun _ => False)); [|by apply Hj].
    eapply triple_bind; [apply triple_local; [done|unfold join_multicast; is_local]|]. by intros ? k2 Hk2. }
  specialize (Ht k eq_refl). rewrite E in Ht. destruct Ht as [Ho Hf]. exists ok, fd, k1.
  split_and!; [done..|]. intros nows Hp. simpl in *.
  pose proof (owns_local _ _ _ _ Hp Ho (local_sock_recvs fd nows)) as Ho'.
  unfold sock_close. rewrite (proj2 (Z.leb_le 0 fd)) by done. by apply owns_close.
Qed.

(** Time stamps: the hardware's time is taken when there is one. *)
Theorem receive_time_stamp fd now k s bs ctrl l sec nsec others dep rest :
  has_timestamping = true ->
  fds k !! fd = Some s -> inbox s = RBytes bs ctrl :: l -> Forall (eq OtherCmsg) others ->
  ctrl = others ++ ScmTimestamping dep dep (sec, nsec) :: rest -> 0 <= sec < 2 ^ 33 -> 0 <= nsec < 1000000000 ->
  exists k', sock_recv fd now k = (Val (Z.of_nat (length (take (Z.to_nat MAX_UDP_PAYLOAD) bs)),
    Some (take (Z.to_nat MAX_UDP_PAYLOAD) bs,
          if (sec =? 0) && (nsec =? 0) then now else sec * 1000000000 + nsec)), k').
Proof.
  intros Hts Hs Hi Ho -> Hsec Hn. unfold sock_recv.
  assert (E : exists k', sys_recv fd (Z.to_nat MAX_UDP_PAYLOAD) k
    = (Val (Got (take (Z.to_nat MAX_UDP_PAYLOAD) bs) (others ++ ScmTimestamping dep dep (sec, nsec) :: rest)), k')).
  { unfold sys_recv, mbind, K_bind, get_sock. rewrite Hs, Hi. by eexists. }
  destruct E as (k' & E). exists k'. rewrite (bind_val _ _ _ _ _ E), Hts. unfold mret, K_ret. do 5 f_equal.
  clear -Ho Hsec Hn. induction Ho as [|? others <- _ IH]; [|exact IH]. cbn [app hw_timestamp].
  destruct (Z.eqb_spec sec 0) as [->|Hz]; simpl.
  - destruct (Z.eqb_spec nsec 0); simpl; [done|]. rewrite !wrap_small; range_lia.
  - rewrite !wrap_small; range_lia.
Qed.

(** A dead connection is never replaced.  When the peer has reset the
    connection, the request cannot be sent and [recv] fails, but only an
    orderly end makes the client disconnect: after the poll the thread holds
    the same descriptor, the gap counts as requested, and nothing was sent. *)
Theorem dead_connection_kept {Q} `{FifoOps Q Z} now clock (t : RtState Q) k s i o :
  should_request_recovery now (rt_gap t) = true -> is_connected (rt_client t) = true ->
  (10 <= length (rt_session t))%nat ->
  fds k !! fd_ (rt_client t) = Some s -> outbox s = SErr EOther :: o -> inbox s = RErr EOther :: i ->
  exists t' k' s', rt_poll now clock t k = (Val t', k') /\ rt_client t' = rt_client t
    /\ rt_gap t' = mark_recovery_sent (rt_gap t) /\ rt_ring t' = rt_ring t
    /\ fds k' !! fd_ (rt_client t) = Some s' /\ sent s' = sent s.
Proof.
  intros Hg Hc Hl Hs Ho Hi. unfold rt_poll, rt_handle_recovery.
  assert (Hp : Sequence.pending (rt_gap t) = true).
  { unfold should_request_recovery in Hg. by destruct (Sequence.pending (rt_gap t)). }
  rewrite Hp, Hg, Hc. cbn [negb]. unfold rt_request, client_request. rewrite Hc. cbn [negb].
  unfold request_packet. rewrite rd_bytes_Some by done. set (n := u16 _).
  set (fd := fd_ (rt_client t)) in *. set (k1 := mkKernel (<[fd := set_outbox o s]> (fds k)) (answers k)).
  assert (Esend : forall buf, sys_send fd buf k = (Val (SendErr EOther), k1)).
  { intros buf. unfold sys_send, mbind, K_bind, get_sock. by rewrite Hs, Ho. }
  unfold mbind at 1 2 3 4, K_bind. cbn [mbind option_bind lift_opt from_option]. rewrite Esend. simpl.
  unfold rt_recv_retransmitted. cbn [rt_client]. rewrite Hc. cbn [negb]. change 64%nat with (S 63).
  generalize 63%nat. intros m. cbn [rt_recv_loop]. unfold client_recv. cbn [rt_client]. rewrite Hc. cbn [negb].
  assert (Erecv : forall c, sys_recv fd c k1 = (Val (RecvErr EOther), with_inbox fd (set_outbox o s) i k1)).
  { intros c. unfold sys_recv, mbind, K_bind, get_sock. simpl. rewrite lookup_insert_eq. simpl. by rewrite Hi. }
  unfold mbind, K_bind. fold fd. rewrite Erecv. simpl. eexists _, _, (set_inbox i (set_outbox o s)). split; [reflexivity|].
  split_and!; try done. apply lookup_insert_eq.
Qed.

Lemma new_client_local pa pp sa sp creds : handler_local (new_client pa pp sa sp creds).
Proof. intros h Hh. injection Hh as <-. intros. apply local_nasdaq_login. Qed.

End Sockets.
Arguments RtState : clear implicits.

(** ** Witnesses *)

(** A thread with a gap to request, and a network on which the primary
    refuses, the secondary accepts the login in pieces and then sends. *)
Definition any_address (_ : bytes) : option Z := Some 1.
Definition login_creds : RetransmitCredentials := mkCreds [117] [112] true.
Definition tiny_ring : ZeroCopyRing (Seq.SpscQueue Z) :=
  mkRing [] (Seq.init (Z.to_nat (2 ^ 1)) 0) (replicate 4 (mkSlot (replicate 4 0) 0 0 0 0 0))
    (Seq.init (Z.to_nat (2 ^ 2)) 0) 0.
Definition gap_thread : RtState (Seq.SpscQueue Z) :=
  mkRt (on_gap (mkGapInfo 5 9 0) (gap_detector_init 1)) (new_client [49] 1 [50] 2 login_creds)
    (replicate 10 84 ++ [0]) tiny_ring 0 0.
Definition login_pieces : list Recv := [RBytes [0] []; RErr EINTR; RBytes [3; 65; 1; 1; 9; 8; 7] []; RBytes [6] []].
Definition gap_kernel : Kernel :=
  mkKernel ∅ [AFd 7; AOk; AFail; AFd 7; AOk; AConn login_pieces [STake 30]; AOk; AOk; AOk].

Lemma recovery_descriptors_returned_witness :
  exists t k t' k', rt_run any_address [Poll 1000000 (fun _ => 0)] gap_thread gap_kernel = (Val t, k)
    /\ fd_ (rt_client t) = 7 /\ rt_recovered t = 2 /\ rt_stop t k = (Val t', k') /\ fds k' = ∅.
Proof.
  pose proof (recovery_descriptors_returned any_address [Poll 1000000 (fun _ => 0)] gap_thread gap_kernel
    (new_client_local _ _ _ _ _) eq_refl) as Hw.
  assert (Hv : match (rt_run any_address [Poll 1000000 (fun _ => 0)] gap_thread gap_kernel).1 with
    | Val t => Some (fd_ (rt_client t), rt_recovered t) | _ => None end = Some (7, 2)) by (vm_compute; reflexivity).
  destruct (rt_run any_address [Poll 1000000 (fun _ => 0)] gap_thread gap_kernel) as [[t| | |] k]; [|discriminate Hv..].
  destruct Hw as (_ & t' & k' & Hs & Hf & _). injection Hv as Hv1 Hv2.
  exists t, k, t', k'. split; [reflexivity|]. split; [exact Hv1|]. split; [exact Hv2|]. split; [exact Hs|exact Hf].
Defined.

Definition login_kernel : Kernel :=
  mkKernel {[ 7 := mkSock true false [] None login_pieces [STake 30; SErr EINTR] [] ]} [AOk].

Lemma login_any_chunking_witness :
  exists k', nasdaq_login 7 None None None login_kernel = (Val true, k').
Proof.
  destruct (login_any_chunking 7 None None None _ login_kernel _ [] eq_refl eq_refl eq_refl eq_refl)
    as (k' & E & _).
  exists k'. exact E.
Defined.
