(* ===== verification/System.v ===== *)
(** * CPU affinity, scheduling and memory allocation

    [CpuAffinity] ([include/system/cpu_affinity.hpp],
    [src/system/cpu_affinity.cpp]) and the allocation of the packet ring
    buffers ([alloc_packet_ring_buffer], [free_packet_ring_buffer] of
    [include/network/packet_ring.hpp]).  The preprocessor's choice of branch is
    an argument ([Platform]); what the operating system answers is an input,
    and the calls made are part of the result.  The heap is the finite map of
    the blocks that are allocated. *)

From stdpp Require Import gmap.
From S2P Require Import Prelude Types.

(** [__linux__], with or without [HAVE_NUMA]; [__APPLE__]; anything else. *)
Inductive Platform := Linux (have_numa : bool) | Apple | OtherPlatform.

Definition is_linux (p : Platform) : bool := match p with Linux _ => true | _ => false end.
Definition have_numa (p : Platform) : bool := match p with Linux n => n | _ => false end.

(** ** Threads *)

Record ThreadConfig := mkThreadConfig {
  cpu_id : Z;
  sched_policy : Z;
  sched_priority : Z;
  numa_node : Z
}.

Definition ThreadConfig0 : ThreadConfig := mkThreadConfig (-1) 0 0 (-1).

(** The system calls the class makes on behalf of a thread. *)
Inductive SysCall :=
  | SetAffinity (cpu : Z)
  | ThreadPolicySet (tag : Z)
  | SetSchedulerFifo (priority : Z).

(** [rc] is what the call returns, 0 for success. *)
Definition pin_current_thread (p : Platform) (cpu rc : Z) : bool * list SysCall :=
  if cpu <? 0 then (true, [])
  else match p with
       | Linux _ => (rc =? 0, [SetAffinity cpu])
       | Apple => (rc =? 0, [ThreadPolicySet (cpu + 1)])
       | OtherPlatform => (false, [])
       end.

Definition set_realtime (p : Platform) (priority rc : Z) : bool * list SysCall :=
  if priority <=? 0 then (true, [])
  else match p with
       | Linux _ => (rc =? 0, [SetSchedulerFifo priority])
       | _ => (false, [])
       end.

Definition apply (p : Platform) (cfg : ThreadConfig) (rc_pin rc_rt : Z) : bool * list SysCall :=
  let '(ok1, calls1) :=
    if cpu_id cfg >=? 0 then pin_current_thread p (cpu_id cfg) rc_pin else (true, []) in
  let '(ok2, calls2) :=
    if (sched_policy cfg =? 1) || (sched_policy cfg =? 2)
    then set_realtime p (sched_priority cfg) rc_rt else (true, []) in
  (ok1 && ok2, calls1 ++ calls2).

(** The call in the body names the member function itself: inside the class
    [numa_node_of_cpu] is [CpuAffinity::numa_node_of_cpu], not the function of
    the library.  [None]: still recursing when the fuel is used up. *)
Fixpoint numa_node_of_cpu (fuel : nat) (p : Platform) (numa_available : bool) (cpu : Z) : option Z :=
  match fuel with
  | O => None
  | S fuel' =>
      if have_numa p && numa_available then numa_node_of_cpu fuel' p numa_available cpu
      else Some (-1)
  end.

(** ** Memory *)

Inductive BlockKind := NumaBlock | MmapBlock | MallocBlock.

Record Block := mkBlock { block_kind : BlockKind; block_size : Z }.

Abbreviation Heap := (gmap Z Block).

(** One allocation primitive: the answer is the address of a new block, or
    [None] when the call fails.  The address of a block in use is never
    returned by an allocator; as an answer it counts as a failure. *)
Definition os_alloc (h : Heap) (k : BlockKind) (size : Z) (answer : option Z) : option Z * Heap :=
  match answer with
  | Some a => if decide (h !! a = None) then (Some a, <[a := mkBlock k size]> h) else (None, h)
  | None => (None, h)
  end.

(** Giving a block back: [None] when the address is not that of a block of
    this kind and size, which is undefined in C. *)
Definition os_free (h : Heap) (k : BlockKind) (size a : Z) : option Heap :=
  match h !! a with
  | Some b => if decide (block_size b = size) then
                match block_kind b, k with
                | NumaBlock, NumaBlock | MmapBlock, MmapBlock | MallocBlock, MallocBlock =>
                    Some (delete a h)
                | _, _ => None
                end
              else None
  | None => None
  end.

(** What the allocators answer during one request. *)
Record AllocAnswer := mkAnswer {
  numa_available : bool;
  first_try : option Z;
  fallback : option Z
}.

Definition alloc_on_numa (p : Platform) (h : Heap) (size node : Z) (a : AllocAnswer)
    : option Z * Heap :=
  let general := if is_linux p then os_alloc h MmapBlock size (fallback a)
                 else os_alloc h MallocBlock size (fallback a) in
  if have_numa p && numa_available a && (node >=? 0) then
    match os_alloc h NumaBlock size (first_try a) with
    | (Some ptr, h') => (Some ptr, h')
    | (None, _) => general
    end
  else general.

(** A null pointer is [None]. *)
Definition free_numa (p : Platform) (h : Heap) (ptr : option Z) (size : Z) (numa_available : bool)
    : option Heap :=
  match ptr with
  | None => Some h
  | Some a =>
      if have_numa p && numa_available then os_free h NumaBlock size a
      else if is_linux p then os_free h MmapBlock size a
      else os_free h MallocBlock size a
  end.

Definition sizeof_PacketSlot : Z := 1536.
Definition sizeof_PacketRingBuffer : Z := PACKET_RING_DEPTH * sizeof_PacketSlot.

(** The huge page mapping, the ordinary mapping, [aligned_alloc]. *)
Definition alloc_packet_ring_buffer (p : Platform) (h : Heap) (huge regular posix : option Z)
    : option Z * Heap :=
  let size := sizeof_PacketRingBuffer in
  if is_linux p then
    match os_alloc h MmapBlock size huge with
    | (Some a, h') => (Some a, h')
    | (None, _) =>
        match os_alloc h MmapBlock size regular with
        | (Some a, h') => (Some a, h')
        | (None, _) => os_alloc h MallocBlock size posix
        end
    end
  else os_alloc h MallocBlock size posix.

Definition free_packet_ring_buffer (p : Platform) (h : Heap) (buf : Z) : option Heap :=
  os_free h (if is_linux p then MmapBlock else MallocBlock) sizeof_PacketRingBuffer buf.

(** ** Lemmas *)

(** The kind of block a platform without libnuma hands out and takes back. *)
Definition plain_kind (p : Platform) : BlockKind := if is_linux p then MmapBlock else MallocBlock.

Lemma alloc_plain p h size node a : have_numa p = false ->
  alloc_on_numa p h size node a = os_alloc h (plain_kind p) size (fallback a).
Proof. intros Hp. unfold alloc_on_numa, plain_kind. rewrite Hp. by destruct (is_linux p). Qed.

Lemma free_plain p h ptr size avail : have_numa p = false ->
  free_numa p h ptr size avail
    = match ptr with Some a => os_free h (plain_kind p) size a | None => Some h end.
Proof. intros Hp. unfold free_numa, plain_kind. rewrite Hp. by destruct ptr, (is_linux p). Qed.

(** ** Blocks owned by a component

    [owns k h0 h l]: the heap [h] is [h0] and the blocks [l], pairs of address
    and size, all of kind [k]. *)
Record owns (k : BlockKind) (h0 h : Heap) (l : list (Z * Z)) : Prop := {
  ow_nodup : NoDup (l.*1);
  ow_live : forall a s, (a, s) ∈ l -> h !! a = Some (mkBlock k s) /\ h0 !! a = None;
  ow_rest : forall a, (a ∉ l.*1) -> h !! a = h0 !! a
}.

Lemma owns_nil k h : owns k h h [].
Proof. split; [constructor|intros ?? H; inversion H|done]. Qed.

Lemma owns_perm k h0 h l l' : l ≡ₚ l' -> owns k h0 h l -> owns k h0 h l'.
Proof.
  intros Hp [N L R]. split; [by rewrite <- Hp|intros; apply L; by rewrite Hp|intros; apply R; by rewrite Hp].
Qed.

Lemma owns_alloc k h0 h l size answer r h' : owns k h0 h l -> os_alloc h k size answer = (r, h') ->
  owns k h0 h' (match r with Some a => (a, size) :: l | None => l end).
Proof.
  intros [N L R] E. unfold os_alloc in E. destruct answer as [a|]; [|by injection E as <- <-].
  case_decide as Ha; injection E as <- <-; [|done].
  assert (Hn : a ∉ l.*1).
  { intros Hin. apply list_elem_of_fmap in Hin as ((b & s) & -> & Hin). simpl in *. destruct (L _ _ Hin). congruence. }
  split.
  - cbn. by constructor.
  - intros b s Hin. apply elem_of_cons in Hin as [[= -> ->]|Hin].
    + rewrite lookup_insert_eq. split; [done|]. by rewrite <- (R a Hn).
    + rewrite lookup_insert_ne; [by apply L|]. intros ->. apply Hn.
      apply list_elem_of_fmap. by exists (b, s).
  - intros b Hb. cbn in Hb. apply not_elem_of_cons in Hb as [? ?]. rewrite lookup_insert_ne by done. by apply R.
Qed.

Lemma owns_free k h0 h l a size : owns k h0 h ((a, size) :: l) ->
  exists h', os_free h k size a = Some h' /\ owns k h0 h' l.
Proof.
  intros [N L R]. cbn in N. apply NoDup_cons in N as [Hn N].
  destruct (L a size) as [Ha H0]; [left|]. unfold os_free. rewrite Ha. cbn [block_size block_kind].
  rewrite decide_True by done. exists (delete a h). split; [by destruct k|]. split; [done| |].
  - intros b s Hin. rewrite lookup_delete_ne; [apply L; by right|]. intros ->. apply Hn.
    apply list_elem_of_fmap. by exists (b, s).
  - intros b Hb. destruct (decide (a = b)) as [->|]; [by rewrite lookup_delete_eq|].
    rewrite lookup_delete_ne by done. apply R. cbn. by apply not_elem_of_cons.
Qed.

Lemma owns_none k h0 h : owns k h0 h [] -> h = h0.
Proof. intros [_ _ R]. apply map_eq. intros a. apply R. apply not_elem_of_nil. Qed.

(** ** Properties *)

(** With NUMA support compiled in and available, looking up the node of a
    CPU never returns: the function calls itself with the same argument. *)
Theorem numa_lookup_never_returns cpu : forall fuel, numa_node_of_cpu fuel (Linux true) true cpu = None.
Proof. induction fuel as [|fuel IH]; [done|]. exact IH. Qed.

(** Applying a thread configuration makes exactly the calls it asks for.
    On Linux the result is true exactly when every requested call succeeds;
    a negative CPU requests no pinning, a policy other than 1 and 2 or a
    priority that is not positive requests no real-time scheduling; and a
    request for round robin (policy 2) is carried out as SCHED_FIFO. *)
Theorem apply_calls_requested numa cfg rc_pin rc_rt :
  let pins := 0 <= cpu_id cfg in
  let realtime := (sched_policy cfg = 1 \/ sched_policy cfg = 2) /\ 0 < sched_priority cfg in
  let r := apply (Linux numa) cfg rc_pin rc_rt in
  (r.1 = true <-> (pins -> rc_pin = 0) /\ (realtime -> rc_rt = 0))
  /\ (forall c, c ∈ r.2 <-> (pins /\ c = SetAffinity (cpu_id cfg))
                          \/ (realtime /\ c = SetSchedulerFifo (sched_priority cfg))).
Proof.
  intros pins realtime. unfold apply, pin_current_thread, set_realtime. subst pins realtime.
  rewrite Z.geb_leb. destruct (Z.leb_spec 0 (cpu_id cfg)).
  all: try rewrite (proj2 (Z.ltb_ge _ _)) by lia.
  all: destruct (Z.eqb_spec (sched_policy cfg) 1), (Z.eqb_spec (sched_policy cfg) 2); cbn [orb].
  all: try destruct (Z.leb_spec (sched_priority cfg) 0); cbn [fst snd andb app].
  all: rewrite ?andb_true_iff, ?Z.eqb_eq; split; [try intuition lia|intros c].
  all: rewrite ?elem_of_cons, ?elem_of_nil.
  all: try (intuition (congruence || lia)).
Qed.
