(* ===== verification/Timestamp.v ===== *)
(** * Clocks

    [include/common/timestamp.hpp]: the calibration of the time stamp counter
    and the three variants of [now_ns].  The values the hardware and the
    operating system deliver - CPUID registers, counter and clock readings -
    are arguments.  [None] is a division by zero or a wait that does not end
    within the readings given. *)

From S2P Require Import Prelude Types.

(** [struct timespec]. *)
Record timespec := mkTimespec { tv_sec : Z; tv_nsec : Z }.

Record TscCalibration := mkCalibration { numer : Z; denom : Z }.

(** The signed difference the wait loop compares. *)
Definition elapsed_signed (ts1 ts0 : timespec) : Z :=
  (tv_sec ts1 - tv_sec ts0) * 1000000000 + (tv_nsec ts1 - tv_nsec ts0).

(** The do-while loop: clock readings until ten milliseconds have passed. *)
Fixpoint wait_10ms (ts0 : timespec) (readings : list timespec) : option timespec :=
  match readings with
  | [] => None
  | ts1 :: readings' =>
      if elapsed_signed ts1 ts0 <? 10000000 then wait_10ms ts0 readings' else Some ts1
  end.

(** Both differences are converted to [uint64_t] before they are combined. *)
Definition elapsed_unsigned (ts1 ts0 : timespec) : Z :=
  u64 (u64 (tv_sec ts1 - tv_sec ts0) * 1000000000) +64 u64 (tv_nsec ts1 - tv_nsec ts0).

Definition measure_tsc (ts0 : timespec) (tsc0 : Z) (readings : list timespec) (tsc1 : Z)
    : option TscCalibration :=
  ts1 ← wait_10ms ts0 readings;
  Some (mkCalibration (elapsed_unsigned ts1 ts0) (tsc1 -64 tsc0)).

(** [eax], [ebx], [ecx]: the registers of CPUID leaf 0x15. *)
Definition calibrate_tsc (eax ebx ecx : Z) (ts0 : timespec) (tsc0 : Z) (readings : list timespec)
    (tsc1 : Z) : option TscCalibration :=
  if negb (eax =? 0) && negb (ebx =? 0) && negb (ecx =? 0)
  then Some (mkCalibration (u64 (eax * 1000000000)) (u64 (ecx * ebx)))
  else measure_tsc ts0 tsc0 readings tsc1.

(** The variant for x86-64: a 128-bit product, cut to 64 bits at the end. *)
Definition now_ns_tsc (c : TscCalibration) (tsc : Z) : option Z :=
  if denom c =? 0 then None else Some (u64 (wrap 128 (tsc * numer c) / denom c)).

(** The variant for Apple hardware: a 64-bit product. *)
Definition now_ns_mach (t tb_numer tb_denom : Z) : option Z :=
  if tb_denom =? 0 then None else Some (u64 (t * tb_numer) / tb_denom).

(** The portable variant. *)
Definition now_ns_posix (ts : timespec) : Z :=
  u64 (u64 (tv_sec ts) * 1000000000) +64 u64 (tv_nsec ts).

(** ** Properties *)

(** The unsigned arithmetic gives the signed difference whenever that is a
    64-bit number, also when the nanosecond part has decreased. *)
Lemma elapsed_unsigned_exact ts1 ts0 : in_range 64 (elapsed_signed ts1 ts0) ->
  elapsed_unsigned ts1 ts0 = elapsed_signed ts1 ts0.
Proof.
  intros H. unfold elapsed_unsigned. rewrite wrap_add_l, wrap_add_r.
  rewrite <- wrap_add_l, <- (wrap_small 64 (elapsed_signed ts1 ts0)) by done.
  unfold elapsed_signed, wrap. rewrite Zmult_mod_idemp_l, Zplus_mod_idemp_l. done.
Qed.

Lemma wait_10ms_long ts0 readings ts1 : wait_10ms ts0 readings = Some ts1 ->
  10000000 <= elapsed_signed ts1 ts0 /\ In ts1 readings.
Proof.
  induction readings as [|r rs IH]; [done|]. cbn [wait_10ms].
  destruct (Z.ltb_spec (elapsed_signed r ts0) 10000000).
  - intros E. destruct (IH E). split; [done|by right].
  - intros [= <-]. split; [done|by left].
Qed.

(** A calibration whose counter runs at one gigahertz or faster. *)
Record calibration_ok (c : TscCalibration) : Prop := {
  co_numer : 0 <= numer c;
  co_denom : numer c <= denom c < 2 ^ 64;
  co_pos : 0 < denom c
}.

Lemma now_ns_tsc_exact c tsc : calibration_ok c -> in_range 64 tsc ->
  now_ns_tsc c tsc = Some (tsc * numer c / denom c) /\ in_range 64 (tsc * numer c / denom c).
Proof.
  intros [Hn [Hd Hd2] Hp] Ht. unfold in_range in Ht.
  assert (Hprod : 0 <= tsc * numer c < 2 ^ 128) by (change (2 ^ 128) with (2 ^ 64 * 2 ^ 64); nia).
  assert (Hq : 0 <= tsc * numer c / denom c < 2 ^ 64).
  { split; [apply Z.div_pos; lia|]. apply Z.div_lt_upper_bound; nia. }
  unfold now_ns_tsc. rewrite (proj2 (Z.eqb_neq _ _)) by lia.
  rewrite (wrap_small 128) by exact Hprod. rewrite wrap_small by exact Hq. done.
Qed.

(** C40: the counter clock is exact and monotone.  For a counter of at least
    one gigahertz, at every 64-bit counter value the product does not
    overflow and the result is the exact quotient rounded down; a later
    counter value never gives an earlier time; and the time between two
    readings is the exact scaled difference to within one nanosecond. *)
Theorem tsc_clock_accurate c t1 t2 :
  calibration_ok c -> in_range 64 t1 -> in_range 64 t2 -> t1 <= t2 ->
  exists n1 n2, now_ns_tsc c t1 = Some n1 /\ now_ns_tsc c t2 = Some n2 /\ n1 <= n2 < 2 ^ 64
    /\ n1 * denom c <= t1 * numer c < (n1 + 1) * denom c
    /\ (n2 - n1 - 1) * denom c < (t2 - t1) * numer c < (n2 - n1 + 1) * denom c.
Proof.
  intros C H1 H2 Hle. destruct (now_ns_tsc_exact c t1 C H1) as [E1 R1].
  destruct (now_ns_tsc_exact c t2 C H2) as [E2 R2]. destruct C as [Hn Hd Hp].
  exists (t1 * numer c / denom c), (t2 * numer c / denom c). split; [done|]. split; [done|].
  assert (t1 * numer c / denom c <= t2 * numer c / denom c) by (apply Z.div_le_mono; nia).
  pose proof (Z.mul_div_le (t1 * numer c) (denom c) Hp).
  pose proof (Z.mul_succ_div_gt (t1 * numer c) (denom c) Hp).
  pose proof (Z.mul_div_le (t2 * numer c) (denom c) Hp).
  pose proof (Z.mul_succ_div_gt (t2 * numer c) (denom c) Hp).
  unfold in_range in *. split_and!; nia.
Qed.

(** The measured calibration is right.  Without CPUID leaf 0x15 the
    numerator is the exact number of nanoseconds between the two clock
    readings, at least ten million, also when the nanosecond field of the
    second reading is smaller than that of the first. *)
Theorem measured_calibration_exact ts0 tsc0 readings tsc1 c :
  calibrate_tsc 0 0 0 ts0 tsc0 readings tsc1 = Some c ->
  Forall (fun r => elapsed_signed r ts0 < 2 ^ 64) readings ->
  exists ts1, In ts1 readings /\ numer c = elapsed_signed ts1 ts0 /\ 10000000 <= numer c
    /\ denom c = u64 (tsc1 - tsc0).
Proof.
  intros Hc Hf. unfold calibrate_tsc, measure_tsc in Hc. cbn [negb andb Z.eqb] in Hc.
  destruct (wait_10ms ts0 readings) as [ts1|] eqn:E; [|done]. injection Hc as <-.
  destruct (wait_10ms_long _ _ _ E) as [Hl Hin]. exists ts1. cbn [numer denom].
  rewrite Forall_forall in Hf. specialize (Hf ts1 (proj2 (list_elem_of_In _ _) Hin)).
  rewrite elapsed_unsigned_exact by (unfold in_range; lia). done.
Qed.

(** ** Witnesses *)

(** A counter of 3 GHz described by CPUID: 24 MHz times 250 over 2. *)
Definition sample_calibration : TscCalibration :=
  default (mkCalibration 0 0) (calibrate_tsc 2 250 24000000 (mkTimespec 0 0) 0 [] 0).

Lemma tsc_clock_accurate_witness :
  exists n1 n2, now_ns_tsc sample_calibration 3000000000 = Some n1
    /\ now_ns_tsc sample_calibration 18446744073709551615 = Some n2 /\ n1 <= n2.
Proof.
  destruct (tsc_clock_accurate sample_calibration 3000000000 18446744073709551615)
    as (n1 & n2 & H1 & H2 & H3 & _).
  - split; vm_compute; repeat split; discriminate.
  - concrete.
  - concrete.
  - lia.
  - exists n1, n2. split; [exact H1|]. split; [exact H2|]. lia.
Defined.

Lemma measured_calibration_exact_witness :
  exists ts1, In ts1 [mkTimespec 6 3000000; mkTimespec 6 9999999; mkTimespec 6 10000000]
    /\ 10000000 = elapsed_signed ts1 (mkTimespec 5 999999999).
Proof.
  destruct (measured_calibration_exact (mkTimespec 5 999999999) 100
    [mkTimespec 6 3000000; mkTimespec 6 9999999; mkTimespec 6 10000000] 30000100
    (mkCalibration 10000000 30000000)) as (ts1 & H1 & H2 & _).
  - vm_compute. reflexivity.
  - repeat constructor.
  - exists ts1. split; [exact H1|exact H2].
Defined.
