(* ===== verification/Metrics.v ===== *)
(** * Statistics and the metrics reporter

    [FeedStats] and [MetricsReporter] ([include/monitoring/metrics_reporter.hpp],
    [src/monitoring/metrics_reporter.cpp]) and
    [LatencyHistogram::print_report].  A report is the list of the values it
    prints ([Line]); the text around them is left out.  The ranks that
    [percentile] computes in floating point are an argument, as in [Histogram].
    The reporter is handed a pointer to the histogram of the first shard and
    indexes it as an array; [shard_words] is the memory it walks through. *)

From S2P Require Import Prelude Types Histogram.

Record FeedStats := mkStats {
  packets_received : Z;
  packets_dropped : Z;
  fs_messages_parsed : Z;
  fs_sequence_gaps : Z;
  fs_sequence_dups : Z;
  fs_shard_queue_drops : list Z;
  price_level_drops : list Z;
  recovered_packets : Z;
  recovery_drops : Z;
  order_replaces_inplace : list Z;
  secondary_packets : Z;
  dedup_drops : Z;
  feed_failover_count : Z;
  merged_drops : Z;
  fs_msg_type_count : list Z
}.

Definition FeedStats0 : FeedStats :=
  mkStats 0 0 0 0 0 (replicate 8 0) (replicate 8 0) 0 0 (replicate 8 0) 0 0 0 0 (replicate 256 0).

(** The lines of a report with their values. *)
Inductive Line :=
  | Packets (received dropped : Z)
  | Messages (parsed : Z)
  | SequenceLine (gaps dups : Z)
  | RecoveryLine (recovered drops : Z)
  | Merger (secondary dedup failovers : Z) (warning : option Z)
  | Replaces (inplace : Z)
  | ShardDrops (total : Z) (per_shard : list Z)
  | PriceLevelDrops (total : Z) (per_shard : list Z)
  | NoSamples (label : option Z)
  | Latency (label : option Z) (n p50 p95 p99 p999 max : Z).

(** The sum loop over the shards; [None] reads past the counters. *)
Fixpoint sum_shards (cs : list Z) (n : nat) (total : Z) : option Z :=
  match n, cs with
  | O, _ => Some total
  | S n', c :: cs' => sum_shards cs' n' (total +64 c)
  | S _, [] => None
  end.

(** The label of a shard is its number, that of the parser [None]; [rank n p]
    is the rank of the [p]-permille percentile of [n] samples. *)
Definition print_histogram (rank : Z -> Z -> Z) (label : option Z) (h : LatencyHistogram) : Line :=
  let n := count_ h in
  if n =? 0 then NoSamples label
  else Latency label n (percentile h (rank n 500)) (percentile h (rank n 950))
         (percentile h (rank n 990)) (percentile h (rank n 999)) (max_ h).

(** ** Memory layout

    Words of eight bytes.  A histogram is 512 buckets, the count and the
    maximum, each of the three on cache lines of its own: 528 words.  A
    [ShardMem] has five pointers in front of its histogram, which begins on
    the next cache line: 536 words. *)

Definition hist_words (h : LatencyHistogram) : list Z :=
  buckets_ h ++ (count_ h :: replicate 7 0) ++ (max_ h :: replicate 7 0).

Definition sizeof_LatencyHistogram : nat := 528.

(** [ptrs]: the five pointers and the padding after them. *)
Record ShardMemWords := mkShardMem { ptrs : list Z; book_lat : LatencyHistogram }.

Definition shard_words (m : ShardMemWords) : list Z := ptrs m ++ hist_words (book_lat m).

Definition shard_mem_words (ms : list ShardMemWords) : list Z := concat (shard_words <$> ms).

(** The histogram at word offset [o]: [None] outside the array of shards. *)
Definition hist_at (ws : list Z) (o : nat) : option LatencyHistogram :=
  bs ← rd_bytes 512 (drop o ws);
  n ← ws !! (o + 512)%nat;
  mx ← ws !! (o + 520)%nat;
  Some (mkHist bs n mx).

(** [book_lat_shards_[i]], where [book_lat_shards_] is
    [&shard_mem_[0].book_lat]: after the eight words of pointers. *)
Definition book_lat_shards (ws : list Z) (i : nat) : option LatencyHistogram :=
  hist_at ws (8 + i * sizeof_LatencyHistogram).

Fixpoint print_shards (rank : Z -> Z -> Z) (ws : list Z) (ids : list nat) : option (list Line) :=
  match ids with
  | [] => Some []
  | i :: ids' =>
      h ← book_lat_shards ws i;
      rest ← print_shards rank ws ids';
      Some (print_histogram rank (Some (Z.of_nat i)) h :: rest)
  end.

(** ** Reporter *)

Definition print_report (rank : Z -> Z -> Z) (s : FeedStats) (num_shards : nat)
    (parse_lat : option LatencyHistogram) (shards : option (list Z)) : option (list Line) :=
  total_inplace ← sum_shards (order_replaces_inplace s) num_shards 0;
  total_queue_drops ← sum_shards (fs_shard_queue_drops s) num_shards 0;
  total_lvl_drops ← sum_shards (price_level_drops s) num_shards 0;
  lat ← (match shards with Some ws => print_shards rank ws (seq 0 num_shards) | None => Some [] end);
  Some ([Packets (packets_received s) (packets_dropped s);
         Messages (fs_messages_parsed s);
         SequenceLine (fs_sequence_gaps s) (fs_sequence_dups s);
         RecoveryLine (recovered_packets s) (recovery_drops s);
         Merger (secondary_packets s) (dedup_drops s) (feed_failover_count s)
           (if merged_drops s >? 0 then Some (merged_drops s) else None);
         Replaces total_inplace;
         ShardDrops total_queue_drops
           (if total_queue_drops >? 0 then take num_shards (fs_shard_queue_drops s) else [])]
        ++ (if total_lvl_drops >? 0
            then [PriceLevelDrops total_lvl_drops (take num_shards (price_level_drops s))] else [])
        ++ (match parse_lat with Some h => [print_histogram rank None h] | None => [] end)
        ++ lat).

(** [run]: the readings of [running_], before and after each sleep; the
    result is the number of reports printed. *)
Fixpoint reporter_run (readings : list (bool * bool)) : nat :=
  match readings with
  | (true, true) :: rs => S (reporter_run rs)
  | (true, false) :: _ => 0
  | (false, _) :: _ => 0
  | [] => 0
  end.

(** ** Lemmas *)

Lemma lookup_concat_chunks {A} (k : nat) (ls : list (list A)) i j l :
  Forall (fun l => length l = k) ls -> ls !! i = Some l -> (j < k)%nat ->
  concat ls !! (i * k + j)%nat = l !! j.
Proof.
  intros Hf. revert i. induction Hf as [|l0 ls Hl _ IH]; intros i Hi Hj; [done|]. cbn [concat].
  destruct i as [|i]; simpl in Hi.
  - injection Hi as ->. by rewrite lookup_app_l by lia.
  - rewrite lookup_app_r by lia. rewrite <- (IH i Hi Hj). f_equal. lia.
Qed.

Lemma sum_shards_zsum cs n total : (n <= length cs)%nat -> Forall (fun c => 0 <= c) cs ->
  0 <= total -> total + zsum (take n cs) < 2 ^ 64 ->
  sum_shards cs n total = Some (total + zsum (take n cs)).
Proof.
  intros Hn Hf. revert n total Hn. induction Hf as [|c cs Hc Hf IH]; intros [|n] total Hn Ht Hb;
    cbn [sum_shards take zsum foldr length] in *; try (f_equal; lia).
  assert (0 <= foldr Z.add 0 (take n cs)).
  { clear -Hf. revert n. induction Hf; intros [|n]; simpl; try lia. specialize (IHHf n). lia. }
  rewrite wrap_small by (unfold in_range; lia). rewrite IH; [f_equal|..]; unfold zsum in *; lia.
Qed.

Record shard_mem_ok (m : ShardMemWords) : Prop := {
  sm_ptrs : length (ptrs m) = 8%nat;
  sm_buckets : length (buckets_ (book_lat m)) = 512%nat
}.

Lemma shard_words_length m : shard_mem_ok m -> length (shard_words m) = 536%nat.
Proof.
  intros [Hp Hb]. unfold shard_words, hist_words. rewrite !length_app, Hp, Hb. reflexivity.
Qed.

(** A word of the array of shards. *)
Lemma shard_mem_lookup ms i m j : Forall shard_mem_ok ms -> ms !! i = Some m -> (j < 536)%nat ->
  shard_mem_words ms !! (i * 536 + j)%nat = shard_words m !! j.
Proof.
  intros Hf Hi Hj. apply lookup_concat_chunks; [|by rewrite list_lookup_fmap, Hi|done].
  apply Forall_fmap. eapply Forall_impl; [exact Hf|]. intros. by apply shard_words_length.
Qed.

(** The count the reporter reads for shard [i] is a bucket of that shard. *)
Lemma reporter_count_word ms i m : Forall shard_mem_ok ms -> ms !! i = Some m -> (0 < i < 64)%nat ->
  shard_mem_words ms !! (8 + i * sizeof_LatencyHistogram + 512)%nat = buckets_ (book_lat m) !! (512 - 8 * i)%nat.
Proof.
  intros Hf Hi Hr. unfold sizeof_LatencyHistogram.
  replace (8 + i * 528 + 512)%nat with (i * 536 + (8 + (512 - 8 * i)))%nat by lia.
  rewrite (shard_mem_lookup ms i m) by (done || lia).
  destruct (proj1 (Forall_lookup _ _) Hf i m Hi) as [Hp Hb].
  unfold shard_words, hist_words. rewrite lookup_app_r by lia. rewrite lookup_app_l by lia. f_equal. lia.
Qed.

(** The high buckets of a shard whose samples are all below half a
    millisecond are empty. *)
Lemma high_bucket_empty h l k : holds h l -> Forall (fun x => 0 <= x < 2 ^ 19) l -> (456 <= k < 512)%nat ->
  buckets_ h !! k = Some 0.
Proof.
  intros (_ & Hb & _) Hl Hk. specialize (Hb (Z.of_nat k)). rewrite Nat2Z.id in Hb. rewrite Hb.
  2: { unfold TOTAL_BUCKETS, LINEAR_BUCKETS, LOG_BUCKETS. lia. }
  f_equal. destruct (decide (0 < count_in l (Z.of_nat k))) as [Hp|]; [|unfold count_in in *; lia].
  apply count_in_pos in Hp as (x & Hin & Hx). rewrite Forall_forall in Hl. specialize (Hl x Hin).
  pose proof (bucket_mono x (2 ^ 19 - 1)) as Hm. change (bucket_for (2 ^ 19 - 1)) with 447 in Hm. lia.
Qed.

Lemma shard_mem_words_length ms : Forall shard_mem_ok ms ->
  length (shard_mem_words ms) = (536 * length ms)%nat.
Proof.
  induction 1 as [|m ms Hm _ IH]; [done|]. unfold shard_mem_words in *. cbn [fmap list_fmap concat length].
  rewrite length_app, shard_words_length, IH by done. lia.
Qed.

(** Every histogram the reporter indexes lies within the array of shards. *)
Lemma book_lat_shards_total ms i m : Forall shard_mem_ok ms -> ms !! i = Some m ->
  exists bs n mx, book_lat_shards (shard_mem_words ms) i = Some (mkHist bs n mx)
    /\ shard_mem_words ms !! (8 + i * sizeof_LatencyHistogram + 512)%nat = Some n.
Proof.
  intros Hf Hi. pose proof (shard_mem_words_length ms Hf) as Hl. apply lookup_lt_Some in Hi.
  unfold book_lat_shards, hist_at, sizeof_LatencyHistogram.
  rewrite rd_bytes_Some by (rewrite length_drop, Hl; lia). cbn [mbind option_bind].
  destruct (lookup_lt_is_Some_2 (shard_mem_words ms) (8 + i * 528 + 512)) as [n Hn]; [lia|].
  destruct (lookup_lt_is_Some_2 (shard_mem_words ms) (8 + i * 528 + 520)) as [mx Hmx]; [lia|].
  rewrite Hn, Hmx. cbn [mbind option_bind]. eauto 6.
Qed.

Lemma print_shards_lookup rank ws ids : (forall i, i ∈ ids -> exists h, book_lat_shards ws i = Some h) ->
  exists ls, print_shards rank ws ids = Some ls
    /\ forall k i h, ids !! k = Some i -> book_lat_shards ws i = Some h ->
         ls !! k = Some (print_histogram rank (Some (Z.of_nat i)) h).
Proof.
  induction ids as [|i ids IH]; intros Hh; [by exists []|]. cbn [print_shards].
  destruct (Hh i) as [h Hi]; [left|]. rewrite Hi. cbn [mbind option_bind].
  destruct IH as (ls & -> & Hls); [intros; apply Hh; by right|]. cbn [mbind option_bind].
  eexists. split; [done|]. intros [|k] j hj Hk Hj; simpl in *; [by simplify_eq|eauto].
Qed.

(** ** Properties *)

(** The report adds up the per-shard counters exactly.  When the sums
    fit in 64 bits the totals printed are the sums over the eight shards, the
    per-shard values are printed when a total is positive, and the warning
    about price levels appears exactly then. *)
Theorem report_totals_exact rank s parse_lat :
  Forall (fun cs => length cs = 8%nat /\ Forall (fun c => 0 <= c) cs /\ zsum cs < 2 ^ 64)
    [order_replaces_inplace s; fs_shard_queue_drops s; price_level_drops s] ->
  exists ls, print_report rank s 8 parse_lat None = Some ls
    /\ In (Replaces (zsum (order_replaces_inplace s))) ls
    /\ In (ShardDrops (zsum (fs_shard_queue_drops s))
             (if zsum (fs_shard_queue_drops s) >? 0 then fs_shard_queue_drops s else [])) ls
    /\ (forall t ds, In (PriceLevelDrops t ds) ls <->
          0 < zsum (price_level_drops s) /\ t = zsum (price_level_drops s) /\ ds = price_level_drops s).
Proof.
  intros Hf. rewrite !Forall_cons in Hf. destruct Hf as ((L1 & P1 & B1) & (L2 & P2 & B2) & (L3 & P3 & B3) & _).
  assert (Hsum : forall cs, length cs = 8%nat -> Forall (fun c => 0 <= c) cs -> zsum cs < 2 ^ 64 ->
    sum_shards cs 8 0 = Some (zsum cs)).
  { intros cs L P B. rewrite sum_shards_zsum; rewrite ?(take_ge cs 8) by lia; try done; lia. }
  unfold print_report. rewrite !Hsum by done. cbn [mbind option_bind]. eexists. split; [done|].
  rewrite !(take_ge _ 8) by lia. rewrite app_nil_r. split_and!; [right; right; right; right; right; left; done|do 6 right; left; done|].
  intros t ds. rewrite !in_app_iff, !Z.gtb_ltb.
  destruct (Z.ltb_spec 0 (zsum (price_level_drops s))); cbn [In]; split.
  - intros [H'|[H'|H']]; [cbn in H'; intuition discriminate|by destruct H' as [[= <- <-]|[]]|].
    destruct parse_lat as [h|]; [|done]. destruct H' as [H'|[]]. unfold print_histogram in H'. by case_match.
  - intros (_ & -> & ->). right. left. left. done.
  - intros [H'|[H'|H']]; [cbn in H'; intuition discriminate|by destruct H'|].
    destruct parse_lat as [h|]; [|done]. destruct H' as [H'|[]]. unfold print_histogram in H'. by case_match.
  - lia.
Qed.

(** The per-shard latencies are read from the wrong place.  The reporter
    indexes the histogram of shard 0 as if the histograms of the shards were
    adjacent, but each lies in a larger [ShardMem]: what it takes for the
    number of samples of shard 1 to 7 is one of that shard's high buckets.
    Whatever the shard has recorded, as long as every sample is below half a
    millisecond the report says that it has no samples. *)
Theorem shard_latency_misreported rank ms i m l :
  Forall shard_mem_ok ms -> length ms = 8%nat -> (0 < i)%nat -> ms !! i = Some m ->
  holds (book_lat m) l -> Forall (fun x => 0 <= x < 2 ^ 19) l ->
  exists ls, print_shards rank (shard_mem_words ms) (seq 0 8) = Some ls
    /\ ls !! i = Some (NoSamples (Some (Z.of_nat i))).
Proof.
  intros Hf Hl H0 Hi Hh Hx. assert (Hi8 : (i < 8)%nat) by (apply lookup_lt_Some in Hi; lia).
  destruct (print_shards_lookup rank (shard_mem_words ms) (seq 0 8)) as (ls & E & Hls).
  { intros j Hj. rewrite elem_of_seq in Hj. destruct (lookup_lt_is_Some_2 ms j) as [mj Hmj]; [lia|].
    destruct (book_lat_shards_total ms j mj Hf Hmj) as (? & ? & ? & -> & _). eauto. }
  exists ls. split; [done|]. destruct (book_lat_shards_total ms i m Hf Hi) as (bs & n & mx & Hb & Hn).
  rewrite (Hls i i _ (lookup_seq_lt 0 8 i Hi8) Hb). f_equal.
  rewrite (reporter_count_word ms i m Hf Hi) in Hn by lia.
  rewrite (high_bucket_empty (book_lat m) l) in Hn by (done || lia). injection Hn as <-. done.
Qed.

(** ** Witnesses *)

Lemma report_totals_exact_witness :
  exists ls, print_report (fun n p => n * p / 1000)
      (mkStats 9 0 5 0 0 (replicate 8 2) (replicate 8 0) 0 0 (replicate 8 1) 0 0 0 0 (replicate 256 0))
      8 None None = Some ls /\ In (ShardDrops 16 (replicate 8 2)) ls /\ In (Replaces 8) ls.
Proof.
  destruct (report_totals_exact (fun n p => n * p / 1000)
    (mkStats 9 0 5 0 0 (replicate 8 2) (replicate 8 0) 0 0 (replicate 8 1) 0 0 0 0 (replicate 256 0)) None)
    as (ls & H1 & H2 & H3 & _).
  - repeat constructor; discriminate.
  - exists ls. split; [exact H1|]. split; [exact H3|exact H2].
Defined.

Definition busy_shard (l : list Z) : ShardMemWords :=
  mkShardMem (replicate 8 7) (default hist_reset (record_all hist_reset l)).

Lemma shard_latency_misreported_witness :
  exists ls, print_shards (fun n p => n * p / 1000)
      (shard_mem_words (busy_shard [900] :: replicate 7 (busy_shard [300; 700]))) (seq 0 8) = Some ls
    /\ ls !! 3%nat = Some (NoSamples (Some 3)).
Proof.
  apply (shard_latency_misreported (fun n p => n * p / 1000)
    (busy_shard [900] :: replicate 7 (busy_shard [300; 700])) 3 (busy_shard [300; 700]) [700; 300]).
  - repeat constructor.
  - reflexivity.
  - lia.
  - reflexivity.
  - destruct (record_all_holds [300; 700] hist_reset [] holds_reset) as (h & E & Hh).
    + repeat constructor; discriminate.
    + simpl. lia.
    + unfold busy_shard. cbn [book_lat]. rewrite E. exact Hh.
  - repeat constructor; discriminate.
Defined.
