(* ===== verification/Config.v ===== *)
(** * Configuration

    [FeedHandlerConfig] and [load_config] ([include/app/feed_handler.hpp],
    [src/app/feed_handler.cpp]).  The parsed document comes from the toml++
    library: it is a record of the lookups [load_config] makes ([Toml]), and
    the result of [toml::parse_file] is an argument.  Strings are lists of
    bytes; a double is a dyadic rational. *)

From Stdlib Require Import String.
From S2P Require Import Prelude Types SnapshotFiles.

(** A finite [double] is [m * 2^e]. *)
Inductive double := Dyadic (m e : Z) | NonFinite.

(** The document: [tbl[name].as_table()], [value<T>()] of an entry for the
    types used, [as_array()] of an entry and [value<T>()] of an element. *)
Record Toml := mkToml {
  Table : Type;
  Elem : Type;
  as_table : string -> option Table;
  value_string : Table -> string -> option bytes;
  value_int : Table -> string -> option Z;
  value_bool : Table -> string -> option bool;
  value_double : Table -> string -> option double;
  as_array : Table -> string -> option (list Elem);
  elem_int : Elem -> option Z;
  elem_string : Elem -> option bytes
}.

Arguments as_table {t}.
Arguments value_string {t}.
Arguments value_int {t}.
Arguments value_bool {t}.
Arguments value_double {t}.
Arguments as_array {t}.
Arguments elem_int {t}.
Arguments elem_string {t}.

Record FeedHandlerConfig := mkConfig {
  multicast_group : bytes;
  port : Z;
  interface : bytes;
  multicast_group_secondary : bytes;
  port_secondary : Z;
  interface_secondary : bytes;
  failover_timeout_ms : Z;
  receiver_core : Z;
  parser_core : Z;
  shard_cores : list Z;
  recovery_core : Z;
  merger_core : Z;
  report_interval_sec : Z;
  gap_timeout_ms : Z;
  snapshot_interval_sec : Z;
  retransmit_address : bytes;
  retransmit_port : Z;
  retransmit_address_secondary : bytes;
  retransmit_port_secondary : Z;
  retransmit_username : bytes;
  retransmit_password : bytes;
  require_login : bool;
  snapshot_dir : bytes;
  snapshot_filename_template : bytes;
  initial_session : bytes;
  eod_archive_enabled : bool;
  watched_symbols : list bytes;
  last_sequence_dir : bytes;
  queue_full_alert_threshold : double
}.

(** The double nearest to 0.8. *)
Definition point_eight : double := Dyadic 3602879701896397 (-52).

Definition default_shard_cores : list Z := [3; 4; 5; 6; 7; 8; 9; 10].

Definition default_config : FeedHandlerConfig := {|
  multicast_group := str "233.54.12.111";
  port := 26477;
  interface := str "0.0.0.0";
  multicast_group_secondary := [];
  port_secondary := 0;
  interface_secondary := str "0.0.0.0";
  failover_timeout_ms := 5000;
  receiver_core := 1;
  parser_core := 2;
  shard_cores := default_shard_cores;
  recovery_core := 11;
  merger_core := 12;
  report_interval_sec := 10;
  gap_timeout_ms := 500;
  snapshot_interval_sec := 60;
  retransmit_address := str "198.51.100.1";
  retransmit_port := 17001;
  retransmit_address_secondary := [];
  retransmit_port_secondary := 0;
  retransmit_username := [];
  retransmit_password := [];
  require_login := false;
  snapshot_dir := str "/var/lib/itch/snapshots";
  snapshot_filename_template := str "itch_{session}_{timestamp}.snap";
  initial_session := str "AUTO_DETECT";
  eod_archive_enabled := true;
  watched_symbols := [];
  last_sequence_dir := str "/var/lib/itch";
  queue_full_alert_threshold := point_eight
|}.

(** [static_cast<int>] of a 64-bit integer. *)
Definition s32 (z : Z) : Z := let u := u32 z in if u <? 2 ^ 31 then u else u - 2 ^ 32.

Section Load.
Context (t : Toml).

(** [if (auto tab = tbl[section].as_table()) if (auto v = ...) field = *v]. *)
Definition entry {A} (section : string) (read : Table t -> option A) (old : A) : A :=
  match as_table section with
  | Some tab => default old (read tab)
  | None => old
  end.

Definition entry_string (section key : string) (old : bytes) : bytes :=
  entry section (fun tab => value_string tab key) old.
Definition entry_int (cast : Z -> Z) (section key : string) (old : Z) : Z :=
  entry section (fun tab => cast <$> value_int tab key) old.
Definition entry_bool (section key : string) (old : bool) : bool :=
  entry section (fun tab => value_bool tab key) old.

(** The loop over [shard_cores]: element [i] of the array, when it is an
    integer, replaces core [i]. *)
Definition set_cores (old : list Z) (arr : list (Elem t)) : list Z :=
  imap (fun i c => match arr !! i with
                   | Some el => default c (s32 <$> elem_int el)
                   | None => c
                   end) old.

Definition read_cores (old : list Z) (tab : Table t) : option (list Z) :=
  match as_array tab "shard_cores" with
  | Some arr => Some (set_cores old arr)
  | None => None
  end.

(** The elements of [watched_symbols] that are strings, in order. *)
Definition read_watched (tab : Table t) : option (list bytes) :=
  match as_array tab "watched_symbols" with
  | Some arr => Some (omap (elem_string (t := t)) arr)
  | None => None
  end.

Definition load_table : FeedHandlerConfig :=
  let d := default_config in {|
    multicast_group := entry_string "network" "multicast_group" (multicast_group d);
    port := entry_int u16 "network" "port" (port d);
    interface := entry_string "network" "interface" (interface d);
    multicast_group_secondary :=
      entry_string "network" "multicast_group_secondary" (multicast_group_secondary d);
    port_secondary := entry_int u16 "network" "port_secondary" (port_secondary d);
    interface_secondary := entry_string "network" "interface_secondary" (interface_secondary d);
    failover_timeout_ms := entry_int u64 "network" "failover_timeout_ms" (failover_timeout_ms d);
    receiver_core := entry_int s32 "threads" "receiver_core" (receiver_core d);
    parser_core := entry_int s32 "threads" "parser_core" (parser_core d);
    shard_cores := entry "threads" (read_cores (shard_cores d)) (shard_cores d);
    recovery_core := entry_int s32 "threads" "recovery_core" (recovery_core d);
    merger_core := entry_int s32 "threads" "merger_core" (merger_core d);
    report_interval_sec := entry_int u32 "monitoring" "report_interval_sec" (report_interval_sec d);
    gap_timeout_ms := entry_int u64 "recovery" "gap_timeout_ms" (gap_timeout_ms d);
    snapshot_interval_sec := entry_int u32 "recovery" "snapshot_interval_sec" (snapshot_interval_sec d);
    retransmit_address := entry_string "recovery" "retransmit_address" (retransmit_address d);
    retransmit_port := entry_int u16 "recovery" "retransmit_port" (retransmit_port d);
    retransmit_address_secondary :=
      entry_string "recovery" "retransmit_address_secondary" (retransmit_address_secondary d);
    retransmit_port_secondary :=
      entry_int u16 "recovery" "retransmit_port_secondary" (retransmit_port_secondary d);
    retransmit_username := entry_string "recovery" "retransmit_username" (retransmit_username d);
    retransmit_password := entry_string "recovery" "retransmit_password" (retransmit_password d);
    require_login := entry_bool "recovery" "require_login" (require_login d);
    snapshot_dir := entry_string "recovery" "snapshot_directory" (snapshot_dir d);
    snapshot_filename_template :=
      entry_string "recovery" "snapshot_filename_template" (snapshot_filename_template d);
    initial_session := entry_string "session" "initial_session" (initial_session d);
    eod_archive_enabled := entry_bool "session" "eod_archive_enabled" (eod_archive_enabled d);
    watched_symbols := entry "session" read_watched (watched_symbols d);
    last_sequence_dir := entry_string "persistence" "last_sequence_dir" (last_sequence_dir d);
    queue_full_alert_threshold :=
      entry "sharding" (fun tab => value_double tab "queue_full_alert_threshold")
        (queue_full_alert_threshold d)
  |}.

End Load.

Arguments entry : simpl never.
Arguments entry_int : simpl never.

(** [inl]: the parse error, which is thrown on to the caller. *)
Definition load_config {E} (parsed : E + Toml) : E + FeedHandlerConfig :=
  match parsed with
  | inl e => inl e
  | inr t => inr (load_table t)
  end.

(** [static_cast<std::size_t>(SHARD_QUEUE_DEPTH * threshold)]: the product with
    a power of two is exact; [None] when the truncated value is not a
    [size_t], which leaves the conversion undefined. *)
Definition pressure_threshold (d : double) : option Z :=
  match d with
  | NonFinite => None
  | Dyadic m e =>
      let k := e + 18 in
      let v := if 0 <=? k then m * 2 ^ k else Z.quot m (2 ^ (- k)) in
      if decide (in_range 64 v) then Some v else None
  end.

(** ** Properties *)

Record config_typed (c : FeedHandlerConfig) : Prop := {
  ct_ports : Forall (in_range 16)
    [port c; port_secondary c; retransmit_port c; retransmit_port_secondary c];
  ct_u64 : Forall (in_range 64) [failover_timeout_ms c; gap_timeout_ms c];
  ct_u32 : Forall (in_range 32) [report_interval_sec c; snapshot_interval_sec c];
  ct_cores : Forall (fun k => - 2 ^ 31 <= k < 2 ^ 31)
    (receiver_core c :: parser_core c :: recovery_core c :: merger_core c :: shard_cores c);
  ct_shards : length (shard_cores c) = Z.to_nat NUM_SHARDS
}.

Lemma s32_range z : - 2 ^ 31 <= s32 z < 2 ^ 31.
Proof. unfold s32. destruct (Z.ltb_spec (u32 z) (2 ^ 31)); range_lia. Qed.

Lemma s32_small z : - 2 ^ 31 <= z < 2 ^ 31 -> s32 z = z.
Proof. intros Hz. unfold s32. destruct (Z.ltb_spec (u32 z) (2 ^ 31)); range_lia. Qed.

Lemma entry_ind (t : Toml) {A} (P : A -> Prop) section (read : Table t -> option A) old :
  P old -> (forall tab v, read tab = Some v -> P v) -> P (entry t section read old).
Proof.
  intros Ho Hr. unfold entry. destruct (as_table section) as [tab|]; [|done].
  destruct (read tab) as [v|] eqn:E; simpl; eauto.
Qed.

Lemma entry_int_ind t (P : Z -> Prop) cast section key old :
  P old -> (forall z, P (cast z)) -> P (entry_int t cast section key old).
Proof.
  intros Ho Hc. unfold entry_int. apply entry_ind; [done|]. intros tab v Hv. apply fmap_Some in Hv as (z & _ & ->). apply Hc.
Qed.

Lemma set_cores_range t old arr : Forall (fun k => - 2 ^ 31 <= k < 2 ^ 31) old ->
  Forall (fun k => - 2 ^ 31 <= k < 2 ^ 31) (set_cores t old arr)
  /\ length (set_cores t old arr) = length old.
Proof.
  intros Hf. unfold set_cores. split; [|apply length_imap]. apply Forall_lookup. intros i x Hx.
  rewrite list_lookup_imap in Hx. apply fmap_Some in Hx as (c & Hc & ->).
  pose proof (proj1 (Forall_lookup _ _) Hf i c Hc). destruct (arr !! i) as [el|]; [|done].
  destruct (elem_int el); simpl; [apply s32_range|done].
Qed.

(** A loaded configuration is well typed.  Whatever integers the document
    holds, every field of the result is a value of its C++ type, and there
    are always eight shard cores, however long the array in the document
    is. *)
Theorem load_config_typed {E} (parsed : E + Toml) c :
  load_config parsed = inr c -> config_typed c.
Proof.
  destruct parsed as [|t]; [done|]. intros [= <-]. unfold load_table.
  assert (Hc : Forall (fun k => - 2 ^ 31 <= k < 2 ^ 31)
      (entry t "threads" (read_cores t default_shard_cores) default_shard_cores)
    /\ length (entry t "threads" (read_cores t default_shard_cores) default_shard_cores) = 8%nat).
  { assert (Hd : Forall (fun k => - 2 ^ 31 <= k < 2 ^ 31) default_shard_cores)
      by (repeat constructor; discriminate).
    apply (entry_ind t (fun l => Forall (fun k => - 2 ^ 31 <= k < 2 ^ 31) l /\ length l = 8%nat));
      [done|]. intros tab v Hv. unfold read_cores in Hv. destruct (as_array tab _) as [arr|]; [|done].
    injection Hv as <-. by apply (set_cores_range t default_shard_cores arr). }
  split; cbn; repeat (apply Forall_cons; split); try apply Forall_nil; try exact I; try apply Hc.
  all: apply entry_int_ind; [cbn; concrete|intros; first [apply wrap_range; lia | apply s32_range]].
Qed.

(** Out-of-range numbers are cut silently.  An integer given for a port
    reaches the handler modulo 65536 and one given for a time modulo 2^64: a
    negative timeout becomes an enormous one and no error is reported. *)
Theorem config_integers_wrap {E} (t : Toml) net rec_tab p ms :
  as_table (t := t) "network" = Some net -> value_int net "port" = Some p ->
  as_table (t := t) "recovery" = Some rec_tab -> value_int rec_tab "gap_timeout_ms" = Some ms ->
  exists c, load_config (@inr E Toml t) = inr c /\ port c = p mod 65536 /\ gap_timeout_ms c = ms mod 2 ^ 64.
Proof.
  intros H1 H2 H3 H4. exists (load_table t). split; [done|].
  unfold load_table, entry_int, entry. cbn [port gap_timeout_ms]. by rewrite H1, H2, H3, H4.
Qed.

(** For a threshold between 0 and 1 the pressure level lies within the
    queue. *)
Lemma pressure_threshold_range m e : 0 <= m -> e <= 0 -> m <= 2 ^ (- e) ->
  exists v, pressure_threshold (Dyadic m e) = Some v /\ 0 <= v <= SHARD_QUEUE_DEPTH.
Proof.
  intros Hm He Hle. unfold pressure_threshold. change SHARD_QUEUE_DEPTH with (2 ^ 18).
  set (v := if 0 <=? e + 18 then m * 2 ^ (e + 18) else m ÷ 2 ^ (- (e + 18))).
  assert (Hv : 0 <= v <= 2 ^ 18).
  { subst v. destruct (Z.leb_spec 0 (e + 18)).
    - split; [apply Z.mul_nonneg_nonneg; [done|apply Z.pow_nonneg; lia]|].
      replace (2 ^ 18) with (2 ^ (- e) * 2 ^ (e + 18)) by (rewrite <- Z.pow_add_r by lia; f_equal; lia).
      apply Z.mul_le_mono_nonneg_r; [apply Z.pow_nonneg; lia|done].
    - assert (0 < 2 ^ (- (e + 18))) by (apply Z.pow_pos_nonneg; lia).
      split; [apply Z.quot_pos; lia|]. rewrite Z.quot_div_nonneg by lia.
      apply Z.div_le_upper_bound; [done|]. rewrite <- Z.pow_add_r by lia.
      by replace (- (e + 18) + 18) with (- e) by lia. }
  exists v. rewrite decide_True; [done|]. unfold in_range. change (2 ^ 64) with (2 ^ 18 * 2 ^ 46). lia.
Qed.

Example pressure_default : pressure_threshold point_eight = Some 209715.
Proof. reflexivity. Qed.

(** *** The configuration file *)

(** A document as the file lists it: settings, each in a section. *)
Inductive Value :=
  | VString (v : bytes) | VInt (v : Z) | VBool (v : bool) | VDouble (v : double)
  | VInts (v : list Z) | VStrings (v : list bytes).

Abbreviation Row := (string * string * Value)%type.

(** The settings of [config/feed_handler.toml], with the values of [c]; the
    sections are also named in the comments of [FeedHandlerConfig]. *)
Definition settings (c : FeedHandlerConfig) : list Row := [
  ("network", "multicast_group", VString (multicast_group c));
  ("network", "port", VInt (port c));
  ("network", "interface", VString (interface c));
  ("network", "multicast_group_secondary", VString (multicast_group_secondary c));
  ("network", "port_secondary", VInt (port_secondary c));
  ("network", "interface_secondary", VString (interface_secondary c));
  ("network", "failover_timeout_ms", VInt (failover_timeout_ms c));
  ("threads", "receiver_core", VInt (receiver_core c));
  ("threads", "parser_core", VInt (parser_core c));
  ("threads", "shard_cores", VInts (shard_cores c));
  ("threads", "recovery_core", VInt (recovery_core c));
  ("threads", "merger_core", VInt (merger_core c));
  ("monitoring", "report_interval_sec", VInt (report_interval_sec c));
  ("recovery", "gap_timeout_ms", VInt (gap_timeout_ms c));
  ("recovery", "snapshot_interval_sec", VInt (snapshot_interval_sec c));
  ("recovery", "retransmit_address", VString (retransmit_address c));
  ("recovery", "retransmit_port", VInt (retransmit_port c));
  ("recovery", "retransmit_address_secondary", VString (retransmit_address_secondary c));
  ("recovery", "retransmit_port_secondary", VInt (retransmit_port_secondary c));
  ("recovery", "retransmit_username", VString (retransmit_username c));
  ("recovery", "retransmit_password", VString (retransmit_password c));
  ("recovery", "require_login", VBool (require_login c));
  ("recovery", "snapshot_directory", VString (snapshot_dir c));
  ("recovery", "snapshot_filename_template", VString (snapshot_filename_template c));
  ("session", "initial_session", VString (initial_session c));
  ("session", "eod_archive_enabled", VBool (eod_archive_enabled c));
  ("session", "watched_symbols", VStrings (watched_symbols c));
  ("persistence", "last_sequence_dir", VString (last_sequence_dir c));
  ("sharding", "queue_full_alert_threshold", VDouble (queue_full_alert_threshold c))
]%string.

(** The value of a key in a section of a document. *)
Fixpoint find_row (d : list Row) (section key : string) : option Value :=
  match d with
  | [] => None
  | (s, k, v) :: d' => if decide ((s, k) = (section, key)) then Some v else find_row d' section key
  end.

(** What toml++ documents of its lookups, for a parsed document [t] with the
    settings [d]: a section exists if a setting is in it; [value<T>] of an
    entry of type [T] is its value and [as_array] of an array are its
    elements; an entry that is not there has neither. *)
Record parsed_from (t : Toml) (d : list Row) : Prop := {
  pf_section s k v : find_row d s k = Some v -> is_Some (as_table (t := t) s);
  pf_entry s k (tab : Table t) : as_table s = Some tab ->
    match find_row d s k with
    | Some (VString x) => value_string tab k = Some x
    | Some (VInt x) => value_int tab k = Some x
    | Some (VBool x) => value_bool tab k = Some x
    | Some (VDouble x) => value_double tab k = Some x
    | Some (VInts l) => exists els, as_array tab k = Some els /\ elem_int (t := t) <$> els = Some <$> l
    | Some (VStrings l) => exists els, as_array tab k = Some els /\ elem_string (t := t) <$> els = Some <$> l
    | None => value_string tab k = None /\ value_int tab k = None /\ value_bool tab k = None
        /\ value_double tab k = None /\ as_array tab k = None
    end
}.

Lemma find_row_elem d s k v : NoDup (d.*1) -> (s, k, v) ∈ d <-> find_row d s k = Some v.
Proof.
  induction d as [|[[s' k'] v'] d IH]; intros Hn; cbn [find_row fmap list_fmap fst] in *; [by rewrite elem_of_nil|].
  apply NoDup_cons in Hn as [Hni Hn]. rewrite elem_of_cons, IH by done. case_decide as E.
  - injection E as -> ->. split; [|intros [= ->]; by left]. intros [[= ->]|Hd]; [done|]. exfalso. apply Hni.
    apply list_elem_of_fmap. exists (s, k, v). split; [done|by apply IH].
  - split; [|by right]. intros [[= -> -> ->]|]; done.
Qed.

(** The keys do not depend on the configuration, and none is there twice. *)
Lemma settings_nodup c : NoDup ((settings c).*1).
Proof. apply (bool_decide_unpack _). vm_compute. exact I. Qed.

Lemma ct_fits c : config_typed c -> in_range 16 (port c) /\ in_range 16 (port_secondary c) /\ in_range 16 (retransmit_port c)
  /\ in_range 16 (retransmit_port_secondary c) /\ in_range 64 (failover_timeout_ms c) /\ in_range 64 (gap_timeout_ms c)
  /\ in_range 32 (report_interval_sec c) /\ in_range 32 (snapshot_interval_sec c)
  /\ (- 2 ^ 31 <= receiver_core c < 2 ^ 31) /\ (- 2 ^ 31 <= parser_core c < 2 ^ 31)
  /\ (- 2 ^ 31 <= recovery_core c < 2 ^ 31) /\ (- 2 ^ 31 <= merger_core c < 2 ^ 31).
Proof. intros [P Q U C _]. rewrite !Forall_cons in *. tauto. Qed.

Section ReadBack.
Context (t : Toml) (c : FeedHandlerConfig) (keep : Row -> bool).
Let d : list Row := filter (fun r => keep r = true) (settings c).
Context (Ht : parsed_from t d) (Hd : forall r, r ∈ settings c -> keep r = false -> r ∈ settings default_config).

(** A setting of [c] is in the document, or the default is the same. *)
Lemma kept_row s k v : find_row (settings c) s k = Some v ->
  find_row d s k = Some v \/ find_row d s k = None /\ find_row (settings default_config) s k = Some v.
Proof.
  intros Hv. apply find_row_elem in Hv; [|apply settings_nodup].
  assert (Hn : NoDup (d.*1)) by (eapply sublist_NoDup; [apply settings_nodup|apply fmap_sublist, sublist_filter]).
  destruct (keep (s, k, v)) eqn:Hk.
  - left. apply find_row_elem; [done|]. by apply list_elem_of_filter.
  - right. split; [|apply find_row_elem; [apply settings_nodup|by apply Hd]].
    destruct (find_row d s k) as [v'|] eqn:E; [|done]. apply find_row_elem in E; [|done].
    apply list_elem_of_filter in E as [Hk' E]. apply find_row_elem in E, Hv; [|apply settings_nodup..]. congruence.
Qed.

(** An entry read from the document or, failing that, left at its default. *)
Lemma entry_back {A} s k v (read : Table t -> option A) x :
  find_row (settings c) s k = Some v ->
  (forall tab, as_table s = Some tab -> find_row d s k = Some v -> read tab = Some x) ->
  forall old, (forall tab, as_table s = Some tab -> find_row d s k = None -> read tab = None) ->
  (find_row (settings default_config) s k = Some v -> old = x) -> entry t s read old = x.
Proof.
  intros Hv Hr old Hn Ho. unfold entry. destruct (kept_row s k v Hv) as [Hf|[Hf Hdef]].
  - destruct (pf_section t d Ht _ _ _ Hf) as [tab Htab]. by rewrite Htab, (Hr tab Htab Hf).
  - destruct (as_table s) as [tab|] eqn:Htab; [|by apply Ho]. by rewrite (Hn tab) by done; apply Ho.
Qed.

(** What [parsed_from] says of a setting, given what the document has of it. *)
Ltac lookup_entry Hentry :=
  let tab := fresh "tab" in let Htab := fresh "Htab" in let Hf := fresh "Hf" in
  intros tab Htab Hf;
  match type of Hf with find_row _ ?s ?k = _ => pose proof (pf_entry t d Ht s k tab Htab) as Hentry end; rewrite Hf in Hentry.

Lemma string_back s k x w : find_row (settings c) s k = Some (VString x) ->
  find_row (settings default_config) s k = Some (VString w) -> entry_string t s k w = x.
Proof. intros Hx Hw. apply (entry_back s k (VString x)); [done|by lookup_entry He|lookup_entry He; tauto|congruence]. Qed.

Lemma int_back cast s k x w : find_row (settings c) s k = Some (VInt x) ->
  find_row (settings default_config) s k = Some (VInt w) -> cast x = x -> entry_int t cast s k w = x.
Proof.
  intros Hx Hw Hc. apply (entry_back s k (VInt x)); [done|lookup_entry He; rewrite He; cbn; by rewrite Hc|..|congruence].
  lookup_entry He. by destruct He as (_ & -> & _).
Qed.

Lemma bool_back s k x w : find_row (settings c) s k = Some (VBool x) ->
  find_row (settings default_config) s k = Some (VBool w) -> entry_bool t s k w = x.
Proof. intros Hx Hw. apply (entry_back s k (VBool x)); [done|by lookup_entry He|lookup_entry He; tauto|congruence]. Qed.

Lemma double_back s k x w : find_row (settings c) s k = Some (VDouble x) ->
  find_row (settings default_config) s k = Some (VDouble w) -> entry t s (fun tab => value_double tab k) w = x.
Proof. intros Hx Hw. apply (entry_back s k (VDouble x)); [done|by lookup_entry He|lookup_entry He; tauto|congruence]. Qed.

Lemma watched_back : entry t "session" (read_watched t) [] = watched_symbols c.
Proof.
  apply (entry_back "session" "watched_symbols" (VStrings (watched_symbols c))); [done|..|by intros [= <-]];
    lookup_entry He; unfold read_watched.
  - destruct He as (els & -> & Hl). f_equal. clear -Hl. revert Hl. generalize (watched_symbols c) as l.
    induction els as [|el els IH]; intros [|x l] Hl; try done. cbn in *. injection Hl as -> Hl. cbn. f_equal. by apply IH.
  - by destruct He as (_ & _ & _ & _ & ->).
Qed.

(** Eight cores in the document replace all of them. *)
Lemma set_cores_all els old l : elem_int (t := t) <$> els = Some <$> l -> length old = length l ->
  Forall (fun k => - 2 ^ 31 <= k < 2 ^ 31) l -> set_cores t old els = l.
Proof.
  intros He Hl Hr. apply list_eq. intros i. unfold set_cores. rewrite list_lookup_imap.
  assert (Hi : elem_int (t := t) <$> (els !! i) = Some <$> (l !! i)) by (rewrite <- !list_lookup_fmap; by rewrite He).
  destruct (l !! i) as [x|] eqn:Ex.
  - destruct (els !! i) as [el|]; [|done]. injection Hi as Hi. rewrite Hi.
    destruct (lookup_lt_is_Some_2 old i) as [o ->]; [rewrite Hl; by eapply lookup_lt_Some|]. cbn. f_equal.
    apply s32_small. by eapply (Forall_lookup_1 _ _ _ _ Hr).
  - by rewrite (proj2 (lookup_ge_None old i)) by (rewrite Hl; by apply lookup_ge_None).
Qed.

Lemma cores_back : config_typed c -> entry t "threads" (read_cores t default_shard_cores) default_shard_cores = shard_cores c.
Proof.
  intros Hc. apply (entry_back "threads" "shard_cores" (VInts (shard_cores c))); [done|..|by intros [= <-]];
    lookup_entry He; unfold read_cores.
  - destruct He as (els & -> & Hl). f_equal. apply set_cores_all; [done|by rewrite (ct_shards c Hc)|].
    pose proof (ct_cores c Hc) as Hr. by repeat apply Forall_cons in Hr as [_ Hr].
  - by destruct He as (_ & _ & _ & _ & ->).
Qed.

End ReadBack.

(** C39: what the configuration file says is what the handler is given.  Take any
    configuration whose numbers fit their fields and a file that lists its
    settings in the sections and under the keys of [config/feed_handler.toml],
    in which settings that have their default value may be left out: then
    [load_config] returns exactly that configuration. *)
Theorem load_config_reads_back {E} (t : Toml) (c : FeedHandlerConfig) (keep : Row -> bool) :
  config_typed c -> parsed_from t (filter (fun r => keep r = true) (settings c)) ->
  (forall r, r ∈ settings c -> keep r = false -> r ∈ settings default_config) ->
  load_config (@inr E Toml t) = inr c.
Proof.
  intros Hc Ht Hd. cbn [load_config]. f_equal. transitivity (mkConfig (multicast_group c) (port c) (interface c)
    (multicast_group_secondary c) (port_secondary c) (interface_secondary c) (failover_timeout_ms c) (receiver_core c)
    (parser_core c) (shard_cores c) (recovery_core c) (merger_core c) (report_interval_sec c) (gap_timeout_ms c)
    (snapshot_interval_sec c) (retransmit_address c) (retransmit_port c) (retransmit_address_secondary c)
    (retransmit_port_secondary c) (retransmit_username c) (retransmit_password c) (require_login c) (snapshot_dir c)
    (snapshot_filename_template c) (initial_session c) (eod_archive_enabled c) (watched_symbols c) (last_sequence_dir c)
    (queue_full_alert_threshold c)); [|by destruct c].
  destruct (ct_fits c Hc) as (P1 & P2 & P3 & P4 & Q1 & Q2 & U1 & U2 & C1 & C2 & C3 & C4). unfold load_table.
  f_equal; first [ by apply (string_back t c keep Ht Hd) | by apply (bool_back t c keep Ht Hd) | by apply (double_back t c keep Ht Hd)
    | apply (int_back t c keep Ht Hd); [done|done|by first [apply wrap_small | apply s32_small]]
    | by apply (watched_back t c keep Ht Hd) | by apply (cores_back t c keep Ht Hd) ].
Qed.

(** ** Witnesses *)

(** A document with a port, a gap timeout and three shard cores. *)
Definition sample_toml : Toml := {|
  Table := nat;
  Elem := Z;
  as_table s := if String.eqb s "network" then Some 0%nat
                else if String.eqb s "recovery" then Some 1%nat
                else if String.eqb s "threads" then Some 2%nat else None;
  value_string _ _ := None;
  value_int tab k := if String.eqb k "port" then Some 70000
                     else if String.eqb k "gap_timeout_ms" then Some (-1) else None;
  value_bool _ _ := None;
  value_double _ _ := None;
  as_array tab k := Some [0; 1; 2];
  elem_int x := Some x;
  elem_string _ := None
|}.

Lemma load_config_typed_witness : config_typed (load_table sample_toml)
  /\ shard_cores (load_table sample_toml) = [0; 1; 2; 6; 7; 8; 9; 10].
Proof. split; [|reflexivity]. apply (load_config_typed (E := unit) (inr sample_toml)). reflexivity. Defined.

Lemma config_integers_wrap_witness :
  exists c, load_config (@inr unit Toml sample_toml) = inr c /\ port c = 4464
    /\ gap_timeout_ms c = 18446744073709551615.
Proof.
  apply (config_integers_wrap (E := unit) sample_toml 0%nat 1%nat 70000 (-1)); reflexivity.
Defined.

(** Lookups by scanning the settings. *)
Definition document (d : list Row) : Toml := {|
  Table := string;
  Elem := Z + bytes;
  as_table s := if existsb (fun r => String.eqb r.1.1 s) d then Some s else None;
  value_string tab k := match find_row d tab k with Some (VString x) => Some x | _ => None end;
  value_int tab k := match find_row d tab k with Some (VInt x) => Some x | _ => None end;
  value_bool tab k := match find_row d tab k with Some (VBool x) => Some x | _ => None end;
  value_double tab k := match find_row d tab k with Some (VDouble x) => Some x | _ => None end;
  as_array tab k := match find_row d tab k with
                    | Some (VInts l) => Some (inl <$> l)
                    | Some (VStrings l) => Some (inr <$> l)
                    | _ => None
                    end;
  elem_int x := match x with inl z => Some z | inr _ => None end;
  elem_string x := match x with inl _ => None | inr b => Some b end
|}.

Lemma document_parsed d : parsed_from (document d) d.
Proof.
  split.
  - intros s k v. cbn [as_table document]. induction d as [|[[s' k'] v'] d IH]; [done|]. cbn [find_row existsb fst].
    destruct (decide ((s', k') = (s, k))) as [[= -> ->]|Hne]; [by rewrite String.eqb_refl|].
    intros Hv. destruct (IH Hv) as [x Hx]. destruct (existsb _ d); [|done]. rewrite orb_true_r. done.
  - intros s k tab. cbn. destruct (existsb _ d); [|done]. intros [= <-].
    destruct (find_row d s k) as [[]|]; try done; eexists; (split; [done|]); rewrite <- list_fmap_compose; done.
Qed.

(** A file with two settings. *)
Definition two_settings : FeedHandlerConfig := {|
  multicast_group := multicast_group default_config; port := 40000; interface := interface default_config;
  multicast_group_secondary := []; port_secondary := 0; interface_secondary := interface_secondary default_config;
  failover_timeout_ms := 5000; receiver_core := 1; parser_core := 2; shard_cores := default_shard_cores;
  recovery_core := 11; merger_core := 12; report_interval_sec := 10; gap_timeout_ms := 500; snapshot_interval_sec := 60;
  retransmit_address := retransmit_address default_config; retransmit_port := 17001; retransmit_address_secondary := [];
  retransmit_port_secondary := 0; retransmit_username := []; retransmit_password := []; require_login := false;
  snapshot_dir := snapshot_dir default_config; snapshot_filename_template := snapshot_filename_template default_config;
  initial_session := initial_session default_config; eod_archive_enabled := true; watched_symbols := [str "AAPL    "];
  last_sequence_dir := last_sequence_dir default_config; queue_full_alert_threshold := point_eight
|}.

Definition listed (r : Row) : bool := String.eqb r.1.2 "port" || String.eqb r.1.2 "watched_symbols".

Lemma load_config_reads_back_witness :
  filter (fun r => listed r = true) (settings two_settings)
    = [("network", "port", VInt 40000); ("session", "watched_symbols", VStrings [str "AAPL    "])]%string
  /\ load_config (@inr unit Toml (document (filter (fun r => listed r = true) (settings two_settings)))) = inr two_settings.
Proof.
  split; [reflexivity|]. apply (load_config_reads_back (document (filter (fun r => listed r = true) (settings two_settings)))
    two_settings listed); [|apply document_parsed|].
  - split; [repeat (apply Forall_cons; split); try apply Forall_nil; try exact I; concrete..|reflexivity].
  - intros r Hr Hk. unfold settings in Hr. unfold settings.
    repeat (apply elem_of_cons in Hr as [->|Hr]; [first [discriminate Hk | repeat first [left; reflexivity | right]]|]).
    by apply elem_of_nil in Hr.
Defined.
