(* ===== verification/HandlerMemory.v ===== *)
(** * Memory of the feed handler

    [FeedHandler::allocate_memory] and the destructor [~FeedHandler]
    ([src/app/feed_handler.cpp]), with the allocation in the constructor of
    [OrderBookPool] and the release in its destructor.  Only the blocks are
    modelled here; what is put into them is in the files of the components. *)

From stdpp Require Import gmap.
From S2P Require Import Prelude Types System Config Worker.

(** Sizes of the blocks of a shard; the sizes of the structs are asserted or
    documented in their headers. *)
Definition pool_bytes : Z := MAX_ORDERS_PER_SHARD * (32 + 4).
Definition map_bytes : Z := ORDER_MAP_CAPACITY * 16.
Definition slab_bytes : Z := BOOKS_PER_SHARD * 32896.

(** The pointers of a [ShardMem]; [slab_mem] and [mem_bytes_] are [mem_] and
    [mem_bytes_] of its book pool. *)
Record ShardPtrs := mkPtrs {
  order_pool_mem : option Z;
  order_map_mem : option Z;
  slab_mem : option Z;
  mem_bytes_ : Z
}.

Definition no_ptrs : ShardPtrs := mkPtrs None None None 0.

Record HandlerMem := mkHandlerMem {
  ring_buf_ : option Z;
  secondary_ring_buf_ : option Z;
  shard_mem_ : list ShardPtrs
}.

(** The allocators' answers for the three blocks of a shard and for a ring
    buffer. *)
Record ShardAnswers := mkShardAnswers {
  pool_answer : AllocAnswer;
  map_answer : AllocAnswer;
  slab_answer : AllocAnswer
}.

Record RingAnswer := mkRingAnswer { huge : option Z; regular : option Z; posix : option Z }.

(** The constructor of [OrderBookPool] asks for the memory of the books:
    [mem_] and [mem_bytes_], which stays zero when there is none; the books it
    puts there are [new_slab] of [Worker]. *)
Definition alloc_slab (p : Platform) (h : Heap) (node : Z) (a : AllocAnswer) : option Z * Z * Heap :=
  let mem_bytes := slab_bytes in
  let '(mem, h') := alloc_on_numa p h mem_bytes node a in
  match mem with
  | None => (None, 0, h')
  | Some _ => (mem, mem_bytes, h')
  end.

(** One iteration of the loop over the shards. *)
Definition alloc_shard (p : Platform) (h : Heap) (node : Z) (a : ShardAnswers)
    : bool * ShardPtrs * Heap :=
  let '(pm, h1) := alloc_on_numa p h pool_bytes node (pool_answer a) in
  match pm with
  | None => (false, no_ptrs, h1)
  | Some _ =>
      let '(mm, h2) := alloc_on_numa p h1 map_bytes node (map_answer a) in
      match mm with
      | None => (false, mkPtrs pm None None 0, h2)
      | Some _ =>
          let '(sm, sb, h3) := alloc_slab p h2 node (slab_answer a) in
          (bool_decide (is_Some sm), mkPtrs pm mm sm sb, h3)
      end
  end.

(** The loop: the shards behind a failed one keep their null pointers.
    [None]: [numa_node_of_cpu] does not return. *)
Fixpoint alloc_shards (fuel : nat) (p : Platform) (numa_available : bool) (h : Heap) (cores : list Z)
    (answers : list ShardAnswers) : option (bool * list ShardPtrs * Heap) :=
  match cores, answers with
  | core :: cores', a :: answers' =>
      node ← numa_node_of_cpu fuel p numa_available core;
      let '(ok, s, h') := alloc_shard p h node a in
      if ok : bool then
        '(ok', ss, h'') ← alloc_shards fuel p numa_available h' cores' answers';
        Some (ok', s :: ss, h'')
      else Some (false, s :: ((fun _ => no_ptrs) <$> cores'), h')
  | _, _ => Some (true, [], h)
  end.

Definition no_shards (cores : list Z) : list ShardPtrs := (fun _ => no_ptrs) <$> cores.

Definition allocate_memory (fuel : nat) (p : Platform) (numa_available : bool) (c : FeedHandlerConfig)
    (h : Heap) (ring sec : RingAnswer) (answers : list ShardAnswers)
    : option (bool * HandlerMem * Heap) :=
  let '(rb, h1) := alloc_packet_ring_buffer p h (huge ring) (regular ring) (posix ring) in
  match rb with
  | None => Some (false, mkHandlerMem None None (no_shards (shard_cores c)), h1)
  | Some _ =>
      let '(sec_ok, sb, h2) :=
        if decide (multicast_group_secondary c = []) then (true, None, h1)
        else let '(sb, h2) := alloc_packet_ring_buffer p h1 (huge sec) (regular sec) (posix sec) in
             (bool_decide (is_Some sb), sb, h2) in
      if sec_ok : bool then
        '(ok, ss, h3) ← alloc_shards fuel p numa_available h2 (shard_cores c) answers;
        Some (ok, mkHandlerMem rb sb ss, h3)
      else Some (false, mkHandlerMem rb None (no_shards (shard_cores c)), h2)
  end.

(** ** Destructor *)

Definition free_ring (p : Platform) (h : Heap) (buf : option Z) : option Heap :=
  match buf with Some a => free_packet_ring_buffer p h a | None => Some h end.

(** The loop in the body of the destructor. *)
Fixpoint free_shards (p : Platform) (avail : bool) (h : Heap) (ss : list ShardPtrs) : option Heap :=
  match ss with
  | [] => Some h
  | s :: ss' =>
      h1 ← free_numa p h (order_pool_mem s) pool_bytes avail;
      h2 ← free_numa p h1 (order_map_mem s) map_bytes avail;
      free_shards p avail h2 ss'
  end.

(** The destructor of a book pool. *)
Definition free_slab (p : Platform) (avail : bool) (h : Heap) (s : ShardPtrs) : option Heap :=
  match slab_mem s with
  | None => Some h
  | Some _ => free_numa p h (slab_mem s) (mem_bytes_ s) avail
  end.

(** The destructors of the book pools, members of [shard_mem_], which run
    after the body, the last element first. *)
Fixpoint free_slabs (p : Platform) (avail : bool) (h : Heap) (ss : list ShardPtrs) : option Heap :=
  match ss with
  | [] => Some h
  | s :: ss' => h1 ← free_slab p avail h s; free_slabs p avail h1 ss'
  end.

Definition destroy (p : Platform) (avail : bool) (h : Heap) (m : HandlerMem) : option Heap :=
  h1 ← free_ring p h (ring_buf_ m);
  h2 ← free_ring p h1 (secondary_ring_buf_ m);
  h3 ← free_shards p avail h2 (shard_mem_ m);
  free_slabs p avail h3 (rev (shard_mem_ m)).

(** ** Owned blocks *)

Definition opt_block (ptr : option Z) (size : Z) : list (Z * Z) :=
  match ptr with Some a => [(a, size)] | None => [] end.

Definition early_blocks (s : ShardPtrs) : list (Z * Z) :=
  opt_block (order_pool_mem s) pool_bytes ++ opt_block (order_map_mem s) map_bytes.
Definition slab_block (s : ShardPtrs) : list (Z * Z) := opt_block (slab_mem s) (mem_bytes_ s).

(** In the order in which the destructor frees them. *)
Definition owned (m : HandlerMem) : list (Z * Z) :=
  opt_block (ring_buf_ m) sizeof_PacketRingBuffer ++ opt_block (secondary_ring_buf_ m) sizeof_PacketRingBuffer
  ++ concat (early_blocks <$> shard_mem_ m) ++ concat (slab_block <$> rev (shard_mem_ m)).

Lemma free_opt p avail k h0 h ptr size rest : have_numa p = false -> k = plain_kind p ->
  owns k h0 h (opt_block ptr size ++ rest) ->
  exists h', free_numa p h ptr size avail = Some h' /\ owns k h0 h' rest.
Proof.
  intros Hp -> Ho. rewrite free_plain by done. destruct ptr as [a|]; [|by exists h].
  by apply (owns_free (plain_kind p) h0 h rest a size).
Qed.

Lemma free_ring_opt p h0 h buf rest :
  owns (plain_kind p) h0 h (opt_block buf sizeof_PacketRingBuffer ++ rest) ->
  exists h', free_ring p h buf = Some h' /\ owns (plain_kind p) h0 h' rest.
Proof.
  intros Ho. unfold free_ring, free_packet_ring_buffer. destruct buf as [a|]; [|by exists h].
  by apply (owns_free (plain_kind p) h0 h rest a).
Qed.

Lemma free_shards_ok p avail h0 rest ss : have_numa p = false -> forall h,
  owns (plain_kind p) h0 h (concat (early_blocks <$> ss) ++ rest) ->
  exists h', free_shards p avail h ss = Some h' /\ owns (plain_kind p) h0 h' rest.
Proof.
  intros Hp. induction ss as [|s ss IH]; intros h Ho; cbn [free_shards]; [by exists h|].
  cbn [fmap list_fmap concat] in Ho. unfold early_blocks in Ho. rewrite <- !app_assoc in Ho.
  destruct (free_opt p avail _ h0 h _ _ _ Hp eq_refl Ho) as (h1 & -> & O1). cbn [mbind option_bind].
  destruct (free_opt p avail _ h0 h1 _ _ _ Hp eq_refl O1) as (h2 & -> & O2). cbn [mbind option_bind].
  by apply IH.
Qed.

Lemma free_slab_numa p avail h s : free_slab p avail h s = free_numa p h (slab_mem s) (mem_bytes_ s) avail.
Proof. unfold free_slab. by destruct (slab_mem s). Qed.

Lemma free_slabs_ok p avail h0 ss : have_numa p = false -> forall h,
  owns (plain_kind p) h0 h (concat (slab_block <$> ss)) -> free_slabs p avail h ss = Some h0.
Proof.
  intros Hp. induction ss as [|s ss IH]; intros h Ho; cbn [free_slabs].
  { f_equal. by apply (owns_none (plain_kind p)). }
  cbn [fmap list_fmap concat] in Ho. unfold slab_block in Ho.
  rewrite free_slab_numa. destruct (free_opt p avail _ h0 h _ _ _ Hp eq_refl Ho) as (h1 & -> & O1). cbn [mbind option_bind].
  by apply IH.
Qed.

(** The destructor gives back what the handler owns, and nothing else. *)
Lemma destroy_owned p avail h0 h m : have_numa p = false ->
  owns (plain_kind p) h0 h (owned m) -> destroy p avail h m = Some h0.
Proof.
  intros Hp Ho. unfold destroy, owned in *.
  destruct (free_ring_opt p h0 h _ _ Ho) as (h1 & -> & O1). cbn [mbind option_bind].
  destruct (free_ring_opt p h0 h1 _ _ O1) as (h2 & -> & O2). cbn [mbind option_bind].
  destruct (free_shards_ok p avail h0 _ _ Hp h2 O2) as (h3 & -> & O3). cbn [mbind option_bind].
  by apply free_slabs_ok.
Qed.

(** ** Allocation *)

Lemma alloc_opt p h0 h l size node a r h' : have_numa p = false -> owns (plain_kind p) h0 h l ->
  alloc_on_numa p h size node a = (r, h') -> owns (plain_kind p) h0 h' (opt_block r size ++ l).
Proof.
  intros Hp Ho E. rewrite alloc_plain in E by done. pose proof (owns_alloc _ _ _ _ _ _ _ _ Ho E) as H.
  by destruct r.
Qed.

Lemma alloc_shard_ok p h0 h l node a ok s h' : have_numa p = false -> owns (plain_kind p) h0 h l ->
  alloc_shard p h node a = (ok, s, h') -> owns (plain_kind p) h0 h' (early_blocks s ++ slab_block s ++ l).
Proof.
  intros Hp Ho E. unfold alloc_shard in E.
  destruct (alloc_on_numa p h pool_bytes node _) as [pm h1] eqn:E1.
  pose proof (alloc_opt _ _ _ _ _ _ _ _ _ Hp Ho E1) as O1. destruct pm as [a1|]; [|by injection E as <- <- <-].
  destruct (alloc_on_numa p h1 map_bytes node _) as [mm h2] eqn:E2.
  pose proof (alloc_opt _ _ _ _ _ _ _ _ _ Hp O1 E2) as O2. destruct mm as [a2|]; [|by injection E as <- <- <-].
  unfold alloc_slab in E. destruct (alloc_on_numa p h2 slab_bytes node _) as [sm h3] eqn:E3.
  pose proof (alloc_opt _ _ _ _ _ _ _ _ _ Hp O2 E3) as O3. destruct sm as [a3|]; injection E as <- <- <-;
    (eapply owns_perm; [|exact O3]; unfold early_blocks, slab_block; cbn; solve_Permutation).
Qed.

Lemma no_blocks {A} (cores : list A) :
  concat (early_blocks <$> ((fun _ => no_ptrs) <$> cores)) = [] /\ concat (slab_block <$> ((fun _ => no_ptrs) <$> cores)) = [].
Proof. induction cores as [|c cs [IH1 IH2]]; [done|]. cbn. by rewrite IH1, IH2. Qed.

Lemma alloc_shards_ok p avail h0 cores : have_numa p = false -> forall h l answers,
  owns (plain_kind p) h0 h l ->
  exists ok ss h', alloc_shards 1 p avail h cores answers = Some (ok, ss, h')
    /\ owns (plain_kind p) h0 h' (concat (early_blocks <$> ss) ++ concat (slab_block <$> ss) ++ l).
Proof.
  intros Hp. induction cores as [|core cores IH]; intros h l answers Ho; [by exists true, [], h|].
  destruct answers as [|a answers]; [by exists true, [], h|]. cbn [alloc_shards numa_node_of_cpu].
  rewrite Hp. cbn [andb mbind option_bind].
  destruct (alloc_shard p h (-1) a) as [[ok s] h1] eqn:E.
  pose proof (alloc_shard_ok _ _ _ _ _ _ _ _ _ Hp Ho E) as O1. destruct ok.
  - destruct (IH h1 _ answers O1) as (ok & ss & h2 & -> & O2). cbn [mbind option_bind].
    exists ok, (s :: ss), h2. split; [done|]. eapply owns_perm; [|exact O2].
    cbn [fmap list_fmap concat]. solve_Permutation.
  - eexists false, _, h1. split; [done|]. cbn [fmap list_fmap concat].
    destruct (no_blocks cores) as [-> ->]. by rewrite !app_nil_r.
Qed.

Lemma alloc_ring_ok p h0 h l huge_a regular_a posix_a r h' : owns (plain_kind p) h0 h l ->
  (is_linux p = true -> posix_a = None) ->
  alloc_packet_ring_buffer p h huge_a regular_a posix_a = (r, h') ->
  owns (plain_kind p) h0 h' (opt_block r sizeof_PacketRingBuffer ++ l).
Proof.
  intros Ho Hpx E. unfold alloc_packet_ring_buffer, plain_kind in *. destruct (is_linux p).
  - rewrite Hpx in E by done. destruct (os_alloc h MmapBlock _ huge_a) as [r1 h1] eqn:E1.
    pose proof (owns_alloc _ _ _ _ _ _ _ _ Ho E1) as O1. destruct r1 as [a1|]; [by injection E as <- <-|].
    destruct (os_alloc h MmapBlock _ regular_a) as [r2 h2] eqn:E2.
    pose proof (owns_alloc _ _ _ _ _ _ _ _ Ho E2) as O2. destruct r2 as [a2|]; by injection E as <- <-.
  - pose proof (owns_alloc _ _ _ _ _ _ _ _ Ho E) as O1. by destruct r.
Qed.

Lemma concat_rev_perm {A B} (f : A -> list B) l : concat (f <$> rev l) ≡ₚ concat (f <$> l).
Proof.
  induction l as [|x l IH]; [done|]. cbn [rev]. rewrite fmap_app, concat_app. cbn [fmap list_fmap concat].
  rewrite IH, app_nil_r. apply Permutation_app_comm.
Qed.

Lemma owned_perm rb sb ss :
  concat (early_blocks <$> ss) ++ concat (slab_block <$> ss) ++ opt_block sb sizeof_PacketRingBuffer
    ++ opt_block rb sizeof_PacketRingBuffer ++ [] ≡ₚ owned (mkHandlerMem rb sb ss).
Proof. unfold owned. cbn [ring_buf_ secondary_ring_buf_ shard_mem_]. rewrite (concat_rev_perm slab_block ss). solve_Permutation. Qed.

(** ** Properties *)

(** C35: no block is leaked or freed twice.  Without libnuma, and unless a ring
    buffer had to come from [aligned_alloc] on Linux, whichever allocations
    fail, [allocate_memory] returns, and destroying the handler then frees
    exactly the blocks it allocated, with the allocator and the size they
    came with: the heap is what it was before. *)
Theorem handler_memory_balanced p avail c h ring sec answers :
  have_numa p = false -> (is_linux p = true -> posix ring = None /\ posix sec = None) ->
  exists ok m h', allocate_memory 1 p avail c h ring sec answers = Some (ok, m, h')
    /\ destroy p avail h' m = Some h.
Proof.
  intros Hp Hpx. unfold allocate_memory.
  destruct (alloc_packet_ring_buffer p h _ _ _) as [rb h1] eqn:E1.
  pose proof (alloc_ring_ok _ _ _ _ _ _ _ _ _ (owns_nil (plain_kind p) h) (fun H => proj1 (Hpx H)) E1) as O1.
  assert (Hno : forall rb h2, owns (plain_kind p) h h2 (opt_block rb sizeof_PacketRingBuffer ++ []) ->
    destroy p avail h2 (mkHandlerMem rb None (no_shards (shard_cores c))) = Some h).
  { intros rb' h2 O. apply destroy_owned; [done|]. eapply owns_perm; [apply owned_perm|].
    unfold no_shards. destruct (no_blocks (shard_cores c)) as [-> ->]. exact O. }
  destruct rb as [a|]; [|eexists _, _, _; split; [done|by apply (Hno None)]].
  case_decide as Hsec.
  - destruct (alloc_shards_ok p avail h (shard_cores c) Hp h1 _ answers O1) as (ok & ss & h3 & -> & O3).
    cbn [mbind option_bind]. eexists _, _, _. split; [done|]. apply destroy_owned; [done|].
    eapply owns_perm; [apply owned_perm|exact O3].
  - destruct (alloc_packet_ring_buffer p h1 _ _ _) as [sb h2] eqn:E2.
    pose proof (alloc_ring_ok _ _ _ _ _ _ _ _ _ O1 (fun H => proj2 (Hpx H)) E2) as O2.
    destruct sb as [b|]; [|eexists _, _, _; split; [done|by apply (Hno (Some a))]].
    change (bool_decide (is_Some (Some b))) with true. cbn iota.
    destruct (alloc_shards_ok p avail h (shard_cores c) Hp h2 _ answers O2) as (ok & ss & h3 & -> & O3).
    cbn [mbind option_bind]. eexists _, _, _. split; [done|]. apply destroy_owned; [done|].
    eapply owns_perm; [apply owned_perm|exact O3].
Qed.

(** A ring buffer from the last fallback is given back wrongly.  On Linux,
    when both mappings fail and [aligned_alloc] provides the primary ring
    buffer, the destructor unmaps memory that was never mapped. *)
Theorem ring_fallback_freed_wrongly numa avail c h ring sec answers a ok m h' :
  huge ring = None -> regular ring = None -> posix ring = Some a -> h !! a = None ->
  allocate_memory 1 (Linux numa) avail c h ring sec answers = Some (ok, m, h') ->
  h' !! a = Some (mkBlock MallocBlock sizeof_PacketRingBuffer) ->
  destroy (Linux numa) avail h' m = None.
Proof.
  intros H1 H2 H3 Ha E Hlive.
  assert (Hr : ring_buf_ m = Some a).
  { unfold allocate_memory, alloc_packet_ring_buffer at 1 in E. rewrite H1, H2, H3 in E. cbn [is_linux os_alloc] in E.
    rewrite decide_True in E by done. case_decide; [|destruct (alloc_packet_ring_buffer _ _ _ _ _) as [sb h2];
      destruct sb; cbn iota in E; [change (bool_decide (is_Some (Some z))) with true in E|
        change (bool_decide (is_Some None)) with false in E; by injection E as <- <- <-]].
    all: destruct (alloc_shards _ _ _ _ _ _) as [[[ok' ss] h3]|]; [|done]; cbn [mbind option_bind] in E;
      by injection E as <- <- <-. }
  unfold destroy, free_ring, free_packet_ring_buffer, os_free. rewrite Hr, Hlive. cbn [block_size block_kind is_linux].
  by rewrite decide_True.
Qed.

(** ** Witnesses *)

Definition refuse : AllocAnswer := mkAnswer false None None.
Definition grant (a : Z) : AllocAnswer := mkAnswer false None (Some a).

(** The ring and the first shard are allocated, the map of the second is
    refused. *)
Definition short_answers : list ShardAnswers :=
  [mkShardAnswers (grant 2) (grant 3) (grant 4); mkShardAnswers (grant 5) refuse refuse].

Lemma handler_memory_balanced_witness :
  exists ok m h', allocate_memory 1 (Linux false) false default_config ∅ (mkRingAnswer None (Some 1) None)
      (mkRingAnswer None None None) short_answers = Some (ok, m, h')
    /\ destroy (Linux false) false h' m = Some ∅.
Proof. apply handler_memory_balanced; [reflexivity|]. intros _. split; reflexivity. Defined.

Lemma ring_fallback_freed_wrongly_witness :
  exists ok m h', allocate_memory 1 (Linux false) false default_config ∅ (mkRingAnswer None None (Some 1))
      (mkRingAnswer None None None) [] = Some (ok, m, h')
    /\ destroy (Linux false) false h' m = None.
Proof.
  eexists _, _, _. split; [vm_compute; reflexivity|].
  eapply (ring_fallback_freed_wrongly false false default_config ∅ (mkRingAnswer None None (Some 1))
    (mkRingAnswer None None None) [] 1); reflexivity.
Defined.
