(* ===== verification/FeedHandler.v ===== *)
(** * Feed handler: wiring and start-up

    [FeedHandler::init_workers] and [init] ([src/app/feed_handler.cpp]),
    [ReceiverThread::open] and [SocketReceiver]'s part in it.  The components
    are those of the other files; the ones the source shares by reference are
    shared here through the parser's view of them.  The end-of-day callbacks
    are the closures the handler registers: a shard and its snapshot writer.
    Memory is in [HandlerMemory], the life of the threads in [Lifecycle]. *)

From Stdlib Require Import String.
From S2P Require Import Prelude Types ItchParser Sequence Spsc PacketRing Histogram Routing OrderMap.
From S2P Require Import Level2Book SeqLock Session Worker ParserThread Snapshot SnapshotFiles System Config.
From S2P Require Import Recovery.

(** ** End-of-day callbacks *)

Record EodCallback := mkCallback { cb_shard : nat; cb_snap : BookSnapshot }.

(** The template of a shard: [_sN] before the last dot, or at the end. *)
Definition shard_template (tmpl : bytes) (s : nat) : bytes :=
  insert_suffix tmpl ([95; 115] ++ to_string (Z.of_nat s)).

Definition eod_snapshot (c : FeedHandlerConfig) (s : nat) : BookSnapshot :=
  mkSnapshot (snapshot_dir c) (shard_template (snapshot_filename_template c) s).

Definition eod_callback (c : FeedHandlerConfig) (s : nat) : EodCallback :=
  mkCallback s (eod_snapshot c s).

(** The loop that registers the callbacks. *)
Definition register_callbacks (c : FeedHandlerConfig) (m : SessionManager EodCallback)
    : SessionManager EodCallback :=
  if eod_archive_enabled c
  then foldl (fun m s => register_eod_callback m (Some (eod_callback c s))) m shard_ids
  else m.

(** ** Watched symbols *)

(** [char ticker8[8]], blanks overwritten by at most eight bytes. *)
Definition pad_ticker (sym : bytes) : bytes :=
  let n := Nat.min (length sym) 8 in take n sym ++ replicate (8 - n) 32.

Fixpoint watch_symbols {CB} (m : SessionManager CB) (syms : list bytes) : option (SessionManager CB) :=
  match syms with
  | [] => Some m
  | sym :: syms' => m' ← add_watched_ticker m (pad_ticker sym); watch_symbols m' syms'
  end.

(** ** Threads *)

(** The configurations handed to the threads, in the order of creation. *)
Definition thread_configs (c : FeedHandlerConfig) : list ThreadConfig :=
  [mkThreadConfig (receiver_core c) 1 80 (-1)]
  ++ (if decide (multicast_group_secondary c = []) then []
      else [mkThreadConfig (merger_core c + 1) 1 80 (-1)])
  ++ [mkThreadConfig (merger_core c) 1 77 (-1); mkThreadConfig (parser_core c) 1 79 (-1)]
  ++ ((fun core => mkThreadConfig core 1 78 (-1)) <$> shard_cores c)
  ++ [mkThreadConfig (recovery_core c) 0 0 (-1)].

Record FeedHandler (Q P : Type) := mkHandler {
  cfg_ : FeedHandlerConfig;
  parser_ : ParserThread EodCallback Q P;
  recovery_session_ : bytes;
  threads_ : list ThreadConfig;
  secondary_receiver_ : bool
}.

Arguments mkHandler {Q P}.
Arguments cfg_ {Q P}.
Arguments parser_ {Q P}.
Arguments recovery_session_ {Q P}.
Arguments threads_ {Q P}.
Arguments secondary_receiver_ {Q P}.

(** The recovery thread shares the gap detector with the parser. *)
Definition recovery_thread {Q P} (h : FeedHandler Q P) (conn : bool) : RecoveryThread :=
  mkRecovery (gap_detector_ (parser_ h)) conn (recovery_session_ h).

Definition init_session (c : FeedHandlerConfig) : option (SessionManager EodCallback) :=
  watch_symbols (register_callbacks c
    (new_session_manager (Some (c_str (initial_session c))) (eod_archive_enabled c)))
    (watched_symbols c).

(** [q0] and [p0] are fresh queues.  [None]: the threshold of the router is
    not a [size_t]. *)
Definition init_workers {Q P} (q0 : Q) (p0 : P) (c : FeedHandlerConfig) : option (FeedHandler Q P) :=
  thr ← pressure_threshold (queue_full_alert_threshold c);
  m ← init_session c;
  let env := mkSubsystems (tracker_init 0) new_directory (new_publisher MAX_LOCATE) (new_router q0 thr) in
  let parser := mkParser env m (gap_detector_init (gap_timeout_ms c)) p0 hist_reset 0 0 0
                  (replicate 256 0) in
  Some (mkHandler c parser (recovery_session (Some (c_str (session_ m)))) (thread_configs c)
          (negb (bool_decide (multicast_group_secondary c = [])))).

(** ** Start-up *)

(** A receiver socket: address, port, group and interface. *)
Record OpenCall := mkOpen { oc_addr : bytes; oc_port : Z; oc_group : bytes; oc_iface : bytes }.

(** What the socket answers: whether it opens, and whether it joins. *)
Definition receiver_open (net : OpenCall -> bool * bool) (o : OpenCall) : bool :=
  let '(opened, joined) := net o in
  if negb opened then false
  else if negb (bool_decide (oc_group o = [])) && negb joined then false else true.

Definition primary_open (c : FeedHandlerConfig) : OpenCall :=
  mkOpen (interface c) (port c) (multicast_group c) (interface c).

Definition secondary_open (c : FeedHandlerConfig) : OpenCall :=
  let sec_port := if port_secondary c =? 0 then port c else port_secondary c in
  let sec_iface := if decide (interface_secondary c = []) then interface c else interface_secondary c in
  mkOpen sec_iface sec_port (multicast_group_secondary c) sec_iface.

(** [exit(1)], the result [false], or a handler ready to run. *)
Inductive InitResult (Q P : Type) := Exit1 | InitFailed | Ready (h : FeedHandler Q P).

Arguments Exit1 {Q P}.
Arguments InitFailed {Q P}.
Arguments Ready {Q P}.

Definition set_start {Q P} (h : FeedHandler Q P) (loaded : LoadedSeq) : FeedHandler Q P :=
  if loaded_seq loaded >? 0 then
    let t := parser_ h in
    let e := set_tracker (env_ t) (Sequence.reset (loaded_seq loaded) (seq_tracker_ (env_ t))) in
    mkHandler (cfg_ h)
      (mkParser e (session_mgr_ t) (gap_detector_ t) (persist_seq_ t) (parse_lat_ t) (sequence_gaps t)
         (sequence_dups t) (messages_parsed t) (msg_type_count t))
      (recovery_session_ h) (threads_ h) (secondary_receiver_ h)
  else h.

Definition placeholder_address : bytes := str "198.51.100.1".

(** [alloc_ok]: what [allocate_memory] returned; [workers_ok]: whether
    [init_workers] ends without an exception; [file]: the state file. *)
Definition init {Q P} (q0 : Q) (p0 : P) (c : FeedHandlerConfig) (alloc_ok workers_ok : bool)
    (file : option bytes) (net : OpenCall -> bool * bool) : option (InitResult Q P) :=
  if decide (retransmit_address c = placeholder_address) then Some Exit1
  else if negb alloc_ok then Some InitFailed
  else if negb workers_ok then Some InitFailed
  else
    h0 ← init_workers q0 p0 c;
    let h := set_start h0 (Recovery.load file) in
    if negb (receiver_open net (primary_open c)) then Some InitFailed
    else Some (Ready (mkHandler (cfg_ h) (parser_ h) (recovery_session_ h) (threads_ h)
                 (secondary_receiver_ h && receiver_open net (secondary_open c)))).

(** ** Lemmas *)

Lemma register_callbacks_frame c m : let m' := register_callbacks c m in
  session_ m' = session_ m /\ state_ m' = state_ m /\ watched_bits_ m' = watched_bits_ m
  /\ watched_tickers_ m' = watched_tickers_ m /\ eod_archive_enabled_ m' = eod_archive_enabled_ m.
Proof.
  unfold register_callbacks. destruct (eod_archive_enabled c); [|done].
  generalize shard_ids. intros l. revert m. induction l as [|s l IH]; intros m; [done|]. cbn [foldl].
  destruct (IH (register_eod_callback m (Some (eod_callback c s)))) as (H1 & H2 & H3 & H4 & H5).
  unfold register_eod_callback in *. destruct (_ <? _) in *; by rewrite H1, H2, H3, H4, H5.
Qed.

(** All eight callbacks find room, in the order of the shards. *)
Lemma register_callbacks_all c initial enabled : eod_archive_enabled c = true ->
  eod_callbacks_ (register_callbacks c (new_session_manager initial enabled))
    = (fun s => Some (eod_callback c s)) <$> shard_ids.
Proof. intros E. unfold register_callbacks. rewrite E. reflexivity. Qed.

Lemma register_callbacks_ok c initial enabled :
  session_ok (register_callbacks c (new_session_manager initial enabled)).
Proof.
  destruct (register_callbacks_frame c (new_session_manager initial enabled)) as (H1 & H2 & H3 & H4 & H5).
  destruct (new_session_ok (CB := EodCallback) initial enabled) as [I1 I2 I3 [I4 I5]].
  split; rewrite ?H1, ?H3, ?H4; try done. split; [done|].
  destruct (eod_archive_enabled c) eqn:E; [|unfold register_callbacks; by rewrite E].
  rewrite register_callbacks_all by done. rewrite length_fmap. done.
Qed.

Lemma pad_ticker_length sym : length (pad_ticker sym) = 8%nat.
Proof. unfold pad_ticker. rewrite length_app, length_take, length_replicate. lia. Qed.

Lemma watch_symbols_spec {CB} syms : forall (m : SessionManager CB), session_ok m ->
  exists m', watch_symbols m syms = Some m' /\ session_ok m'
    /\ watched_tickers_ m' = take 256 (watched_tickers_ m ++ (pad_ticker <$> syms))
    /\ session_ m' = session_ m /\ state_ m' = state_ m /\ eod_callbacks_ m' = eod_callbacks_ m
    /\ eod_archive_enabled_ m' = eod_archive_enabled_ m /\ watched_bits_ m' = watched_bits_ m.
Proof.
  induction syms as [|sym syms IH]; intros m I; cbn [watch_symbols fmap list_fmap].
  { exists m. rewrite app_nil_r, take_ge; [done|]. destruct (so_few _ I) as [Hf _].
    unfold MAX_WATCHED_TICKERS in Hf. lia. }
  unfold add_watched_ticker. destruct (so_few _ I) as [Hf Hc]. unfold MAX_WATCHED_TICKERS in *.
  rewrite Z.geb_leb. destruct (Z.leb_spec 256 (Z.of_nat (length (watched_tickers_ m)))) as [Hfull|Hroom].
  - cbn [mbind option_bind]. destruct (IH m I) as (m' & -> & I' & H1 & Hrest). exists m'. split; [done|].
    split; [done|]. split; [|exact Hrest]. rewrite H1. rewrite !take_app_le by lia. done.
  - rewrite rd_bytes_Some, take_ge by (rewrite pad_ticker_length; lia). cbn [mbind option_bind].
    edestruct (IH (mkSession (session_ m) (state_ m) (eod_archive_enabled_ m) (eod_callbacks_ m)
      (watched_bits_ m) (watched_tickers_ m ++ [pad_ticker sym]))) as (m' & -> & I' & H1 & Hrest).
    { destruct I as [I1 I2 I3 I4]. split; cbn; try done.
      - apply Forall_app. split; [done|]. repeat constructor. apply pad_ticker_length.
      - rewrite length_app. cbn. unfold MAX_WATCHED_TICKERS. lia. }
    exists m'. split; [done|]. split; [done|]. split; [|exact Hrest].
    rewrite H1. cbn [watched_tickers_]. by rewrite <- app_assoc.
Qed.

(** The session manager after start-up. *)
Lemma init_session_spec c : exists m, init_session c = Some m /\ session_ok m
  /\ session_ m = session_ (new_session_manager (CB := EodCallback) (Some (c_str (initial_session c))) true)
  /\ state_ m = SessionUnknown
  /\ watched_tickers_ m = take 256 (pad_ticker <$> watched_symbols c)
  /\ eod_archive_enabled_ m = eod_archive_enabled c
  /\ eod_callbacks_ m = (if eod_archive_enabled c then (fun s => Some (eod_callback c s)) <$> shard_ids else []).
Proof.
  unfold init_session. set (m0 := new_session_manager _ _).
  destruct (watch_symbols_spec (watched_symbols c) (register_callbacks c m0)) as
    (m & E & I & H1 & H2 & H3 & H4 & H5 & H6); [apply register_callbacks_ok|].
  destruct (register_callbacks_frame c m0) as (F1 & F2 & F3 & F4 & F5).
  exists m. split; [done|]. split; [done|]. rewrite H1, H2, H3, H4, H5, F1, F2, F4, F5.
  split_and!; try done. destruct (eod_archive_enabled c) eqn:Ee.
  - subst m0. rewrite <- Ee. by apply register_callbacks_all.
  - unfold register_callbacks. by rewrite Ee.
Qed.

Section Start.
Context {Q P : Type} `{FifoOps Q ItchMsg, FifoOps P SeqRecord}.
Context {QF : Fifo Q ItchMsg}.

(** A configuration with a real recovery server and a sensible threshold, on
    a host whose primary socket opens. *)
Record can_start (c : FeedHandlerConfig) (net : OpenCall -> bool * bool) : Prop := {
  cs_address : retransmit_address c <> placeholder_address;
  cs_threshold : is_Some (pressure_threshold (queue_full_alert_threshold c));
  cs_socket : receiver_open net (primary_open c) = true
}.

(** The handler just started: what its parser begins with. *)
Record fresh_start (q0 : Q) (p0 : P) (c : FeedHandlerConfig) (start : Z) (h : FeedHandler Q P) : Prop := {
  fr_ok : parser_ok (fifo_cap q0) (parser_ h);
  fr_tracker : seq_tracker_ (env_ (parser_ h)) = tracker_init start;
  fr_session : init_session c = Some (session_mgr_ (parser_ h));
  fr_gap : gap_detector_ (parser_ h) = gap_detector_init (gap_timeout_ms c);
  fr_counts : sequence_gaps (parser_ h) = 0 /\ sequence_dups (parser_ h) = 0 /\ messages_parsed (parser_ h) = 0;
  fr_persist : persist_seq_ (parser_ h) = p0;
  fr_router : exists thr, router_ (env_ (parser_ h)) = new_router q0 thr;
  fr_recovery : recovery_session_ h = recovery_session (Some (c_str (session_ (session_mgr_ (parser_ h)))))
}.

Lemma init_fresh (q0 : Q) (p0 : P) c net file : fifo_ok q0 -> can_start c net ->
  0 <= loaded_seq (Recovery.load file) ->
  exists h, init q0 p0 c true true file net = Some (Ready h)
    /\ fresh_start q0 p0 c (loaded_seq (Recovery.load file)) h.
Proof.
  intros Hq [Ca [thr Ct] Cs] Hl. destruct (init_session_spec c) as (m & Em & Im & _).
  unfold init. rewrite decide_False by done. cbn [negb]. unfold init_workers. rewrite Ct. cbn [mbind option_bind].
  rewrite Em. cbn [mbind option_bind]. rewrite Cs. cbn [negb]. eexists. split; [done|].
  pose proof (new_router_ok q0 thr Hq) as R.
  set (start := Recovery.load file) in *. unfold set_start. rewrite Z.gtb_ltb.
  destruct (Z.ltb_spec 0 (loaded_seq start)).
  - split; cbn; first [done | by exists thr | by split].
  - assert (loaded_seq start = 0) as -> by lia. split; cbn; first [done | by exists thr | by split].
Qed.

(** A ten byte name that is a C string is taken over as it is. *)
Lemma configured_name c name : initial_session c = name -> nul_free name -> length name = 10%nat ->
  forall m, init_session c = Some m -> session_ m = name ++ [0].
Proof.
  intros Hn Hf Hl m Em. destruct (init_session_spec c) as (m' & Em' & _ & Hs & _).
  assert (m' = m) as -> by congruence. rewrite Hs, Hn, c_str_id by done.
  unfold new_session_manager, initial_name. rewrite decide_False.
  - cbn [session_]. rewrite take_ge by lia. by rewrite Hl.
  - intros E. apply (f_equal length) in E. rewrite take_ge, Hl in E by lia. done.
Qed.

Lemma new_router_queue (q0 : Q) thr sh : (sh < 8)%nat -> items q0 = [] ->
  shows (new_router q0 thr, replicate 8 []) sh (mkView [] [] 0).
Proof.
  intros Hs Hi. unfold shows, new_router. cbn [fst snd queues_ shard_queue_drops waiting popped drops].
  change (Z.to_nat NUM_SHARDS) with 8%nat. rewrite !lookup_replicate_2 by done.
  split_and!; [|done..]. cbn. by rewrite Hi.
Qed.

(** ** Properties of a start *)

(** C31: a warm start resumes where the last run stopped.  When the last
    record was saved and the session is configured by name, the handler
    starts with the tracker at the saved number; the next packet of the
    session is accepted in order - no gap, no duplicate, nothing pending for
    recovery - and its messages reach the queues of their shards. *)
Theorem warm_start_resumes (q0 : Q) (p0 : P) c net old n name s ms now clock :
  fifo_ok q0 -> items q0 = [] -> can_start c net -> initial_session c = name -> nul_free name ->
  length name = 10%nat -> 0 < n < 2 ^ 64 - 2 -> holds_packet s name (n + 1) ms ->
  (forall i, timely (recv_ts s) (clock i)) ->
  exists file h t' calls, save_sync old n name SaveOk = Some file
    /\ init q0 p0 c true true file net = Some (Ready h)
    /\ process_slot (parser_ h) now clock s = Some (t', calls)
    /\ seq (seq_tracker_ (env_ t')) = n + 1 /\ sequence_gaps t' = 0 /\ sequence_dups t' = 0
    /\ Sequence.pending (gap_detector_ t') = false
    /\ persist_seq_ t' = enqueue p0 (n + 1) name
    /\ forall sh, (sh < 8)%nat -> shows (router_ (env_ t'), replicate 8 []) sh
         (foldl (view_push (fifo_cap q0)) (mkView [] [] 0) (filter (fun m => targets m sh = true) ms)).
Proof.
  intros Hq Hi Hc Hs Hf Hl Hn Hp Ht. pose proof (load_record n name Hl) as Hld.
  unfold save_sync. rewrite persist_record_Some by done. cbn [mbind option_bind].
  set (file := Some _) in *. assert (Hrange : in_range 64 n) by range_lia. specialize (Hld Hrange).
  destruct (init_fresh q0 p0 c net file Hq Hc) as (h & Eh & F); [subst file; rewrite Hld; cbn; lia|].
  assert (Hseq : loaded_seq (Recovery.load file) = n) by (subst file; by rewrite Hld). rewrite Hseq in F.
  pose proof (configured_name c name Hs Hf Hl _ (fr_session _ _ _ _ _ F)) as Hname.
  destruct (fr_counts _ _ _ _ _ F) as (G0 & D0 & M0).
  destruct (in_order_delivery (fifo_cap q0) (parser_ h) now clock s name ms) as
    (t' & calls & Ep & _ & T1 & Gp & _ & G1 & D1 & P1 & _ & _ & V).
  - apply F.
  - rewrite (fr_tracker _ _ _ _ _ F). split; cbn; range_lia.
  - rewrite M0. range_lia.
  - rewrite (fr_tracker _ _ _ _ _ F). exact Hp.
  - rewrite Hname, take_app_length' by done. done.
  - done.
  - rewrite (fr_tracker _ _ _ _ _ F) in *. cbn [seq tracker_init] in *.
    exists file, h, t', calls. rewrite T1, G1, D1, P1, Gp, (fr_gap _ _ _ _ _ F), (fr_persist _ _ _ _ _ F).
    split_and!; try done. intros sh Hsh. destruct (fr_router _ _ _ _ _ F) as [thr Hr].
    apply V. rewrite Hr. by apply new_router_queue.
Qed.

(** A packet numbered at or below the tracker's position, before any gap. *)
Lemma old_packet_step cap (t : ParserThread EodCallback Q P) now clock s name n k ms :
  parser_ok cap t -> seq (seq_tracker_ (env_ t)) = n -> gap_count (seq_tracker_ (env_ t)) = 0 ->
  0 <= k <= n -> n < 2 ^ 64 - 1 -> name = take 10 (session_ (session_mgr_ t)) ->
  holds_packet s name k ms -> (forall i, timely (recv_ts s) (clock i)) ->
  exists t' calls, process_slot t now clock s = Some (t', calls) /\ parser_ok cap t'
    /\ seq (seq_tracker_ (env_ t')) = n /\ gap_count (seq_tracker_ (env_ t')) = 0
    /\ sequence_gaps t' = sequence_gaps t /\ gap_detector_ t' = gap_detector_ t
    /\ persist_seq_ t' = persist_seq_ t /\ session_ (session_mgr_ t') = session_ (session_mgr_ t).
Proof.
  intros Po Hs Hg Hk Hn Hname Hp Hc. rewrite (process_slot_eq t now clock s name k ms Hp).
  destruct (decode_slot s name k ms Hp) as (_ & _ & _ & _ & _ & _ & _ & Hms).
  destruct (track_sequence_ok cap t now k name Po) as (Po1 & R1 & S1 & M1 & T1).
  assert (Hadv : try_advance now (seq_tracker_ (env_ t)) k = (false,
    mkTracker n 0 (dup_count (seq_tracker_ (env_ t)) +64 1) (last_gap_start (seq_tracker_ (env_ t)))
      (last_gap_end (seq_tracker_ (env_ t))) (last_gap_ts (seq_tracker_ (env_ t))))).
  { unfold try_advance. rewrite Hs, Hg, wrap_small by range_lia.
    by rewrite (proj2 (Z.eqb_neq _ _)), Z.gtb_ltb, (proj2 (Z.ltb_ge _ _)) by lia. }
  destruct (route_all_spec cap name (recv_ts s) clock ms Hms Hc _ 0 Po1) as
    (t' & calls & E & Po' & F & _); [by rewrite S1|].
  exists t', calls. split; [done|]. split; [done|].
  rewrite (st_tracker _ _ F), (st_gaps _ _ F), (st_gap _ _ F), (st_persist _ _ F), (st_name _ _ F), S1, T1, Hadv.
  unfold track_sequence. rewrite Hadv. cbn. done.
Qed.

(** A start from the position of another session is blind to losses.
    The session name in the state file is not compared with the configured
    one.  When the file holds number [n] of an older session, the packets of
    the new session up to [n] are taken for duplicates in whatever order and
    with whatever packets missing: no gap is counted, nothing is requested
    from the recovery server and no position is saved. *)
Theorem stale_position_hides_gaps (q0 : Q) (p0 : P) c net file n name clock l :
  fifo_ok q0 -> can_start c net -> loaded_seq (Recovery.load file) = n -> 0 <= n < 2 ^ 64 - 1 ->
  initial_session c = name -> nul_free name -> length name = 10%nat ->
  Forall (fun '(_, s) => exists k ms, 0 <= k <= n /\ holds_packet s name k ms
            /\ (forall i, timely (recv_ts s) (clock i))) l ->
  exists h t', init q0 p0 c true true file net = Some (Ready h)
    /\ process_slots (parser_ h) clock l = Some t'
    /\ sequence_gaps t' = 0 /\ Sequence.pending (gap_detector_ t') = false /\ persist_seq_ t' = p0.
Proof.
  intros Hq Hc Hn Hr Hs Hf Hl Hall.
  destruct (init_fresh q0 p0 c net file Hq Hc) as (h & Eh & F); [lia|]. rewrite Hn in F.
  pose proof (configured_name c name Hs Hf Hl _ (fr_session _ _ _ _ _ F)) as Hname.
  assert (Hgen : forall t : ParserThread EodCallback Q P, parser_ok (fifo_cap q0) t -> seq (seq_tracker_ (env_ t)) = n ->
    gap_count (seq_tracker_ (env_ t)) = 0 -> name = take 10 (session_ (session_mgr_ t)) ->
    exists t', process_slots t clock l = Some t' /\ sequence_gaps t' = sequence_gaps t
      /\ gap_detector_ t' = gap_detector_ t /\ persist_seq_ t' = persist_seq_ t).
  { clear F Eh Hname h. induction Hall as [|[now s] l (k & ms & Hk & Hp & Ht) _ IH];
      intros t Po Hseq Hg Hnm; cbn [process_slots]; [by exists t|].
    destruct (old_packet_step (fifo_cap q0) t now clock s name n k ms) as
      (t1 & calls & -> & Po1 & S1 & G1 & C1 & D1 & P1 & N1); try done; [lia|].
    cbn [mbind option_bind]. destruct (IH t1 Po1 S1 G1) as (t' & -> & C2 & D2 & P2); [by rewrite N1|].
    exists t'. split_and!; congruence. }
  destruct (Hgen (parser_ h)) as (t' & Et & C & D & Pp).
  - apply F.
  - by rewrite (fr_tracker _ _ _ _ _ F).
  - by rewrite (fr_tracker _ _ _ _ _ F).
  - rewrite Hname, take_app_length' by done. done.
  - exists h, t'. split; [done|]. split; [done|]. destruct (fr_counts _ _ _ _ _ F) as (G0 & _).
    rewrite C, D, Pp, G0, (fr_gap _ _ _ _ _ F), (fr_persist _ _ _ _ _ F). done.
Qed.

Lemma handle_recovery_session t now answer sent t' p :
  handle_recovery t now answer sent = Some (t', p) -> rec_session_ t' = rec_session_ t.
Proof.
  unfold handle_recovery, send_request. intros E.
  repeat case_match; simplify_eq; try done;
    match goal with E : _ ≫= _ = Some _ |- _ => apply bind_Some in E as ([] & _ & E); by injection E as <- <- end.
Qed.

(** The session bytes of a request are those of the thread. *)
Lemma request_session t now answer sent t' p : handle_recovery t now answer sent = Some (t', Some p) ->
  take 10 p = take 10 (rec_session_ t).
Proof.
  intros E. assert (Hgen : forall u, rec_session_ u = rec_session_ t -> send_request u sent = Some (t', Some p) ->
    take 10 p = take 10 (rec_session_ t)).
  { intros u Hu Es. unfold send_request, request, request_packet in Es. rewrite Hu in Es.
    destruct (negb (connected u)); [by injection Es|].
    unfold rd_bytes in Es. case_decide; [|done]. cbn [mbind option_bind] in Es. injection Es as _ <-.
    rewrite take_app_length' by (rewrite length_take; lia). done. }
  unfold handle_recovery in E. destruct (negb (Sequence.pending (gap_det t))); [done|].
  destruct (negb (should_request_recovery now (gap_det t))); [done|].
  destruct (connected t); [by apply (Hgen t)|]. destruct answer; try done. by eapply Hgen; [|exact E].
Qed.

(** With AUTO_DETECT every retransmit request is nameless.  The recovery
    thread copies the session name when it is built, before any packet was
    seen, and never again: whatever the parser does with the gap detector
    afterwards, and however often the thread polls, each request it sends
    carries ten zero bytes in place of the session. *)
Theorem auto_detect_requests_nameless (q0 : Q) (p0 : P) c net file polls :
  fifo_ok q0 -> can_start c net -> 0 <= loaded_seq (Recovery.load file) -> initial_session c = AUTO_DETECT ->
  exists h, init q0 p0 c true true file net = Some (Ready h)
    /\ forall conn t, foldl (fun o '(d, now, answer, sent) =>
           u ← o; '(t', _) ← handle_recovery (mkRecovery d (connected u) (rec_session_ u)) now answer sent; Some t')
         (Some (recovery_thread h conn)) polls = Some t ->
       forall d now answer sent t' p,
         handle_recovery (mkRecovery d (connected t) (rec_session_ t)) now answer sent = Some (t', Some p) ->
         take 10 p = replicate 10 0.
Proof.
  intros Hq Hc Hl Ha. destruct (init_fresh q0 p0 c net file Hq Hc Hl) as (h & Eh & F).
  exists h. split; [done|]. intros conn t Hf d now answer sent t' p Hp.
  assert (Hz : take 10 (recovery_session_ h) = replicate 10 0).
  { destruct (init_session_spec c) as (m & Em & _ & Hs & _).
    rewrite (fr_recovery _ _ _ _ _ F). pose proof (fr_session _ _ _ _ _ F) as Em'.
    assert (session_mgr_ (parser_ h) = m) as -> by congruence. rewrite Hs, Ha. reflexivity. }
  rewrite (request_session _ _ _ _ _ _ Hp). cbn [rec_session_]. rewrite <- Hz. f_equal. clear Hp.
  assert (Hgen : forall u, rec_session_ u = recovery_session_ h ->
    foldl (fun o '(d, now, answer, sent) => u ← o;
      '(t', _) ← handle_recovery (mkRecovery d (connected u) (rec_session_ u)) now answer sent; Some t')
      (Some u) polls = Some t -> rec_session_ t = recovery_session_ h).
  { clear Hf. induction polls as [|[[[d1 now1] a1] s1] polls IH]; intros u Hu Hf; cbn [foldl] in Hf; [congruence|].
    cbn [mbind option_bind] in Hf.
    destruct (handle_recovery (mkRecovery d1 (connected u) (rec_session_ u)) now1 a1 s1) as [[u1 p1]|] eqn:E.
    - cbn [mbind option_bind] in Hf. apply (IH u1); [|done]. by rewrite (handle_recovery_session _ _ _ _ _ _ E).
    - exfalso. clear -Hf. cbn in Hf. induction polls as [|[[[? ?] ?] ?] polls IH]; [done|]. by apply IH. }
  by apply (Hgen (recovery_thread h conn)).
Qed.

(** Without a configured recovery server the process exits.  A document
    that sets no [retransmit_address] leaves the placeholder in place, and
    [init] ends the process whatever else is configured. *)
Theorem missing_retransmit_address_exits {E} (q0 : Q) (p0 : P) (t : Toml) c alloc_ok workers_ok file net :
  load_config (@inr E Toml t) = inr c ->
  (forall tab, as_table (t := t) "recovery" = Some tab -> value_string tab "retransmit_address" = None) ->
  init q0 p0 c alloc_ok workers_ok file net = Some Exit1.
Proof.
  intros Hc Hn. injection Hc as <-. unfold init. rewrite decide_True; [done|].
  unfold load_table, entry_string, entry. cbn [retransmit_address].
  destruct (as_table "recovery") as [tab|] eqn:E1; [|done]. by rewrite (Hn tab eq_refl).
Qed.

(** Configured symbols are warmed up.  Each of the first 256 configured
    symbols is padded to eight bytes with blanks and registered; when the
    directory message for that ticker arrives, its locate code becomes
    eligible for pre-open activation if archiving is enabled. *)
Theorem configured_symbol_warms_up (q0 : Q) (p0 : P) c net file i sym loc :
  fifo_ok q0 -> can_start c net -> 0 <= loaded_seq (Recovery.load file) ->
  watched_symbols c !! i = Some sym -> (i < 256)%nat -> in_range 16 loc ->
  exists h m', init q0 p0 c true true file net = Some (Ready h)
    /\ try_resolve_watched (session_mgr_ (parser_ h)) loc (pad_ticker sym) = Some m'
    /\ is_warmup_symbol m' loc = Some (eod_archive_enabled c).
Proof.
  intros Hq Hc Hl Hi H256 Hloc. destruct (init_fresh q0 p0 c net file Hq Hc Hl) as (h & Eh & F).
  destruct (init_session_spec c) as (m & Em & Im & _ & _ & Hw & He & _).
  assert (session_mgr_ (parser_ h) = m) as Hm by (pose proof (fr_session _ _ _ _ _ F); congruence).
  assert (Hin : pad_ticker sym ∈ watched_tickers_ m).
  { rewrite Hw. apply list_elem_of_lookup. exists i. rewrite lookup_take_lt by done.
    by rewrite list_lookup_fmap, Hi. }
  exists h. rewrite Hm. unfold try_resolve_watched. rewrite (proj2 (Z.eqb_neq _ _)).
  2: { destruct (watched_tickers_ m); [by apply not_elem_of_nil in Hin|]. cbn. lia. }
  rewrite rd_bytes_Some, take_ge by (rewrite pad_ticker_length; lia). cbn [mbind option_bind].
  rewrite resolve_loop_spec, decide_True by done.
  destruct (add_watched_symbol_spec m loc Im Hloc) as (m' & -> & _ & _ & _ & _ & Hwarm).
  exists m'. split; [done|]. split; [done|]. rewrite Hwarm, decide_True by done. by rewrite He.
Qed.

End Start.

(** ** End of day *)

(** The callbacks the session manager invokes at the end of the day, with the
    books of each shard and the clock readings of the saves. *)
Definition eod_saves (c : FeedHandlerConfig) (slabs : nat -> list Level2Book) (ts : nat -> Z)
    : list (BookSnapshot * list Level2Book * Z) :=
  (fun s => (eod_snapshot c s, slabs s, ts s)) <$> shard_ids.

(** The shards overwrite each other's EOD pointer.  The eight snapshot
    writers share one directory and therefore one [latest_eod.ptr]: after the
    end-of-day callbacks of all shards, loading through the pointer gives
    every shard the books of the last shard instead of its own. *)
Theorem shards_share_eod_pointer os fs c slabs ts session_10 base targets :
  (10 <= length session_10)%nat -> (forall s, (s < 8)%nat -> savable (slabs s)) ->
  make_path (eod_snapshot c 7) session_10 (ts 7%nat) = Some base ->
  snap_path_ok (eod_snapshot c 7) (insert_suffix base (str "_EOD")) ->
  save_allowed os (eod_snapshot c 7) (insert_suffix base (str "_EOD")) ->
  length targets = length (slabs 7%nat) ->
  exists fs', run_eod_callbacks os fs (eod_saves c slabs ts) session_10 = Some fs'
    /\ forall s, (s < 8)%nat -> exists rs,
         load_eod os fs' (eod_snapshot c s) targets = Some (true, rs) /\ Forall2 same_book (slabs 7%nat) rs.
Proof.
  intros Hs Hall Hm Hp Ho Ht.
  set (pre := (fun s => (eod_snapshot c s, slabs s, ts s)) <$> List.seq 0 7).
  destruct (run_eod_callbacks_total os session_10 pre Hs fs) as [fs0 H0].
  { apply Forall_fmap, Forall_forall. intros s Hin. apply elem_of_seq in Hin. apply Hall. lia. }
  destruct (last_callback_wins os fs pre (eod_snapshot c 7) (slabs 7%nat) (ts 7%nat) session_10 base fs0)
    as (fs' & Hr & Hload); try done; [apply Hall; lia|].
  exists fs'. split; [exact Hr|]. intros s _. by apply Hload.
Qed.

(** ** Witnesses *)

(** The default configuration with a recovery server, a session name and two
    watched symbols. *)
Definition sample_config (name : bytes) : FeedHandlerConfig :=
  let d := default_config in
  mkConfig (multicast_group d) (port d) (interface d) (multicast_group_secondary d) (port_secondary d)
    (interface_secondary d) (failover_timeout_ms d) (receiver_core d) (parser_core d) (shard_cores d)
    (recovery_core d) (merger_core d) (report_interval_sec d) (gap_timeout_ms d) (snapshot_interval_sec d)
    (str "10.0.1.10") (retransmit_port d) (retransmit_address_secondary d) (retransmit_port_secondary d)
    (retransmit_username d) (retransmit_password d) (require_login d) (str "/s") (str "i_{session}_{timestamp}.snap")
    name (eod_archive_enabled d) [str "AAPL"; str "MSFT    "] (last_sequence_dir d)
    (queue_full_alert_threshold d).

Definition all_open (_ : OpenCall) : bool * bool := (true, true).

Lemma sample_can_start name : can_start (sample_config name) all_open.
Proof. split; [discriminate|by eexists|reflexivity]. Qed.

Abbreviation MsgQueue := (Seq.SpscQueue ItchMsg).
Abbreviation RecQueue := (Seq.SpscQueue SeqRecord).
Definition msg_queue : MsgQueue := Seq.init (Z.to_nat (2 ^ 1)) reset_msg.
Definition rec_queue : RecQueue := Seq.init 2 (mkSeqRecord 0 []).

Lemma msg_queue_ok : fifo_ok msg_queue.
Proof. apply init_fifo_ok. lia. Qed.

Lemma warm_start_resumes_witness :
  exists file (h : FeedHandler MsgQueue RecQueue) t' calls,
    save_sync None 7 sample_session SaveOk = Some file
    /\ init msg_queue rec_queue (sample_config sample_session) true true file all_open = Some (Ready h)
    /\ process_slot (parser_ h) 0 (fun _ => 0) (sample_slot 8 wire_order) = Some (t', calls)
    /\ sequence_gaps t' = 0 /\ shows (router_ (env_ t'), replicate 8 []) 3 (mkView [wire_order] [] 0).
Proof.
  destruct (encode_blocks 0 [wire_order]) as [bs|] eqn:E; [|vm_compute in E; discriminate].
  destruct (warm_start_resumes msg_queue rec_queue (sample_config sample_session) all_open None 7 sample_session
    (sample_slot 8 wire_order) [wire_order] 0 (fun _ => 0))
    as (file & h & t' & calls & H1 & H2 & H3 & _ & H4 & _ & _ & _ & H5).
  - exact msg_queue_ok.
  - reflexivity.
  - apply sample_can_start.
  - reflexivity.
  - repeat constructor; discriminate.
  - reflexivity.
  - lia.
  - apply (sample_slot_holds 8 wire_order bs); [concrete|exact wire_order_ok|reflexivity|exact E].
  - intros i. left. reflexivity.
  - exists file, h, t', calls. split; [exact H1|]. split; [exact H2|]. split; [exact H3|]. split; [exact H4|].
    apply (H5 3%nat). lia.
Defined.

(** A state file of another session, at number 100. *)
Definition old_file : option bytes := Some ([73; 84; 67; 83] ++ replicate 10 79 ++ le_enc 2 1 ++ le_enc 8 100).

(** Packets 1 and 9 of the new session: 2 to 8 are missing. *)
Lemma stale_position_hides_gaps_witness :
  exists (h : FeedHandler MsgQueue RecQueue) t',
    init msg_queue rec_queue (sample_config sample_session) true true old_file all_open = Some (Ready h)
    /\ process_slots (parser_ h) (fun _ => 0) [(0, sample_slot 1 wire_order); (0, sample_slot 9 wire_order)] = Some t'
    /\ sequence_gaps t' = 0.
Proof.
  destruct (encode_blocks 0 [wire_order]) as [bs|] eqn:E; [|vm_compute in E; discriminate].
  destruct (stale_position_hides_gaps msg_queue rec_queue (sample_config sample_session) all_open old_file 100
    sample_session (fun _ => 0) [(0, sample_slot 1 wire_order); (0, sample_slot 9 wire_order)])
    as (h & t' & H1 & H2 & H3 & _).
  - exact msg_queue_ok.
  - apply sample_can_start.
  - reflexivity.
  - lia.
  - reflexivity.
  - repeat constructor; discriminate.
  - reflexivity.
  - apply Forall_cons_2; [|apply Forall_cons_2; [|apply Forall_nil_2]].
    + exists 1, [wire_order]. split; [lia|]. split; [|intros i; left; reflexivity].
      apply (sample_slot_holds 1 wire_order bs); [concrete|exact wire_order_ok|reflexivity|exact E].
    + exists 9, [wire_order]. split; [lia|]. split; [|intros i; left; reflexivity].
      apply (sample_slot_holds 9 wire_order bs); [concrete|exact wire_order_ok|reflexivity|exact E].
  - exists h, t'. split; [exact H1|]. split; [exact H2|exact H3].
Defined.

Lemma auto_detect_requests_nameless_witness :
  exists (h : FeedHandler MsgQueue RecQueue),
    init msg_queue rec_queue (sample_config AUTO_DETECT) true true None all_open = Some (Ready h)
    /\ exists t' p, handle_recovery (mkRecovery (on_gap (mkGapInfo 5 9 0) (gap_detector_init 1)) true
         (recovery_session_ h)) 1000000 Connected 20 = Some (t', Some p) /\ take 10 p = replicate 10 0.
Proof.
  destruct (auto_detect_requests_nameless msg_queue rec_queue (sample_config AUTO_DETECT) all_open None [])
    as (h & H1 & H2).
  - exact msg_queue_ok.
  - apply sample_can_start.
  - cbn. lia.
  - reflexivity.
  - exists h. split; [exact H1|].
    assert (Hs : recovery_session_ h = replicate 11 0).
    { destruct (init_fresh (P := RecQueue) msg_queue rec_queue (sample_config AUTO_DETECT) all_open None msg_queue_ok
        (sample_can_start AUTO_DETECT)) as (h' & E & F); [cbn; lia|].
      assert (h' = h) as -> by congruence. rewrite (fr_recovery _ _ _ _ _ F).
      destruct (init_session_spec (sample_config AUTO_DETECT)) as (m & Em & _ & Hm & _).
      rewrite (fr_session _ _ _ _ _ F) in Em. injection Em as ->. rewrite Hm. reflexivity. }
    eexists _, _. split; [rewrite Hs; reflexivity|].
    eapply (H2 true (recovery_thread h true) eq_refl (on_gap (mkGapInfo 5 9 0) (gap_detector_init 1)) 1000000 Connected 20).
    cbn [recovery_thread connected rec_session_]. rewrite Hs. reflexivity.
Defined.

Lemma missing_retransmit_address_exits_witness :
  init msg_queue rec_queue (load_table sample_toml) true true None all_open = Some Exit1.
Proof.
  apply (missing_retransmit_address_exits (E := unit) msg_queue rec_queue sample_toml); [reflexivity|].
  intros tab _. reflexivity.
Defined.

Lemma configured_symbol_warms_up_witness :
  exists (h : FeedHandler MsgQueue RecQueue) m',
    init msg_queue rec_queue (sample_config AUTO_DETECT) true true None all_open = Some (Ready h)
    /\ try_resolve_watched (session_mgr_ (parser_ h)) 77 (str "AAPL    ") = Some m'
    /\ is_warmup_symbol m' 77 = Some true.
Proof.
  apply (configured_symbol_warms_up msg_queue rec_queue (sample_config AUTO_DETECT) all_open None 0 (str "AAPL") 77).
  - exact msg_queue_ok.
  - apply sample_can_start.
  - cbn. lia.
  - reflexivity.
  - lia.
  - concrete.
Defined.

Lemma shards_share_eod_pointer_witness :
  exists fs', run_eod_callbacks free_os ∅ (eod_saves (sample_config AUTO_DETECT)
      (fun s => [new_book (Z.of_nat s)]) (fun _ => 7)) (str "STRT0000T ") = Some fs'
    /\ exists rs, load_eod free_os fs' (eod_snapshot (sample_config AUTO_DETECT) 0) [new_book 0] = Some (true, rs)
         /\ Forall2 same_book [new_book 7] rs.
Proof.
  destruct (shards_share_eod_pointer free_os ∅ (sample_config AUTO_DETECT) (fun s => [new_book (Z.of_nat s)])
    (fun _ => 7) (str "STRT0000T ") (str "/s/i_STRT0000T_7_s7.snap") [new_book 0]) as (fs' & H1 & H2).
  - cbn. lia.
  - intros s Hs. split_and!; [|repeat constructor; cbn; lia|cbn; lia].
    apply Forall_cons_2; [|apply Forall_nil_2]. split; cbn.
    + unfold in_range. lia.
    + split; [vm_compute; split; discriminate|reflexivity].
    + split; [vm_compute; split; discriminate|reflexivity].
    + split; constructor.
  - reflexivity.
  - split; [repeat constructor; discriminate|repeat constructor; discriminate|vm_compute; lia| |].
    + exists (take 27 (str "/s/i_STRT0000T_7_s7_EOD.snap")), 112. split; reflexivity.
    + rewrite !not_elem_of_cons. split_and!; try discriminate. apply not_elem_of_nil.
  - repeat split.
  - reflexivity.
  - exists fs'. split; [exact H1|]. apply (H2 0%nat). lia.
Defined.
