(* ===== verification/Lifecycle.v ===== *)
(** * Life of the process

    [main] and [signal_handler] ([src/app/main.cpp]); [FeedHandler::run],
    [stop], [start_workers] and [stop_workers] ([src/app/feed_handler.cpp]);
    the [start] and [stop] of each thread.  The main thread is a program
    counter ([Phase]); a signal interrupts it between any two steps and runs
    the handler to its end.  A worker thread is running from its start to its
    join.  [sec] says whether the secondary receiver exists, [init_ok] what
    [init] returned. *)

From S2P Require Import Prelude Types.

(** The threads [FeedHandler] owns. *)
Inductive Thread :=
  | Metrics | Recovery | Persist | Shard (s : nat) | Parser | Merger | Receiver2 | Receiver1.

#[export] Instance Thread_eq_dec : EqDecision Thread.
Proof. solve_decision. Defined.

Definition shards : list Thread := Shard <$> seq 0 (Z.to_nat NUM_SHARDS).

(** [start_workers] and [stop_workers]. *)
Definition start_order (sec : bool) : list Thread :=
  [Metrics; Recovery; Persist] ++ shards ++ [Parser; Merger] ++ (if sec then [Receiver2] else []) ++ [Receiver1].

Definition stop_order (sec : bool) : list Thread :=
  [Receiver1] ++ (if sec then [Receiver2] else []) ++ [Merger; Parser; Persist] ++ shards ++ [Recovery; Metrics].

(** Where the main thread is. *)
Inductive Phase :=
  | Begin                                 (* before the handler is constructed *)
  | Initialising                          (* [g_handler] is set, [init] runs *)
  | AboutToRun                            (* [init] has returned true *)
  | Launching (todo : list Thread)        (* in [start_workers] *)
  | Waiting                               (* the loop of [run] *)
  | Stopping (todo : list Thread)         (* [stop_workers] at the end of [run] *)
  | Destroying                            (* the destructor, which calls [stop] *)
  | Exited                                (* the handler is gone *)
  | Crashed.                              (* [stop] called on a dead object *)

Record Process := mkProcess {
  running_ : bool;
  g_handler : bool;
  phase : Phase;
  live : list Thread
}.

Definition process0 : Process := mkProcess false false Begin [].

(** [start] of a thread: assigning to a [std::thread] that is still joinable
    ends the process. *)
Definition start_thread (w : Thread) (live : list Thread) : option (list Thread) :=
  if decide (w ∈ live) then None else Some (w :: live).

(** [stop] of a thread: its flag is cleared and it is joined if joinable. *)
Definition stop_thread (w : Thread) (live : list Thread) : list Thread :=
  filter (fun x => x <> w) live.

Definition stop_workers (sec : bool) (live : list Thread) : list Thread :=
  foldl (fun l w => stop_thread w l) live (stop_order sec).

(** [FeedHandler::stop]: [running_] is exchanged for false. *)
Definition handler_stop (sec : bool) (p : Process) : Process :=
  if running_ p
  then mkProcess false (g_handler p) (phase p) (stop_workers sec (live p))
  else p.

(** One step of the main thread.  [None]: the process is terminated. *)
Definition main_step (sec init_ok : bool) (p : Process) : option Process :=
  match phase p with
  | Begin => Some (mkProcess (running_ p) true Initialising (live p))
  | Initialising =>
      Some (mkProcess (running_ p) (g_handler p) (if init_ok then AboutToRun else Destroying) (live p))
  | AboutToRun => Some (mkProcess true (g_handler p) (Launching (start_order sec)) (live p))
  | Launching [] => Some (mkProcess (running_ p) (g_handler p) Waiting (live p))
  | Launching (w :: ws) =>
      l ← start_thread w (live p); Some (mkProcess (running_ p) (g_handler p) (Launching ws) l)
  | Waiting =>
      Some (if running_ p then p else mkProcess (running_ p) (g_handler p) (Stopping (stop_order sec)) (live p))
  | Stopping [] => Some (mkProcess (running_ p) (g_handler p) Destroying (live p))
  | Stopping (w :: ws) =>
      Some (mkProcess (running_ p) (g_handler p) (Stopping ws) (stop_thread w (live p)))
  | Destroying =>
      let p' := handler_stop sec p in
      Some (mkProcess (running_ p') (g_handler p') Exited (live p'))
  | Exited | Crashed => Some p
  end.

(** [signal_handler] on the main thread: [g_handler] is never cleared, so that
    after the destructor the pointer dangles. *)
Definition signal_step (sec : bool) (p : Process) : Process :=
  if g_handler p then
    match phase p with
    | Exited | Crashed => mkProcess (running_ p) (g_handler p) Crashed (live p)
    | _ => handler_stop sec p
    end
  else p.

Inductive Event := Main | Signal.

Definition event_step (sec init_ok : bool) (p : Process) (e : Event) : option Process :=
  match e with
  | Main => main_step sec init_ok p
  | Signal => Some (signal_step sec p)
  end.

Fixpoint run_events (sec init_ok : bool) (p : Process) (es : list Event) : option Process :=
  match es with
  | [] => Some p
  | e :: es' => p' ← event_step sec init_ok p e; run_events sec init_ok p' es'
  end.

(** ** Invariant *)

(** Steps of the main thread from the end of [run] on, and from any point
    once [running_] is false. *)
Definition steps_left (sec : bool) (ph : Phase) : nat :=
  match ph with
  | Launching todo => length todo + 1 + 1 + length (stop_order sec) + 1 + 1
  | Waiting => 1 + length (stop_order sec) + 1 + 1
  | Stopping todo => length todo + 1 + 1
  | Destroying => 1
  | _ => 0
  end.

(** Is the phase one in which [run] is executing or over? *)
Definition after_start (ph : Phase) : bool :=
  match ph with Launching _ | Waiting | Stopping _ | Destroying => true | _ => false end.

Record process_ok (sec : bool) (p : Process) : Prop := {
  pk_known : forall w, w ∈ live p -> w ∈ stop_order sec;
  pk_nodup : NoDup (live p);
  pk_idle : match phase p with
            | Begin | Initialising | AboutToRun => live p = [] /\ running_ p = false
            | Launching todo => NoDup todo /\ (forall w, w ∈ todo -> (w ∉ live p) /\ w ∈ stop_order sec)
                /\ (running_ p = true -> forall w, w ∈ start_order sec -> (w ∉ todo) -> w ∈ live p)
            | Waiting => running_ p = true -> forall w, w ∈ start_order sec -> w ∈ live p
            | Stopping todo => running_ p = false /\ (forall w, w ∈ live p -> w ∈ todo)
            | Destroying | Exited => running_ p = false /\ live p = []
            | Crashed => running_ p = false /\ live p = []
            end;
  pk_handler : phase p = Begin \/ g_handler p = true
}.

(** ** Lemmas *)

Lemma start_stop_same sec w : w ∈ start_order sec <-> w ∈ stop_order sec.
Proof. unfold start_order, stop_order. destruct sec; rewrite ?elem_of_app, ?elem_of_cons, ?elem_of_nil; tauto. Qed.

Lemma start_order_nodup sec : NoDup (start_order sec).
Proof. destruct sec; apply (bool_decide_unpack _); vm_compute; exact I. Qed.

Lemma elem_of_stop_thread w x l : x ∈ stop_thread w l <-> x ∈ l /\ x <> w.
Proof. unfold stop_thread. rewrite list_elem_of_filter. tauto. Qed.

Lemma elem_of_stop_all ws x l : x ∈ foldl (fun l w => stop_thread w l) l ws <-> x ∈ l /\ (x ∉ ws).
Proof.
  revert l. induction ws as [|w ws IH]; intros l; cbn [foldl].
  { pose proof (not_elem_of_nil x). tauto. }
  rewrite IH, elem_of_stop_thread, not_elem_of_cons. tauto.
Qed.

Lemma stop_thread_nodup w l : NoDup l -> NoDup (stop_thread w l).
Proof. apply NoDup_filter. Qed.

(** [stop_workers] joins every thread there is. *)
Lemma stop_workers_all sec l : (forall w, w ∈ l -> w ∈ stop_order sec) -> stop_workers sec l = [].
Proof.
  intros Hk. destruct (stop_workers sec l) as [|x l'] eqn:E; [done|]. exfalso.
  assert (Hx : x ∈ stop_workers sec l) by (rewrite E; left).
  apply elem_of_stop_all in Hx as [Hx Hn]. auto.
Qed.

Lemma handler_stop_ok sec p : process_ok sec p -> process_ok sec (handler_stop sec p) /\ running_ (handler_stop sec p) = false
  /\ phase (handler_stop sec p) = phase p.
Proof.
  intros Ok. unfold handler_stop. destruct (running_ p) eqn:Er; [|done].
  destruct Ok as [K N I G]. rewrite Er in I.
  rewrite stop_workers_all by done. split; [|done]. split; cbn; try done.
  - intros w Hw. by apply not_elem_of_nil in Hw.
  - constructor.
  - destruct (phase p); try done; try (by destruct I).
    + destruct I as (I1 & I2 & _). split_and!; try done. intros w Hw. split; [apply not_elem_of_nil|by apply I2].
Qed.

Lemma process0_ok sec : process_ok sec process0.
Proof. split; cbn; [|constructor|done|by left]. intros w Hw. by apply not_elem_of_nil in Hw. Qed.

(** The fields of the invariant that need no argument. *)
Ltac fields := split; cbn; try done; try (by right).

(** Every event keeps the invariant, and none terminates the process. *)
Lemma event_step_ok sec init_ok p e : process_ok sec p ->
  exists p', event_step sec init_ok p e = Some p' /\ process_ok sec p'.
Proof.
  intros Ok. destruct e; cbn [event_step].
  2: { eexists. split; [done|]. unfold signal_step. destruct (g_handler p); [|done].
       destruct (phase p) eqn:Eph; try (by apply handler_stop_ok).
       all: destruct Ok as [K N I G]; rewrite Eph in I; split; cbn; try done; by right. }
  destruct p as [r g ph l]. unfold main_step. cbn [phase running_ g_handler live].
  destruct ph as [| | |[|w ws]| |[|w ws]| | |].
  all: try (eexists; split; [reflexivity|]).
  all: destruct Ok as [K N I G]; cbn [phase running_ g_handler live] in *.
  all: try (destruct G as [G|G]; [discriminate G|subst g]).
  - fields.
  - destruct init_ok; fields; by destruct I.
  - fields. destruct I as [-> _]. split_and!; [apply start_order_nodup| |].
    + intros w Hw. split; [apply not_elem_of_nil|by apply start_stop_same].
    + intros _ w H1 H2. done.
  - fields. destruct I as (_ & _ & I). intros Hr w Hw. apply I; [done|done|apply not_elem_of_nil].
  - destruct I as (I1 & I2 & I3). apply NoDup_cons in I1 as [Hw I1]. unfold start_thread.
    rewrite decide_False by (apply I2; left). cbn [mbind option_bind]. eexists. split; [done|]. fields.
    + intros x Hx. apply elem_of_cons in Hx as [->|Hx]; [apply I2; left|by apply K].
    + constructor; [apply I2; left|done].
    + split_and!; [done| |].
      * intros x Hx. rewrite not_elem_of_cons. split_and!; [congruence|apply I2; by right|apply I2; by right].
      * intros Hr x Hx Hn. destruct (decide (x = w)) as [->|]; [left|]. right. apply I3; [done|done|].
        by rewrite not_elem_of_cons.
  - destruct r; fields.
  - fields. destruct I as [-> I]. split; [done|]. destruct l as [|x l]; [done|].
    exfalso. by eapply not_elem_of_nil, (I x); left.
  - destruct I as [-> I]. fields.
    + intros x Hx. apply elem_of_stop_thread in Hx as [Hx _]. by apply K.
    + by apply stop_thread_nodup.
    + split; [done|]. intros x Hx. apply elem_of_stop_thread in Hx as [Hx Hn]. apply I in Hx.
      apply elem_of_cons in Hx as [->|]; done.
  - destruct I as [-> ->]. fields.
  - fields.
  - fields.
Qed.

Lemma run_events_ok sec init_ok es : forall p, process_ok sec p ->
  exists p', run_events sec init_ok p es = Some p' /\ process_ok sec p'.
Proof.
  induction es as [|e es IH]; intros p Ok; cbn [run_events]; [by exists p|].
  destruct (event_step_ok sec init_ok p e Ok) as (p1 & -> & Ok1). cbn [mbind option_bind]. by apply IH.
Qed.

Arguments stop_order : simpl never.

(** Once [running_] is false, each step of the main thread brings the end of
    the process one step nearer, and signals change nothing. *)
Lemma shutdown_step sec init_ok p : process_ok sec p -> running_ p = false -> after_start (phase p) = true ->
  exists p', main_step sec init_ok p = Some p' /\ process_ok sec p' /\ running_ p' = false
    /\ S (steps_left sec (phase p')) = steps_left sec (phase p)
    /\ (after_start (phase p') = true \/ phase p' = Exited).
Proof.
  intros Ok Hr Ha. destruct (event_step_ok sec init_ok p Main Ok) as (p' & E & Ok').
  exists p'. cbn [event_step] in E. split; [done|]. split; [done|]. clear Ok'.
  destruct p as [r g ph l]. cbn [running_] in Hr. subst r. unfold main_step in E. cbn [phase running_ g_handler live] in *.
  destruct ph as [| | |[|w ws]| |[|w ws]| | |]; try discriminate Ha; cbn in E.
  - injection E as <-. cbn. split_and!; [done|lia|by left].
  - unfold start_thread in E. case_decide; [done|]. injection E as <-. cbn. split_and!; [done|lia|by left].
  - injection E as <-. cbn [phase running_ steps_left after_start]. split_and!; [done|lia|by left].
  - injection E as <-. cbn. split_and!; [done|lia|by left].
  - injection E as <-. cbn. split_and!; [done|lia|by left].
  - injection E as <-. cbn. split_and!; [done|lia|by right].
Qed.

Lemma signal_when_stopped sec p : running_ p = false -> after_start (phase p) = true -> signal_step sec p = p.
Proof.
  intros Hr Ha. unfold signal_step, handler_stop. rewrite Hr. destruct (g_handler p); [|done].
  by destruct (phase p).
Qed.

Definition is_main (e : Event) : bool := match e with Main => true | Signal => false end.
Definition main_count (es : list Event) : nat := length (filter (fun e => is_main e = true) es).

(** The events up to and including the last step needed, signals in between. *)
Lemma shutdown_run sec init_ok es : forall p n, process_ok sec p -> running_ p = false ->
  after_start (phase p) = true -> steps_left sec (phase p) = n -> main_count es = n -> last es = Some Main ->
  exists p', run_events sec init_ok p es = Some p' /\ phase p' = Exited /\ live p' = [] /\ running_ p' = false.
Proof.
  induction es as [|e es IH]; intros p n Ok Hr Ha Hn Hc Hl; [done|]. cbn [run_events].
  destruct e; cbn [event_step mbind option_bind].
  - destruct (shutdown_step sec init_ok p Ok Hr Ha) as (p1 & -> & Ok1 & R1 & S1 & A1). cbn [mbind option_bind].
    assert (Hc1 : main_count es = steps_left sec (phase p1)).
    { unfold main_count in *. rewrite filter_cons_True in Hc by done. cbn [length] in Hc. lia. }
    destruct A1 as [A1|A1].
    + destruct es as [|e2 es]; [|apply (IH p1 (steps_left sec (phase p1))); done].
      exfalso. unfold main_count in Hc1. cbn in Hc1. destruct (phase p1); cbn in *; try done; lia.
    + rewrite A1 in Hc1. destruct es as [|e2 es].
      * exists p1. destruct Ok1 as [_ _ I _]. rewrite A1 in I. cbn. by destruct I.
      * exfalso. clear -Hc1 Hl. cbn in Hl. cbn [steps_left] in Hc1.
        assert (Hin : Main ∈ e2 :: es) by (by apply last_Some_elem_of).
        unfold main_count in Hc1. apply length_zero_iff_nil in Hc1.
        assert (Hf : Main ∈ filter (fun e => is_main e = true) (e2 :: es)) by (by apply list_elem_of_filter).
        rewrite Hc1 in Hf. by apply not_elem_of_nil in Hf.
  - rewrite (signal_when_stopped sec p Hr Ha). unfold main_count in Hc. rewrite filter_cons_False in Hc by done.
    destruct es as [|e2 es]; [done|]. by apply (IH p n).
Qed.

Lemma running_after_start sec p : process_ok sec p -> running_ p = true -> after_start (phase p) = true /\ g_handler p = true.
Proof.
  intros [_ _ I G] Hr. rewrite Hr in I.
  destruct (phase p); try (by destruct I); destruct G as [G|G]; done.
Qed.

(** ** Properties *)

(** C33: threads are started and stopped properly.  Whatever signals arrive,
    and whenever, no thread is started while it is still running (which would
    end the process), and none is there twice.  Threads exist only from
    [start_workers] to the end of [stop_workers]: before, after and during the
    destructor there is none.  While [start_workers] is under way without a
    signal exactly the threads it has got to are running; while the process
    waits with [running_] set all of them are; and while [stop_workers] is
    under way only those it has not got to. *)
Theorem process_invariant sec init_ok es :
  exists p, run_events sec init_ok process0 es = Some p /\ NoDup (live p)
    /\ match phase p with
       | Launching todo => running_ p = true -> forall w, w ∈ live p <-> w ∈ start_order sec /\ (w ∉ todo)
       | Waiting => running_ p = true -> forall w, w ∈ live p <-> w ∈ start_order sec
       | Stopping todo => forall w, w ∈ live p -> w ∈ todo
       | Begin | Initialising | AboutToRun | Destroying | Exited | Crashed => live p = []
       end.
Proof.
  destruct (run_events_ok sec init_ok es process0 (process0_ok sec)) as (p & E & [K N I G]).
  exists p. split; [done|]. split; [done|]. destruct (phase p); try (by destruct I).
  - destruct I as (_ & I2 & I3). intros Hr w. split; [|intros [Hw Hn]; by apply I3]. intros Hw.
    split; [by apply start_stop_same, K|]. intros Ht. by apply (proj1 (I2 w Ht)).
  - intros Hr w. split; [|by apply I]. intros Hw. by apply start_stop_same, K.
Qed.

(** C34: a signal shuts the process down.  From any state in which the handler
    is running - also in the middle of starting its threads - a signal is
    followed by the orderly end of the process: after a number of further
    steps of the main thread that depends only on where it was, with any
    number of further signals in between, the handler is destroyed and every
    thread has been joined. *)
Theorem signal_shuts_down sec init_ok es0 p es :
  run_events sec init_ok process0 es0 = Some p -> running_ p = true ->
  main_count es = steps_left sec (phase p) -> last es = Some Main ->
  exists p', run_events sec init_ok p (Signal :: es) = Some p'
    /\ phase p' = Exited /\ live p' = [] /\ running_ p' = false.
Proof.
  intros E0 Hr Hc Hl. destruct (run_events_ok sec init_ok es0 process0 (process0_ok sec)) as (q & E & Ok).
  assert (q = p) as -> by congruence. destruct (running_after_start sec p Ok Hr) as [Ha Hg].
  destruct (handler_stop_ok sec p Ok) as (Ok' & R' & Ph').
  assert (Es : signal_step sec p = handler_stop sec p) by (unfold signal_step; rewrite Hg; by destruct (phase p)).
  cbn [run_events event_step mbind option_bind]. rewrite Es.
  apply (shutdown_run sec init_ok es _ (steps_left sec (phase p))); try done; by rewrite Ph'.
Qed.

(** The states before [run], where signals have no effect. *)
Definition early (m : nat) : Process :=
  match m with
  | O => process0
  | S O => mkProcess false true Initialising []
  | _ => mkProcess false true AboutToRun []
  end.

Lemma early_run sec es : forall m, (m + main_count es <= 2)%nat ->
  run_events sec true (early m) es = Some (early (m + main_count es)).
Proof.
  induction es as [|e es IH]; intros m Hm; cbn [run_events]; [by rewrite Nat.add_0_r|].
  unfold main_count in *. destruct e.
  - rewrite filter_cons_True in * by done. cbn [length] in *.
    destruct m as [|[|m]]; [| |lia]; cbn [early event_step]; cbn [main_step process0 phase mbind option_bind running_ live g_handler].
    + apply (IH 1%nat). lia.
    + apply (IH 2%nat). lia.
  - rewrite filter_cons_False in * by done. cbn [event_step mbind option_bind].
    assert (Hs : signal_step sec (early m) = early m) by (by destruct m as [|[|m]]).
    rewrite Hs. by apply IH.
Qed.

(** All threads started, nobody asked to stop. *)
Definition waiting_state (sec : bool) : Process := mkProcess true true Waiting (rev (start_order sec)).

Lemma waiting_forever sec n : run_events sec true (waiting_state sec) (replicate n Main) = Some (waiting_state sec).
Proof. induction n as [|n IH]; [done|]. cbn [replicate run_events]. exact IH. Qed.

Lemma run_events_app sec init_ok es1 es2 : forall p,
  run_events sec init_ok p (es1 ++ es2) = p' ← run_events sec init_ok p es1; run_events sec init_ok p' es2.
Proof.
  induction es1 as [|e es1 IH]; intros p; cbn [app run_events]; [done|].
  destruct (event_step sec init_ok p e); [|done]. cbn [mbind option_bind]. apply IH.
Qed.

(** A signal during start-up is lost.  [stop] does nothing unless
    [running_] is set, and [run] sets it unconditionally: signals that arrive
    before [run], however many, change nothing, and the process then waits
    for ever with all its threads running. *)
Theorem early_signal_lost sec es n :
  (main_count es <= 2)%nat ->
  run_events sec true process0
    (es ++ replicate (2 - main_count es + (2 + length (start_order sec)) + n) Main)
  = Some (waiting_state sec).
Proof.
  intros Hm. rewrite run_events_app. change process0 with (early 0). rewrite (early_run sec es 0) by lia. cbn [mbind option_bind].
  change (0 + main_count es)%nat with (main_count es).
  rewrite replicate_add, run_events_app.
  assert (Hw : run_events sec true (early (main_count es))
    (replicate (2 - main_count es + (2 + length (start_order sec))) Main) = Some (waiting_state sec)).
  { destruct (main_count es) as [|[|[|k]]]; [| | |lia]; destruct sec; vm_compute; reflexivity. }
  rewrite Hw. cbn [mbind option_bind]. apply waiting_forever.
Qed.

(** The handler's address stays in [g_handler] after its destruction: a signal
    between that point and the end of [main] is delivered to a dead object. *)
Example late_signal_crashes : exists es,
  (phase <$> run_events false false process0 es) = Some Exited
  /\ (phase <$> run_events false false process0 (es ++ [Signal])) = Some Crashed.
Proof. by exists [Main; Main; Main]. Qed.

(** ** Witnesses *)

(** A signal after four of the threads were started. *)
Lemma signal_shuts_down_witness :
  exists p', run_events true true (mkProcess true true (Launching (drop 4 (start_order true)))
      [Shard 0; Persist; Recovery; Metrics]) (Signal :: replicate 29 Main ++ [Signal; Main]) = Some p'
    /\ phase p' = Exited /\ live p' = [].
Proof.
  destruct (signal_shuts_down true true (replicate 7 Main)
    (mkProcess true true (Launching (drop 4 (start_order true))) [Shard 0; Persist; Recovery; Metrics])
    (replicate 29 Main ++ [Signal; Main])) as (p' & H1 & H2 & H3 & _).
  - reflexivity.
  - reflexivity.
  - reflexivity.
  - reflexivity.
  - exists p'. split; [exact H1|]. split; [exact H2|exact H3].
Defined.

Lemma early_signal_lost_witness :
  run_events false true process0 ([Main; Signal; Main; Signal] ++ replicate 1016 Main) = Some (waiting_state false).
Proof. apply (early_signal_lost false [Main; Signal; Main; Signal] 1000). vm_compute. lia. Defined.
