(* ===== verification/Tools.v ===== *)
(** * Command line tools

    [tools/pcap_replay.cpp] and [tools/itch_inspect.cpp].  The packets
    [pcap_next_ex] delivers are an argument: a capture is the captured length
    and the captured bytes.  What is printed is kept as data.  The pacing of
    the replay and the periodic progress line change no counter and are left
    out; the clock read by the sequence tracker comes with the packet. *)

From Stdlib Require Import String.
From S2P Require Import Prelude Types Wire Mold ItchParser Sequence PacketRing Session ParserThread SnapshotFiles.

Record Capture := mkCapture { caplen : Z; raw : bytes }.

Definition UDP_PAYLOAD_OFFSET : Z := 42.

(** The payload pointer and its length, [None] when the capture is too short. *)
Definition udp_payload (c : Capture) : option (bytes * Z) :=
  if caplen c <=? UDP_PAYLOAD_OFFSET then None
  else Some (drop 42 (raw c), u16 (caplen c - UDP_PAYLOAD_OFFSET)).

(** ** Arguments *)

(** [atoi]: blanks, a sign, digits up to the first other character.  [None]:
    the value is not an [int]. *)
Fixpoint atoi_digits (s : bytes) (acc : Z) : Z :=
  match s with
  | c :: s' => if (48 <=? c) && (c <=? 57) then atoi_digits s' (acc * 10 + (c - 48)) else acc
  | [] => acc
  end.

Definition is_blank (c : Z) : bool := (c =? 32) || ((9 <=? c) && (c <=? 13)).

Definition atoi (s : bytes) : option Z :=
  let s1 := skip_while is_blank s in
  let v := match s1 with
           | 45 :: s2 => - atoi_digits s2 0
           | 43 :: s2 => atoi_digits s2 0
           | _ => atoi_digits s1 0
           end in
  if decide (- 2 ^ 31 <= v < 2 ^ 31) then Some v else None.

Record InspectArgs := mkInspectArgs { max_packets : Z; filter_locate : Z }.

(** The loop over [argv] from index 2 on. *)
Fixpoint inspect_args (args : list bytes) (a : InspectArgs) : option InspectArgs :=
  match args with
  | x :: ((v :: args2) as args1) =>
      if decide (x = str "--max") then
        n ← atoi v; inspect_args args2 (mkInspectArgs n (filter_locate a))
      else if decide (x = str "--locate") then
        n ← atoi v; inspect_args args2 (mkInspectArgs (max_packets a) (u16 n))
      else inspect_args args1 a
  | _ => Some a
  end.

(** ** itch_inspect *)

(** The values [print_msg] prints after the common header. *)
Inductive Printed :=
  | PAdd (ref : Z) (side : Side) (shares price : Z) (stock : bytes)
  | PExecuted (ref executed match_number : Z)
  | PExecutedPrice (ref executed match_number price : Z)
  | PCancel (ref cancelled : Z)
  | PDelete (ref : Z)
  | PReplace (orig_ref new_ref new_price new_shares : Z)
  | PDirectory (stock : bytes) (category lot : Z)
  | PTrade (ref : Z) (side : Side) (shares price : Z) (stock : bytes) (match_number : Z)
  | PEvent (code : Z)
  | PNothing.

(** [None]: the union member read is not the one the message holds. *)
Definition print_msg (m : ItchMsg) : option (Z * Z * MessageType * Printed) :=
  p ← (match type m, body m with
       | AddOrder, add_order ref sd p sh st _ | AddOrderMPID, add_order ref sd p sh st _ =>
           Some (PAdd ref sd sh p st)
       | OrderExecuted, order_executed ref sh mn => Some (PExecuted ref sh mn)
       | OrderExecutedPrice, order_executed_price ref sh mn p _ => Some (PExecutedPrice ref sh mn p)
       | OrderCancel, order_cancel ref sh => Some (PCancel ref sh)
       | OrderDelete, order_delete ref => Some (PDelete ref)
       | OrderReplace, order_replace o n sh p => Some (PReplace o n p sh)
       | StockDirectory, stock_directory st mc lot _ _ => Some (PDirectory st mc lot)
       | Trade, trade ref sd sh p st mn => Some (PTrade ref sd sh p st mn)
       | SystemEvent, system_event c => Some (PEvent c)
       | AddOrder, _ | AddOrderMPID, _ | OrderExecuted, _ | OrderExecutedPrice, _ | OrderCancel, _
       | OrderDelete, _ | OrderReplace, _ | StockDirectory, _ | Trade, _ | SystemEvent, _ => None
       | _, _ => Some PNothing
       end);
  Some (timestamp m, locate m, type m, p).

(** The messages of a capture: none for a short, invalid or heartbeat packet. *)
Definition capture_messages (c : Capture) : option (list ItchMsg) :=
  match udp_payload c with
  | None => Some []
  | Some (udp, len) =>
      mold ← mold_parse udp len;
      if negb (valid mold) || is_heartbeat (header mold) then Some []
      else parse 0 mold MAX_MSGS_PER_PACKET
  end.

(** The inner loop: messages of other locate codes are skipped. *)
Fixpoint print_messages (locate_code : Z) (ms : list ItchMsg) (msg_count : Z)
    : option (list (Z * Z * MessageType * Printed) * Z) :=
  match ms with
  | [] => Some ([], msg_count)
  | m :: ms' =>
      if negb (locate_code =? 0) && negb (locate m =? locate_code)
      then print_messages locate_code ms' msg_count
      else
        l ← print_msg m;
        '(ls, n) ← print_messages locate_code ms' (msg_count +64 1);
        Some (l :: ls, n)
  end.

(** The loop over the file: the lines printed and the two totals. *)
Fixpoint inspect_loop (a : InspectArgs) (cs : list Capture) (pkt_count msg_count : Z)
    : option (list (Z * Z * MessageType * Printed) * Z * Z) :=
  match cs with
  | [] => Some ([], pkt_count, msg_count)
  | c :: cs' =>
      if pkt_count <? max_packets a then
        ms ← capture_messages c;
        '(ls, n) ← print_messages (filter_locate a) ms msg_count;
        '(ls', pk, n') ← inspect_loop a cs' (pkt_count + 1) n;
        Some (ls ++ ls', pk, n')
      else Some ([], pkt_count, msg_count)
  end.

(** ** pcap_replay *)

Record ReplayStats := mkReplay {
  packets : Z; messages : Z; gaps : Z; heartbeats : Z;
  add_orders : Z; executions : Z; cancels : Z; deletes : Z; replaces : Z
}.

Definition ReplayStats0 : ReplayStats := mkReplay 0 0 0 0 0 0 0 0 0.

(** The switch over the message types. *)
Definition count_type (s : ReplayStats) (m : ItchMsg) : ReplayStats :=
  match type m with
  | AddOrder | AddOrderMPID =>
      mkReplay (packets s) (messages s) (gaps s) (heartbeats s) (add_orders s +64 1) (executions s)
        (cancels s) (deletes s) (replaces s)
  | OrderExecuted | OrderExecutedPrice =>
      mkReplay (packets s) (messages s) (gaps s) (heartbeats s) (add_orders s) (executions s +64 1)
        (cancels s) (deletes s) (replaces s)
  | OrderCancel =>
      mkReplay (packets s) (messages s) (gaps s) (heartbeats s) (add_orders s) (executions s)
        (cancels s +64 1) (deletes s) (replaces s)
  | OrderDelete =>
      mkReplay (packets s) (messages s) (gaps s) (heartbeats s) (add_orders s) (executions s)
        (cancels s) (deletes s +64 1) (replaces s)
  | OrderReplace =>
      mkReplay (packets s) (messages s) (gaps s) (heartbeats s) (add_orders s) (executions s)
        (cancels s) (deletes s) (replaces s +64 1)
  | _ => s
  end.

(** One iteration of the loop over the packets. *)
Definition replay_packet (tr : SequenceTracker) (s : ReplayStats) (now : Z) (c : Capture)
    : option (SequenceTracker * ReplayStats) :=
  match udp_payload c with
  | None => Some (tr, s)
  | Some (udp, len) =>
      mold ← mold_parse udp len;
      if negb (valid mold) then Some (tr, s)
      else if is_heartbeat (header mold) then
        Some (tr, mkReplay (packets s) (messages s) (gaps s) (heartbeats s +64 1) (add_orders s)
                    (executions s) (cancels s) (deletes s) (replaces s))
      else
        let '(ok, tr') := try_advance now tr (get_sequence (header mold)) in
        let gaps' := if negb ok && (gap_count tr' >? gaps s) then gaps s +64 1 else gaps s in
        ms ← parse 0 mold MAX_MSGS_PER_PACKET;
        Some (tr', foldl count_type
                     (mkReplay (packets s +64 1) (messages s +64 Z.of_nat (length ms)) gaps' (heartbeats s)
                        (add_orders s) (executions s) (cancels s) (deletes s) (replaces s)) ms)
  end.

Fixpoint replay_loop (tr : SequenceTracker) (s : ReplayStats) (cs : list (Z * Capture))
    : option (SequenceTracker * ReplayStats) :=
  match cs with
  | [] => Some (tr, s)
  | (now, c) :: cs' => '(tr', s') ← replay_packet tr s now c; replay_loop tr' s' cs'
  end.

Definition replay (cs : list (Z * Capture)) : option (SequenceTracker * ReplayStats) :=
  replay_loop (tracker_init 0) ReplayStats0 cs.

(** ** Lemmas *)

(** A captured packet: Ethernet, IP and UDP headers, then a MoldUDP64 packet
    of [ms] numbered [seq]. *)
Record captured (c : Capture) (seq : Z) (ms : list ItchMsg) : Prop := {
  cp_len : 42 < caplen c < 65536 + 42;
  cp_packet : exists sess, holds_packet (mkSlot (drop 42 (raw c)) (caplen c - 42) 0 0 0 0) sess seq ms
}.

Lemma captured_payload c seq ms : captured c seq ms ->
  exists r, udp_payload c = Some (drop 42 (raw c), caplen c - 42)
    /\ mold_parse (drop 42 (raw c)) (caplen c - 42) = Some r /\ valid r = true
    /\ is_heartbeat (header r) = false /\ get_sequence (header r) = seq
    /\ parse 0 r MAX_MSGS_PER_PACKET = Some ms
    /\ Forall (fun m => msg_ok m /\ member_of (type m) (body m) = true) ms.
Proof.
  intros [Hl [sess Hp]]. destruct (decode_slot _ _ _ _ Hp) as (r & E & V & B & _ & K & M & F).
  exists r. unfold udp_payload, UDP_PAYLOAD_OFFSET. rewrite (proj2 (Z.leb_gt _ _)) by lia.
  rewrite wrap_small by range_lia. done.
Qed.

Lemma captured_messages c seq ms : captured c seq ms -> capture_messages c = Some ms.
Proof.
  intros Hc. destruct (captured_payload c seq ms Hc) as (r & E & M & V & B & _ & P & _).
  unfold capture_messages. rewrite E, M. cbn [mbind option_bind]. by rewrite V, B.
Qed.

(** The five kinds of messages that are counted. *)
Inductive OrderKind := KAdd | KExecute | KCancel | KDelete | KReplace.

Definition kind_of (t : MessageType) : option OrderKind :=
  match t with
  | AddOrder | AddOrderMPID => Some KAdd
  | OrderExecuted | OrderExecutedPrice => Some KExecute
  | OrderCancel => Some KCancel
  | OrderDelete => Some KDelete
  | OrderReplace => Some KReplace
  | _ => None
  end.

#[export] Instance OrderKind_eq_dec : EqDecision OrderKind.
Proof. solve_decision. Defined.

Definition counter (s : ReplayStats) (k : OrderKind) : Z :=
  match k with
  | KAdd => add_orders s | KExecute => executions s | KCancel => cancels s
  | KDelete => deletes s | KReplace => replaces s
  end.

Definition number_of (k : OrderKind) (ms : list ItchMsg) : Z :=
  Z.of_nat (length (filter (fun m => kind_of (type m) = Some k) ms)).

Lemma number_of_app k a b : number_of k (a ++ b) = number_of k a + number_of k b.
Proof. unfold number_of. rewrite filter_app, length_app. lia. Qed.

Lemma count_types_spec ms : forall s, let s' := foldl count_type s ms in
  packets s' = packets s /\ messages s' = messages s /\ gaps s' = gaps s /\ heartbeats s' = heartbeats s
  /\ forall k, u64 (counter s' k) = u64 (counter s k + number_of k ms).
Proof.
  induction ms as [|m ms IH]; intros s; cbn [foldl].
  { split_and!; try done. intros k. unfold number_of. cbn. by rewrite Z.add_0_r. }
  destruct (IH (count_type s m)) as (H1 & H2 & H3 & H4 & H5).
  assert (Hc : forall k, u64 (counter (count_type s m) k)
    = u64 (counter s k + (if decide (kind_of (type m) = Some k) then 1 else 0))).
  { intros k. unfold count_type, kind_of. destruct (type m), k; cbn; rewrite ?wrap_wrap, ?Z.add_0_r; done. }
  rewrite H1, H2, H3, H4. split_and!; try (unfold count_type; by destruct (type m)).
  intros k. rewrite H5, <- (wrap_add_l _ (counter _ k)), Hc, wrap_add_l. f_equal.
  unfold number_of. rewrite filter_cons. case_decide; cbn [length]; lia.
Qed.

(** The gaps among the events of a run. *)
Definition is_gap (e : SeqEvent) : bool := match e with Gap _ _ => true | _ => false end.
Definition gap_events (es : list SeqEvent) : Z :=
  Z.of_nat (length (filter (fun e => is_gap e = true) es)).

Lemma gap_events_cons e es : gap_events (e :: es) = (if is_gap e then 1 else 0) + gap_events es.
Proof. unfold gap_events. rewrite filter_cons. destruct (is_gap e); case_decide; try done; cbn [length]; lia. Qed.

Lemma gap_events_one e : gap_events [e] = if is_gap e then 1 else 0.
Proof. rewrite gap_events_cons. change (gap_events []) with 0. lia. Qed.

(** ** What a captured frame is *)

(** A frame is ignored, a heartbeat, or a data packet with its number and the
    messages the parser finds in it. *)
Inductive Frame := Ignored | Beat | Data (seq : Z) (ms : list ItchMsg).

(** The number and the message count stand in network order at the bytes 10
    and 18 of the UDP payload. *)
Definition reads_as (c : Capture) (f : Frame) : Prop :=
  let udp := drop 42 (raw c) in
  let len := u16 (caplen c - 42) in
  let full := 42 < caplen c /\ 20 <= len in
  match f with
  | Ignored => caplen c <= 42 \/ len < 20
  | Beat => full /\ be_val (take 2 (drop 18 udp)) = MOLDUDP64_HEARTBEAT
  | Data seq ms => full /\ be_val (take 2 (drop 18 udp)) <> MOLDUDP64_HEARTBEAT
      /\ seq = be_val (take 8 (drop 10 udp))
      /\ exists r, mold_parse udp len = Some r /\ parse 0 r MAX_MSGS_PER_PACKET = Some ms
  end.

(** The captured bytes, and two more that can be read behind them. *)
Definition capture_ok (c : Capture) : Prop :=
  bytes_ok (raw c) /\ 0 <= caplen c /\ caplen c + 2 <= Z.of_nat (length (raw c)).

Lemma u16_le z : 0 <= z -> 0 <= u16 z <= z.
Proof. intros Hz. split; [apply wrap_range; lia|apply Z.mod_le; lia]. Qed.

(** What the code makes of a frame that has a whole header. *)
Lemma full_frame c : capture_ok c -> 42 < caplen c -> 20 <= u16 (caplen c - 42) ->
  exists r, udp_payload c = Some (drop 42 (raw c), u16 (caplen c - 42))
    /\ mold_parse (drop 42 (raw c)) (u16 (caplen c - 42)) = Some r /\ valid r = true
    /\ is_heartbeat (header r) = (be_val (take 2 (drop 18 (drop 42 (raw c)))) =? MOLDUDP64_HEARTBEAT)
    /\ get_sequence (header r) = be_val (take 8 (drop 10 (drop 42 (raw c))))
    /\ exists ms, parse 0 r MAX_MSGS_PER_PACKET = Some ms.
Proof.
  intros (Hb & Hc & Hl) H42 H20. pose proof (u16_le (caplen c - 42) ltac:(lia)) as Hu.
  set (udp := drop 42 (raw c)). set (len := u16 (caplen c - 42)) in *.
  assert (Hlen : len + 2 <= Z.of_nat (length udp)) by (unfold udp; rewrite length_drop; lia).
  assert (Hok : bytes_ok udp) by (by apply bytes_ok_drop).
  destruct (parse_datagram udp len 0 Hok Hlen) as (r & out & Er & Ep & _).
  destruct (header_of_bytes_spec udp Hok ltac:(lia)) as (h & Eh & _ & Hs & Hm).
  exists r. split; [unfold udp_payload, UDP_PAYLOAD_OFFSET; by rewrite (proj2 (Z.leb_gt _ _)) by lia|].
  pose proof Er as Er'. unfold mold_parse, sizeof_MoldUDP64Header in Er'. rewrite (proj2 (Z.ltb_ge _ _)), Eh in Er' by lia.
  cbn [mbind option_bind] in Er'. rewrite <- Hs, <- Hm. split; [exact Er|].
  destruct (is_heartbeat h) eqn:Hh; injection Er' as <-; (split_and!; try done; by exists out).
Qed.

Lemma short_frame c : capture_ok c -> reads_as c Ignored -> udp_payload c = None
  \/ exists r, udp_payload c = Some (drop 42 (raw c), u16 (caplen c - 42))
       /\ mold_parse (drop 42 (raw c)) (u16 (caplen c - 42)) = Some r /\ valid r = false.
Proof.
  intros _ Hr. unfold udp_payload, UDP_PAYLOAD_OFFSET. destruct (Z.leb_spec (caplen c) 42); [by left|]. right.
  destruct Hr as [?|Hl]; [lia|]. destruct (mold_parse_short (drop 42 (raw c)) _ Hl) as (r & Er & V). by exists r.
Qed.

(** Every capture is a frame of one kind. *)
Lemma capture_reads_as c : capture_ok c -> exists f, reads_as c f.
Proof.
  intros Hc. destruct (decide (42 < caplen c /\ 20 <= u16 (caplen c - 42))) as [[H1 H2]|Hn].
  - destruct (full_frame c Hc H1 H2) as (r & _ & Er & _ & Hh & _ & ms & Ep).
    destruct (Z.eqb_spec (be_val (take 2 (drop 18 (drop 42 (raw c))))) MOLDUDP64_HEARTBEAT); [by exists Beat|].
    eexists (Data _ ms). cbn. split_and!; try done. by exists r.
  - exists Ignored. cbn. lia.
Qed.

(** The packets of well-formed messages among them. *)
Lemma captured_reads_as c seq ms : captured c seq ms -> capture_ok c -> reads_as c (Data seq ms).
Proof.
  intros Hp Hc. destruct (captured_payload c seq ms Hp) as (r & Eu & Er & V & B & K & P & _). destruct (cp_len _ _ _ Hp) as [Hl Hl'].
  assert (Hw : u16 (caplen c - 42) = caplen c - 42) by (apply wrap_small; range_lia).
  assert (H20 : 20 <= u16 (caplen c - 42)).
  { rewrite Hw. unfold mold_parse, sizeof_MoldUDP64Header in Er. destruct (Z.ltb_spec (caplen c - 42) 20); [|done].
    injection Er as <-. done. }
  destruct (full_frame c Hc Hl H20) as (r' & _ & Er' & _ & B' & K' & _). rewrite Hw, Er in Er'. injection Er' as <-.
  cbn. rewrite Hw in *. split_and!; try done; [|congruence|by exists r]. apply Z.eqb_neq. congruence.
Qed.

(** What the code does at a packet whose header and messages it has. *)
Lemma replay_data tr s now c r ms udp len : udp_payload c = Some (udp, len) -> mold_parse udp len = Some r -> valid r = true ->
  is_heartbeat (header r) = false -> parse 0 r MAX_MSGS_PER_PACKET = Some ms ->
  let seq := get_sequence (header r) in tracker_ok tr -> 0 <= seq < 2 ^ 64 - 1 ->
  gaps s = gap_count tr -> gap_count tr < 2 ^ 64 - 1 ->
  exists s', replay_packet tr s now c = Some (snd (try_advance now tr seq), s')
    /\ gaps s' = gap_count (snd (try_advance now tr seq))
    /\ gap_count (snd (try_advance now tr seq)) = gap_count tr + gap_events [classify now tr seq]
    /\ packets s' = packets s +64 1 /\ messages s' = messages s +64 Z.of_nat (length ms)
    /\ heartbeats s' = heartbeats s
    /\ forall k, u64 (counter s' k) = u64 (counter s k + number_of k ms).
Proof.
  intros E M V B P seq Hok Hs Hg Hb. unfold replay_packet. rewrite E, M. cbn [mbind option_bind]. rewrite V, B, P. cbn [negb].
  fold seq. pose proof (proj2 Hok) as Hr.
  assert (Hcase : (let '(ok, tr') := try_advance now tr seq in
     (if negb ok && (gap_count tr' >? gaps s) then gaps s +64 1 else gaps s) = gap_count tr'
     /\ gap_count tr' = gap_count tr + gap_events [classify now tr seq])).
  { unfold classify, try_advance. destruct (seq =? _); cbn [negb andb gap_count].
    { rewrite gap_events_one. cbn [is_gap]. split; [done|lia]. }
    destruct (seq >? _); cbn [negb andb gap_count start_seq end_seq last_gap].
    - rewrite (wrap_small 64 (gap_count tr + 1)) by range_lia. rewrite Hg, (proj2 (Z.gtb_lt _ _)) by lia.
      rewrite (proj2 (Z.eqb_neq _ _)) by lia. rewrite gap_events_one. cbn [is_gap].
      rewrite wrap_small by range_lia. done.
    - rewrite Hg, Z.gtb_ltb, (proj2 (Z.ltb_ge _ _)) by lia. rewrite Z.eqb_refl, gap_events_one.
      cbn [is_gap]. split; [done|lia]. }
  destruct (try_advance now tr seq) as [ok tr']. destruct Hcase as [G1 G2]. rewrite G1. cbn [mbind option_bind snd].
  set (s1 := mkReplay _ _ _ _ _ _ _ _ _). destruct (count_types_spec ms s1) as (H1 & H2 & H3 & H4 & H5).
  exists (foldl count_type s1 ms). split; [done|]. by rewrite H1, H2, H3, H4.
Qed.

(** ** The counts of a file *)

Definition frame_messages (f : Frame) : list ItchMsg := match f with Data _ ms => ms | _ => [] end.
Definition is_data (f : Frame) : bool := match f with Data _ _ => true | _ => false end.
Definition is_beat (f : Frame) : bool := match f with Beat => true | _ => false end.
Definition number (test : Frame -> bool) (fs : list Frame) : Z := Z.of_nat (length (filter (fun f => test f = true) fs)).

(** What the sequence tracker is given: the numbers of the data packets. *)
Definition tracked (x : Z * Frame) : option (Z * Z) := match x.2 with Data n _ => Some (x.1, n) | _ => None end.

Lemma number_cons test f fs : number test (f :: fs) = (if test f then 1 else 0) + number test fs.
Proof. unfold number. rewrite filter_cons. destruct (test f); case_decide; try done; cbn [length]; lia. Qed.

(** What the statistics have to say after [fs], the frames so far. *)
Record counted (s0 s : ReplayStats) (fs : list Frame) : Prop := {
  cn_packets : packets s = u64 (packets s0 + number is_data fs);
  cn_beats : heartbeats s = u64 (heartbeats s0 + number is_beat fs);
  cn_messages : u64 (messages s) = u64 (messages s0 + Z.of_nat (length (concat (frame_messages <$> fs))));
  cn_kinds k : u64 (counter s k) = u64 (counter s0 k + number_of k (concat (frame_messages <$> fs)))
}.

Lemma counted_nil s : u64 (packets s) = packets s -> u64 (heartbeats s) = heartbeats s -> counted s s [].
Proof. intros Hp Hb. split; cbn; rewrite ?Z.add_0_r; try done. intros k. unfold number_of. cbn. by rewrite Z.add_0_r. Qed.

Lemma counted_trans s0 s1 s2 f fs : counted s0 s1 [f] -> counted s1 s2 fs -> counted s0 s2 (f :: fs).
Proof.
  intros [P1 B1 M1 K1] [P2 B2 M2 K2]. cbn [fmap list_fmap concat] in *. rewrite !number_cons in *. unfold number in P1, B1.
  cbn [filter list_filter length] in P1, B1. rewrite Z.add_0_r in P1, B1. rewrite app_nil_r in *. split.
  - rewrite P2, P1, wrap_add_l. f_equal. rewrite number_cons. lia.
  - rewrite B2, B1, wrap_add_l. f_equal. rewrite number_cons. lia.
  - rewrite M2, <- wrap_add_l, M1, wrap_add_l. cbn [fmap list_fmap concat]. rewrite length_app. f_equal. lia.
  - intros k. rewrite K2, <- wrap_add_l, K1, wrap_add_l. cbn [fmap list_fmap concat]. rewrite number_of_app. f_equal. lia.
Qed.

(** One frame, when the replay's count of gaps is the tracker's. *)
Lemma replay_frame tr s now c f : capture_ok c -> reads_as c f -> be_val (take 8 (drop 10 (drop 42 (raw c)))) < 2 ^ 64 - 1 ->
  tracker_ok tr -> gaps s = gap_count tr -> gap_count tr < 2 ^ 64 - 1 ->
  u64 (packets s) = packets s -> u64 (heartbeats s) = heartbeats s ->
  exists tr' s', replay_packet tr s now c = Some (tr', s') /\ counted s s' [f] /\ gaps s' = gap_count tr' /\ tracker_ok tr'
    /\ match tracked (now, f) with
       | Some (_, n) => tr' = snd (try_advance now tr n) /\ gap_count tr' = gap_count tr + gap_events [classify now tr n]
       | None => tr' = tr
       end.
Proof.
  intros Hc Hf Hs Hok Hg Hb Hp Hh. destruct f as [| |n ms]; cbn [tracked snd].
  - exists tr, s. split; [|split; [|done]].
    + unfold replay_packet. destruct (short_frame c Hc Hf) as [->|(r & -> & -> & V)]; [done|]. cbn [mbind option_bind]. by rewrite V.
    + destruct (counted_nil s Hp Hh). by split.
  - destruct Hf as [[H1 H2] Hbeat]. destruct (full_frame c Hc H1 H2) as (r & Eu & Er & V & B & _). rewrite Hbeat, Z.eqb_refl in B.
    eexists tr, _. unfold replay_packet. rewrite Eu, Er. cbn [mbind option_bind]. rewrite V, B. cbn [negb].
    split; [done|]. split; [|done]. destruct (counted_nil s Hp Hh). by split.
  - destruct Hf as ([H1 H2] & Hbeat & Hn & r' & Er' & Ep). destruct (full_frame c Hc H1 H2) as (r & Eu & Er & V & B & K & _).
    rewrite Er in Er'. injection Er' as <-. rewrite (proj2 (Z.eqb_neq _ _) Hbeat) in B. rewrite <- Hn in K, Hs.
    assert (Hr : 0 <= n < 2 ^ 64 - 1) by (rewrite Hn; split; [|lia]; apply be_val_range, Forall_take, bytes_ok_drop, bytes_ok_drop, Hc).
    destruct (replay_data tr s now c r ms _ _ Eu Er V B Ep Hok) as (s' & E & G1 & G2 & P1 & M1 & B1 & C1); rewrite ?K; try done.
    rewrite K in *. exists (snd (try_advance now tr n)), s'. split; [done|]. split; [|split; [done|split; [by apply try_advance_ok|done]]].
    split; cbn [fmap list_fmap concat frame_messages]; rewrite ?app_nil_r; try done.
    + rewrite B1. change (number is_beat [Data n ms]) with 0. by rewrite Z.add_0_r.
    + by rewrite M1, wrap_wrap.
Qed.

Lemma gap_events_nonneg es : 0 <= gap_events es.
Proof. unfold gap_events. lia. Qed.

Lemma replay_loop_counts cs fs : Forall2 (fun x f => reads_as x.2 f) cs fs ->
  Forall (fun x => capture_ok x.2 /\ be_val (take 8 (drop 10 (drop 42 (raw x.2)))) < 2 ^ 64 - 1) cs -> forall tr s,
  tracker_ok tr -> gaps s = gap_count tr -> gap_count tr + Z.of_nat (length cs) < 2 ^ 64 - 1 ->
  u64 (packets s) = packets s -> u64 (heartbeats s) = heartbeats s ->
  exists tr' s', replay_loop tr s cs = Some (tr', s') /\ counted s s' fs
    /\ gaps s' = gaps s + gap_events (snd (run tr (omap tracked (zip (cs.*1) fs)))).
Proof.
  induction 1 as [|[now c] f cs fs Hf _ IH]; intros Hall tr s Hok Hg Hb Hp Hh.
  { exists tr, s. split; [done|]. split; [by apply counted_nil|]. change (gap_events (snd (run tr (omap tracked (zip (([] : list (Z * Capture)).*1) []))))) with 0. lia. }
  apply Forall_cons in Hall as [[Hc Hs] Hall]. cbn [snd length replay_loop] in *.
  destruct (replay_frame tr s now c f Hc Hf Hs Hok Hg ltac:(lia) Hp Hh) as (tr1 & s1 & E1 & C1 & G1 & Ok1 & T1). rewrite E1.
  cbn [mbind option_bind].
  assert (Hstep : gap_count tr1 <= gap_count tr + 1 /\ forall l, gap_count tr1 + gap_events (snd (run tr1 l))
    = gap_count tr + gap_events (snd (run tr (match tracked (now, f) with Some x => x :: l | None => l end)))).
  { destruct (tracked (now, f)) as [[now' n]|] eqn:Ef; [|subst tr1; split; [lia|done]].
    assert (now' = now) as -> by (destruct f; cbn in Ef; congruence). destruct T1 as [T1 G]. rewrite gap_events_one in G.
    split; [destruct (is_gap _); lia|]. intros l. cbn [run]. rewrite <- T1. destruct (run tr1 l) as [tr2 es]. cbn [snd].
    rewrite gap_events_cons. lia. }
  destruct (IH Hall tr1 s1 Ok1 G1) as (tr' & s' & E' & C' & G').
  - lia.
  - rewrite (cn_packets _ _ _ C1). by rewrite wrap_wrap.
  - rewrite (cn_beats _ _ _ C1). by rewrite wrap_wrap.
  - exists tr', s'. split; [done|]. split; [by eapply counted_trans|]. rewrite G', G1, (proj2 Hstep), Hg.
    cbn [fmap list_fmap zip zip_with fst omap list_omap]. by destruct (tracked (now, f)).
Qed.

(** ** Properties *)

(** C38: the replay counts what the file holds.  Any capture file, of whatever
    bytes - as long as two more can be read behind each captured frame, and
    the sequence numbers are below 2^64 - 1 - is a list of frames, each
    ignored (shorter than the headers), a heartbeat, or a data packet; the tool
    reads it to the end, counts data packets and heartbeats, the messages the
    parser finds and those of each kind (modulo 2^64), and as gaps exactly the
    losses the sequence tracker reports for the numbers of the data packets. *)
Theorem replay_counts_exact (cs : list (Z * Capture)) :
  Forall (fun x => capture_ok x.2 /\ be_val (take 8 (drop 10 (drop 42 (raw x.2)))) < 2 ^ 64 - 1) cs ->
  Z.of_nat (length cs) < 2 ^ 64 - 1 ->
  exists fs tr s, Forall2 (fun x f => reads_as x.2 f) cs fs /\ replay cs = Some (tr, s)
    /\ packets s = u64 (number is_data fs) /\ heartbeats s = u64 (number is_beat fs)
    /\ u64 (messages s) = u64 (Z.of_nat (length (concat (frame_messages <$> fs))))
    /\ (forall k, u64 (counter s k) = u64 (number_of k (concat (frame_messages <$> fs))))
    /\ gaps s = gap_events (snd (run (tracker_init 0) (omap tracked (zip (cs.*1) fs)))).
Proof.
  intros Hall Hn. assert (Hfs : exists fs, Forall2 (fun x f => reads_as x.2 f) cs fs).
  { clear Hn. induction Hall as [|[now c] cs [Hc _] _ [fs IH]]; [by exists []|]. destruct (capture_reads_as c Hc) as [f Hf].
    exists (f :: fs). by constructor. }
  destruct Hfs as [fs Hfs]. destruct (replay_loop_counts cs fs Hfs Hall (tracker_init 0) ReplayStats0) as (tr & s & E & [P B M K] & G).
  - split; [split; [done|reflexivity]|split; [done|reflexivity]].
  - done.
  - cbn [tracker_init gap_count]. lia.
  - done.
  - done.
  - exists fs, tr, s. split_and!; try done. intros k. rewrite K. by destruct k.
Qed.

Lemma print_msg_total m : member_of (type m) (body m) = true -> exists l, print_msg m = Some l.
Proof. unfold print_msg. destruct (type m), (body m); cbn; intros; try discriminate; eauto. Qed.

Definition selected (locate_code : Z) (m : ItchMsg) : Prop := locate_code = 0 \/ locate m = locate_code.

#[export] Instance selected_dec locate_code m : Decision (selected locate_code m).
Proof. unfold selected. apply _. Defined.

Lemma print_messages_filter code ms : Forall (fun m => member_of (type m) (body m) = true) ms -> forall n,
  in_range 64 n -> n + Z.of_nat (length ms) < 2 ^ 64 ->
  print_messages code ms n = Some (omap print_msg (filter (selected code) ms),
    n + Z.of_nat (length (filter (selected code) ms))).
Proof.
  induction 1 as [|m ms Hm _ IH]; intros n Hn Hb; cbn [print_messages].
  { cbn. by rewrite Z.add_0_r. }
  cbn [length] in Hb. rewrite filter_cons.
  assert (Hskip : negb (code =? 0) && negb (locate m =? code) = negb (bool_decide (selected code m))).
  { unfold selected. destruct (Z.eqb_spec code 0), (Z.eqb_spec (locate m) code);
      [rewrite bool_decide_eq_true_2 by tauto..|rewrite bool_decide_eq_false_2 by tauto]; done. }
  rewrite Hskip. destruct (decide (selected code m)) as [Hs|Hs].
  - rewrite bool_decide_eq_true_2 by done. cbn [negb]. destruct (print_msg_total m Hm) as [l El].
    rewrite El. cbn [mbind option_bind omap list_omap]. rewrite El, wrap_small by range_lia.
    rewrite IH by range_lia. cbn [mbind option_bind length]. do 2 f_equal. lia.
  - rewrite bool_decide_eq_false_2 by done. cbn [negb]. rewrite IH by (done || lia). done.
Qed.

(** The inspector prints the selected messages and nothing else.  It
    reads at most [--max] packets and prints, in the order of the file, exactly
    the messages with the locate code of [--locate] - all of them when no code
    or code 0 is given - and reports their number and the number of packets
    read. *)
Theorem inspect_prints_selected a (l : list (Capture * Z * list ItchMsg)) :
  Forall (fun '(c, seq, ms) => captured c seq ms) l -> 0 <= max_packets a ->
  let shown := take (Z.to_nat (max_packets a)) l in
  let ms := filter (selected (filter_locate a)) (concat ((fun '(_, _, ms) => ms) <$> shown)) in
  Z.of_nat (length (concat ((fun '(_, _, ms) => ms) <$> shown))) < 2 ^ 64 ->
  inspect_loop a ((fun '(c, _, _) => c) <$> l) 0 0
    = Some (omap print_msg ms, Z.of_nat (length shown), Z.of_nat (length ms)).
Proof.
  intros Hf Hmax.
  assert (Hgen : forall pk n, 0 <= pk <= max_packets a -> in_range 64 n ->
    let shown := take (Z.to_nat (max_packets a - pk)) l in
    let ms := filter (selected (filter_locate a)) (concat ((fun '(_, _, ms) => ms) <$> shown)) in
    n + Z.of_nat (length (concat ((fun '(_, _, ms) => ms) <$> shown))) < 2 ^ 64 ->
    inspect_loop a ((fun '(c, _, _) => c) <$> l) pk n
      = Some (omap print_msg ms, pk + Z.of_nat (length shown), n + Z.of_nat (length ms))).
  { induction Hf as [|[[c seq] ms] l Hc Hf IH]; intros pk n Hpk Hn; cbn zeta.
    { rewrite take_nil. cbn. by rewrite !Z.add_0_r. }
    cbn [fmap list_fmap inspect_loop]. destruct (Z.ltb_spec pk (max_packets a)).
    2: { replace (max_packets a - pk) with 0 by lia. cbn. by rewrite !Z.add_0_r. }
    replace (Z.to_nat (max_packets a - pk)) with (S (Z.to_nat (max_packets a - (pk + 1)))) by lia.
    cbn [take fmap list_fmap concat length]. rewrite length_app, Nat2Z.inj_add. intros Hb.
    rewrite (captured_messages c seq ms Hc). cbn [mbind option_bind].
    destruct (captured_payload c seq ms Hc) as (_ & _ & _ & _ & _ & _ & _ & Hms).
    rewrite print_messages_filter by (done || lia || (eapply Forall_impl; [exact Hms|]; cbn; tauto)).
    cbn [mbind option_bind]. pose proof (length_filter (selected (filter_locate a)) ms).
    rewrite IH by (range_lia || (cbn zeta; unfold in_range in *; lia)). cbn [mbind option_bind].
    rewrite filter_app, length_app, omap_app, Nat2Z.inj_succ, Nat2Z.inj_add. do 2 f_equal; [f_equal; lia|lia]. }
  specialize (Hgen 0 0). rewrite Z.sub_0_r in Hgen. intros shown ms Hb. apply Hgen; [lia|range_lia|exact Hb].
Qed.

(** ** Witnesses *)

Definition sample_capture (n : Z) : Capture :=
  let s := sample_slot n wire_order in mkCapture (42 + length_ s) (replicate 42 0 ++ data s).

Lemma sample_captured n : in_range 64 n -> captured (sample_capture n) n [wire_order].
Proof.
  intros Hn. destruct (encode_blocks 0 [wire_order]) as [bs|] eqn:E; [|vm_compute in E; discriminate].
  assert (Hl : length_ (sample_slot n wire_order) = 58) by reflexivity.
  split.
  - cbn [sample_capture caplen]. rewrite Hl. lia.
  - exists sample_session. cbn [sample_capture caplen raw].
    rewrite drop_app_length' by (by rewrite length_replicate).
    replace (42 + length_ (sample_slot n wire_order) - 42) with (length_ (sample_slot n wire_order)) by lia.
    exact (sample_slot_holds n wire_order bs Hn wire_order_ok eq_refl E).
Qed.

(** A short frame, packets 1 and 5 with a heartbeat in between: the numbers 2
    to 4 are missing. *)
Definition sample_beat : Capture :=
  mkCapture 62 (replicate 42 0 ++ mold_packet sample_session 2 65535 [] ++ [0; 0]).
Definition sample_file : list (Z * Capture) :=
  (fun c => (0, mkCapture (caplen c) (raw c ++ [0; 0])))
    <$> [mkCapture 50 (replicate 50 0); sample_capture 1; sample_beat; sample_capture 5].

Lemma replay_counts_exact_witness : exists fs tr s, Forall2 (fun x f => reads_as x.2 f) sample_file fs
  /\ replay sample_file = Some (tr, s) /\ packets s = u64 (number is_data fs) /\ heartbeats s = u64 (number is_beat fs).
Proof.
  destruct (replay_counts_exact sample_file) as (fs & tr & s & Hf & E & P & B & _).
  - repeat (apply Forall_cons_2; [split; [split; [apply (bool_decide_unpack _); vm_compute; exact I|vm_compute; split; discriminate]|reflexivity]|]).
    apply Forall_nil_2.
  - reflexivity.
  - exists fs, tr, s. split; [exact Hf|]. split; [exact E|]. split; [exact P|exact B].
Defined.

Example sample_file_replayed : (fun x => (packets x.2, heartbeats x.2, gaps x.2, add_orders x.2)) <$> replay sample_file = Some (2, 1, 1, 2).
Proof. vm_compute. reflexivity. Qed.

Lemma inspect_prints_selected_witness :
  inspect_loop (mkInspectArgs 1 11) [sample_capture 1; sample_capture 2] 0 0
    = Some ([(1000, 11, AddOrder, PAdd 9 Buy 5 123400 (replicate 8 65))], 1, 1).
Proof.
  apply (inspect_prints_selected (mkInspectArgs 1 11) [(sample_capture 1, 1, [wire_order]); (sample_capture 2, 2, [wire_order])]).
  - apply Forall_cons_2; [|apply Forall_cons_2; [|apply Forall_nil_2]]; apply sample_captured; concrete.
  - discriminate.
  - reflexivity.
Defined.

Example inspect_args_sample :
  inspect_args [str "--max"; str "20"; str "--locate"; str "65547x"] (mkInspectArgs 2147483647 0)
    = Some (mkInspectArgs 20 11).
Proof. reflexivity. Qed.
