(* ===== verification/ToolMains.v ===== *)
(** * The main functions of the command line tools

    [main] of [tools/pcap_replay.cpp] and [tools/itch_inspect.cpp]: the
    arguments, the file, the loop with its pacing and progress lines, the
    exit code.  What [pcap_open_offline] and [pcap_next_ex] deliver is an
    argument: nothing, or the captures, each with its time stamp and the clock
    readings of its iteration.  The output is a list of records in the order
    of the calls.  Numbers of type [double] are rationals, the rounding of
    [double] is not modelled. *)

From Stdlib Require Import String QArith Qround Lqa.
From S2P Require Import Prelude Types Mold ItchParser Sequence PacketRing Session ParserThread SnapshotFiles Tools.

Open Scope Z_scope.

(** ** Arguments *)

(** Digits from the front: their value after [acc], their number, the rest. *)
Fixpoint read_digits (s : bytes) (acc : Z) (n : nat) : Z * nat * bytes :=
  match s with
  | c :: s' => if (48 <=? c) && (c <=? 57) then read_digits s' (acc * 10 + (c - 48)) (S n) else (acc, n, s)
  | [] => (acc, n, [])
  end.

(** [atof] on decimal numbers without exponent; anything that does not start
    with a number is 0.  [None]: exponents, hexadecimal numbers, infinities
    and NaN, which are not modelled. *)
Definition atof (s : bytes) : option Q :=
  let s1 := skip_while is_blank s in
  let '(sign, s2) := match s1 with 45 :: r => (-1, r) | 43 :: r => (1, r) | _ => (1, s1) end in
  let '(i, ni, r1) := read_digits s2 0 0 in
  let '(m, nf, r2) := match r1 with 46 :: r => read_digits r i 0 | _ => (i, 0%nat, r1) end in
  let special := if decide (ni + nf = 0)%nat then [105; 73; 110; 78] else [101; 69; 120; 88; 112; 80] in
  match r2 with
  | c :: _ => if decide (c ∈ special) then None else Some (Qmake (sign * m) (Pos.of_nat (10 ^ nf)))
  | [] => Some (Qmake (sign * m) (Pos.of_nat (10 ^ nf)))
  end.

Record ReplayArgs := mkReplayArgs { speed : Q; stats_interval_sec : Z }.

Definition replay_defaults : ReplayArgs := mkReplayArgs 0 10.

(** The loop over [argv] from index 2 on. *)
Fixpoint replay_args (args : list bytes) (a : ReplayArgs) : option ReplayArgs :=
  match args with
  | x :: ((v :: args2) as args1) =>
      if decide (x = str "--speed") then
        f ← atof v; replay_args args2 (mkReplayArgs f (stats_interval_sec a))
      else if decide (x = str "--stats-interval") then
        n ← atoi v; replay_args args2 (mkReplayArgs (speed a) n)
      else replay_args args1 a
  | _ => Some a
  end.

Definition inspect_defaults : InspectArgs := mkInspectArgs (2 ^ 31 - 1) 0.

(** ** pcap_replay *)

(** A capture with its time stamp and the clock readings of the iteration:
    for the pacing, in the sequence tracker, for the progress line. *)
Record TimedCapture := mkTimed {
  capture : Capture;
  tv_sec : Z; tv_usec : Z;
  paced_at : Z; tracked_at : Z; printed_at : Z
}.

(** What the tool prints, and the pauses it makes. *)
Inductive ReplayOutput :=
  | ReplayUsage
  | ReplayCannotOpen (path : bytes)
  | ReplayingAt (path : bytes) (max_speed : bool)
  | SleepFor (us : Z)
  | Progress (elapsed_ns pkts msgs gaps : Z)
  | FinalStats (s : ReplayStats) (elapsed_ns : Z).

(** The pause before a packet, in microseconds. *)
Definition pause (a : ReplayArgs) (first_sec first_usec wall_start : Z) (c : TimedCapture) : list ReplayOutput :=
  if negb (Qle_bool (speed a) 0) then
    let pkt_offset_us := (tv_sec c - first_sec) * 1000000 + (tv_usec c - first_usec) in
    let target_us := (inject_Z pkt_offset_us / speed a)%Q in
    let elapsed_us := (inject_Z (paced_at c -64 wall_start) / 1000)%Q in
    if negb (Qle_bool target_us (elapsed_us + 10)%Q) then [SleepFor (Qfloor (target_us - elapsed_us)%Q)] else []
  else [].

(** Does the packet get past the three [continue] statements? *)
Definition is_data (c : Capture) : option bool :=
  match udp_payload c with
  | None => Some false
  | Some (udp, len) => mold ← mold_parse udp len; Some (valid mold && negb (is_heartbeat (header mold)))
  end.

(** The progress line and the new time of the last one. *)
Definition progress (a : ReplayArgs) (wall_start last : Z) (s : ReplayStats) (now : Z) : list ReplayOutput * Z :=
  if (stats_interval_sec a >? 0) && ((now -64 last) >? u64 (stats_interval_sec a * 1000000000))
  then ([Progress (now -64 wall_start) (packets s) (messages s) (gaps s)], now)
  else ([], last).

(** The loop; [first] is the time stamp of the first packet once there is one
    and pacing is on. *)
Fixpoint replay_main_loop (a : ReplayArgs) (wall_start : Z) (first : option (Z * Z)) (last : Z)
    (tr : SequenceTracker) (s : ReplayStats) (cs : list TimedCapture) : option (list ReplayOutput * ReplayStats) :=
  match cs with
  | [] => Some ([], s)
  | c :: cs' =>
      let '(fs, fu) := default (tv_sec c, tv_usec c) first in
      let first' := if negb (Qle_bool (speed a) 0) then Some (fs, fu) else first in
      '(tr', s') ← replay_packet tr s (tracked_at c) (capture c);
      data ← is_data (capture c);
      let '(line, last') := if data : bool then progress a wall_start last s' (printed_at c) else ([], last) in
      '(out, s'') ← replay_main_loop a wall_start first' last' tr' s' cs';
      Some (pause a fs fu wall_start c ++ line ++ out, s'')
  end.

(** [main]: the exit code and the output.  [file]: the captures of the file,
    or nothing if it cannot be opened; [t_end]: the clock at the end. *)
Definition replay_main (argv : list bytes) (file : option (list TimedCapture)) (wall_start t_end : Z)
    : option (Z * list ReplayOutput) :=
  match argv with
  | _ :: path :: args =>
      a ← replay_args args replay_defaults;
      match file with
      | None => Some (1, [ReplayCannotOpen path])
      | Some cs =>
          '(out, s) ← replay_main_loop a wall_start None wall_start (tracker_init 0) ReplayStats0 cs;
          Some (0, ReplayingAt path (Qeq_bool (speed a) 0) :: out ++ [FinalStats s (t_end -64 wall_start)])
      end
  | _ => Some (1, [ReplayUsage])
  end.

(** ** itch_inspect *)

Inductive InspectOutput :=
  | InspectUsage
  | InspectCannotOpen (path : bytes)
  | ReadingFile (path : bytes)
  | Message (line : Z * Z * MessageType * Printed)
  | Processed (pkt_count msg_count : Z).

Definition inspect_main (argv : list bytes) (file : option (list Capture)) : option (Z * list InspectOutput) :=
  match argv with
  | _ :: path :: args =>
      a ← inspect_args args inspect_defaults;
      match file with
      | None => Some (1, [InspectCannotOpen path])
      | Some cs =>
          '(lines, pkts, msgs) ← inspect_loop a cs 0 0;
          Some (0, ReadingFile path :: (Message <$> lines) ++ [Processed pkts msgs])
      end
  | _ => Some (1, [InspectUsage])
  end.

(** ** Lemmas *)

Definition only_data (c : TimedCapture) : Prop := is_Some (is_data (capture c)).

(** A packet the replay can process has a readable header. *)
Lemma replay_packet_data tr s now c x : replay_packet tr s now c = Some x -> is_Some (is_data c).
Proof.
  unfold replay_packet, is_data. destruct (udp_payload c) as [[udp len]|]; [|by eexists].
  intros E. apply bind_Some in E as (mold & -> & _). by eexists.
Qed.

(** Pacing and progress lines do not touch the statistics. *)
Lemma replay_main_loop_stats a wall_start cs : forall first last tr s,
  snd <$> replay_main_loop a wall_start first last tr s cs
    = snd <$> replay_loop tr s ((fun c => (tracked_at c, capture c)) <$> cs).
Proof.
  induction cs as [|c cs IH]; intros first last tr s; [done|]. cbn [replay_main_loop fmap list_fmap replay_loop].
  destruct (default (tv_sec c, tv_usec c) first) as [fs fu].
  destruct (replay_packet tr s (tracked_at c) (capture c)) as [[tr' s']|] eqn:E; [|done]. cbn [mbind option_bind].
  destruct (replay_packet_data _ _ _ _ _ E) as [d ->]. cbn [mbind option_bind].
  destruct (if d then progress a wall_start last s' (printed_at c) else ([], last)) as [line last'].
  rewrite <- (IH (if negb (Qle_bool (speed a) 0) then Some (fs, fu) else first) last' tr' s').
  destruct (replay_main_loop _ _ _ last' tr' s' cs) as [[out s'']|]; done.
Qed.

(** ** Properties *)

(** The statistics do not depend on the options.  Whatever speed and progress
    interval are asked for and whatever the clock reads, the tool exits with
    code 0 and its last record holds the statistics of [Tools.replay]. *)
Theorem replay_main_statistics prog path args a cs wall_start t_end tr s :
  replay_args args replay_defaults = Some a ->
  replay ((fun c => (tracked_at c, capture c)) <$> cs) = Some (tr, s) ->
  exists out, replay_main (prog :: path :: args) (Some cs) wall_start t_end
    = Some (0, ReplayingAt path (Qeq_bool (speed a) 0) :: out ++ [FinalStats s (t_end -64 wall_start)]).
Proof.
  intros Ea E. cbn [replay_main]. rewrite Ea. cbn [mbind option_bind].
  pose proof (replay_main_loop_stats a wall_start cs None wall_start (tracker_init 0) ReplayStats0) as Hs.
  unfold replay in E. rewrite E in Hs. cbn in Hs.
  destruct (replay_main_loop _ _ _ _ _ _ cs) as [[out s']|]; [|done]. injection Hs as ->. cbn [mbind option_bind]. by eexists.
Qed.

(** The time a pause takes, in microseconds. *)
Definition slept (out : list ReplayOutput) : Z := match out with [SleepFor us] => us | _ => 0 end.

(** The pacing.  At a positive speed a packet is due at its offset from the
    first one divided by the speed; the tool waits until less than a
    microsecond before that, or not at all if less than ten are left. *)
Theorem replay_pacing a first_sec first_usec wall_start c : (0 < speed a)%Q ->
  let target := (inject_Z ((tv_sec c - first_sec) * 1000000 + (tv_usec c - first_usec)) / speed a)%Q in
  let elapsed := (inject_Z (paced_at c -64 wall_start) / 1000)%Q in
  let out := pause a first_sec first_usec wall_start c in
  (target <= elapsed + 10 /\ out = [] \/
   elapsed + 10 < target /\ out = [SleepFor (slept out)]
   /\ elapsed + inject_Z (slept out) <= target /\ target < elapsed + inject_Z (slept out) + 1)%Q.
Proof.
  intros Hs target elapsed out. unfold out, pause. fold target elapsed.
  destruct (Qle_bool (speed a) 0) eqn:E0; [apply Qle_bool_iff in E0; exfalso; by apply (Qlt_not_le _ _ Hs)|]. cbn [negb].
  destruct (Qle_bool target (elapsed + 10)) eqn:E; cbn [negb].
  - left. split; [by apply Qle_bool_iff|done].
  - right. assert (Hlt : (elapsed + 10 < target)%Q).
    { apply Qnot_le_lt. intros Hle. apply Qle_bool_iff in Hle. congruence. }
    cbn [slept]. split; [done|]. split; [done|]. pose proof (Qfloor_le (target - elapsed)) as H1.
    pose proof (Qlt_floor (target - elapsed)) as H2. rewrite inject_Z_plus in H2. change (inject_Z 1) with 1%Q in H2.
    clearbody target elapsed. set (z := inject_Z (Qfloor (target - elapsed))) in *. clearbody z. split; lra.
Qed.

(** Exit codes. *)
Theorem tools_exit_codes prog path args :
  replay_main [prog] None 0 0 = Some (1, [ReplayUsage]) /\ inspect_main [prog] None = Some (1, [InspectUsage])
  /\ (forall a w t, replay_args args replay_defaults = Some a ->
        replay_main (prog :: path :: args) None w t = Some (1, [ReplayCannotOpen path]))
  /\ (forall a, inspect_args args inspect_defaults = Some a ->
        inspect_main (prog :: path :: args) None = Some (1, [InspectCannotOpen path]))
  /\ (forall a cs lines pkts msgs, inspect_args args inspect_defaults = Some a ->
        inspect_loop a cs 0 0 = Some (lines, pkts, msgs) ->
        inspect_main (prog :: path :: args) (Some cs)
          = Some (0, ReadingFile path :: (Message <$> lines) ++ [Processed pkts msgs])).
Proof.
  split_and!; try done; cbn [replay_main inspect_main]; intros a.
  - intros w t ->. done.
  - intros ->. done.
  - intros cs lines pkts msgs -> E. cbn [mbind option_bind]. by rewrite E.
Qed.

(** Twice the original speed is announced as [1x]. *)
Example double_speed_announced_as_1x :
  replay_main [str "pcap_replay"; str "f.pcap"; str "--speed"; str "2.0"] (Some []) 5 7
    = Some (0, [ReplayingAt (str "f.pcap") false; FinalStats ReplayStats0 2]).
Proof. vm_compute. reflexivity. Qed.

Example atof_examples : atof (str " 2.50") = Some (Qmake 250 100) /\ atof (str "-1") = Some (Qmake (-1) 1)
  /\ atof (str "abc") = Some (Qmake 0 1) /\ atof (str "1e3") = None.
Proof. vm_compute. done. Qed.

(** The second packet, a second later in the file, is due half a second after
    the start at double speed; 200 ms have passed. *)
Example half_second_pause :
  pause (mkReplayArgs (Qmake 2 1) 10) 100 0 1000 (mkTimed (mkCapture 0 []) 101 0 200001000 0 0) = [SleepFor 300000].
Proof. vm_compute. reflexivity. Qed.
