(* ===== verification/Conformance.v ===== *)
(** * The unit tests of the repository, run on the model

    Every test of [src/tests] that runs in one thread, with its fixture and
    its expectations, evaluated on the definitions of the other files.  The
    tests with several threads are instances of theorems:
    [Spsc.spsc_interleaved_fifo] ([SpscQueue.Throughput]),
    [SeqLock.seqlock_load_consistent] ([ConcurrentReadWrite] of [SeqLock] and
    [BboPublisher]) and [HistogramThreads.concurrent_records_counted]
    ([ConcurrentRecord]).  The records the tests build with [ItchMsg m{}] are zero
    where nothing is assigned. *)

From Stdlib Require Import String.
From S2P Require Import Prelude Types Mold ItchParser Sequence Spsc Histogram Routing OrderPool OrderMap Level2Book.
From S2P Require Import Snapshot SeqLock Session Worker SnapshotFiles.

(** ** test_level2_book.cpp *)

Module BookTest.

(** The fixture: an empty book of locate code 1. *)
Definition POOL_CAP : Z := 4096.
Definition MAP_CAP : Z := 8192.
Definition fixture : Level2Book * ShardMem OrderMap := (new_book 1, mkMem (new_pool POOL_CAP) (new_map MAP_CAP) 0 0).

Definition make_add (ref : Z) (sd : Side) (price shares : Z) : ItchMsg :=
  mkMsg AddOrder 1 0 0 (add_order ref sd price shares (replicate 8 0) (replicate 4 0)).
Definition make_cancel (ref qty : Z) : ItchMsg := mkMsg OrderCancel 1 0 0 (order_cancel ref qty).
Definition make_delete (ref : Z) : ItchMsg := mkMsg OrderDelete 1 0 0 (order_delete ref).
Definition make_executed (ref qty : Z) : ItchMsg := mkMsg OrderExecuted 1 0 0 (order_executed ref qty 0).
Definition make_replace (orig newref price qty : Z) : ItchMsg :=
  mkMsg OrderReplace 1 0 0 (order_replace orig newref qty price).

Definition handle (x : option (Level2Book * ShardMem OrderMap)) (m : ItchMsg) : option (Level2Book * ShardMem OrderMap) :=
  '(b, s) ← x; r ← book_switch b s m; r.

Definition after (ms : list ItchMsg) : option (Level2Book * ShardMem OrderMap) := foldl handle (Some fixture) ms.

(** Bid and ask with their quantities, and the number of bid levels. *)
Definition seen (ms : list ItchMsg) : option (Z * Z * Z * Z * Z) :=
  '(b, _) ← after ms; q ← get_bbo b; Some (bid_price q, bid_qty q, ask_price q, ask_qty q, bid_depth b).

Example AddBidCreatesLevel : seen [make_add 1 Buy 10000 100] = Some (10000, 100, 0, 0, 1).
Proof. vm_compute. reflexivity. Qed.

Example AddAskCreatesLevel : seen [make_add 2 Sell 10100 200] = Some (0, 0, 10100, 200, 0).
Proof. vm_compute. reflexivity. Qed.

Example BboSpreadPositive : seen [make_add 1 Buy 10000 100; make_add 2 Sell 10100 200] = Some (10000, 100, 10100, 200, 1).
Proof. vm_compute. reflexivity. Qed.

Example MultipleOrdersSameLevel : seen [make_add 1 Buy 10000 100; make_add 2 Buy 10000 200] = Some (10000, 300, 0, 0, 1).
Proof. vm_compute. reflexivity. Qed.

Example MultipleBidLevels :
  seen [make_add 1 Buy 10000 100; make_add 2 Buy 9900 200; make_add 3 Buy 9800 300] = Some (10000, 100, 0, 0, 3).
Proof. vm_compute. reflexivity. Qed.

Example PartialCancel : seen [make_add 1 Buy 10000 100; make_cancel 1 40] = Some (10000, 60, 0, 0, 1).
Proof. vm_compute. reflexivity. Qed.

Example FullCancelRemovesLevel : seen [make_add 1 Buy 10000 100; make_cancel 1 100] = Some (0, 0, 0, 0, 0).
Proof. vm_compute. reflexivity. Qed.

Example DeleteOrder : seen [make_add 1 Buy 10000 100; make_delete 1] = Some (0, 0, 0, 0, 0).
Proof. vm_compute. reflexivity. Qed.

Example DeleteUnknownOrderSafe : after [make_delete 999] = Some fixture.
Proof. vm_compute. reflexivity. Qed.

Example PartialExecute : seen [make_add 1 Buy 10000 100; make_executed 1 30] = Some (10000, 70, 0, 0, 1).
Proof. vm_compute. reflexivity. Qed.

Example FullExecuteRemovesOrder : seen [make_add 1 Buy 10000 100; make_executed 1 100] = Some (0, 0, 0, 0, 0).
Proof. vm_compute. reflexivity. Qed.

Example ReplaceSamePrice : seen [make_add 1 Buy 10000 100; make_replace 1 2 10000 150] = Some (10000, 150, 0, 0, 1).
Proof. vm_compute. reflexivity. Qed.

Example ReplaceDifferentPrice :
  seen [make_add 1 Buy 10000 100; make_add 3 Buy 9900 50; make_replace 1 2 9900 200] = Some (9900, 250, 0, 0, 1).
Proof. vm_compute. reflexivity. Qed.

Example ReplaceSamePriceQtyReducedPreservesTimePriority :
  let ms := [make_add 1 Buy 10000 100; make_add 2 Buy 10000 200; make_replace 1 3 10000 50] in
  seen ms = Some (10000, 250, 0, 0, 1)
  /\ seen (ms ++ [make_executed 3 50]) = Some (10000, 200, 0, 0, 1)
  /\ seen (ms ++ [make_executed 3 50; make_delete 2]) = Some (0, 0, 0, 0, 0).
Proof. vm_compute. done. Qed.

Example ReplaceSamePriceQtyUnchangedIsInPlace :
  seen [make_add 1 Buy 10000 100; make_add 2 Buy 10000 200; make_replace 1 3 10000 100; make_executed 3 100]
    = Some (10000, 200, 0, 0, 1).
Proof. vm_compute. reflexivity. Qed.

Example ReplaceSamePriceQtyIncreasedGoesToTail :
  let ms := [make_add 1 Buy 10000 100; make_add 2 Buy 10000 200; make_replace 1 3 10000 150] in
  seen ms = Some (10000, 350, 0, 0, 1)
  /\ seen (ms ++ [make_executed 2 200]) = Some (10000, 150, 0, 0, 1)
  /\ seen (ms ++ [make_executed 2 200; make_delete 3]) = Some (0, 0, 0, 0, 0).
Proof. vm_compute. done. Qed.

Example ReplacePriceChangedGoesToTailNewLevel :
  let ms := [make_add 2 Buy 10000 50; make_add 1 Buy 9800 100; make_replace 1 3 10000 200] in
  seen ms = Some (10000, 250, 0, 0, 1) /\ seen (ms ++ [make_executed 2 50]) = Some (10000, 200, 0, 0, 1).
Proof. vm_compute. done. Qed.

Example EmptyBookBboIsZero : seen [] = Some (0, 0, 0, 0, 0).
Proof. vm_compute. reflexivity. Qed.

Example SnapshotRoundTrip :
  ('(b, _) ← after [make_add 1 Buy 10000 100; make_add 2 Sell 10100 200];
   buf ← serialize_snapshot b 65536;
   '(ok, b2) ← restore_snapshot (new_book 1) buf (Z.of_nat (length buf));
   q ← get_bbo b2; Some (0 <? Z.of_nat (length buf), ok : bool, bid_price q, ask_price q)) = Some (true, true, 10000, 10100).
Proof. vm_compute. reflexivity. Qed.

End BookTest.

(** ** test_order_pool.cpp *)

Module OrderPoolTest.

Definition CAP : Z := 1024.

(** [n] allocations: the indices, all of them non-null, and the pool. *)
Fixpoint alloc_many (n : nat) (p : OrderPool) : option (list Z * OrderPool) :=
  match n with
  | O => Some ([], p)
  | S n' => '(x, p1) ← alloc p; i ← x; '(l, p2) ← alloc_many n' p1; Some (i :: l, p2)
  end.

Definition free_all (l : list Z) (p : OrderPool) : option OrderPool :=
  foldl (fun o i => p ← o; free p i) (Some p) l.

Example AllocFree :
  ('(l, p) ← alloc_many 1 (new_pool CAP); p' ← free_all l p; Some (allocated_ p, allocated_ p')) = Some (1, 0).
Proof. vm_compute. reflexivity. Qed.

Example AllocToCapacity :
  ('(l, p) ← alloc_many (Z.to_nat CAP) (new_pool CAP); '(x, _) ← alloc p; p' ← free_all l p;
   Some (allocated_ p, x, allocated_ p')) = Some (CAP, None, 0).
Proof. vm_compute. reflexivity. Qed.

Example ReuseAfterFree :
  ('(l, p) ← alloc_many 1 (new_pool CAP); p' ← free_all l p; '(l', _) ← alloc_many 1 p'; Some (bool_decide (l' = l)))
    = Some true.
Proof. vm_compute. reflexivity. Qed.

End OrderPoolTest.

(** ** test_order_map.cpp *)

Module OrderMapTest.

Definition CAP : Z := 1024.

Definition insert_all (l : list (Z * Z)) (m : OrderMap) : option (bool * OrderMap) :=
  foldl (fun o x => '(ok, m) ← o; '(b, m') ← map_insert m x.1 x.2; Some (ok && b, m')) (Some (true, m)) l.
Definition erase_all (l : list Z) (m : OrderMap) : option (bool * OrderMap) :=
  foldl (fun o x => '(ok, m) ← o; '(b, m') ← map_erase m x; Some (ok && b, m')) (Some (true, m)) l.
Definition finds (m : OrderMap) (l : list (Z * Z)) : bool :=
  forallb (fun x => bool_decide (map_find m x.1 = Some x.2)) l.

Definition entries (first last : Z) : list (Z * Z) := (fun i => (i * 1000, i)) <$> seqZ first (last - first + 1).

Example InsertFind :
  ('(ok, m) ← insert_all [(100, 42)] (new_map CAP); i ← map_find m 100; Some (ok : bool, i, size_ m)) = Some (true, 42, 1).
Proof. vm_compute. reflexivity. Qed.

Example FindMissing : map_find (new_map CAP) 999 = Some kMapEmpty.
Proof. vm_compute. reflexivity. Qed.

Example Erase :
  ('(_, m) ← insert_all [(100, 42)] (new_map CAP); '(ok, m') ← erase_all [100] m; i ← map_find m' 100;
   Some (ok : bool, i, size_ m')) = Some (true, kMapEmpty, 0).
Proof. vm_compute. reflexivity. Qed.

Example EraseMissing : fst <$> map_erase (new_map CAP) 999 = Some false.
Proof. vm_compute. reflexivity. Qed.

Example MultipleEntries :
  ('(ok, m) ← insert_all (entries 1 400) (new_map CAP); '(ok', m') ← erase_all ((entries 1 200).*1) m;
   Some (ok && finds m (entries 1 400) && ok' && finds m' ((fun x => (x.1, kMapEmpty)) <$> entries 1 200)
         && finds m' (entries 201 400))) = Some true.
Proof. vm_compute. reflexivity. Qed.

Example ZeroKeyNeverValid : map_find (new_map CAP) 0 = Some kMapEmpty.
Proof. vm_compute. reflexivity. Qed.

End OrderMapTest.

(** ** test_sequence_tracker.cpp *)

Module SequenceTrackerTest.

Fixpoint advance_all (t : SequenceTracker) (l : list Z) : list bool * SequenceTracker :=
  match l with
  | [] => ([], t)
  | n :: l' => let '(ok, t1) := try_advance 0 t n in let '(oks, t2) := advance_all t1 l' in (ok :: oks, t2)
  end.

Example InOrder : let '(oks, t) := advance_all (tracker_init 0) [1; 2; 3] in
  oks = [true; true; true] /\ seq t = 3 /\ gap_count t = 0 /\ dup_count t = 0.
Proof. done. Qed.

Example GapDetected : let '(oks, t) := advance_all (tracker_init 0) [1; 5] in
  oks = [true; false] /\ gap_count t = 1 /\ last_gap_start t = 2 /\ last_gap_end t = 4.
Proof. done. Qed.

Example DuplicateIgnored : let '(oks, t) := advance_all (tracker_init 5) [6; 6; 3] in
  oks = [true; false; false] /\ dup_count t = 2 /\ gap_count t = 0.
Proof. done. Qed.

Example MultipleGaps : gap_count (snd (advance_all (tracker_init 0) [1; 10; 20])) = 2.
Proof. done. Qed.

End SequenceTrackerTest.

(** ** test_itch_parser.cpp *)

Module ItchParserTest.

Definition make_packet (msg : bytes) : bytes :=
  str "TESTSESS01" ++ be_enc 8 1 ++ be_enc 2 1 ++ be_enc 2 (Z.of_nat (length msg)) ++ msg.

Definition parsed (pkt : bytes) : option (bool * list ItchMsg) :=
  mold ← mold_parse pkt (Z.of_nat (length pkt)); ms ← parse 0 mold 10; Some (valid mold, ms).

(** The bytes of [WireAddOrder] and [WireOrderDelete] as the tests fill them. *)
Definition wire_add : bytes :=
  str "A" ++ be_enc 2 1 ++ be_enc 2 0 ++ be_enc 6 0 ++ be_enc 8 12345 ++ str "B" ++ be_enc 4 100 ++ str "AAPL    "
  ++ be_enc 4 1500000.
Definition wire_del : bytes := str "D" ++ be_enc 2 2 ++ be_enc 2 0 ++ be_enc 6 0 ++ be_enc 8 9999.

Example ParseAddOrder : exists stock mpid,
  parsed (make_packet wire_add) = Some (true, [mkMsg AddOrder 1 0 0 (add_order 12345 Buy 1500000 100 stock mpid)]).
Proof. eexists _, _. vm_compute. reflexivity. Qed.

Example ParseOrderDelete : parsed (make_packet wire_del) = Some (true, [mkMsg OrderDelete 2 0 0 (order_delete 9999)]).
Proof. vm_compute. reflexivity. Qed.

Example Heartbeat : let pkt := replicate 18 0 ++ [255; 255] in
  (mold ← mold_parse pkt 20; ms ← parse 0 mold 10; Some (valid mold, is_heartbeat (header mold), ms)) = Some (true, true, []).
Proof. vm_compute. reflexivity. Qed.

Example TruncatedMessage : (snd <$> parsed (make_packet (str "A" ++ [0; 1] ++ replicate 15 0))) = Some [].
Proof. vm_compute. reflexivity. Qed.

End ItchParserTest.

(** ** test_bbo_publisher.cpp, test_seqlock.cpp *)

Module QuoteTest.

Example PublishRead :
  (p ← publish_bbo (new_publisher 100) 5 (mkBbo 5 10000 100 10100 200 0); q ← read_bbo p 5;
   Some (bid_price q, bid_qty q, ask_price q, ask_qty q)) = Some (10000, 100, 10100, 200).
Proof. vm_compute. reflexivity. Qed.

Example OutOfBoundsSafe : bid_price <$> read_bbo (new_publisher 10) 99 = Some 0.
Proof. vm_compute. reflexivity. Qed.

Example SingleWriteRead : load_lock (store_lock (mkSeqLock 0 0) 42) = Some 42.
Proof. done. Qed.

(** A thousand stores, each read back. *)
Example MultipleWrites :
  snd (foldl (fun x i => let l := store_lock x.1 i in (l, x.2 && bool_decide (load_lock l = Some i)))
         (mkSeqLock 0 0, true) (seqZ 0 1000)) = true.
Proof. vm_compute. reflexivity. Qed.

End QuoteTest.

(** ** test_latency_histogram.cpp *)

Module HistogramTest.

(** The rank of the median of 100 samples is 50. *)
Example RecordAndPercentile :
  (h ← record_all hist_reset (replicate 50 100 ++ replicate 50 1000);
   Some (count_ h, percentile h 50 <=? 1000, max_ h)) = Some (100, true, 1000).
Proof. vm_compute. reflexivity. Qed.

Example LinearBuckets : (h ← record_all hist_reset (seqZ 0 256); Some (count_ h, max_ h)) = Some (256, 255).
Proof. vm_compute. reflexivity. Qed.

Example Reset : count_ hist_reset = 0 /\ max_ hist_reset = 0.
Proof. done. Qed.

End HistogramTest.

(** ** test_shard_router.cpp *)

Module ShardRouterTest.

(** Queues of 16 messages; the tests hold at most one. *)
Definition router : ShardRouter (Seq.SpscQueue ItchMsg) := new_router (Seq.init 16 ItchMsg0) 12.

Definition depths (m : ItchMsg) : option (list (option Z)) := '(_, r) ← route router m; Some (queue_depth r <$> shard_ids).

Example LocateToShardMapping : forallb (fun loc => shard_for_locate loc =? loc mod NUM_SHARDS) (seqZ 1 63) = true.
Proof. vm_compute. reflexivity. Qed.

Example RouteToCorrectShard :
  fst <$> route router (sample_msg AddOrder 5) = Some Ok
  /\ depths (sample_msg AddOrder 5) = Some ((fun s => Some (if decide (s = 5%nat) then 1 else 0)) <$> shard_ids).
Proof. vm_compute. done. Qed.

Example AdminMessageBroadcast : depths (sample_msg SystemEvent 1) = Some (replicate 8 (Some 1)).
Proof. vm_compute. reflexivity. Qed.

End ShardRouterTest.

(** ** test_spsc_queue.cpp *)

Module SpscQueueTest.
Import Seq.

Fixpoint push_all {A} (q : SpscQueue A) (l : list A) : list bool * SpscQueue A :=
  match l with
  | [] => ([], q)
  | x :: l' => let '(ok, q1) := push q x in let '(oks, q2) := push_all q1 l' in (ok :: oks, q2)
  end.

Fixpoint pop_many {A} (n : nat) (q : SpscQueue A) : list (option A) * SpscQueue A :=
  match n with
  | O => ([], q)
  | S n' => let '(x, q1) := pop q in let '(xs, q2) := pop_many n' q1 in (x :: xs, q2)
  end.

Example BasicPushPop : let '(oks, q) := push_all (init 16 0) [1; 2] in
  oks = [true; true] /\ fst (pop_many 3 q) = [Some 1; Some 2; None].
Proof. done. Qed.

Example FullCapacity : let '(oks, q) := push_all (init 4 0) [1; 2; 3; 4; 5] in
  oks = [true; true; true; true; false]
  /\ let '(x, q') := pop q in x = Some 1 /\ fst (push q' 5) = true.
Proof. vm_compute. done. Qed.

End SpscQueueTest.
